(** * ytdlp-go: a shallow embedding of [main.go]

    The package wraps the external [yt-dlp] binary: it builds argument
    vectors, runs the binary synchronously or as a stream with a start-up
    handshake on its diagnostic stream, decodes a small JSON record, and
    installs the binary from a release feed.

    Go strings are byte sequences and are modelled by [string] (a list of
    8-bit [ascii]); slices by [list]; [uint] by [Z] with its range written
    out; a Go [(value, error)] result by a pair of options; a run-time panic
    by the [Panic] outcome of [res], and a call that waits for ever by its
    [Blocked] outcome.  The operating system, the network and
    the external binary are a [Host] record of oracles, and the effects of
    the package (processes launched, pipes, file modes) are threaded through
    an explicit [Sys] state. *)

From Stdlib Require Import ZArith List String Ascii Bool Lia.
From stdpp Require Import base option list strings pretty gmap.
Import ListNotations.

Local Open Scope Z_scope.

(** ** Go values shared by the whole package *)

(** The outcome of running Go code: it returns, or the goroutine panics, or
    it waits for ever (for a value on a channel, or for data on a pipe that
    nothing writes to any more and nothing closes). *)
Inductive res (A : Type) : Type :=
| Ok (a : A)
| Panic (msg : string)
| Blocked.
Arguments Ok {A} a.
Arguments Panic {A} msg.
Arguments Blocked {A}.

Definition res_bind {A B} (r : res A) (k : A -> res B) : res B :=
  match r with
  | Ok a => k a
  | Panic msg => Panic msg
  | Blocked => Blocked
  end.

(** Values of Go's [error] interface that the package can produce or pass
    on.  The byte offsets that [encoding/json] stores in its error values
    are not modelled. *)
Inductive error : Type :=
| errorString (msg : string)
    (* errors.New(msg), also an error of os/exec, os or net/http with
       message msg *)
| SyntaxError (c : ascii) (context : string)
    (* json: invalid character c, then the context *)
| SyntaxErrorEnd
    (* json: unexpected end of JSON input *)
| UnmarshalTypeError (value : string) (field : string)
    (* json: cannot unmarshal value into the Go struct field (or into the
       struct itself when field is empty) *)
| io_EOF
| io_ErrUnexpectedEOF
| Wrapped (prefix : string) (cause : error) (suffix : string).
    (* errors.New(prefix + cause.Error() + suffix) *)

Definition dquote : ascii := "034".
Definition backslash : ascii := "\".
Definition newline : ascii := "010".

(** Byte code of a character, and back (the value is taken modulo 256 as
    byte(x) does). *)
Definition code (c : ascii) : Z := Z.of_N (N_of_ascii c).
Definition byte (z : Z) : ascii := ascii_of_N (Z.to_N (z mod 256)).

(** lo <= c && c <= hi on bytes. *)
Definition between (lo hi c : ascii) : bool :=
  (code lo <=? code c) && (code c <=? code hi).

(** s[n:], which panics when n exceeds len(s). *)
Fixpoint slice_from (n : nat) (s : string) : option string :=
  match n, s with
  | O, _ => Some s
  | S n', String _ s' => slice_from n' s'
  | S _, EmptyString => None
  end.

(** s[:n], which panics when n exceeds len(s). *)
Fixpoint slice_to (n : nat) (s : string) : option string :=
  match n, s with
  | O, _ => Some EmptyString
  | S n', String c s' => String c <$> slice_to n' s'
  | S _, EmptyString => None
  end.

(** s[a:b], which panics unless a <= b <= len(s). *)
Definition slice (a b : nat) (s : string) : option string :=
  if (a <=? b)%nat then s' ← slice_to b s; slice_from a s' else None.

(** The first n bytes of s (all of s when it is shorter) and the bytes
    after them: what copy(dst, s) takes for len(dst) = n and what it
    leaves, and s[:n] and s[n:] where n <= len(s). *)
Fixpoint first_bytes (n : nat) (s : string) : string :=
  match n, s with
  | S n', String c s' => String c (first_bytes n' s')
  | _, _ => EmptyString
  end.

Fixpoint skip_bytes (n : nat) (s : string) : string :=
  match n, s with
  | S n', String _ s' => skip_bytes n' s'
  | _, _ => s
  end.

(** strings.HasPrefix: len(s) >= len(prefix) && s[:len(prefix)] == prefix. *)
Definition strings_HasPrefix (s prefix : string) : bool :=
  (String.length prefix <=? String.length s)%nat
  && bool_decide (slice_to (String.length prefix) s = Some prefix).

(** slices.Insert(s, i, v...): panics when i is out of range. *)
Definition slices_Insert {A} (s : list A) (i : nat) (v : list A) : res (list A) :=
  if (i <=? length s)%nat then Ok (take i s ++ v ++ drop i s)
  else Panic "slice bounds out of range".

(** append(s, v...). *)
Definition append {A} (s : list A) (v : list A) : list A := s ++ v.

(** ** encoding/json: the byte scanner (scanner.go) *)

Module JSON.

Inductive opcode : Type :=
| scanContinue | scanBeginLiteral | scanBeginObject | scanObjectKey
| scanObjectValue | scanEndObject | scanBeginArray | scanArrayValue
| scanEndArray | scanSkipSpace | scanEnd | scanError.

#[global] Instance opcode_eq_dec : EqDecision opcode.
Proof. solve_decision. Defined.

Inductive parse_state : Type :=
| parseObjectKey | parseObjectValue | parseArrayValue.

(** The scanner's [step] field holds one of these state functions. *)
Inductive stepfn : Type :=
| st_BeginValueOrEmpty | st_BeginValue | st_BeginStringOrEmpty
| st_BeginString | st_EndValue | st_EndTop
| st_InString | st_InStringEsc | st_InStringEscU | st_InStringEscU1
| st_InStringEscU12 | st_InStringEscU123
| st_Neg | st_1 | st_0 | st_Dot | st_Dot0 | st_E | st_ESign | st_E0
| st_T | st_Tr | st_Tru | st_F | st_Fa | st_Fal | st_Fals
| st_N | st_Nu | st_Nul | st_Error.

(** [parseState] is a stack; its head is the innermost open value (the last
    element of the Go slice). *)
Record scanner : Type := mkScanner {
  step : stepfn;
  endTop : bool;
  parseState : list parse_state;
  err : option error
}.

Definition set_step (s : scanner) (f : stepfn) : scanner :=
  mkScanner f (endTop s) (parseState s) (err s).

Definition set_parseState (s : scanner) (ps : list parse_state) : scanner :=
  mkScanner (step s) (endTop s) ps (err s).

Definition maxNestingDepth : Z := 10000.

Definition reset (s : scanner) : scanner :=
  mkScanner st_BeginValue false [] None.

Definition scan_error (s : scanner) (c : ascii) (context : string)
  : scanner * opcode :=
  (mkScanner st_Error (endTop s) (parseState s) (Some (SyntaxError c context)),
   scanError).

Definition pushParseState (s : scanner) (c : ascii)
    (newParseState : parse_state) (successState : opcode) : scanner * opcode :=
  let s := set_parseState s (newParseState :: parseState s) in
  if Z.of_nat (length (parseState s)) <=? maxNestingDepth
  then (s, successState)
  else scan_error s c "exceeded max depth".

Definition popParseState (s : scanner) : scanner :=
  match parseState s with
  | [] => s (* not reached: callers pop a non-empty stack *)
  | _ :: ps =>
      match ps with
      | [] => mkScanner st_EndTop true ps (err s)
      | _ => mkScanner st_EndValue (endTop s) ps (err s)
      end
  end.

Definition isSpace (c : ascii) : bool :=
  (code c <=? 32)
  && (Ascii.eqb c " " || Ascii.eqb c "009" || Ascii.eqb c "013"
      || Ascii.eqb c "010").

Definition isDigit (c : ascii) : bool := between "0" "9" c.

Definition isHex (c : ascii) : bool :=
  between "0" "9" c || between "a" "f" c || between "A" "F" c.

Definition stateEndTop (s : scanner) (c : ascii) : scanner * opcode :=
  if negb (isSpace c)
  then (fst (scan_error s c "after top-level value"), scanEnd)
  else (s, scanEnd).

Definition stateEndValue (s : scanner) (c : ascii) : scanner * opcode :=
  match parseState s with
  | [] => stateEndTop (mkScanner st_EndTop true [] (err s)) c
  | ps :: rest =>
      if isSpace c then (set_step s st_EndValue, scanSkipSpace)
      else
        match ps with
        | parseObjectKey =>
            if Ascii.eqb c ":"
            then (mkScanner st_BeginValue (endTop s)
                    (parseObjectValue :: rest) (err s), scanObjectKey)
            else scan_error s c "after object key"
        | parseObjectValue =>
            if Ascii.eqb c ","
            then (mkScanner st_BeginString (endTop s)
                    (parseObjectKey :: rest) (err s), scanObjectValue)
            else if Ascii.eqb c "}"
            then (popParseState s, scanEndObject)
            else scan_error s c "after object key:value pair"
        | parseArrayValue =>
            if Ascii.eqb c ","
            then (set_step s st_BeginValue, scanArrayValue)
            else if Ascii.eqb c "]"
            then (popParseState s, scanEndArray)
            else scan_error s c "after array element"
        end
  end.

Definition stateBeginValue (s : scanner) (c : ascii) : scanner * opcode :=
  if isSpace c then (s, scanSkipSpace)
  else if Ascii.eqb c "{"
  then pushParseState (set_step s st_BeginStringOrEmpty) c
         parseObjectKey scanBeginObject
  else if Ascii.eqb c "["
  then pushParseState (set_step s st_BeginValueOrEmpty) c
         parseArrayValue scanBeginArray
  else if Ascii.eqb c dquote then (set_step s st_InString, scanBeginLiteral)
  else if Ascii.eqb c "-" then (set_step s st_Neg, scanBeginLiteral)
  else if Ascii.eqb c "0" then (set_step s st_0, scanBeginLiteral)
  else if Ascii.eqb c "t" then (set_step s st_T, scanBeginLiteral)
  else if Ascii.eqb c "f" then (set_step s st_F, scanBeginLiteral)
  else if Ascii.eqb c "n" then (set_step s st_N, scanBeginLiteral)
  else if between "1" "9" c then (set_step s st_1, scanBeginLiteral)
  else scan_error s c "looking for beginning of value".

Definition stateBeginValueOrEmpty (s : scanner) (c : ascii)
  : scanner * opcode :=
  if isSpace c then (s, scanSkipSpace)
  else if Ascii.eqb c "]" then stateEndValue s c
  else stateBeginValue s c.

Definition stateBeginString (s : scanner) (c : ascii) : scanner * opcode :=
  if isSpace c then (s, scanSkipSpace)
  else if Ascii.eqb c dquote then (set_step s st_InString, scanBeginLiteral)
  else scan_error s c "looking for beginning of object key string".

Definition stateBeginStringOrEmpty (s : scanner) (c : ascii)
  : scanner * opcode :=
  if isSpace c then (s, scanSkipSpace)
  else if Ascii.eqb c "}"
  then
    match parseState s with
    | [] => (s, scanError) (* not reached: the state is set inside an object *)
    | _ :: rest => stateEndValue (set_parseState s (parseObjectValue :: rest)) c
    end
  else stateBeginString s c.

Definition stateInString (s : scanner) (c : ascii) : scanner * opcode :=
  if Ascii.eqb c dquote then (set_step s st_EndValue, scanContinue)
  else if Ascii.eqb c backslash then (set_step s st_InStringEsc, scanContinue)
  else if code c <? 32 then scan_error s c "in string literal"
  else (s, scanContinue).

Definition stateInStringEsc (s : scanner) (c : ascii) : scanner * opcode :=
  if Ascii.eqb c "b" || Ascii.eqb c "f" || Ascii.eqb c "n" || Ascii.eqb c "r"
     || Ascii.eqb c "t" || Ascii.eqb c backslash || Ascii.eqb c "/"
     || Ascii.eqb c dquote
  then (set_step s st_InString, scanContinue)
  else if Ascii.eqb c "u" then (set_step s st_InStringEscU, scanContinue)
  else scan_error s c "in string escape code".

Definition stateHex (next : stepfn) (s : scanner) (c : ascii)
  : scanner * opcode :=
  if isHex c then (set_step s next, scanContinue)
  else scan_error s c "in \u hexadecimal character escape".

Definition state0 (s : scanner) (c : ascii) : scanner * opcode :=
  if Ascii.eqb c "." then (set_step s st_Dot, scanContinue)
  else if Ascii.eqb c "e" || Ascii.eqb c "E"
  then (set_step s st_E, scanContinue)
  else stateEndValue s c.

Definition state1 (s : scanner) (c : ascii) : scanner * opcode :=
  if isDigit c then (set_step s st_1, scanContinue) else state0 s c.

Definition stateNeg (s : scanner) (c : ascii) : scanner * opcode :=
  if Ascii.eqb c "0" then (set_step s st_0, scanContinue)
  else if between "1" "9" c then (set_step s st_1, scanContinue)
  else scan_error s c "in numeric literal".

Definition stateDot (s : scanner) (c : ascii) : scanner * opcode :=
  if isDigit c then (set_step s st_Dot0, scanContinue)
  else scan_error s c "after decimal point in numeric literal".

Definition stateDot0 (s : scanner) (c : ascii) : scanner * opcode :=
  if isDigit c then (s, scanContinue)
  else if Ascii.eqb c "e" || Ascii.eqb c "E"
  then (set_step s st_E, scanContinue)
  else stateEndValue s c.

Definition stateESign (s : scanner) (c : ascii) : scanner * opcode :=
  if isDigit c then (set_step s st_E0, scanContinue)
  else scan_error s c "in exponent of numeric literal".

Definition stateE (s : scanner) (c : ascii) : scanner * opcode :=
  if Ascii.eqb c "+" || Ascii.eqb c "-"
  then (set_step s st_ESign, scanContinue)
  else stateESign s c.

Definition stateE0 (s : scanner) (c : ascii) : scanner * opcode :=
  if isDigit c then (s, scanContinue) else stateEndValue s c.

(** The states inside the literals true, false and null: the expected
    letter moves on to [next]. *)
Definition stateLetter (expect : ascii) (next : stepfn) (context : string)
    (s : scanner) (c : ascii) : scanner * opcode :=
  if Ascii.eqb c expect then (set_step s next, scanContinue)
  else scan_error s c context.

(** s.step(s, c): dispatch on the state function stored in the scanner. *)
Definition scan_step (s : scanner) (c : ascii) : scanner * opcode :=
  match step s with
  | st_BeginValueOrEmpty => stateBeginValueOrEmpty s c
  | st_BeginValue => stateBeginValue s c
  | st_BeginStringOrEmpty => stateBeginStringOrEmpty s c
  | st_BeginString => stateBeginString s c
  | st_EndValue => stateEndValue s c
  | st_EndTop => stateEndTop s c
  | st_InString => stateInString s c
  | st_InStringEsc => stateInStringEsc s c
  | st_InStringEscU => stateHex st_InStringEscU1 s c
  | st_InStringEscU1 => stateHex st_InStringEscU12 s c
  | st_InStringEscU12 => stateHex st_InStringEscU123 s c
  | st_InStringEscU123 => stateHex st_InString s c
  | st_Neg => stateNeg s c
  | st_1 => state1 s c
  | st_0 => state0 s c
  | st_Dot => stateDot s c
  | st_Dot0 => stateDot0 s c
  | st_E => stateE s c
  | st_ESign => stateESign s c
  | st_E0 => stateE0 s c
  | st_T => stateLetter "r" st_Tr "in literal true (expecting 'r')" s c
  | st_Tr => stateLetter "u" st_Tru "in literal true (expecting 'u')" s c
  | st_Tru => stateLetter "e" st_EndValue "in literal true (expecting 'e')" s c
  | st_F => stateLetter "a" st_Fa "in literal false (expecting 'a')" s c
  | st_Fa => stateLetter "l" st_Fal "in literal false (expecting 'l')" s c
  | st_Fal => stateLetter "s" st_Fals "in literal false (expecting 's')" s c
  | st_Fals =>
      stateLetter "e" st_EndValue "in literal false (expecting 'e')" s c
  | st_N => stateLetter "u" st_Nu "in literal null (expecting 'u')" s c
  | st_Nu => stateLetter "l" st_Nul "in literal null (expecting 'l')" s c
  | st_Nul => stateLetter "l" st_EndValue "in literal null (expecting 'l')" s c
  | st_Error => (s, scanError)
  end.

(** s.eof(). *)
Definition eof (s : scanner) : scanner * opcode :=
  match err s with
  | Some _ => (s, scanError)
  | None =>
      if endTop s then (s, scanEnd)
      else
        let s := fst (scan_step s " ") in
        if endTop s then (s, scanEnd)
        else
          match err s with
          | None =>
              (mkScanner (step s) (endTop s) (parseState s)
                 (Some SyntaxErrorEnd), scanError)
          | Some _ => (s, scanError)
          end
  end.

(** ** unicode/utf8, unicode/utf16 and strconv, as far as decoding uses them *)

Definition RuneError : Z := 0xFFFD.
Definition MaxRune : Z := 0x10FFFF.

(** utf8.first: what a leading byte announces: an ASCII byte, an invalid
    leading byte, or a sequence of [size] bytes whose second byte lies in
    the accept range [lo..hi]. *)
Inductive first_info : Type :=
| f_as | f_xx | f_seq (size : nat) (lo hi : Z).

Definition first (p0 : Z) : first_info :=
  if p0 <? 0x80 then f_as
  else if p0 <? 0xC2 then f_xx
  else if p0 <? 0xE0 then f_seq 2 0x80 0xBF
  else if p0 =? 0xE0 then f_seq 3 0xA0 0xBF
  else if p0 <? 0xED then f_seq 3 0x80 0xBF
  else if p0 =? 0xED then f_seq 3 0x80 0x9F
  else if p0 <? 0xF0 then f_seq 3 0x80 0xBF
  else if p0 =? 0xF0 then f_seq 4 0x90 0xBF
  else if p0 <? 0xF4 then f_seq 4 0x80 0xBF
  else if p0 =? 0xF4 then f_seq 4 0x80 0x8F
  else f_xx.

(** A continuation byte outside [lo..hi]. *)
Definition outside (lo hi b : Z) : bool := (b <? lo) || (hi <? b).

(** utf8.DecodeRune: the first rune of p and its width in bytes. *)
Definition DecodeRune (p : string) : Z * nat :=
  match p with
  | EmptyString => (RuneError, 0%nat)
  | String c0 p1 =>
      let p0 := code c0 in
      match first p0 with
      | f_as => (p0, 1%nat)
      | f_xx => (RuneError, 1%nat)
      | f_seq sz lo hi =>
          if (String.length p <? sz)%nat then (RuneError, 1%nat)
          else
            match p1 with
            | EmptyString => (RuneError, 1%nat)
            | String c1 p2 =>
                let b1 := code c1 in
                if outside lo hi b1 then (RuneError, 1%nat)
                else if (sz <=? 2)%nat
                then (Z.lor (Z.shiftl (Z.land p0 0x1F) 6) (Z.land b1 0x3F),
                      2%nat)
                else
                  match p2 with
                  | EmptyString => (RuneError, 1%nat)
                  | String c2 p3 =>
                      let b2 := code c2 in
                      if outside 0x80 0xBF b2 then (RuneError, 1%nat)
                      else if (sz <=? 3)%nat
                      then (Z.lor (Z.lor (Z.shiftl (Z.land p0 0x0F) 12)
                                     (Z.shiftl (Z.land b1 0x3F) 6))
                              (Z.land b2 0x3F), 3%nat)
                      else
                        match p3 with
                        | EmptyString => (RuneError, 1%nat)
                        | String c3 _ =>
                            let b3 := code c3 in
                            if outside 0x80 0xBF b3 then (RuneError, 1%nat)
                            else
                              (Z.lor (Z.lor (Z.lor
                                 (Z.shiftl (Z.land p0 0x07) 18)
                                 (Z.shiftl (Z.land b1 0x3F) 12))
                                 (Z.shiftl (Z.land b2 0x3F) 6))
                                 (Z.land b3 0x3F), 4%nat)
                        end
                  end
            end
      end
  end.

Definition cont (r : Z) (shift : Z) : ascii :=
  byte (Z.lor 0x80 (Z.land (Z.shiftr r shift) 0x3F)).

Definition encode3 (r : Z) : string :=
  String (byte (Z.lor 0xE0 (Z.shiftr r 12)))
    (String (cont r 6) (String (cont r 0) EmptyString)).

(** utf8.EncodeRune: the bytes written for the rune r. *)
Definition EncodeRune (r : Z) : string :=
  if (0 <=? r) && (r <=? 0x7F) then String (byte r) EmptyString
  else if (0 <=? r) && (r <=? 0x7FF)
  then String (byte (Z.lor 0xC0 (Z.shiftr r 6)))
         (String (cont r 0) EmptyString)
  else if (r <? 0) || (MaxRune <? r) || ((0xD800 <=? r) && (r <=? 0xDFFF))
  then encode3 RuneError
  else if r <=? 0xFFFF then encode3 r
  else String (byte (Z.lor 0xF0 (Z.shiftr r 18)))
         (String (cont r 12) (String (cont r 6)
            (String (cont r 0) EmptyString))).

(** utf16.IsSurrogate and utf16.DecodeRune. *)
Definition IsSurrogate (r : Z) : bool := (0xD800 <=? r) && (r <? 0xE000).

Definition utf16_DecodeRune (r1 r2 : Z) : Z :=
  if (0xD800 <=? r1) && (r1 <? 0xDC00) && (0xDC00 <=? r2) && (r2 <? 0xE000)
  then Z.lor (Z.shiftl (r1 - 0xD800) 10) (r2 - 0xDC00) + 0x10000
  else RuneError.

Definition hexval (c : ascii) : option Z :=
  if between "0" "9" c then Some (code c - code "0")
  else if between "a" "f" c then Some (code c - code "a" + 10)
  else if between "A" "F" c then Some (code c - code "A" + 10)
  else None.

(** getu4: the rune of a leading \uXXXX escape, or -1. *)
Definition getu4 (s : string) : Z :=
  match s with
  | String b (String u (String h1 (String h2 (String h3 (String h4 _))))) =>
      if Ascii.eqb b backslash && Ascii.eqb u "u"
      then
        match hexval h1, hexval h2, hexval h3, hexval h4 with
        | Some a, Some b, Some c, Some d => ((a * 16 + b) * 16 + c) * 16 + d
        | _, _, _, _ => -1
        end
      else -1
  | _ => -1
  end.

(** One round of the loop of unquoteBytes at the head of the remaining
    input: the bytes it writes and how many input bytes it consumes, or
    None where unquoteBytes gives up. *)
Definition unquote_at (s : string) : option (string * nat) :=
  match s with
  | EmptyString => None
  | String c s' =>
      if Ascii.eqb c backslash
      then
        match s' with
        | EmptyString => None
        | String e _ =>
            let one (b : ascii) := Some (String b EmptyString, 2%nat) in
            if Ascii.eqb e dquote || Ascii.eqb e backslash
               || Ascii.eqb e "/" || Ascii.eqb e "'"
            then one e
            else if Ascii.eqb e "b" then one "008"%char
            else if Ascii.eqb e "f" then one "012"%char
            else if Ascii.eqb e "n" then one "010"%char
            else if Ascii.eqb e "r" then one "013"%char
            else if Ascii.eqb e "t" then one "009"%char
            else if Ascii.eqb e "u"
            then
              let rr := getu4 s in
              if rr <? 0 then None
              else if IsSurrogate rr
              then
                let rr1 := getu4 (default EmptyString (slice_from 6 s)) in
                let dec := utf16_DecodeRune rr rr1 in
                if negb (dec =? RuneError)
                then Some (EncodeRune dec, 12%nat)
                else Some (EncodeRune RuneError, 6%nat)
              else Some (EncodeRune rr, 6%nat)
            else None
        end
      else if Ascii.eqb c dquote || (code c <? 32) then None
      else if code c <? 0x80 then Some (String c EmptyString, 1%nat)
      else
        let '(rr, size) := DecodeRune s in
        Some (EncodeRune rr, size)
  end.

(** The loop of unquoteBytes.  [skip] counts the bytes that the current
    round has consumed beyond the one at the head.  (Go first copies the
    longest prefix that needs no rewriting; the loop below does the same
    to those bytes.) *)
Fixpoint unquote_loop (skip : nat) (s : string) : option string :=
  match s with
  | EmptyString => Some EmptyString
  | String _ s' =>
      match skip with
      | S k => unquote_loop k s'
      | O =>
          match unquote_at s with
          | None => None
          | Some (out, n) => String.append out <$> unquote_loop (Nat.pred n) s'
          end
      end
  end.

Definition last_byte (s : string) : option ascii :=
  String.get (Nat.pred (String.length s)) s.

(** unquoteBytes: the contents of a quoted JSON string literal. *)
Definition unquoteBytes (s : string) : option string :=
  match s with
  | String q body =>
      if (2 <=? String.length s)%nat && Ascii.eqb q dquote
         && bool_decide (last_byte s = Some dquote)
      then
        inner ← slice_to (Nat.pred (String.length body)) body;
        unquote_loop 0 inner
      else None
  | EmptyString => None
  end.

Definition maxUint64 : Z := 2 ^ 64 - 1.

(** strconv.ParseUint(s, 10, 64): the loop over the bytes of s with the
    accumulator n; None is a syntax or range error. *)
Fixpoint ParseUint_loop (s : string) (n : Z) : option Z :=
  match s with
  | EmptyString => Some n
  | String c s' =>
      if between "0" "9" c
      then
        let d := code c - code "0" in
        let cutoff := maxUint64 / 10 + 1 in
        if cutoff <=? n then None
        else
          let n := n * 10 in
          let n1 := (n + d) mod 2 ^ 64 in
          if (n1 <? n) || (maxUint64 <? n1) then None
          else ParseUint_loop s' n1
      else None
  end.

Definition ParseUint (s : string) : option Z :=
  match s with
  | EmptyString => None
  | _ => ParseUint_loop s 0
  end.

(** The size in bits of Go's uint on the platforms the package is built
    for. *)
Definition uintSize : Z := 64.

(** reflect.Value.OverflowUint for a uint target. *)
Definition OverflowUint (n : Z) : bool := negb (n mod 2 ^ uintSize =? n).

End JSON.

(** ** The data types of the package *)

Record GHDownloadData : Type := { TagName : string }.

Record YTDLPInstance : Type := { bPath : string }.

(** [Duration] is a Go uint: an integer in the range [0, 2^uintSize). *)
Record YTDLPVideoInfo : Type := mkVideoInfo {
  Id : string;
  Title : string;
  Thumbnail : string;
  Duration : Z
}.

(** new(YTDLPVideoInfo): the zero value. *)
Definition new_YTDLPVideoInfo : YTDLPVideoInfo :=
  mkVideoInfo EmptyString EmptyString EmptyString 0.

(** ** encoding/json: Decoder.Decode into a *YTDLPVideoInfo
    (stream.go and decode.go) *)

Module Decoder.
Import JSON.

Definition phasePanicMsg : string :=
  "JSON decoder out of sync - data changing underfoot?".

Definition indexPanicMsg : string := "index out of range".

Definition nonSpace (b : string) : bool :=
  existsb (fun c => negb (isSpace c)) (list_ascii_of_string b).

(** Decoder.readValue on a reader that delivers [buf] and then io.EOF:
    the scanner runs over the bytes from the state [s]; [scanp] counts the
    bytes consumed so far and [whole] is everything read.  The result is
    the length of the first value (with the white space before it). *)
Fixpoint readValue_from (s : scanner) (buf : string) (scanp : nat)
    (whole : string) : nat + error :=
  match buf with
  | EmptyString =>
      if bool_decide (snd (scan_step s " ") = scanEnd) then inl scanp
      else if nonSpace whole then inr io_ErrUnexpectedEOF
      else inr io_EOF
  | String c buf' =>
      let '(s1, op) := scan_step s c in
      match op with
      | scanEnd => inl scanp
      | scanEndObject | scanEndArray =>
          let '(s2, op2) := stateEndValue s1 " " in
          if bool_decide (op2 = scanEnd) then inl (S scanp)
          else readValue_from s2 buf' (S scanp) whole
      | scanError => inr (default SyntaxErrorEnd (err s1))
      | _ => readValue_from s1 buf' (S scanp) whole
      end
  end.

Definition readValue (input : string) : nat + error :=
  readValue_from (reset (mkScanner st_BeginValue false [] None)) input 0 input.

(** The decodeState of decode.go. *)
Record decodeState : Type := mkDecodeState {
  data : string;
  off : nat;
  opcode_ : opcode;
  scan : scanner
}.

Definition readIndex (d : decodeState) : nat := Nat.pred (off d).

(** The loop of scanWhile over data[i:]; at the end of the data the
    offset is len(data)+1 and the opcode is that of scan.eof(). *)
Fixpoint scanWhile_from (s : scanner) (rest : string) (i : nat) (op : opcode)
  : scanner * nat * opcode :=
  match rest with
  | EmptyString => let '(s', o) := eof s in (s', S i, o)
  | String c rest' =>
      let '(s', newOp) := scan_step s c in
      if bool_decide (newOp = op) then scanWhile_from s' rest' (S i) op
      else (s', S i, newOp)
  end.

Definition rest_of (d : decodeState) : string :=
  default EmptyString (slice_from (off d) (data d)).

Definition scanWhile (d : decodeState) (op : opcode) : decodeState :=
  let '(s, i, o) := scanWhile_from (scan d) (rest_of d) (off d) op in
  mkDecodeState (data d) i o s.

(** scanNext. *)
Definition scanNext (d : decodeState) : decodeState :=
  match rest_of d with
  | String c _ =>
      let '(s, o) := scan_step (scan d) c in
      mkDecodeState (data d) (S (off d)) o s
  | EmptyString =>
      let '(s, o) := eof (scan d) in
      mkDecodeState (data d) (S (String.length (data d))) o s
  end.

(** The loop of skip over data[i:]: it ends when the parse stack is
    shorter than [depth]; indexing past the data panics. *)
Fixpoint skip_from (s : scanner) (rest : string) (i : nat) (depth : nat)
  : res (scanner * nat * opcode) :=
  match rest with
  | EmptyString => Panic indexPanicMsg
  | String c rest' =>
      let '(s', op) := scan_step s c in
      if (length (parseState s') <? depth)%nat then Ok (s', S i, op)
      else skip_from s' rest' (S i) depth
  end.

Definition skip (d : decodeState) : res decodeState :=
  res_bind (skip_from (scan d) (rest_of d) (off d) (length (parseState (scan d))))
    (fun '(s, i, o) => Ok (mkDecodeState (data d) i o s)).

(** The two loops of rescanLiteral: the index after a string literal, and
    the index after a number literal. *)
Fixpoint rescan_string (rest : string) (i : nat) : nat :=
  match rest with
  | EmptyString => i
  | String c rest' =>
      if Ascii.eqb c backslash
      then
        match rest' with
        | EmptyString => S (S i)
        | String _ rest'' => rescan_string rest'' (S (S i))
        end
      else if Ascii.eqb c dquote then S i
      else rescan_string rest' (S i)
  end.

Definition isNumberByte (c : ascii) : bool :=
  isDigit c || Ascii.eqb c "." || Ascii.eqb c "e" || Ascii.eqb c "E"
  || Ascii.eqb c "+" || Ascii.eqb c "-".

Fixpoint rescan_number (rest : string) (i : nat) : nat :=
  match rest with
  | EmptyString => i
  | String c rest' => if isNumberByte c then rescan_number rest' (S i) else i
  end.

(** rescanLiteral: the first byte of the literal, data[off-1], has been
    read. *)
Definition rescanLiteral (d : decodeState) : res decodeState :=
  let i := off d in
  match String.get (Nat.pred i) (data d) with
  | None => Panic indexPanicMsg
  | Some c0 =>
      let i :=
        if Ascii.eqb c0 dquote then rescan_string (rest_of d) i
        else if isDigit c0 || Ascii.eqb c0 "-" then rescan_number (rest_of d) i
        else if Ascii.eqb c0 "t" then (i + 3)%nat
        else if Ascii.eqb c0 "f" then (i + 4)%nat
        else if Ascii.eqb c0 "n" then (i + 3)%nat
        else i in
      match String.get i (data d) with
      | Some c =>
          let '(s, o) := stateEndValue (scan d) c in
          Ok (mkDecodeState (data d) (S i) o s)
      | None => Ok (mkDecodeState (data d) (S i) scanEnd (scan d))
      end
  end.

(** What the decoder finds as the value of an object member: a literal
    with its bytes, or an object or an array, which it skips. *)
Inductive token : Type :=
| tokLiteral (item : string)
| tokObject
| tokArray.

(** The scanning done by decodeState.value: it consumes one value, of which
    the first byte has been read, and reads the following byte ahead. *)
Definition value_scan (d : decodeState) : res (token * decodeState) :=
  match opcode_ d with
  | scanBeginArray =>
      res_bind (skip d) (fun d' => Ok (tokArray, scanNext d'))
  | scanBeginObject =>
      res_bind (skip d) (fun d' => Ok (tokObject, scanNext d'))
  | scanBeginLiteral =>
      let start := readIndex d in
      res_bind (rescanLiteral d) (fun d' =>
        match slice start (readIndex d') (data d) with
        | Some item => Ok (tokLiteral item, d')
        | None => Panic "slice bounds out of range"
        end)
  | _ => Panic phasePanicMsg
  end.

Definition skipSpace (d : decodeState) : decodeState :=
  if bool_decide (opcode_ d = scanSkipSpace) then scanWhile d scanSkipSpace
  else d.

(** One round of the loop of decodeState.object, as far as it scans: the
    closing brace, or a member with its key, its value and whether the
    closing brace follows it. *)
Inductive member_step : Type :=
| EndOfObject (d : decodeState)
| Member (key : string) (tok : token) (last : bool) (d : decodeState).

Definition read_member (d : decodeState) : res member_step :=
  let d := scanWhile d scanSkipSpace in
  if bool_decide (opcode_ d = scanEndObject) then Ok (EndOfObject d)
  else if negb (bool_decide (opcode_ d = scanBeginLiteral))
  then Panic phasePanicMsg
  else
    let start := readIndex d in
    res_bind (rescanLiteral d) (fun d =>
      match slice start (readIndex d) (data d) with
      | None => Panic "slice bounds out of range"
      | Some item =>
          match unquoteBytes item with
          | None => Panic phasePanicMsg
          | Some key =>
              let d := skipSpace d in
              if negb (bool_decide (opcode_ d = scanObjectKey))
              then Panic phasePanicMsg
              else
                let d := scanWhile d scanSkipSpace in
                res_bind (value_scan d) (fun '(tok, d) =>
                  let d := skipSpace d in
                  if bool_decide (opcode_ d = scanEndObject)
                  then Ok (Member key tok true d)
                  else if negb (bool_decide (opcode_ d = scanObjectValue))
                  then Panic phasePanicMsg
                  else Ok (Member key tok false d))
          end
      end).

(** The loop of decodeState.object: the members of the object in the order
    of the input.  Every round consumes input, so [fuel] = len(data) rounds
    are enough. *)
Fixpoint object_members (fuel : nat) (d : decodeState)
  : res (list (string * token) * decodeState) :=
  match fuel with
  | O => Panic "unreachable: more members than bytes"
  | S fuel' =>
      res_bind (read_member d) (fun m =>
        match m with
        | EndOfObject d' => Ok ([], d')
        | Member key tok true d' => Ok ([(key, tok)], d')
        | Member key tok false d' =>
            res_bind (object_members fuel' d') (fun '(ms, d'') =>
              Ok ((key, tok) :: ms, d''))
        end)
  end.

(** The fields of the struct with their JSON names. *)
Inductive field : Type := fId | fTitle | fThumbnail | fDuration.

Definition field_name (f : field) : string :=
  match f with
  | fId => "id"
  | fTitle => "title"
  | fThumbnail => "thumbnail"
  | fDuration => "duration"
  end.

Definition toUpper (c : ascii) : ascii :=
  if between "a" "z" c then byte (code c - 32) else c.

(** foldName on the ASCII bytes of a name.  A rune of several bytes folds
    to itself, to another rune of several bytes, or (the Kelvin sign and
    the long s) to K or S; the field names hold neither letter, so a key
    with such a rune matches no field and the bytes are left as they are. *)
Definition foldName (s : string) : string :=
  string_of_list_ascii (map toUpper (list_ascii_of_string s)).

(** The field that a key selects: the exact name first, then the folded
    name. *)
Definition field_of_key (key : string) : option field :=
  let fields := [fId; fTitle; fThumbnail; fDuration] in
  match find (fun f => String.eqb (field_name f) key) fields with
  | Some f => Some f
  | None =>
      find (fun f => String.eqb (foldName (field_name f)) (foldName key)) fields
  end.

(** The target of the decoding: the struct being filled and the first
    error saved by saveError. *)
Record target : Type := mkTarget {
  vi : YTDLPVideoInfo;
  savedError : option error
}.

Definition saveError (t : target) (e : error) : target :=
  match savedError t with
  | None => mkTarget (vi t) (Some e)
  | Some _ => t
  end.

Definition set_string (f : field) (s : string) (v : YTDLPVideoInfo)
  : YTDLPVideoInfo :=
  match f with
  | fId => mkVideoInfo s (Title v) (Thumbnail v) (Duration v)
  | fTitle => mkVideoInfo (Id v) s (Thumbnail v) (Duration v)
  | fThumbnail => mkVideoInfo (Id v) (Title v) s (Duration v)
  | fDuration => v
  end.

Definition is_string_field (f : field) : bool :=
  match f with fDuration => false | _ => true end.

(** literalStore into the field [f]: a string field takes a string
    literal, the uint field a number literal that ParseUint accepts; null
    leaves the field as it is; everything else saves a type error. *)
Definition literalStore (item : string) (f : field) (t : target)
  : res target :=
  match item with
  | EmptyString =>
      Ok (saveError t (errorString "json: invalid use of ,string struct tag"))
  | String c _ =>
      if Ascii.eqb c "n" then Ok t
      else if Ascii.eqb c "t" || Ascii.eqb c "f"
      then Ok (saveError t (UnmarshalTypeError "bool" (field_name f)))
      else if Ascii.eqb c dquote
      then
        match unquoteBytes item with
        | None => Panic phasePanicMsg
        | Some s =>
            if is_string_field f
            then Ok (mkTarget (set_string f s (vi t)) (savedError t))
            else Ok (saveError t (UnmarshalTypeError "string" (field_name f)))
        end
      else if negb (Ascii.eqb c "-") && negb (isDigit c)
      then Panic phasePanicMsg
      else if is_string_field f
      then Ok (saveError t (UnmarshalTypeError "number" (field_name f)))
      else
        match ParseUint item with
        | Some n =>
            if OverflowUint n
            then Ok (saveError t
                       (UnmarshalTypeError ("number " +:+ item) (field_name f)))
            else Ok (mkTarget
                       (mkVideoInfo (Id (vi t)) (Title (vi t))
                          (Thumbnail (vi t)) n)
                       (savedError t))
        | None =>
            Ok (saveError t
                  (UnmarshalTypeError ("number " +:+ item) (field_name f)))
        end
  end.

(** What decodeState.object does with one member besides scanning it: a
    key that selects no field is ignored with its value; an object or an
    array cannot go into a string or uint field. *)
Definition store_member (t : target) (m : string * token) : res target :=
  match field_of_key (fst m) with
  | None => Ok t
  | Some f =>
      match snd m with
      | tokLiteral item => literalStore item f t
      | tokObject => Ok (saveError t (UnmarshalTypeError "object" (field_name f)))
      | tokArray => Ok (saveError t (UnmarshalTypeError "array" (field_name f)))
      end
  end.

Fixpoint store_members (t : target) (ms : list (string * token))
  : res target :=
  match ms with
  | [] => Ok t
  | m :: ms' => res_bind (store_member t m) (fun t' => store_members t' ms')
  end.

(** literalStore into the struct itself: only null is accepted. *)
Definition literalStore_top (item : string) (t : target) : res target :=
  match item with
  | EmptyString =>
      Ok (saveError t (errorString "json: invalid use of ,string struct tag"))
  | String c _ =>
      if Ascii.eqb c "n" then Ok t
      else if Ascii.eqb c "t" || Ascii.eqb c "f"
      then Ok (saveError t (UnmarshalTypeError "bool" EmptyString))
      else if Ascii.eqb c dquote
      then
        match unquoteBytes item with
        | None => Panic phasePanicMsg
        | Some _ => Ok (saveError t (UnmarshalTypeError "string" EmptyString))
        end
      else if negb (Ascii.eqb c "-") && negb (isDigit c)
      then Panic phasePanicMsg
      else Ok (saveError t (UnmarshalTypeError "number" EmptyString))
  end.

(** What the decoder finds as the value to decode: an array, which it
    skips, an object with its members, or a literal with its bytes. *)
Inductive top_value : Type :=
| topArray
| topObject (ms : list (string * token))
| topLiteral (item : string).

(** The scanning done by decodeState.unmarshal: white space, then the
    value. *)
Definition scan_value (value : string) : res top_value :=
  let d := mkDecodeState value 0 scanContinue
             (reset (mkScanner st_BeginValue false [] None)) in
  let d := scanWhile d scanSkipSpace in
  match opcode_ d with
  | scanBeginArray => res_bind (skip d) (fun _ => Ok topArray)
  | scanBeginObject =>
      res_bind (object_members (String.length value) d) (fun '(ms, _) =>
        Ok (topObject ms))
  | scanBeginLiteral =>
      let start := readIndex d in
      res_bind (rescanLiteral d) (fun d' =>
        match slice start (readIndex d') (data d) with
        | Some item => Ok (topLiteral item)
        | None => Panic "slice bounds out of range"
        end)
  | _ => Panic phasePanicMsg
  end.

(** What decodeState.unmarshal stores: an array cannot go into the struct,
    the members of an object go into its fields, a literal is null or a
    type error. *)
Definition store_value (tv : top_value) (t : target) : res target :=
  match tv with
  | topArray => Ok (saveError t (UnmarshalTypeError "array" EmptyString))
  | topObject ms => store_members t ms
  | topLiteral item => literalStore_top item t
  end.

(** decodeState.unmarshal(v) for v a *YTDLPVideoInfo pointing at [v0].
    The scan never reads the target, so the value is scanned first and
    stored afterwards, the members of an object in the order of the
    input. *)
Definition unmarshal (value : string) (v0 : YTDLPVideoInfo) : res target :=
  res_bind (scan_value value) (fun tv => store_value tv (mkTarget v0 None)).

(** json.NewDecoder(strings.NewReader(input)).Decode(v): the first call on
    a fresh decoder.  It returns the struct as left by the decoding and the
    error. *)
Definition Decode (input : string) (v0 : YTDLPVideoInfo)
  : res (YTDLPVideoInfo * option error) :=
  match readValue input with
  | inr e => Ok (v0, Some e)
  | inl n =>
      match slice_to n input with
      | None => Panic "slice bounds out of range"
      | Some value =>
          res_bind (unmarshal value v0) (fun t => Ok (vi t, savedError t))
      end
  end.

End Decoder.

(** Writes a JSON text with the apostrophe standing for the double quote. *)
Definition json (s : string) : string :=
  string_of_list_ascii
    (map (fun c => if Ascii.eqb c "'" then dquote else c)
       (list_ascii_of_string s)).

(** ** The host: external binary, network and file system *)

(** exec.Command(name, arg...): the binary and the argument vector that
    follows its name. *)
Record Cmd : Type := exec_Command { Path : string; Args : list string }.

(** What a run of the external binary does.  [stderr_chunks] and
    [stdout_chunks] are its diagnostic and its standard output as they
    reach the writers set as cmd.Stderr and cmd.Stdout: one string for each
    Write, in order.  Where a write ends is up to the binary and to the
    copying of os/exec, so a line may come in several writes and a write
    may hold several lines. *)
Record Proc : Type := {
  start_error : option error;
  exit_error : option error;
  combined : string;
  stderr_chunks : list string;
  stdout_chunks : list string
}.

(** The response to client.Get(url): the body that can be read and the
    error that ends the reading, if any. *)
Record Response : Type := { Body : string; BodyErr : option error }.

Record Host : Type := {
  binary : Cmd -> Proc;
  client_Get : string -> Response + error;
  (* json.NewDecoder(body).Decode(&d) for d a []GHDownloadData *)
  decode_releases : string -> list GHDownloadData + error;
  os_Create_error : string -> option error;
  os_Chmod_error : string -> option error;
  umask : Z
}.

(** A file: its fs.FileMode (a uint32) and its contents. *)
Record File : Type := { mode : Z; content : string }.

(** The state that the package changes: the commands it has run (oldest
    first), the io.Pipe()s it has made, each with the writes that wait at
    it for a reader (what is left of them, oldest first), and the files.
    Whether a write end has been closed is not recorded. *)
Record Sys : Type := mkSys {
  launched : list Cmd;
  pipes : list (list string);
  files : gmap string File
}.

Definition M (A : Type) : Type := Sys -> res A * Sys.

Definition ret {A} (a : A) : M A := fun sys => (Ok a, sys).

Definition bind {A B} (m : M A) (k : A -> M B) : M B :=
  fun sys =>
    match m sys with
    | (Ok a, sys') => k a sys'
    | (Panic msg, sys') => (Panic msg, sys')
    | (Blocked, sys') => (Blocked, sys')
    end.

Definition lift {A} (r : res A) : M A := fun sys => (r, sys).

Notation "'let*' x ':=' m 'in' k" := (bind m (fun x => k))
  (at level 10, x pattern, m at level 100, k at level 200).

(** The read end and the write end of the pipe with index [id]. *)
Inductive PipeReader : Type := pipeReader (id : nat).
Inductive PipeWriter : Type := pipeWriter (id : nat).

Definition io_Pipe : M (PipeReader * PipeWriter) := fun sys =>
  let id := length (pipes sys) in
  (Ok (pipeReader id, pipeWriter id),
   mkSys (launched sys) (pipes sys ++ [[]]) (files sys)).

Definition write_pipe (w : PipeWriter) (items : list string) (sys : Sys) : Sys :=
  let 'pipeWriter id := w in
  mkSys (launched sys)
    (alter (fun old => old ++ items) id (pipes sys)) (files sys).

Definition run_logged (cmd : Cmd) (sys : Sys) : Sys :=
  mkSys (launched sys ++ [cmd]) (pipes sys) (files sys).

(** fs.FileMode bits. *)
Definition ModePerm : Z := 0x1FF.
Definition ModeSetuid : Z := Z.shiftl 1 23.
Definition ModeSetgid : Z := Z.shiftl 1 22.
Definition ModeSticky : Z := Z.shiftl 1 20.

(** The bits that chmod can change; the type bits of a mode stay. *)
Definition chmodMask : Z :=
  Z.lor ModePerm (Z.lor ModeSetuid (Z.lor ModeSetgid ModeSticky)).

Definition uint32 (z : Z) : Z := z mod 2 ^ 32.

(** ** The package *)

Definition exeName : string := "yt-dlp".

Definition downloadPrefix : string := "[download]".
Definition errorPrefix : string := "ERROR: ".

(** ** io.Pipe and bufio.Scanner, as far as the handshake uses them *)

Module Bufio.

Definition len (s : string) : Z := Z.of_nat (String.length s).

(** The bytes that wait at a pipe. *)
Definition waiting (pending : list string) : nat :=
  foldr (fun w n => (String.length w + n)%nat) 0%nat pending.

(** (r *PipeReader).Read(b) with len(b) = [room], on the writes that wait
    at the pipe.  Without a write the reader waits; it is never told that
    the stream has ended, since the write end is not closed.  Otherwise it
    copies from the first write what fits in b, and that write stays for
    the bytes that are left of it. *)
Definition pipe_Read (room : Z) (pending : list string)
  : option (string * list string) :=
  match pending with
  | [] => None
  | w :: rest =>
      let nr := Z.to_nat (Z.min room (len w)) in    (* nr := copy(b, bw) *)
      let remains := skip_bytes nr w in
      Some (first_bytes nr w,
            if bool_decide (remains = EmptyString) then rest
            else remains :: rest)
  end.

(** bytes.IndexByte(s, c). *)
Fixpoint IndexByte (s : string) (c : ascii) : option nat :=
  match s with
  | EmptyString => None
  | String x s' => if Ascii.eqb x c then Some 0%nat else S <$> IndexByte s' c
  end.

Definition CR : ascii := "013".

(** dropCR drops a terminal \r from the data. *)
Fixpoint dropCR (data : string) : string :=
  match data with
  | EmptyString => EmptyString
  | String c EmptyString =>
      if Ascii.eqb c CR then EmptyString else String c EmptyString
  | String c rest => String c (dropCR rest)
  end.

(** bufio.ScanLines(data, atEOF): the bytes to advance by and the token,
    if there is one. *)
Definition ScanLines (data : string) (atEOF : bool) : Z * option string :=
  if atEOF && (len data =? 0) then (0, None)
  else
    match IndexByte data newline with
    | Some i =>
        (* We have a full newline-terminated line. *)
        (Z.of_nat i + 1, Some (dropCR (first_bytes i data)))
    | None =>
        if atEOF
        then (len data, Some (dropCR data))   (* a final, non-terminated line *)
        else (0, None)                        (* request more data *)
    end.

Definition startBufSize : Z := 4096.
Definition MaxScanTokenSize : Z := 64 * 1024.
Definition maxConsecutiveEmptyReads : nat := 100.
Definition maxInt : Z := 2 ^ 63 - 1.

Definition ErrTooLong : error := errorString "bufio.Scanner: token too long".
Definition ErrNegativeAdvance : error :=
  errorString "bufio.Scanner: SplitFunc returns negative advance count".
Definition ErrAdvanceTooFar : error :=
  errorString "bufio.Scanner: SplitFunc returns advance count beyond input".
Definition ErrNoProgress : error :=
  errorString "multiple Read calls return no data or error".

(** The fields of a Scanner that Scan works on: len(s.buf), s.start, the
    bytes s.buf[s.start:s.end] and s.err.  The split function is ScanLines
    and maxTokenSize is MaxScanTokenSize, as NewScanner sets them and as
    they stay without a call of Buffer or Split. *)
Record Scanner : Type := mkScanner {
  buf_len : Z;
  start : Z;
  held : string;
  err : option error
}.

(** s.end *)
Definition end_ (s : Scanner) : Z := start s + len (held s).

Definition NewScanner : Scanner :=
  {| buf_len := 0; start := 0; held := EmptyString; err := None |}.

Definition setErr (s : Scanner) (e : error) : Scanner :=
  match err s with
  | None => mkScanner (buf_len s) (start s) (held s) (Some e)
  | Some _ => s
  end.

(** s.advance(n): consumes n bytes of the buffer, or reports a bad n. *)
Definition advance (s : Scanner) (n : Z) : Scanner * bool :=
  if n <? 0 then (setErr s ErrNegativeAdvance, false)
  else if end_ s - start s <? n then (setErr s ErrAdvanceTooFar, false)
  else (mkScanner (buf_len s) (start s + n) (skip_bytes (Z.to_nat n) (held s))
          (err s),
        true).

(** What a call of Scan comes to. *)
Inductive scanned : Type :=
| Token (text : string) (s : Scanner) (pending : list string)
    (* Scan() = true, and s.Text() *)
| NoToken (s : Scanner) (pending : list string)
    (* Scan() = false *)
| Waits (s : Scanner)
    (* Read does not return: nothing waits at the pipe *)
| OutOfFuel.

(** The loop around Read at the end of Scan's loop: it reads into
    s.buf[s.end:len(s.buf)] until a Read gives data, and gives up with
    io.ErrNoProgress at the read after [tries] empty ones.  The pipe's Read
    returns no error. *)
Fixpoint read_loop (tries : nat) (s : Scanner) (pending : list string)
  : option (Scanner * list string) :=
  match pipe_Read (buf_len s - end_ s) pending with
  | None => None
  | Some (data, pending') =>
      let s' := mkScanner (buf_len s) (start s) (held s +:+ data) (err s) in
      if 0 <? len data then Some (s', pending')
      else
        match tries with
        | O => Some (setErr s' ErrNoProgress, pending')
        | S tries' => read_loop tries' s' pending'
        end
  end.

(** The first part of a round of Scan's loop: see if we can get a token
    with what we already have.  With ScanLines a token never comes without
    an advance, so the count of empty tokens stays at 0 and its panic is
    left out. *)
Definition try_token (s : Scanner) (pending : list string)
  : scanned + Scanner :=
  if (start s <? end_ s) || bool_decide (is_Some (err s))
  then
    let '(n, token) := ScanLines (held s) (bool_decide (is_Some (err s))) in
    let '(s1, ok) := advance s n in
    if negb ok then inl (NoToken s1 pending)
    else
      match token with
      | Some text => inl (Token text s1 pending)
      | None => inr s1
      end
  else inr s.

(** The part before the read: shift the data to the beginning of the
    buffer if there is lots of empty space or space is needed, and resize
    the buffer if it is full. *)
Definition make_room (s1 : Scanner) (pending : list string)
  : scanned + Scanner :=
  let s2 :=
    if (0 <? start s1)
       && ((end_ s1 =? buf_len s1) || (buf_len s1 / 2 <? start s1))
    then mkScanner (buf_len s1) 0 (held s1) (err s1)
    else s1 in
  if end_ s2 =? buf_len s2
  then
    if (MaxScanTokenSize <=? buf_len s2) || (maxInt / 2 <? buf_len s2)
    then inl (NoToken (setErr s2 ErrTooLong) pending)
    else
      let newSize := buf_len s2 * 2 in
      let newSize := if newSize =? 0 then startBufSize else newSize in
      let newSize := Z.min newSize MaxScanTokenSize in
      inr (mkScanner newSize 0 (held s2) (err s2))
  else inr s2.

(** Scan's loop [for { ... }].  A round that does not return reads from the
    pipe; [fuel] bounds the rounds. *)
Fixpoint Scan_loop (fuel : nat) (s : Scanner) (pending : list string)
  : scanned :=
  match fuel with
  | O => OutOfFuel
  | S fuel' =>
      match try_token s pending with
      | inl result => result
      | inr s1 =>
          if bool_decide (is_Some (err s1))
          then (* Shut it down. *)
            NoToken (mkScanner (buf_len s1) 0 EmptyString (err s1)) pending
          else
            match make_room s1 pending with
            | inl result => result
            | inr s3 =>
                (* Finally we can read some input. *)
                match read_loop maxConsecutiveEmptyReads s3 pending with
                | None => Waits s3
                | Some (s4, pending') => Scan_loop fuel' s4 pending'
                end
            end
      end
  end.

(** s.Scan() on the writes that wait at the reader's pipe.  Every round
    but the last two takes at least one byte from them. *)
Definition Scan (s : Scanner) (pending : list string) : scanned :=
  Scan_loop (S (S (waiting pending))) s pending.

End Bufio.

(** How the scan loop of the handshake goroutine is left. *)
Inductive loop_exit : Type :=
| LoopBreak                 (* a [download] line: break *)
| LoopEnd                   (* Scan() returned false *)
| LoopError (e : error)     (* an ERROR: line: send and return *)
| LoopPanic (msg : string)  (* the slice expression panicked *)
| LoopBlocked.              (* Scan() does not return *)

(** The loop [for stderrLineScanner.Scan() { ... }] on the writes that wait
    at the stderr pipe; the second component is what then waits at the
    pipe.  Every round takes at least one byte from the scanner's buffer
    and the pipe together; [fuel] bounds the rounds. *)
Fixpoint scan_stderr (fuel : nat) (s : Bufio.Scanner) (pending : list string)
  : loop_exit * list string :=
  match fuel with
  | O => (LoopPanic "unreachable: more lines than bytes", pending)
  | S fuel' =>
      match Bufio.Scan s pending with
      | Bufio.Token line s' pending' =>
          if strings_HasPrefix line downloadPrefix then (LoopBreak, pending')
          else if strings_HasPrefix line errorPrefix
          then
            match slice_from (String.length errorPrefix) line with
            | Some msg => (LoopError (errorString msg), pending')
            | None => (LoopPanic "slice bounds out of range", pending')
            end
          else scan_stderr fuel' s' pending'
      | Bufio.NoToken _ pending' => (LoopEnd, pending')
      | Bufio.Waits _ => (LoopBlocked, [])
      | Bufio.OutOfFuel =>
          (LoopPanic "unreachable: more reads than bytes", pending)
      end
  end.

(** io.Copy(io.Discard, r) on the writes that wait at r's pipe: it reads
    them all, and then waits for more. *)
Definition io_Copy_Discard (pending : list string) : list string := [].

(** The handshake goroutine (main.go:130-145): what it sends on ytErrCh, if
    it gets there; what waits at the stderr pipe at that moment; and what
    waits there once the goroutine has returned or waits for ever. *)
Record Goroutine : Type := {
  sent : res (option error);
  at_send : list string;
  at_rest : list string
}.

Definition handshake_task (pending : list string) : Goroutine :=
  match scan_stderr (S (Bufio.waiting pending)) Bufio.NewScanner pending with
  | (LoopError e, unread) =>
      (* ytErrCh <- errors.New(...); return *)
      {| sent := Ok (Some e); at_send := unread; at_rest := unread |}
  | (LoopPanic msg, unread) =>
      {| sent := Panic msg; at_send := unread; at_rest := unread |}
  | (LoopBlocked, unread) =>
      {| sent := Blocked; at_send := unread; at_rest := unread |}
  | (_, unread) =>
      (* ytErrCh <- nil, and then io.Copy(io.Discard, stderrRd) *)
      {| sent := Ok None; at_send := unread;
         at_rest := io_Copy_Discard unread |}
  end.

Section Package.
Context (host : Host).

Definition NewInstance (binPath : string) : option YTDLPInstance * option error :=
  if bool_decide (binPath = EmptyString)
  then (None, Some (errorString "invalid binary path"))
  else (Some {| bPath := binPath |}, None).

(** cmd.CombinedOutput(): runs the command to its end. *)
Definition CombinedOutput (cmd : Cmd) : M (string * option error) := fun sys =>
  let p := binary host cmd in
  match start_error p with
  | Some e => (Ok (EmptyString, Some e), run_logged cmd sys)
  | None => (Ok (combined p, exit_error p), run_logged cmd sys)
  end.

(** cmd.Start() with Stdout and Stderr set to the two pipe writers: a
    started process writes its output to them.  The writes are taken as
    given, all of them waiting at the pipes from the start: that a process
    may wait for a reader of one stream before it writes on to the other
    is not modelled. *)
Definition Start (cmd : Cmd) (stdout stderr : PipeWriter) : M (option error) :=
  fun sys =>
    let p := binary host cmd in
    match start_error p with
    | Some e => (Ok (Some e), run_logged cmd sys)
    | None =>
        (Ok None,
         write_pipe stderr (stderr_chunks p)
           (write_pipe stdout (stdout_chunks p) (run_logged cmd sys)))
    end.

Definition Execute (inst : YTDLPInstance) (url : string) (args : list string)
  : M (option error) :=
  if bool_decide (url = EmptyString)
  then ret (Some (errorString "empty url"))
  else
    let* args := lift (slices_Insert args 0 [url]) in
    let cmd := exec_Command (bPath inst) args in
    let* (out, err) := CombinedOutput cmd in
    match err with
    | Some e =>
        ret (Some (Wrapped ("yt-dlp error: " +:+ String newline EmptyString)
                     e (" | " +:+ out)))
    | None => ret None
    end.

Definition ExecuteStdout (inst : YTDLPInstance) (url : string)
    (args : list string) : M (option PipeReader * option error) :=
  if bool_decide (url = EmptyString)
  then ret (None, Some (errorString "empty url"))
  else
    let* args := lift (slices_Insert args 0 [url]) in
    let cmd := exec_Command (bPath inst) args in
    let* (pr, pw) := io_Pipe in
    let* err := Start cmd pw pw in
    match err with
    | Some e => ret (None, Some e)
    | None => ret (Some pr, None)
    end.

Definition DumpStdout (inst : YTDLPInstance) (url : string)
    (args : list string) : M (string * option error) :=
  if bool_decide (url = EmptyString)
  then ret (EmptyString, Some (errorString "empty url"))
  else
    let cmd := exec_Command (bPath inst) (append args [url]) in
    let* (out, err) := CombinedOutput cmd in
    ret (out, err).

Definition decodeVideoInfo (stdout : string)
  : res (option YTDLPVideoInfo * option error) :=
  res_bind (Decoder.Decode stdout new_YTDLPVideoInfo) (fun '(vi, err) =>
    match err with
    | Some e => Ok (None, Some e)
    | None => Ok (Some vi, None)
    end).

Definition GetVideoInfo (inst : YTDLPInstance) (query : string)
  : M (option YTDLPVideoInfo * option error) :=
  let args := append []
                ["ytsearch:" +:+ query; "-s"; "-O";
                 "%(.{id,title,thumbnail,duration})#j"] in
  let cmd := exec_Command (bPath inst) args in
  let* (out, err) := CombinedOutput cmd in
  match err with
  | Some e =>
      ret (None,
           Some (Wrapped ("yt-dlp error: " +:+ String newline EmptyString)
                   e (" | " +:+ out)))
  | None =>
      let* (vi, err) := lift (decodeVideoInfo out) in
      match err with
      | Some e =>
          ret (None,
               Some (Wrapped "failed to decode video info: " e EmptyString))
      | None => ret (vi, None)
      end
  end.

(** The handshake goroutine runs on the stderr pipe, and the caller waits
    in <-ytErrCh: it goes on with the value sent, in the state of that
    moment, or it waits for ever. *)
Definition handshake (stderrRd : PipeReader) : M (option error) := fun sys =>
  let 'pipeReader id := stderrRd in
  let g := handshake_task (default [] (pipes sys !! id)) in
  (sent g,
   mkSys (launched sys) (<[id := at_send g]> (pipes sys)) (files sys)).

(** The goroutine that waits for the process and then closes stdoutW
    (main.go:122-125) changes nothing that the state records; stderrW is
    closed nowhere. *)
Definition ExecuteStream (inst : YTDLPInstance) (url : string)
    (args : list string) : M (option PipeReader * option error) :=
  let* args := lift (slices_Insert args 0 [url]) in
  let args := append args ["-o"; "-"; "--newline"] in
  let cmd := exec_Command (bPath inst) args in
  let* (stdoutRd, stdoutW) := io_Pipe in
  let* (stderrRd, stderrW) := io_Pipe in
  let* err := Start cmd stdoutW stderrW in
  match err with
  | Some e => ret (None, Some e)
  | None =>
      let* v := handshake stderrRd in
      ret (Some stdoutRd, v)
  end.

(** GetGithubReleases: one GET, then the body decoded as a list of release
    descriptors. *)
Definition GetGithubReleases (page entries : Z)
  : M (list GHDownloadData * option error) :=
  let url := "https://api.github.com/repos/yt-dlp/yt-dlp/releases?page="
             +:+ pretty page +:+ "&per_page=" +:+ pretty entries in
  match client_Get host url with
  | inr e => ret ([], Some e)
  | inl r =>
      match decode_releases host (Body r) with
      | inr dErr => ret ([], Some dErr)
      | inl d => ret (d, None)
      end
  end.

(** os.Create(path): a new file gets the mode 0666 without the bits of the
    umask; an existing file is truncated and keeps its mode. *)
Definition os_Create (path : string) : M (option error) := fun sys =>
  match os_Create_error host path with
  | Some e => (Ok (Some e), sys)
  | None =>
      let m := match files sys !! path with
               | Some f => mode f
               | None => Z.ldiff 0x1B6 (umask host)
               end in
      (Ok None,
       mkSys (launched sys) (pipes sys)
         (<[path := {| mode := m; content := EmptyString |}]> (files sys)))
  end.

(** io.Copy(out, res.Body) into the file created at [path]. *)
Definition io_Copy_file (path : string) (r : Response) : M (option error) :=
  fun sys =>
    (Ok (BodyErr r),
     mkSys (launched sys) (pipes sys)
       (alter (fun f => {| mode := mode f; content := Body r |}) path
          (files sys))).

Definition downloadFile (path url : string) : M (option error) :=
  let* err := os_Create path in
  match err with
  | Some e => ret (Some e)
  | None =>
      match client_Get host url with
      | inr e => ret (Some e)
      | inl res =>
          let* err := io_Copy_file path res in
          match err with
          | Some e => ret (Some e)
          | None => ret None
          end
      end
  end.

(** os.Stat(fpath): the mode of the file, or an error when there is none. *)
Definition os_Stat (fpath : string) : M (Z + error) := fun sys =>
  match files sys !! fpath with
  | Some f => (Ok (inl (mode f)), sys)
  | None =>
      (Ok (inr (errorString
                  ("stat " +:+ fpath +:+ ": no such file or directory"))),
       sys)
  end.

(** os.Chmod(fpath, m): the permission, setuid, setgid and sticky bits of
    the file become those of m; its other bits stay. *)
Definition os_Chmod (fpath : string) (m : Z) : M (option error) := fun sys =>
  match os_Chmod_error host fpath, files sys !! fpath with
  | Some e, _ => (Ok (Some e), sys)
  | None, None =>
      (Ok (Some (errorString
                   ("chmod " +:+ fpath +:+ ": no such file or directory"))),
       sys)
  | None, Some f =>
      let m' := Z.lor (Z.ldiff (mode f) chmodMask) (Z.land (uint32 m) chmodMask) in
      (Ok None,
       mkSys (launched sys) (pipes sys)
         (<[fpath := {| mode := m'; content := content f |}]> (files sys)))
  end.

Definition setExecPermission (fpath : string) : M (option error) :=
  let* stat := os_Stat fpath in
  match stat with
  | inr e => ret (Some e)
  | inl m => os_Chmod fpath (Z.lor m 0x49 (* 0111 *))
  end.

Definition DownloadFromGithub (path version : string) : M (option error) :=
  let url := "https://github.com/yt-dlp/yt-dlp/releases/download/"
             +:+ version +:+ "/" +:+ exeName in
  let* err := downloadFile path url in
  match err with
  | Some e => ret (Some e)
  | None => setExecPermission path
  end.

Definition DownloadLatestFromGithub (path : string) : M (option error) :=
  let* (r, err) := GetGithubReleases 1 1 in
  match err with
  | Some e => ret (Some e)
  | None =>
      match r !! 0%nat with
      | None => lift (Panic "index out of range [0] with length 0")
      | Some d =>
          let v := TagName d in
          let* err := DownloadFromGithub path v in
          match err with
          | Some e =>
              ret (Some (Wrapped "failed to download bin from GitHub releases: "
                           e EmptyString))
          | None => ret None
          end
      end
  end.

End Package.

(** ** The argument slices in memory

    A variadic call f(url, args...) passes the caller's slice as it is,
    and ExecuteStream takes a slice: the runners work on the caller's
    backing array.  A slice is a window (offset, length, capacity) on a
    backing array of the heap. *)

Record GoSlice : Type := mkSlice {
  array : nat;
  offset : nat;
  len : nat;
  cap : nat
}.

Definition backing (h : list (list string)) (s : GoSlice) : list string :=
  default [] (h !! array s).

(** The elements of the slice: s[0], ..., s[len(s)-1]. *)
Definition elems (h : list (list string)) (s : GoSlice) : list string :=
  take (len s) (drop (offset s) (backing h s)).

(** s[:n], for n up to cap(s). *)
Definition reslice (s : GoSlice) (n : nat) : GoSlice :=
  mkSlice (array s) (offset s) n (cap s).

(** copy(s[i:], vs) for vs that fit: the elements of the backing array from
    offset+i on are overwritten. *)
Definition write (a : list string) (i : nat) (vs : list string) : list string :=
  take i a ++ vs ++ drop (i + length vs) a.

Definition store (h : list (list string)) (s : GoSlice) (i : nat) (vs : list string) : list (list string) :=
  alter (fun a => write a (offset s + i)%nat vs) (array s) h.

(** append(s, v...): in place when the capacity suffices, else into a new
    backing array whose capacity the run time chooses ([grow], at least
    what is needed). *)
Definition go_append (grow : nat -> nat -> nat) (h : list (list string))
    (s : GoSlice) (v : list string) : list (list string) * GoSlice :=
  let n := (len s + length v)%nat in
  if (n <=? cap s)%nat
  then (store h (reslice s n) (len s) v, reslice s n)
  else
    let c := grow (cap s) n in
    (h ++ [elems h s ++ v ++ replicate (c - n) EmptyString],
     mkSlice (length h) 0 n c).

(** slices.Insert(s, i, v...) where v shares no memory with s (it is the
    slice made for the variadic argument). *)
Definition go_Insert (grow : nat -> nat -> nat) (h : list (list string)) (s : GoSlice)
    (i : nat) (v : list string) : res (list (list string) * GoSlice) :=
  if (len s <? i)%nat then Panic "slice bounds out of range"
  else
    let m := length v in
    if (m =? 0)%nat then Ok (h, s)
    else
      let n := len s in
      if (i =? n)%nat then Ok (go_append grow h s v)
      else if (cap s <? n + m)%nat
      then
        (* s2 := append(s[:i], make(S, n+m-i)...); copy(s2[i:], v);
           copy(s2[i+m:], s[i:]) *)
        let '(h1, s2) :=
          go_append grow h (reslice s i) (replicate (n + m - i) EmptyString) in
        let h2 := store h1 s2 i v in
        let h3 := store h2 s2 (i + m) (drop i (elems h s)) in
        Ok (h3, s2)
      else
        (* s = s[:n+m]; copy(s[i+m:], s[i:]); copy(s[i:], v) *)
        let s' := reslice s (n + m) in
        let h1 := store h s' (i + m) (drop i (elems h s)) in
        let h2 := store h1 s' i v in
        Ok (h2, s').

(** What Execute and ExecuteStdout do to their argument slice (main.go,
    lines 47 and 60), what DumpStdout does (line 80), and what
    ExecuteStream does (lines 110 and 111): the heap afterwards and the
    slice that becomes the argument vector. *)
Definition Execute_args (grow : nat -> nat -> nat) (h : list (list string)) (args : GoSlice)
    (url : string) : res (list (list string) * GoSlice) :=
  go_Insert grow h args 0 [url].

Definition DumpStdout_args (grow : nat -> nat -> nat) (h : list (list string))
    (args : GoSlice) (url : string) : list (list string) * GoSlice :=
  go_append grow h args [url].

Definition ExecuteStream_args (grow : nat -> nat -> nat) (h : list (list string))
    (args : GoSlice) (url : string) : res (list (list string) * GoSlice) :=
  res_bind (go_Insert grow h args 0 [url]) (fun '(h1, args1) =>
    Ok (go_append grow h1 args1 ["-o"; "-"; "--newline"])).

(** A slice that lies within its backing array. *)
Definition well_formed (h : list (list string)) (s : GoSlice) : Prop :=
  (len s <= cap s)%nat
  /\ exists a, h !! array s = Some a /\ (offset s + cap s <= length a)%nat.

(** A growth policy of the run time: at least what is needed. *)
Definition grows (grow : nat -> nat -> nat) : Prop :=
  forall c n, (n <= grow c n)%nat.

(** Doubling, as long as that is enough. *)
Definition double (c n : nat) : nat := Nat.max (2 * c) n.

(** The caller's slice opts := make([]string, 0, 4); opts = append(opts,
    "-x", "-f", "best"): three elements, one spare. *)
Definition heap_opts : list (list string) := [["-x"; "-f"; "best"; EmptyString]].
Definition opts : GoSlice := mkSlice 0 0 3 4.

(** ** Fixtures: a host that answers every command alike, an empty system *)

(** A line with its newline. *)
Definition with_newline (l : string) : string :=
  l +:+ String newline EmptyString.

(** A process that starts, writes the given chunks to its diagnostic
    stream and ends. *)
Definition proc_chunks (writes : list string) : Proc :=
  {| start_error := None; exit_error := None; combined := EmptyString;
     stderr_chunks := writes; stdout_chunks := [] |}.

(** A process that starts, writes the given lines to its diagnostic
    stream, each with its newline in a write of its own, and ends. *)
Definition proc_stderr (lines : list string) : Proc :=
  {| start_error := None; exit_error := None; combined := EmptyString;
     stderr_chunks := map with_newline lines; stdout_chunks := [] |}.

Definition host_of (p : Proc) : Host :=
  {| binary := fun _ => p;
     client_Get := fun _ => inr (errorString "no network");
     decode_releases := fun _ => inl [];
     os_Create_error := fun _ => None;
     os_Chmod_error := fun _ => None;
     umask := 0x12 |}.

(** A host whose release feed answers with the empty JSON array. *)
Definition host_no_releases : Host :=
  {| binary := fun _ => proc_stderr [];
     client_Get := fun _ => inl {| Body := "[]"; BodyErr := None |};
     decode_releases := fun _ => inl [];
     os_Create_error := fun _ => None;
     os_Chmod_error := fun _ => None;
     umask := 0x12 |}.

Definition inst0 : YTDLPInstance := {| bPath := "/usr/bin/yt-dlp" |}.

Definition sys0 : Sys := mkSys [] [] ∅.

(** A system with one read-only file of mode 0444. *)
Definition sys_readonly : Sys :=
  mkSys [] []
    {[ "/opt/yt-dlp" := {| mode := 0x124; content := "#!/bin/sh" |} ]}.

(** A metadata object as the binary prints it. *)
Definition sample_object : string :=
  json "{'id':'x','title':'t','thumbnail':'u','duration':42}".

(** ** The vocabulary of the properties *)

Import JSON Decoder.

(** s begins with the literal prefix p. *)
Definition begins_with (p s : string) : Prop := exists r, s = p +:+ r.

(** A line that carries neither marker. *)
Definition no_marker (line : string) : Prop :=
  ~ begins_with downloadPrefix line /\ ~ begins_with errorPrefix line.

(** The states that the scanner can be in: the state functions that expect
    a key, or an element or the closing bracket, are set with the matching
    entry on top of the parse stack, and the top-level end state with an
    empty stack. *)
Definition wf (s : scanner) : Prop :=
  match step s with
  | st_EndTop => parseState s = []
  | st_BeginValueOrEmpty => head (parseState s) = Some parseArrayValue
  | st_BeginStringOrEmpty | st_BeginString =>
      head (parseState s) = Some parseObjectKey
  | _ => True
  end.

(** From the state [s] the scanner reads [rest] without an error and the
    value it is reading ends with the last byte of [rest], not before. *)
Fixpoint accepts (s : scanner) (rest : string) : Prop :=
  match rest with
  | EmptyString => snd (scan_step s " ") = scanEnd
  | String c rest' =>
      let '(s1, op) := scan_step s c in
      match op with
      | scanEnd | scanError => False
      | scanEndObject | scanEndArray =>
          match parseState s1 with
          | [] => rest' = EmptyString
          | _ => accepts s1 rest'
          end
      | _ => accepts s1 rest'
      end
  end.

(** [accepts] after one step that gave the state [s1] and the opcode
    [op]. *)
Definition continues (s1 : scanner) (op : opcode) (rest : string) : Prop :=
  match op with
  | scanEnd | scanError => False
  | scanEndObject | scanEndArray =>
      match parseState s1 with
      | [] => rest = EmptyString
      | _ => accepts s1 rest
      end
  | _ => accepts s1 rest
  end.

(** A state in which white space is skipped and changes nothing. *)
Definition space_stable (s : scanner) : Prop :=
  forall c, isSpace c = true -> scan_step s c = (s, scanSkipSpace).

(** The escapes of one letter, and the bytes that stand for themselves in
    a string literal. *)
Definition simple_esc (e : ascii) : bool :=
  Ascii.eqb e "b" || Ascii.eqb e "f" || Ascii.eqb e "n" || Ascii.eqb e "r"
  || Ascii.eqb e "t" || Ascii.eqb e backslash || Ascii.eqb e "/"
  || Ascii.eqb e dquote.

Definition plain (c : ascii) : bool :=
  negb (Ascii.eqb c dquote) && negb (Ascii.eqb c backslash)
  && negb (code c <? 32).

(** The contents of a string literal that the scanner accepts. *)
Inductive body_ok : string -> Prop :=
| body_nil : body_ok EmptyString
| body_char c b : plain c = true -> body_ok b -> body_ok (String c b)
| body_esc e b :
    simple_esc e = true -> body_ok b -> body_ok (String backslash (String e b))
| body_u h1 h2 h3 h4 b :
    isHex h1 = true -> isHex h2 = true -> isHex h3 = true -> isHex h4 = true ->
    body_ok b ->
    body_ok (String backslash (String "u"
               (String h1 (String h2 (String h3 (String h4 b)))))).

(** The state functions inside a number literal. *)
Definition num_state (f : stepfn) : bool :=
  match f with
  | st_Neg | st_1 | st_0 | st_Dot | st_Dot0 | st_E | st_ESign | st_E0 => true
  | _ => false
  end.

(** The byte c ends a value in the state [s] and [rest] is accepted after
    it. *)
Definition after (s : scanner) (c : ascii) (rest : string) : Prop :=
  continues (fst (stateEndValue s c)) (snd (stateEndValue s c)) rest.

(** What follows a complete literal: the end of the input at the top
    level, or a byte that ends the value. *)
Definition literal_end (s : scanner) (rest' : string) : Prop :=
  (rest' = EmptyString /\ parseState s = [])
  \/ exists c rest'', rest' = String c rest'' /\ after s c rest''.

(** The index that rescanLiteral computes for a literal that begins with
    the byte c0. *)
Definition rescan (c0 : ascii) (rest : string) (i : nat) : nat :=
  if Ascii.eqb c0 dquote then rescan_string rest i
  else if isDigit c0 || Ascii.eqb c0 "-" then rescan_number rest i
  else if Ascii.eqb c0 "t" then (i + 3)%nat
  else if Ascii.eqb c0 "f" then (i + 4)%nat
  else if Ascii.eqb c0 "n" then (i + 3)%nat
  else i.

(** A literal that literalStore takes without a panic. *)
Definition good_item (item : string) : Prop :=
  exists c lit,
    item = String c lit
    /\ (Ascii.eqb c dquote = true -> is_Some (unquoteBytes item))
    /\ (Ascii.eqb c dquote = true \/ Ascii.eqb c "n" = true
        \/ Ascii.eqb c "t" = true \/ Ascii.eqb c "f" = true
        \/ Ascii.eqb c "-" = true \/ isDigit c = true).

(** The decoder has read [pre] and [rest] remains. *)
Definition at_ (d : decodeState) (pre rest : string) : Prop :=
  data d = pre +:+ rest /\ off d = String.length pre.

(** The scanner stands before a key of the top-level object. *)
Definition key_pos (s : scanner) : Prop :=
  parseState s = [parseObjectKey]
  /\ (step s = st_BeginStringOrEmpty \/ step s = st_BeginString).

(** Values, members and top-level values whose literals literalStore
    takes without a panic. *)
Definition good_tok (tok : token) : Prop :=
  match tok with
  | tokLiteral item => good_item item
  | _ => True
  end.

Definition good_member (m : string * token) : Prop := good_tok (snd m).

Definition good_top (tv : top_value) : Prop :=
  match tv with
  | topArray => True
  | topObject ms => Forall good_member ms
  | topLiteral item => good_item item
  end.

(** The scanner after reset. *)
Definition scanner0 : scanner := reset (mkScanner st_BeginValue false [] None).

(** obj is one JSON object: the decoder reads it to its last byte as one
    value, and that value is an object. *)
Definition json_object (obj : string) : Prop :=
  readValue obj = inl (String.length obj)
  /\ exists ms, scan_value obj = Ok (topObject ms).

(** The members of the JSON object that the decoder reads from the input,
    if the first value of the input is an object. *)
Definition decoded_members (stdout : string) : option (list (string * token)) :=
  match readValue stdout with
  | inl n =>
      match slice_to n stdout with
      | Some value =>
          match scan_value value with
          | Ok (topObject ms) => Some ms
          | _ => None
          end
      | None => None
      end
  | inr _ => None
  end.

(** The values of a Go uint. *)
Definition uint_range (n : Z) : Prop := 0 <= n < 2 ^ uintSize.

(** The bytes of the writes, one after the other. *)
Definition bytes_of (writes : list string) : string :=
  foldr String.append EmptyString writes.

Definition nonempty (w : string) : Prop := w <> EmptyString.

(** What waits at a pipe is a tail of what waited there before. *)
Definition tail_of (after before : list string) : Prop :=
  exists read, bytes_of before = read +:+ bytes_of after.

(** A line that the scanner can yield: no newline in it, and fewer than
    64 KiB. *)
Definition scannable (l : string) : Prop :=
  Bufio.IndexByte l newline = None /\ Bufio.len l < Bufio.MaxScanTokenSize.

(** How the scan loop is left on a stream of bytes that is written and
    then stays open, read line by line: the first line that carries a
    marker decides, after lines without one; a line of 64 KiB or more ends
    the scanning; and at the end of the bytes the scanner waits. *)
Inductive stream_exit : string -> loop_exit -> Prop :=
| se_download (l rest : string) :
    scannable l -> begins_with downloadPrefix (Bufio.dropCR l) ->
    stream_exit (with_newline l +:+ rest) LoopBreak
| se_error (l msg rest : string) :
    scannable l -> Bufio.dropCR l = errorPrefix +:+ msg ->
    stream_exit (with_newline l +:+ rest) (LoopError (errorString msg))
| se_skip (l rest : string) (x : loop_exit) :
    scannable l -> no_marker (Bufio.dropCR l) -> stream_exit rest x ->
    stream_exit (with_newline l +:+ rest) x
| se_too_long (bytes : string) :
    Bufio.IndexByte
      (first_bytes (Z.to_nat Bufio.MaxScanTokenSize) bytes) newline = None ->
    Bufio.MaxScanTokenSize <= Bufio.len bytes ->
    stream_exit bytes LoopEnd
| se_wait (bytes : string) :
    Bufio.IndexByte bytes newline = None ->
    Bufio.len bytes < Bufio.MaxScanTokenSize ->
    stream_exit bytes LoopBlocked.

(** What the caller of the handshake gets for each way out of the loop. *)
Definition received (x : loop_exit) : res (option error) :=
  match x with
  | LoopBreak | LoopEnd => Ok None
  | LoopError e => Ok (Some e)
  | LoopPanic msg => Panic msg
  | LoopBlocked => Blocked
  end.

(** What the caller of ExecuteStream gets once the goroutine has sent or
    has come to a stop, with [n] the index of the stdout pipe. *)
Definition stream_result (n : nat) (sent : res (option error))
  : res (option PipeReader * option error) :=
  match sent with
  | Ok v => Ok (Some (pipeReader n), v)
  | Panic msg => Panic msg
  | Blocked => Blocked
  end.

(** A scanner between two calls of Scan: no error yet, and its indices
    within a buffer of at most 64 KiB. *)
Definition scanner_ok (s : Bufio.Scanner) : Prop :=
  Bufio.err s = None /\ 0 <= Bufio.start s
  /\ Bufio.end_ s <= Bufio.buf_len s
  /\ Bufio.buf_len s <= Bufio.MaxScanTokenSize.

(** ** The vocabulary of the further properties *)

(** What a runner may change: it adds at most one command to those run,
    it may make new pipes, and it leaves the files and the pipes that
    exist as they are. *)
Definition runs_at_most_one (sys sys' : Sys) : Prop :=
  files sys' = files sys
  /\ (exists new, pipes sys' = pipes sys ++ new)
  /\ exists cmds,
       launched sys' = launched sys ++ cmds /\ (length cmds <= 1)%nat.

(** What the installer may change: the file at [path], and nothing else. *)
Definition touches_only (path : string) (sys sys' : Sys) : Prop :=
  launched sys' = launched sys /\ pipes sys' = pipes sys
  /\ forall p, p <> path -> files sys' !! p = files sys !! p.

(** The address of the release listing that DownloadLatestFromGithub
    asks for. *)
Definition latest_release_url : string :=
  "https://api.github.com/repos/yt-dlp/yt-dlp/releases?page=1&per_page=1".

(** A host whose network serves the listing with the one release v1 and
    the binary of that release; every other request fails. *)
Definition host_release : Host :=
  {| binary := fun _ => proc_stderr [];
     client_Get := fun url =>
       if String.eqb url latest_release_url
       then inl {| Body := json "[{'tag_name':'v1'}]"; BodyErr := None |}
       else if String.eqb url
                 "https://github.com/yt-dlp/yt-dlp/releases/download/v1/yt-dlp"
       then inl {| Body := "#!/bin/sh v1"; BodyErr := None |}
       else inr (errorString "404 Not Found");
     decode_releases := fun _ => inl [{| TagName := "v1" |}];
     os_Create_error := fun _ => None;
     os_Chmod_error := fun _ => None;
     umask := 0x12 |}.

(** The JSON type of the value of a member, which literalStore reads off
    the first byte of a literal. *)
Inductive kind : Type :=
| kObject | kArray | kString | kNumber | kBool | kNull.

Definition kind_of (tok : token) : option kind :=
  match tok with
  | tokObject => Some kObject
  | tokArray => Some kArray
  | tokLiteral EmptyString => None
  | tokLiteral (String c _) =>
      if Ascii.eqb c dquote then Some kString
      else if Ascii.eqb c "n" then Some kNull
      else if Ascii.eqb c "t" || Ascii.eqb c "f" then Some kBool
      else if Ascii.eqb c "-" || isDigit c then Some kNumber
      else None
  end.

(** The JSON types that the Go type of a field takes: a string for the
    three string fields, a number for the uint field, and null for all. *)
Definition fits (k : kind) (f : field) : bool :=
  match k with
  | kNull => true
  | kString => is_string_field f
  | kNumber => negb (is_string_field f)
  | kObject | kArray | kBool => false
  end.

(** The bytes of s are all decimal digits, and the number they write,
    after digits that wrote [acc]. *)
Definition all_digits (s : string) : bool :=
  forallb isDigit (list_ascii_of_string s).

Definition decimal_from (acc : Z) (s : string) : Z :=
  fold_left (fun n c => 10 * n + (code c - code "0"))
    (list_ascii_of_string s) acc.

Definition decimal_value (s : string) : Z := decimal_from 0 s.

(** A byte that can begin a JSON value. *)
Definition begins_value (c : ascii) : bool :=
  Ascii.eqb c "{" || Ascii.eqb c "[" || Ascii.eqb c dquote
  || Ascii.eqb c "-" || isDigit c
  || Ascii.eqb c "t" || Ascii.eqb c "f" || Ascii.eqb c "n".

(** ** JSON texts of the form that the binary prints *)

(** A string literal whose contents need no escape. *)
Definition quote (s : string) : string :=
  String dquote (s +:+ String dquote EmptyString).

(** The bytes that a JSON encoder writes as they are and that
    unquoteBytes copies: ASCII from the space on, without the quote and
    the backslash. *)
Definition plain_ascii (c : ascii) : bool := plain c && (code c <? 0x80).

Definition plain_string (s : string) : bool :=
  forallb plain_ascii (list_ascii_of_string s).

(** An unsigned integer as JSON writes it: digits, without a leading
    zero. *)
Definition uint_form (ds : string) : bool :=
  match ds with
  | EmptyString => false
  | String c r =>
      all_digits ds && (negb (Ascii.eqb c "0") || String.eqb r EmptyString)
  end.

(** The values that the binary prints for the four fields: a string, an
    unsigned integer, or null for a field it does not know. *)
Inductive jvalue : Type :=
| jString (s : string)
| jUint (ds : string)
| jNull.

Definition render_value (v : jvalue) : string :=
  match v with
  | jString s => quote s
  | jUint ds => ds
  | jNull => "null"
  end.

Definition simple_value (v : jvalue) : bool :=
  match v with
  | jString s => plain_string s
  | jUint ds => uint_form ds
  | jNull => true
  end.

Definition simple_member (m : string * jvalue) : bool :=
  plain_string (fst m) && simple_value (snd m).

(** The white space that a JSON encoder puts after the opening brace,
    after a colon, after a comma and before the closing brace: all empty
    for a compact encoder, line breaks and indentation for a pretty
    printer. *)
Record layout : Type := {
  after_open : string;
  after_colon : string;
  after_comma : string;
  before_close : string
}.

Definition blank_layout (lo : layout) : bool :=
  negb (nonSpace (after_open lo)) && negb (nonSpace (after_colon lo))
  && negb (nonSpace (after_comma lo)) && negb (nonSpace (before_close lo)).

Definition render_member (lo : layout) (m : string * jvalue) : string :=
  quote (fst m) +:+ String ":" (after_colon lo +:+ render_value (snd m)).

(** What follows the value of a member: the other members, each after a
    comma, and the closing brace. *)
Fixpoint render_rest (lo : layout) (ms : list (string * jvalue)) : string :=
  match ms with
  | [] => before_close lo +:+ "}"
  | m :: ms' =>
      String "," (after_comma lo +:+ render_member lo m +:+ render_rest lo ms')
  end.

Definition render_object (lo : layout) (ms : list (string * jvalue)) : string :=
  String "{"
    (after_open lo
     +:+ match ms with
         | [] => before_close lo +:+ "}"
         | m :: ms' => render_member lo m +:+ render_rest lo ms'
         end).

(** What the decoder finds as the value of a rendered member. *)
Definition token_of (m : string * jvalue) : string * token :=
  (fst m, tokLiteral (render_value (snd m))).

(** The record as the binary prints it: the four fields under their JSON
    names, in the order of the output template. *)
Definition marshal (lo : layout) (v : YTDLPVideoInfo) : string :=
  render_object lo
    [("id", jString (Id v)); ("title", jString (Title v));
     ("thumbnail", jString (Thumbnail v)); ("duration", jUint (pretty (Duration v)))].

(** What a member of the right JSON type does to the record: it sets the
    field that its key selects; null and the members whose key selects no
    field change nothing. *)
Definition assign (v : YTDLPVideoInfo) (m : string * jvalue) : YTDLPVideoInfo :=
  match field_of_key (fst m), snd m with
  | Some fDuration, jUint ds =>
      mkVideoInfo (Id v) (Title v) (Thumbnail v) (decimal_value ds)
  | Some f, jString s => set_string f s v
  | _, _ => v
  end.

(** The JSON type of the value fits the field that the key selects, and a
    number fits into a uint. *)
Definition well_typed (m : string * jvalue) : bool :=
  match field_of_key (fst m), snd m with
  | None, _ => true
  | Some _, jNull => true
  | Some f, jString _ => is_string_field f
  | Some f, jUint ds =>
      negb (is_string_field f) && (decimal_value ds <=? maxUint64)
  end.

(** What can follow the value of a member: the scanner is at the end of a
    string or of null, or inside a number that the next byte ends. *)
Definition value_end (rest : string) : Prop :=
  forall st,
    st = st_EndValue \/ st = st_1 \/ st = st_0 ->
    accepts (mkScanner st false [parseObjectValue] None) rest.

(** The layout of a pretty printer that indents by four spaces. *)
Definition indented : layout :=
  {| after_open := String newline "    ";
     after_colon := " ";
     after_comma := String newline "    ";
     before_close := String newline EmptyString |}.

(** The layout of a compact encoder. *)
Definition compact : layout :=
  {| after_open := EmptyString; after_colon := EmptyString;
     after_comma := EmptyString; before_close := EmptyString |}.

(** * Properties *)

(** ** Slices and prefixes *)

Lemma length_append (p r : string) :
  String.length (p +:+ r) = (String.length p + String.length r)%nat.
Proof. induction p as [|c p IH]; simpl; [reflexivity | now rewrite IH]. Qed.

Lemma slice_to_append (p r : string) :
  slice_to (String.length p) (p +:+ r) = Some p.
Proof. induction p as [|c p IH]; simpl; [reflexivity | now rewrite IH]. Qed.

Lemma slice_from_append (p r : string) :
  slice_from (String.length p) (p +:+ r) = Some r.
Proof. induction p as [|c p IH]; simpl; [reflexivity | exact IH]. Qed.

Lemma slice_to_Some (n : nat) (s p : string) :
  slice_to n s = Some p -> exists r, s = p +:+ r /\ String.length p = n.
Proof.
  revert s p; induction n as [|n IH]; intros s p H.
  - simpl in H. destruct s; inversion H; subst; eexists; split; reflexivity.
  - destruct s as [|c s]; simpl in H; [discriminate |].
    destruct (slice_to n s) as [p'|] eqn:E; simpl in H; [| discriminate].
    inversion H; subst. destruct (IH _ _ E) as (r & -> & Hl).
    exists r. simpl. now rewrite Hl.
Qed.

Lemma HasPrefix_true (s p : string) :
  strings_HasPrefix s p = true <-> begins_with p s.
Proof.
  unfold strings_HasPrefix, begins_with. split.
  - intros H. apply andb_true_iff in H as [_ H].
    apply bool_decide_eq_true in H.
    destruct (slice_to_Some _ _ _ H) as (r & -> & _). now exists r.
  - intros [r ->]. apply andb_true_iff. split.
    + apply Nat.leb_le. rewrite length_append. lia.
    + apply bool_decide_eq_true, slice_to_append.
Qed.

Lemma HasPrefix_false (s p : string) :
  strings_HasPrefix s p = false <-> ~ begins_with p s.
Proof.
  rewrite <- HasPrefix_true. destruct (strings_HasPrefix s p); split; intros H;
    try discriminate; try reflexivity; try (intros H'; discriminate).
  now destruct H.
Qed.

Lemma append_cons (x : ascii) (a b : string) :
  String x a +:+ b = String x (a +:+ b).
Proof. reflexivity. Qed.

Lemma append_assoc (a b c : string) : (a +:+ b) +:+ c = a +:+ (b +:+ c).
Proof.
  induction a as [|x a IH]; [reflexivity |]. rewrite !append_cons. now rewrite IH.
Qed.

Lemma append_nil_r (s : string) : s +:+ EmptyString = s.
Proof. induction s as [|c s IH]; [reflexivity |]. rewrite append_cons. now rewrite IH. Qed.

Lemma append_nil_l (s : string) : EmptyString +:+ s = s.
Proof. reflexivity. Qed.

(** ** The handshake of the streaming launch *)

(** *** Bytes and writes *)

Lemma first_skip_bytes (n : nat) (s : string) :
  first_bytes n s +:+ skip_bytes n s = s.
Proof.
  revert s; induction n as [|n IH]; intros [|c s]; cbn [first_bytes skip_bytes];
    try reflexivity.
  rewrite append_cons. now rewrite IH.
Qed.

Lemma length_first_bytes (n : nat) (s : string) :
  String.length (first_bytes n s) = Nat.min n (String.length s).
Proof.
  revert s; induction n as [|n IH]; intros [|c s]; simpl; try reflexivity.
  now rewrite IH.
Qed.

Lemma length_skip_bytes (n : nat) (s : string) :
  String.length (skip_bytes n s) = (String.length s - n)%nat.
Proof.
  revert s; induction n as [|n IH]; intros [|c s]; simpl; try reflexivity.
  now rewrite IH.
Qed.

Lemma length_0_empty (s : string) : String.length s = 0%nat -> s = EmptyString.
Proof. now destruct s. Qed.

Lemma first_bytes_append (a b : string) :
  first_bytes (String.length a) (a +:+ b) = a.
Proof.
  induction a as [|c a IH]; [now destruct b |].
  rewrite append_cons. cbn [String.length first_bytes]. now rewrite IH.
Qed.

Lemma skip_bytes_append (a b : string) :
  skip_bytes (String.length a) (a +:+ b) = b.
Proof.
  induction a as [|c a IH]; [now destruct b |].
  rewrite append_cons. cbn [String.length skip_bytes]. exact IH.
Qed.

Lemma first_bytes_within (n : nat) (a b : string) :
  (n <= String.length a)%nat -> first_bytes n (a +:+ b) = first_bytes n a.
Proof.
  revert a; induction n as [|n IH]; intros [|c a] H; cbn [String.length] in H;
    try lia.
  - now destruct b.
  - reflexivity.
  - rewrite append_cons. cbn [first_bytes]. rewrite IH by lia. reflexivity.
Qed.

Lemma skip_bytes_within (n : nat) (a b : string) :
  (n <= String.length a)%nat ->
  skip_bytes n (a +:+ b) = skip_bytes n a +:+ b.
Proof.
  revert a; induction n as [|n IH]; intros [|c a] H; cbn [String.length] in H;
    try lia.
  - now destruct b.
  - reflexivity.
  - rewrite append_cons. cbn [skip_bytes]. apply IH. lia.
Qed.

Lemma skip_bytes_all (n : nat) (s : string) :
  (String.length s <= n)%nat -> skip_bytes n s = EmptyString.
Proof.
  intros H. apply length_0_empty. rewrite length_skip_bytes. lia.
Qed.

Lemma first_bytes_all (n : nat) (s : string) :
  (String.length s <= n)%nat -> first_bytes n s = s.
Proof.
  intros H. rewrite <- (first_skip_bytes n s) at 2.
  now rewrite skip_bytes_all, append_nil_r.
Qed.

Lemma IndexByte_Some (s : string) (c : ascii) (i : nat) :
  Bufio.IndexByte s c = Some i ->
  (i < String.length s)%nat
  /\ Bufio.IndexByte (first_bytes i s) c = None
  /\ s = first_bytes i s +:+ String c (skip_bytes (S i) s).
Proof.
  revert i; induction s as [|x s IH]; intros i H; cbn [Bufio.IndexByte] in H;
    [discriminate |].
  destruct (Ascii.eqb x c) eqn:E.
  - apply Ascii.eqb_eq in E as ->. injection H as <-.
    cbn [String.length first_bytes skip_bytes Bufio.IndexByte].
    repeat split; lia.
  - destruct (Bufio.IndexByte s c) as [j|] eqn:Ej; cbn in H; [| discriminate].
    injection H as <-. destruct (IH j eq_refl) as (Hl & Hn & Hs).
    cbn [String.length first_bytes skip_bytes Bufio.IndexByte].
    rewrite E, Hn. repeat split; [lia |].
    rewrite append_cons. f_equal. exact Hs.
Qed.

Lemma IndexByte_append_Some (a b : string) (c : ascii) (i : nat) :
  Bufio.IndexByte a c = Some i -> Bufio.IndexByte (a +:+ b) c = Some i.
Proof.
  revert i; induction a as [|x a IH]; intros i H; cbn [Bufio.IndexByte] in *;
    [discriminate |].
  rewrite append_cons. cbn [Bufio.IndexByte].
  destruct (Ascii.eqb x c); [exact H |].
  destruct (Bufio.IndexByte a c) as [j|]; cbn in H; [| discriminate].
  now rewrite (IH j eq_refl).
Qed.

Lemma IndexByte_append_None (a b : string) (c : ascii) :
  Bufio.IndexByte a c = None ->
  Bufio.IndexByte (a +:+ b) c
  = (fun j => (String.length a + j)%nat) <$> Bufio.IndexByte b c.
Proof.
  induction a as [|x a IH]; intros H; cbn [Bufio.IndexByte] in H.
  - rewrite append_nil_l. now destruct (Bufio.IndexByte b c).
  - rewrite append_cons. cbn [Bufio.IndexByte String.length].
    destruct (Ascii.eqb x c); [discriminate |].
    destruct (Bufio.IndexByte a c) as [j|]; cbn in H; [discriminate |].
    rewrite IH by reflexivity. now destruct (Bufio.IndexByte b c).
Qed.

Lemma IndexByte_line (l rest : string) :
  Bufio.IndexByte l newline = None ->
  Bufio.IndexByte (with_newline l +:+ rest) newline = Some (String.length l).
Proof.
  intros H. unfold with_newline. rewrite append_assoc.
  rewrite IndexByte_append_None by exact H. rewrite append_cons.
  cbn [Bufio.IndexByte]. change (Ascii.eqb newline newline) with true.
  cbn. f_equal. lia.
Qed.

Lemma IndexByte_first_bytes (s : string) (c : ascii) (i n : nat) :
  Bufio.IndexByte s c = Some i -> (i < n)%nat ->
  Bufio.IndexByte (first_bytes n s) c = Some i.
Proof.
  revert i n; induction s as [|x s IH]; intros i n H Hin;
    cbn [Bufio.IndexByte] in H; [discriminate |].
  destruct n as [|n]; [lia |]. cbn [first_bytes Bufio.IndexByte].
  destruct (Ascii.eqb x c); [exact H |].
  destruct (Bufio.IndexByte s c) as [j|]; cbn in H; [| discriminate].
  injection H as <-. rewrite (IH j n eq_refl) by lia. reflexivity.
Qed.

Lemma IndexByte_None_first (s : string) (c : ascii) (n : nat) :
  Bufio.IndexByte s c = None -> Bufio.IndexByte (first_bytes n s) c = None.
Proof.
  revert n; induction s as [|x s IH]; intros n H; [now destruct n |].
  cbn [Bufio.IndexByte] in H. destruct n as [|n]; [reflexivity |].
  cbn [first_bytes Bufio.IndexByte].
  destruct (Ascii.eqb x c); [discriminate |].
  destruct (Bufio.IndexByte s c) as [j|] eqn:E; cbn in H; [discriminate |].
  now rewrite IH.
Qed.

Lemma len_append (a b : string) :
  Bufio.len (a +:+ b) = Bufio.len a + Bufio.len b.
Proof. unfold Bufio.len. rewrite length_append. lia. Qed.

Lemma len_nonneg (s : string) : 0 <= Bufio.len s.
Proof. unfold Bufio.len. lia. Qed.

Lemma length_bytes_of (ws : list string) :
  String.length (bytes_of ws) = Bufio.waiting ws.
Proof.
  induction ws as [|w ws IH]; [reflexivity |].
  cbn [bytes_of Bufio.waiting foldr]. rewrite length_append.
  fold (bytes_of ws). fold (Bufio.waiting ws). now rewrite IH.
Qed.

Lemma tail_of_refl (ws : list string) : tail_of ws ws.
Proof. now exists EmptyString. Qed.

Lemma tail_of_trans (a b c : list string) :
  tail_of a b -> tail_of b c -> tail_of a c.
Proof.
  intros [r1 H1] [r2 H2]. exists (r2 +:+ r1).
  now rewrite H2, H1, append_assoc.
Qed.

Lemma tail_of_nil (ws : list string) : tail_of [] ws.
Proof. exists (bytes_of ws). now rewrite append_nil_r. Qed.

(** *** Reading from the pipe *)

Lemma pipe_Read_Some (room : Z) (ws : list string) (data : string)
    (ws' : list string) :
  Bufio.pipe_Read room ws = Some (data, ws') ->
  bytes_of ws = data +:+ bytes_of ws'
  /\ (Bufio.waiting ws' + String.length data = Bufio.waiting ws)%nat
  /\ Bufio.len data <= Z.max room 0
  /\ (Forall nonempty ws -> Forall nonempty ws')
  /\ (Forall nonempty ws -> 0 < room -> 0 < Bufio.len data).
Proof.
  destruct ws as [|w ws]; [discriminate |]. cbn [Bufio.pipe_Read]. cbv zeta.
  intros [= <- <-].
  set (nr := Z.to_nat (Z.min room (Bufio.len w))).
  assert (Hnr : (nr <= String.length w)%nat) by (unfold nr, Bufio.len; lia).
  assert (Hw : bytes_of (w :: ws) = w +:+ bytes_of ws) by reflexivity.
  assert (Hwait : Bufio.waiting (w :: ws)
                  = (String.length w + Bufio.waiting ws)%nat) by reflexivity.
  assert (Hlen : String.length (first_bytes nr w) = nr).
  { rewrite length_first_bytes. lia. }
  rewrite Hw, Hwait.
  repeat split.
  - case_bool_decide as E.
    + rewrite <- (first_skip_bytes nr w) at 1. now rewrite E, append_nil_r.
    + change (bytes_of (skip_bytes nr w :: ws))
        with (skip_bytes nr w +:+ bytes_of ws).
      now rewrite <- append_assoc, first_skip_bytes.
  - case_bool_decide as E.
    + apply (f_equal String.length) in E. rewrite length_skip_bytes in E.
      cbn [String.length] in E. lia.
    + change (Bufio.waiting (skip_bytes nr w :: ws))
        with (String.length (skip_bytes nr w) + Bufio.waiting ws)%nat.
      rewrite length_skip_bytes. lia.
  - unfold Bufio.len at 1. rewrite Hlen. unfold nr, Bufio.len. lia.
  - intros Hne. apply Forall_cons in Hne as [Hw1 Hne].
    case_bool_decide as E; [exact Hne |]. now constructor.
  - intros Hne Hroom. apply Forall_cons in Hne as [Hw1 _].
    unfold Bufio.len at 1. rewrite Hlen.
    assert (String.length w <> 0%nat).
    { intros H0. now apply Hw1, length_0_empty. }
    unfold nr, Bufio.len. lia.
Qed.

(** What a round of reading gives: the same bytes, moved from the pipe to
    the buffer; and either data with the error as it was, or an error
    set. *)
Lemma read_loop_Some (tries : nat) (s : Bufio.Scanner) (ws : list string)
    (s' : Bufio.Scanner) (ws' : list string) :
  Bufio.read_loop tries s ws = Some (s', ws') ->
  Bufio.buf_len s' = Bufio.buf_len s /\ Bufio.start s' = Bufio.start s
  /\ Bufio.held s +:+ bytes_of ws = Bufio.held s' +:+ bytes_of ws'
  /\ (String.length (Bufio.held s') + Bufio.waiting ws'
      = String.length (Bufio.held s) + Bufio.waiting ws)%nat
  /\ ((Bufio.err s' = Bufio.err s /\ (Bufio.waiting ws' < Bufio.waiting ws)%nat)
      \/ (is_Some (Bufio.err s')
          /\ (Bufio.waiting ws' <= Bufio.waiting ws)%nat)).
Proof.
  revert s ws; induction tries as [|tries IH]; intros s ws;
    cbn [Bufio.read_loop];
    destruct (Bufio.pipe_Read _ ws) as [[data ws1]|] eqn:E; try discriminate;
    destruct (pipe_Read_Some _ _ _ _ E) as (Hb & Hw & _); cbv zeta;
    destruct (0 <? Bufio.len data) eqn:Hpos.
  - intros [= <- <-]. cbn. rewrite Hb, append_assoc, length_append.
    repeat split; try lia. left. split; [reflexivity |].
    apply Z.ltb_lt in Hpos. unfold Bufio.len in Hpos. lia.
  - intros [= <- <-]. rewrite Hb.
    unfold Bufio.setErr. cbn [Bufio.err].
    destruct (Bufio.err s) eqn:Ee; cbn; rewrite append_assoc, length_append;
      repeat split; try lia; right; (split; [now eexists | lia]).
  - intros [= <- <-]. cbn. rewrite Hb, append_assoc, length_append.
    repeat split; try lia. left. split; [reflexivity |].
    apply Z.ltb_lt in Hpos. unfold Bufio.len in Hpos. lia.
  - intros H. apply IH in H as (H1 & H2 & H3 & H4 & H5).
    cbn [Bufio.buf_len Bufio.start Bufio.held Bufio.err] in *.
    rewrite Hb. rewrite append_assoc in H3. rewrite length_append in H4.
    repeat split; try assumption; try lia.
    destruct H5 as [[He Hlt]|[He Hle]]; [left | right]; split;
      try assumption; lia.
Qed.

(** *** One round of Scan *)

Lemma ScanLines_token (data : string) (atEOF : bool) (n : Z) (text : string) :
  Bufio.ScanLines data atEOF = (n, Some text) ->
  0 < n <= Bufio.len data.
Proof.
  unfold Bufio.ScanLines.
  destruct (atEOF && (Bufio.len data =? 0)) eqn:E0; [discriminate |].
  destruct (Bufio.IndexByte data newline) as [i|] eqn:Ei.
  - intros [= <- _]. apply IndexByte_Some in Ei as (Hl & _).
    unfold Bufio.len. lia.
  - destruct atEOF; [| discriminate]. intros [= <- _].
    cbn [andb] in E0. apply Z.eqb_neq in E0.
    pose proof (len_nonneg data). lia.
Qed.

Lemma ScanLines_no_token (data : string) (atEOF : bool) (n : Z) :
  Bufio.ScanLines data atEOF = (n, None) -> n = 0.
Proof.
  unfold Bufio.ScanLines.
  destruct (atEOF && (Bufio.len data =? 0)); [now intros [= <-] |].
  destruct (Bufio.IndexByte data newline); [discriminate |].
  destruct atEOF; [discriminate | now intros [= <-]].
Qed.

Lemma advance_ok (s : Bufio.Scanner) (n : Z) :
  0 <= n <= Bufio.len (Bufio.held s) ->
  Bufio.advance s n
  = (Bufio.mkScanner (Bufio.buf_len s) (Bufio.start s + n)
       (skip_bytes (Z.to_nat n) (Bufio.held s)) (Bufio.err s), true).
Proof.
  intros H. unfold Bufio.advance, Bufio.end_.
  destruct (n <? 0) eqn:E1; [apply Z.ltb_lt in E1; lia |].
  destruct (_ <? n) eqn:E2; [apply Z.ltb_lt in E2; lia | reflexivity].
Qed.

Lemma advance_err (s s1 : Bufio.Scanner) (n : Z) (ok : bool) :
  Bufio.advance s n = (s1, ok) ->
  (is_Some (Bufio.err s) -> is_Some (Bufio.err s1))
  /\ (ok = true -> Bufio.err s1 = Bufio.err s).
Proof.
  unfold Bufio.advance, Bufio.setErr.
  destruct (n <? 0); [| destruct (_ <? n)]; intros [= <- <-];
    (split; [| try discriminate; try reflexivity]);
    destruct (Bufio.err s) eqn:E; cbn; try rewrite E; intros H;
      try assumption; try (now eexists); now destruct H.
Qed.

(** What the first part of a round returns, for any scanner. *)
Lemma try_token_inl (s : Bufio.Scanner) (ws : list string) (r : Bufio.scanned) :
  Bufio.try_token s ws = inl r ->
  (exists s1, r = Bufio.NoToken s1 ws)
  \/ (exists text s1,
        r = Bufio.Token text s1 ws
        /\ (String.length (Bufio.held s1) < String.length (Bufio.held s))%nat).
Proof.
  unfold Bufio.try_token.
  destruct (_ || _); [| discriminate].
  destruct (Bufio.ScanLines _ _) as [n token] eqn:Es.
  destruct token as [text|].
  - apply ScanLines_token in Es. rewrite advance_ok by lia.
    cbn [negb]. intros [= <-]. right. eexists _, _. split; [reflexivity |].
    cbn [Bufio.held]. rewrite length_skip_bytes. unfold Bufio.len in Es. lia.
  - destruct (Bufio.advance s n) as [s1 ok]. destruct ok; cbn [negb];
      [discriminate |]. intros [= <-]. left. now eexists.
Qed.

Lemma try_token_inr (s : Bufio.Scanner) (ws : list string) (s1 : Bufio.Scanner) :
  Bufio.try_token s ws = inr s1 ->
  Bufio.err s1 = Bufio.err s /\ Bufio.held s1 = Bufio.held s.
Proof.
  unfold Bufio.try_token.
  destruct (_ || _); [| now intros [= <-]].
  destruct (Bufio.ScanLines _ _) as [n token] eqn:Es.
  destruct token as [text|].
  - apply ScanLines_token in Es. rewrite advance_ok by lia.
    cbn [negb]. discriminate.
  - apply ScanLines_no_token in Es as ->.
    rewrite advance_ok by (pose proof (len_nonneg (Bufio.held s)); lia).
    cbn [negb]. now intros [= <-].
Qed.

Lemma make_room_inl (s1 : Bufio.Scanner) (ws : list string) (r : Bufio.scanned) :
  Bufio.make_room s1 ws = inl r -> exists s', r = Bufio.NoToken s' ws.
Proof.
  unfold Bufio.make_room. cbv zeta.
  destruct (_ =? _); [| discriminate].
  destruct (_ || _); [| discriminate]. intros [= <-]. now eexists.
Qed.

Lemma make_room_inr (s1 : Bufio.Scanner) (ws : list string) (s3 : Bufio.Scanner) :
  Bufio.make_room s1 ws = inr s3 ->
  Bufio.err s3 = Bufio.err s1 /\ Bufio.held s3 = Bufio.held s1.
Proof.
  unfold Bufio.make_room. cbv zeta.
  destruct (_ && _); (destruct (_ =? _); [destruct (_ || _); [discriminate |] |]);
    now intros [= <-].
Qed.

(** *** Scan returns *)

Lemma not_is_Some_None {A} (o : option A) :
  bool_decide (is_Some o) = false -> o = None.
Proof.
  intros H. apply bool_decide_eq_false in H. destruct o; [| reflexivity].
  destruct H. now eexists.
Qed.

(** Scan's loop ends within its fuel: a round that does not return takes
    at least one byte from the pipe, or sets the error that ends the next
    round. *)
Lemma Scan_loop_returns (fuel : nat) (s : Bufio.Scanner) (ws : list string) :
  (match Bufio.err s with
   | None => Bufio.waiting ws + 2
   | Some _ => 1
   end <= fuel)%nat ->
  Bufio.Scan_loop fuel s ws <> Bufio.OutOfFuel.
Proof.
  revert s ws; induction fuel as [|fuel IH]; intros s ws Hf.
  { destruct (Bufio.err s); lia. }
  cbn [Bufio.Scan_loop].
  destruct (Bufio.try_token s ws) as [r|s1] eqn:Et.
  { apply try_token_inl in Et as [[s1 ->]|(text & s1 & -> & _)]; discriminate. }
  apply try_token_inr in Et as [He1 _].
  destruct (bool_decide (is_Some (Bufio.err s1))) eqn:Ee; [discriminate |].
  apply not_is_Some_None in Ee. rewrite He1 in Ee. rewrite Ee in Hf.
  destruct (Bufio.make_room s1 ws) as [r|s3] eqn:Em.
  { apply make_room_inl in Em as [s' ->]. discriminate. }
  apply make_room_inr in Em as [He3 _].
  destruct (Bufio.read_loop _ s3 ws) as [[s4 ws']|] eqn:Er; [| discriminate].
  apply read_loop_Some in Er as (_ & _ & _ & _ & Hr).
  apply IH. destruct Hr as [[He4 Hlt]|[[e He4] Hle]].
  - rewrite He4, He3, He1, Ee. lia.
  - rewrite He4. lia.
Qed.

Lemma Scan_returns (s : Bufio.Scanner) (ws : list string) :
  Bufio.Scan s ws <> Bufio.OutOfFuel.
Proof.
  apply Scan_loop_returns. destruct (Bufio.err s); lia.
Qed.

(** What Scan leaves: the pipe holds a tail of what it held, and a token
    takes at least one byte from the buffer and the pipe together. *)
Lemma Scan_loop_leaves (fuel : nat) (s : Bufio.Scanner) (ws : list string) :
  match Bufio.Scan_loop fuel s ws with
  | Bufio.Token _ s' ws' =>
      tail_of ws' ws
      /\ (String.length (Bufio.held s') + Bufio.waiting ws'
          < String.length (Bufio.held s) + Bufio.waiting ws)%nat
  | Bufio.NoToken _ ws' => tail_of ws' ws
  | _ => True
  end.
Proof.
  revert s ws; induction fuel as [|fuel IH]; intros s ws; [exact I |].
  cbn [Bufio.Scan_loop].
  destruct (Bufio.try_token s ws) as [r|s1] eqn:Et.
  { apply try_token_inl in Et as [[s1 ->]|(text & s1 & -> & Hlt)].
    - apply tail_of_refl.
    - split; [apply tail_of_refl | lia]. }
  apply try_token_inr in Et as [He1 Hh1].
  destruct (bool_decide (is_Some (Bufio.err s1))); [apply tail_of_refl |].
  destruct (Bufio.make_room s1 ws) as [r|s3] eqn:Em.
  { apply make_room_inl in Em as [s' ->]. apply tail_of_refl. }
  apply make_room_inr in Em as [He3 Hh3].
  destruct (Bufio.read_loop _ s3 ws) as [[s4 ws']|] eqn:Er; [| exact I].
  apply read_loop_Some in Er as (_ & _ & Hb & Hm & Hr).
  assert (Ht : tail_of ws' ws).
  { assert (Hw : (Bufio.waiting ws' <= Bufio.waiting ws)%nat)
      by (destruct Hr as [[_ ?]|[_ ?]]; lia).
    exists (skip_bytes (String.length (Bufio.held s3)) (Bufio.held s4)).
    apply (f_equal (skip_bytes (String.length (Bufio.held s3)))) in Hb.
    rewrite skip_bytes_append in Hb. rewrite Hb.
    apply skip_bytes_within. lia. }
  specialize (IH s4 ws').
  destruct (Bufio.Scan_loop fuel s4 ws') as [text s' ws''|s' ws''|s'|];
    try exact I.
  - destruct IH as [Ht' Hlt]. split; [exact (tail_of_trans _ _ _ Ht' Ht) |].
    rewrite Hh3, Hh1 in Hm. lia.
  - exact (tail_of_trans _ _ _ IH Ht).
Qed.

Lemma download_not_error (r : string) :
  strings_HasPrefix (errorPrefix +:+ r) downloadPrefix = false.
Proof. apply HasPrefix_false. intros [r' H]. discriminate H. Qed.

(** *** The scan loop of the handshake *)

(** The slice expression of the loop is guarded by the prefix test, and the
    loop ends within its fuel: the goroutine never panics. *)
Lemma scan_stderr_no_panic (fuel : nat) (s : Bufio.Scanner) (ws : list string)
    (msg : string) :
  (String.length (Bufio.held s) + Bufio.waiting ws < fuel)%nat ->
  fst (scan_stderr fuel s ws) <> LoopPanic msg.
Proof.
  revert s ws; induction fuel as [|fuel IH]; intros s ws Hf; [lia |].
  cbn [scan_stderr].
  pose proof (Scan_returns s ws) as Hr.
  pose proof (Scan_loop_leaves (S (S (Bufio.waiting ws))) s ws) as Hl.
  fold (Bufio.Scan s ws) in Hl.
  destruct (Bufio.Scan s ws) as [line s' ws'|s' ws'|s'|]; try discriminate;
    [| now destruct Hr].
  destruct (strings_HasPrefix line downloadPrefix); [discriminate |].
  destruct (strings_HasPrefix line errorPrefix) eqn:E.
  - apply HasPrefix_true in E as [r ->]. rewrite slice_from_append.
    discriminate.
  - apply IH. lia.
Qed.

(** What the loop leaves at the pipe is a tail of what waited there. *)
Lemma scan_stderr_tail (fuel : nat) (s : Bufio.Scanner) (ws : list string) :
  tail_of (snd (scan_stderr fuel s ws)) ws.
Proof.
  revert s ws; induction fuel as [|fuel IH]; intros s ws;
    [apply tail_of_refl |].
  cbn [scan_stderr].
  pose proof (Scan_loop_leaves (S (S (Bufio.waiting ws))) s ws) as Hl.
  fold (Bufio.Scan s ws) in Hl.
  destruct (Bufio.Scan s ws) as [line s' ws'|s' ws'|s'|];
    [| exact Hl | apply tail_of_nil | apply tail_of_refl].
  destruct Hl as [Ht _].
  destruct (strings_HasPrefix line downloadPrefix); [exact Ht |].
  destruct (strings_HasPrefix line errorPrefix).
  - destruct (slice_from _ line); exact Ht.
  - exact (tail_of_trans _ _ _ (IH s' ws') Ht).
Qed.

(** The loop waits only when nothing is left at the pipe. *)
Lemma scan_stderr_blocked (fuel : nat) (s : Bufio.Scanner) (ws : list string) :
  fst (scan_stderr fuel s ws) = LoopBlocked -> snd (scan_stderr fuel s ws) = [].
Proof.
  revert s ws; induction fuel as [|fuel IH]; intros s ws; [discriminate |].
  cbn [scan_stderr].
  destruct (Bufio.Scan s ws) as [line s' ws'|s' ws'|s'|];
    try discriminate; [| reflexivity].
  destruct (strings_HasPrefix line downloadPrefix); [discriminate |].
  destruct (strings_HasPrefix line errorPrefix).
  - destruct (slice_from _ line); discriminate.
  - apply IH.
Qed.

(** *** Scan on a scanner in order, and writes that are not empty *)

Lemma try_token_line (s : Bufio.Scanner) (ws : list string) (i : nat) :
  Bufio.err s = None ->
  Bufio.IndexByte (Bufio.held s) newline = Some i ->
  Bufio.try_token s ws
  = inl (Bufio.Token (Bufio.dropCR (first_bytes i (Bufio.held s)))
           (Bufio.mkScanner (Bufio.buf_len s)
              (Bufio.start s + (Z.of_nat i + 1))
              (skip_bytes (S i) (Bufio.held s)) None)
           ws).
Proof.
  intros He Hi. destruct (IndexByte_Some _ _ _ Hi) as (Hl & _).
  unfold Bufio.try_token, Bufio.end_. rewrite He.
  replace (Bufio.start s <? Bufio.start s + Bufio.len (Bufio.held s)) with true
    by (symmetry; apply Z.ltb_lt; unfold Bufio.len; lia).
  cbn [orb]. unfold Bufio.ScanLines.
  rewrite bool_decide_eq_false_2 by (intros [? [=]]). cbn [andb].
  rewrite Hi. rewrite advance_ok by (unfold Bufio.len; lia).
  cbn [negb]. rewrite He.
  replace (Z.to_nat (Z.of_nat i + 1)) with (S i) by lia. reflexivity.
Qed.

Lemma try_token_none (s : Bufio.Scanner) (ws : list string) :
  Bufio.err s = None ->
  Bufio.IndexByte (Bufio.held s) newline = None ->
  exists s1,
    Bufio.try_token s ws = inr s1
    /\ Bufio.err s1 = None /\ Bufio.held s1 = Bufio.held s
    /\ Bufio.start s1 = Bufio.start s /\ Bufio.buf_len s1 = Bufio.buf_len s.
Proof.
  intros He Hi. unfold Bufio.try_token. rewrite He.
  rewrite bool_decide_eq_false_2 by (intros [? [=]]).
  destruct (_ <? _); cbn [orb].
  - unfold Bufio.ScanLines. cbn [andb]. rewrite Hi.
    rewrite advance_ok by (pose proof (len_nonneg (Bufio.held s)); lia).
    cbn [negb]. eexists. split; [reflexivity |]. cbn. rewrite He.
    repeat split. lia.
  - exists s. now repeat split.
Qed.

(** With a scanner in order, the buffer is given up as too long only when
    it holds 64 KiB; otherwise there is room to read into. *)
Lemma make_room_ok (s1 : Bufio.Scanner) (ws : list string) :
  scanner_ok s1 ->
  match Bufio.make_room s1 ws with
  | inl r =>
      (exists s', r = Bufio.NoToken s' ws)
      /\ Bufio.len (Bufio.held s1) = Bufio.MaxScanTokenSize
  | inr s3 =>
      Bufio.err s3 = None /\ Bufio.held s3 = Bufio.held s1
      /\ 0 <= Bufio.start s3
      /\ Bufio.end_ s3 < Bufio.buf_len s3
      /\ Bufio.buf_len s3 <= Bufio.MaxScanTokenSize
  end.
Proof.
  intros (He & Hs & Hend & Hb).
  pose proof (len_nonneg (Bufio.held s1)) as Hlen.
  unfold Bufio.make_room. cbv zeta. unfold Bufio.end_ in *.
  unfold Bufio.MaxScanTokenSize, Bufio.maxInt, Bufio.startBufSize in *.
  destruct ((0 <? Bufio.start s1) && _) eqn:Eshift.
  - cbn [Bufio.start Bufio.held Bufio.buf_len Bufio.err].
    apply andb_true_iff in Eshift as [Hpos _]. apply Z.ltb_lt in Hpos.
    destruct (0 + Bufio.len (Bufio.held s1) =? Bufio.buf_len s1) eqn:Efull;
      [apply Z.eqb_eq in Efull; lia |].
    cbn. repeat split; try assumption; lia.
  - assert (Hshift : Bufio.start s1 = 0
                     \/ Bufio.start s1 + Bufio.len (Bufio.held s1)
                        <> Bufio.buf_len s1).
    { apply andb_false_iff in Eshift as [H|H].
      - apply Z.ltb_ge in H. lia.
      - apply orb_false_iff in H as [H _]. apply Z.eqb_neq in H. now right. }
    clear Eshift.
    destruct (Bufio.start s1 + Bufio.len (Bufio.held s1) =? Bufio.buf_len s1)
      eqn:Efull.
    + apply Z.eqb_eq in Efull.
      assert (Hs0 : Bufio.start s1 = 0) by (destruct Hshift; [assumption | lia]).
      destruct ((64 * 1024 <=? Bufio.buf_len s1)
                || ((2 ^ 63 - 1) `div` 2 <? Bufio.buf_len s1)) eqn:Emax.
      * split; [now eexists |].
        apply orb_true_iff in Emax as [H|H].
        -- apply Z.leb_le in H. lia.
        -- apply Z.ltb_lt in H.
           change (2 ^ 63 - 1) with 9223372036854775807 in H.
           change (9223372036854775807 `div` 2) with 4611686018427387903 in H.
           lia.
      * apply orb_false_iff in Emax as [H _]. apply Z.leb_gt in H.
        cbn [Bufio.start Bufio.held Bufio.buf_len Bufio.err].
        repeat split; try assumption; try lia.
        destruct (Bufio.buf_len s1 * 2 =? 0) eqn:E0.
        -- apply Z.eqb_eq in E0. lia.
        -- apply Z.eqb_neq in E0. lia.
    + apply Z.eqb_neq in Efull. repeat split; try assumption; lia.
Qed.

Lemma read_loop_data (tries : nat) (s : Bufio.Scanner) (ws : list string)
    (data : string) (ws' : list string) :
  Bufio.pipe_Read (Bufio.buf_len s - Bufio.end_ s) ws = Some (data, ws') ->
  0 < Bufio.len data ->
  Bufio.read_loop tries s ws
  = Some (Bufio.mkScanner (Bufio.buf_len s) (Bufio.start s)
            (Bufio.held s +:+ data) (Bufio.err s), ws').
Proof.
  intros E Hpos. apply Z.ltb_lt in Hpos.
  destruct tries; cbn [Bufio.read_loop]; rewrite E; cbv zeta; now rewrite Hpos.
Qed.

Lemma bytes_of_nil : bytes_of [] = EmptyString.
Proof. reflexivity. Qed.

(** Scan and the bytes of the stream: with a scanner in order and writes
    that are not empty, Scan yields the first line of the bytes that the
    buffer and the pipe hold together, however they are cut into writes;
    it gives up when the first 64 KiB hold no newline; and it waits when
    fewer bytes are there and no newline is among them. *)
Lemma Scan_loop_spec (fuel : nat) (s : Bufio.Scanner) (ws : list string) :
  scanner_ok s -> Forall nonempty ws -> (Bufio.waiting ws < fuel)%nat ->
  match Bufio.IndexByte (Bufio.held s +:+ bytes_of ws) newline with
  | Some i =>
      if Z.of_nat i <? Bufio.MaxScanTokenSize
      then
        exists s' ws',
          Bufio.Scan_loop fuel s ws
          = Bufio.Token
              (Bufio.dropCR (first_bytes i (Bufio.held s +:+ bytes_of ws)))
              s' ws'
          /\ scanner_ok s' /\ Forall nonempty ws'
          /\ Bufio.held s' +:+ bytes_of ws'
             = skip_bytes (S i) (Bufio.held s +:+ bytes_of ws)
      else exists s' ws', Bufio.Scan_loop fuel s ws = Bufio.NoToken s' ws'
  | None =>
      if Bufio.MaxScanTokenSize <=? Bufio.len (Bufio.held s +:+ bytes_of ws)
      then exists s' ws', Bufio.Scan_loop fuel s ws = Bufio.NoToken s' ws'
      else exists s', Bufio.Scan_loop fuel s ws = Bufio.Waits s'
  end.
Proof.
  revert s ws; induction fuel as [|fuel IH]; intros s ws Hok Hne Hf; [lia |].
  pose proof Hok as (He & Hs & Hend & Hb).
  pose proof (len_nonneg (Bufio.held s)) as Hlen.
  cbn [Bufio.Scan_loop].
  destruct (Bufio.IndexByte (Bufio.held s) newline) as [j|] eqn:Ej.
  - (* a line is in the buffer *)
    rewrite (IndexByte_append_Some _ _ _ _ Ej).
    destruct (IndexByte_Some _ _ _ Ej) as (Hj & _).
    unfold Bufio.end_, Bufio.len in Hend, Hlen.
    replace (Z.of_nat j <? Bufio.MaxScanTokenSize) with true
      by (symmetry; apply Z.ltb_lt; lia).
    rewrite (try_token_line _ _ _ He Ej).
    eexists _, _. split; [| split; [| split]].
    + now rewrite first_bytes_within by lia.
    + unfold scanner_ok, Bufio.end_, Bufio.len.
      cbn [Bufio.err Bufio.start Bufio.held Bufio.buf_len].
      rewrite length_skip_bytes. repeat split; lia.
    + exact Hne.
    + cbn [Bufio.held]. now rewrite skip_bytes_within by lia.
  - destruct (try_token_none s ws He Ej) as (s1 & -> & He1 & Hh1 & Hs1 & Hb1).
    rewrite He1. rewrite bool_decide_eq_false_2 by (intros [? [=]]).
    assert (Hok1 : scanner_ok s1).
    { unfold scanner_ok, Bufio.end_. now rewrite He1, Hh1, Hs1, Hb1. }
    pose proof (make_room_ok s1 ws Hok1) as Hroom.
    rewrite (IndexByte_append_None _ _ _ Ej). rewrite len_append.
    pose proof (len_nonneg (bytes_of ws)) as Hlenw.
    destruct (Bufio.make_room s1 ws) as [r|s3].
    + (* the buffer holds 64 KiB without a newline *)
      destruct Hroom as [[s' ->] Hfull]. rewrite Hh1 in Hfull.
      destruct (Bufio.IndexByte (bytes_of ws) newline) as [k|]; cbn [fmap option_fmap option_map].
      * replace (Z.of_nat (String.length (Bufio.held s) + k) <? _) with false
          by (symmetry; apply Z.ltb_ge; unfold Bufio.len in Hfull; lia).
        now eexists _, _.
      * replace (_ <=? _) with true by (symmetry; apply Z.leb_le; lia).
        now eexists _, _.
    + destruct Hroom as (He3 & Hh3 & Hs3 & Hend3 & Hb3). rewrite Hh1 in Hh3.
      destruct ws as [|w ws0].
      * (* nothing waits at the pipe *)
        cbn [Bufio.read_loop Bufio.maxConsecutiveEmptyReads Bufio.pipe_Read].
        rewrite bytes_of_nil. cbn [Bufio.IndexByte fmap option_fmap option_map].
        replace (_ <=? _) with false.
        { now eexists. }
        symmetry. apply Z.leb_gt. unfold Bufio.end_ in Hend3.
        rewrite Hh3 in Hend3. change (Bufio.len EmptyString) with 0. lia.
      * destruct (Bufio.pipe_Read (Bufio.buf_len s3 - Bufio.end_ s3) (w :: ws0))
          as [[data ws']|] eqn:Er; [| discriminate].
        destruct (pipe_Read_Some _ _ _ _ Er) as (Hbytes & Hwait & Hmax & Hne' & Hpos).
        specialize (Hne' Hne). specialize (Hpos Hne ltac:(lia)).
        rewrite (read_loop_data _ _ _ _ _ Er Hpos).
        rewrite <- len_append, <- IndexByte_append_None by exact Ej.
        rewrite Hbytes, <- append_assoc, <- Hh3.
        apply (IH (Bufio.mkScanner (Bufio.buf_len s3) (Bufio.start s3)
                     (Bufio.held s3 +:+ data) (Bufio.err s3)) ws').
        -- unfold scanner_ok, Bufio.end_ in *.
           cbn [Bufio.err Bufio.start Bufio.held Bufio.buf_len].
           rewrite len_append. repeat split; try assumption; lia.
        -- exact Hne'.
        -- unfold Bufio.len in Hpos. lia.
Qed.

Lemma line_and_rest (l rest : string) :
  with_newline l +:+ rest = l +:+ String newline rest.
Proof. unfold with_newline. now rewrite append_assoc. Qed.

Lemma first_bytes_line (l rest : string) :
  first_bytes (String.length l) (with_newline l +:+ rest) = l.
Proof. rewrite line_and_rest. apply first_bytes_append. Qed.

Lemma skip_bytes_line (l rest : string) :
  skip_bytes (S (String.length l)) (with_newline l +:+ rest) = rest.
Proof.
  rewrite line_and_rest.
  change (S (String.length l)) with (1 + String.length l)%nat.
  rewrite Nat.add_comm.
  replace (String.length l + 1)%nat
    with (String.length (l +:+ String newline EmptyString))
    by (rewrite length_append; reflexivity).
  replace (l +:+ String newline rest)
    with ((l +:+ String newline EmptyString) +:+ rest)
    by (now rewrite append_assoc).
  apply skip_bytes_append.
Qed.

Lemma length_line (l rest : string) :
  String.length (with_newline l +:+ rest)
  = S (String.length l + String.length rest).
Proof.
  rewrite line_and_rest, length_append. cbn [String.length]. lia.
Qed.

Lemma Scan_spec (s : Bufio.Scanner) (ws : list string) :
  scanner_ok s -> Forall nonempty ws ->
  match Bufio.IndexByte (Bufio.held s +:+ bytes_of ws) newline with
  | Some i =>
      if Z.of_nat i <? Bufio.MaxScanTokenSize
      then
        exists s' ws',
          Bufio.Scan s ws
          = Bufio.Token
              (Bufio.dropCR (first_bytes i (Bufio.held s +:+ bytes_of ws)))
              s' ws'
          /\ scanner_ok s' /\ Forall nonempty ws'
          /\ Bufio.held s' +:+ bytes_of ws'
             = skip_bytes (S i) (Bufio.held s +:+ bytes_of ws)
      else exists s' ws', Bufio.Scan s ws = Bufio.NoToken s' ws'
  | None =>
      if Bufio.MaxScanTokenSize <=? Bufio.len (Bufio.held s +:+ bytes_of ws)
      then exists s' ws', Bufio.Scan s ws = Bufio.NoToken s' ws'
      else exists s', Bufio.Scan s ws = Bufio.Waits s'
  end.
Proof.
  intros Hok Hne. apply Scan_loop_spec; [assumption | assumption | lia].
Qed.

Lemma scannable_short (l : string) :
  scannable l -> (Z.of_nat (String.length l) <? Bufio.MaxScanTokenSize) = true.
Proof. intros [_ H]. now apply Z.ltb_lt. Qed.

(** The loop yields the line of a stream that begins with one. *)
Lemma Scan_line (s : Bufio.Scanner) (ws : list string) (l rest : string) :
  scanner_ok s -> Forall nonempty ws -> scannable l ->
  Bufio.held s +:+ bytes_of ws = with_newline l +:+ rest ->
  exists s' ws',
    Bufio.Scan s ws = Bufio.Token (Bufio.dropCR l) s' ws'
    /\ scanner_ok s' /\ Forall nonempty ws'
    /\ Bufio.held s' +:+ bytes_of ws' = rest.
Proof.
  intros Hok Hne Hl Hb. pose proof (Scan_spec s ws Hok Hne) as H.
  rewrite Hb in H. rewrite (IndexByte_line _ _ (proj1 Hl)) in H.
  rewrite (scannable_short _ Hl) in H.
  now rewrite first_bytes_line, skip_bytes_line in H.
Qed.

(** The scan loop and the bytes of the stream: how the loop is left does
    not depend on the writes in which the bytes arrive. *)
Lemma scan_stderr_resolves (bytes : string) (x : loop_exit) :
  stream_exit bytes x ->
  forall (fuel : nat) (s : Bufio.Scanner) (ws : list string),
    scanner_ok s -> Forall nonempty ws ->
    Bufio.held s +:+ bytes_of ws = bytes ->
    (String.length bytes < fuel)%nat ->
    fst (scan_stderr fuel s ws) = x.
Proof.
  induction 1 as [l rest Hl Hd|l msg rest Hl He|l rest x Hl [Hnd Hne'] Hrest IH
                 |bytes Hi Hlong|bytes Hi Hshort];
    intros fuel s ws Hok Hne Hb Hf; (destruct fuel as [|fuel]; [lia |]);
    cbn [scan_stderr].
  - destruct (Scan_line s ws l rest Hok Hne Hl Hb) as (s' & ws' & -> & _).
    now rewrite (proj2 (HasPrefix_true _ _) Hd).
  - destruct (Scan_line s ws l rest Hok Hne Hl Hb) as (s' & ws' & -> & _).
    rewrite He, download_not_error.
    rewrite (proj2 (HasPrefix_true _ _) (ex_intro _ msg eq_refl)).
    now rewrite slice_from_append.
  - destruct (Scan_line s ws l rest Hok Hne Hl Hb)
      as (s' & ws' & -> & Hok' & Hne2 & Hb').
    rewrite (proj2 (HasPrefix_false _ _) Hnd).
    rewrite (proj2 (HasPrefix_false _ _) Hne').
    apply IH; try assumption. rewrite length_line in Hf. lia.
  - pose proof (Scan_spec s ws Hok Hne) as H. rewrite Hb in H.
    destruct (Bufio.IndexByte bytes newline) as [i|] eqn:Ei.
    + destruct (Z.of_nat i <? Bufio.MaxScanTokenSize) eqn:Elt.
      * apply Z.ltb_lt in Elt.
        assert (Hin : (i < Z.to_nat Bufio.MaxScanTokenSize)%nat)
          by (unfold Bufio.MaxScanTokenSize in *; clear - Elt; lia).
        rewrite (IndexByte_first_bytes _ _ i _ Ei Hin) in Hi.
        discriminate.
      * now destruct H as (s' & ws' & ->).
    + replace (_ <=? _) with true in H by (symmetry; now apply Z.leb_le).
      now destruct H as (s' & ws' & ->).
  - pose proof (Scan_spec s ws Hok Hne) as H. rewrite Hb, Hi in H.
    replace (_ <=? _) with false in H by (symmetry; now apply Z.leb_gt).
    now destruct H as (s' & ->).
Qed.

Lemma NewScanner_ok : scanner_ok Bufio.NewScanner.
Proof. repeat split; vm_compute; congruence. Qed.

Lemma sent_handshake_task (ws : list string) :
  sent (handshake_task ws)
  = received (fst (scan_stderr (S (Bufio.waiting ws)) Bufio.NewScanner ws)).
Proof.
  unfold handshake_task.
  now destruct (scan_stderr _ _ ws) as [[| |e|msg|] unread].
Qed.

Lemma at_send_handshake_task (ws : list string) :
  at_send (handshake_task ws)
  = snd (scan_stderr (S (Bufio.waiting ws)) Bufio.NewScanner ws).
Proof.
  unfold handshake_task.
  now destruct (scan_stderr _ _ ws) as [[| |e|msg|] unread].
Qed.

(** The handshake by the first marker line of the stream. *)
Lemma handshake_resolves (ws : list string) (x : loop_exit) :
  Forall nonempty ws -> stream_exit (bytes_of ws) x ->
  sent (handshake_task ws) = received x.
Proof.
  intros Hne Hx. rewrite sent_handshake_task. f_equal.
  apply (scan_stderr_resolves _ _ Hx); try assumption.
  - exact NewScanner_ok.
  - reflexivity.
  - rewrite length_bytes_of. lia.
Qed.

(** The goroutine never panics. *)
Lemma handshake_task_no_panic (ws : list string) (msg : string) :
  sent (handshake_task ws) <> Panic msg.
Proof.
  rewrite sent_handshake_task.
  pose proof (fun m => scan_stderr_no_panic (S (Bufio.waiting ws))
                         Bufio.NewScanner ws m) as H.
  destruct (fst (scan_stderr _ _ ws)) as [| |e|m|]; cbn [received];
    try discriminate.
  exfalso. apply (H m); [cbn; lia | reflexivity].
Qed.

Lemma handshake_task_tail (ws : list string) :
  tail_of (at_send (handshake_task ws)) ws.
Proof. rewrite at_send_handshake_task. apply scan_stderr_tail. Qed.

Lemma handshake_task_blocked (ws : list string) :
  sent (handshake_task ws) = Blocked -> at_send (handshake_task ws) = [].
Proof.
  rewrite sent_handshake_task, at_send_handshake_task. intros H.
  apply scan_stderr_blocked.
  now destruct (fst (scan_stderr _ _ ws)) as [| |e|m|].
Qed.

(** After an error the goroutine has returned: what waits at the pipe stays
    there.  After nil it copies the pipe to io.Discard. *)
Lemma handshake_task_at_rest (ws : list string) :
  match sent (handshake_task ws) with
  | Ok None => at_rest (handshake_task ws) = []
  | _ => at_rest (handshake_task ws) = at_send (handshake_task ws)
  end.
Proof.
  unfold handshake_task.
  now destruct (scan_stderr _ _ ws) as [[| |e|msg|] unread].
Qed.

(** *** Every stream has its way out of the loop *)

Lemma IndexByte_beyond (s : string) (c : ascii) (i n : nat) :
  Bufio.IndexByte s c = Some i -> (n <= i)%nat ->
  Bufio.IndexByte (first_bytes n s) c = None.
Proof.
  intros Hi Hn. destruct (IndexByte_Some _ _ _ Hi) as (Hl & Hnone & Hs).
  rewrite Hs. rewrite first_bytes_within
    by (rewrite length_first_bytes; lia).
  now apply IndexByte_None_first.
Qed.

Lemma stream_exit_total (bytes : string) : exists x, stream_exit bytes x.
Proof.
  remember (String.length bytes) as n eqn:Hn. revert bytes Hn.
  induction n as [n IH] using lt_wf_ind. intros bytes ->.
  destruct (Bufio.IndexByte bytes newline) as [i|] eqn:Ei.
  - destruct (IndexByte_Some _ _ _ Ei) as (Hl & Hnone & Hs).
    destruct (Z_lt_le_dec (Z.of_nat i) Bufio.MaxScanTokenSize) as [Hlt|Hge].
    + set (l := first_bytes i bytes) in *.
      set (rest := skip_bytes (S i) bytes) in *.
      assert (Hb : bytes = with_newline l +:+ rest)
        by (now rewrite line_and_rest).
      assert (Hlen : String.length l = i)
        by (unfold l; rewrite length_first_bytes; lia).
      assert (Hscan : scannable l).
      { split; [exact Hnone |]. unfold Bufio.len. now rewrite Hlen. }
      destruct (strings_HasPrefix (Bufio.dropCR l) downloadPrefix) eqn:Ed.
      { exists LoopBreak. rewrite Hb. apply se_download; [assumption |].
        now apply HasPrefix_true. }
      destruct (strings_HasPrefix (Bufio.dropCR l) errorPrefix) eqn:Ee.
      { apply HasPrefix_true in Ee as [msg Hmsg].
        exists (LoopError (errorString msg)). rewrite Hb.
        now apply se_error. }
      destruct (IH (String.length rest)) with (bytes := rest) as [x Hx];
        [| reflexivity |].
      { unfold rest. rewrite length_skip_bytes. lia. }
      exists x. rewrite Hb. apply se_skip; try assumption.
      split; now apply HasPrefix_false.
    + exists LoopEnd. apply se_too_long.
      * assert (Hin : (Z.to_nat Bufio.MaxScanTokenSize <= i)%nat)
          by (unfold Bufio.MaxScanTokenSize in *; clear - Hge; lia).
        now apply (IndexByte_beyond _ _ i).
      * unfold Bufio.len. lia.
  - destruct (Z_lt_le_dec (Bufio.len bytes) Bufio.MaxScanTokenSize) as [Hlt|Hge].
    + exists LoopBlocked. now apply se_wait.
    + exists LoopEnd. apply se_too_long; [| assumption].
      now apply IndexByte_None_first.
Qed.

(** *** Streams line by line *)

(** Lines without a marker do not decide: the loop is left as the stream
    after them says. *)
Lemma stream_exit_after_lines (pre : list string) (rest : string)
    (x : loop_exit) :
  Forall (fun l => scannable l /\ no_marker (Bufio.dropCR l)) pre ->
  stream_exit rest x ->
  stream_exit (bytes_of (map with_newline pre) +:+ rest) x.
Proof.
  intros Hpre Hx. induction Hpre as [|l pre [Hl Hm] _ IH]; [exact Hx |].
  cbn [map]. change (bytes_of (with_newline l :: map with_newline pre))
    with (with_newline l +:+ bytes_of (map with_newline pre)).
  rewrite append_assoc. now apply se_skip.
Qed.

(** A line of 64 KiB or more ends the scanning, whatever follows it, an
    ERROR:  line included. *)
Lemma long_line_ends_scan (l rest : string) :
  Bufio.IndexByte l newline = None ->
  Bufio.MaxScanTokenSize <= Bufio.len l ->
  stream_exit (with_newline l +:+ rest) LoopEnd.
Proof.
  intros Hl Hlong. apply se_too_long.
  - rewrite line_and_rest. rewrite first_bytes_within.
    + now apply IndexByte_None_first.
    + unfold Bufio.len in Hlong. clear - Hlong. lia.
  - rewrite line_and_rest, len_append.
    pose proof (len_nonneg (String newline rest)). lia.
Qed.

(** *** The streaming launch in one equation *)

Lemma slices_Insert_front {A} (s : list A) (x : A) :
  slices_Insert s 0 [x] = Ok (x :: s).
Proof. unfold slices_Insert. simpl. now rewrite drop_0. Qed.

Lemma pipes_after_start (ps : list (list string)) (out err : list string) :
  alter (fun old => old ++ err) (S (length ps))
    (alter (fun old => old ++ out) (length ps) ((ps ++ [[]]) ++ [[]]))
  = ps ++ [out; err].
Proof.
  rewrite <- app_assoc. cbn [app].
  induction ps as [|p ps IH]; [reflexivity |].
  cbn [length app]. cbn [alter list_alter]. f_equal. exact IH.
Qed.

Lemma pipes_after_handshake (ps : list (list string)) (out err u : list string) :
  <[S (length ps) := u]> (ps ++ [out; err]) = ps ++ [out; u].
Proof.
  induction ps as [|p ps IH]; [reflexivity |].
  cbn [length app]. cbn [insert list_insert]. f_equal. exact IH.
Qed.

Lemma stderr_pipe_lookup (ps : list (list string)) (out err : list string) :
  (ps ++ [out; err]) !! S (length ps) = Some err.
Proof. induction ps as [|p ps IH]; [reflexivity | exact IH]. Qed.

Lemma stdout_pipe_lookup (ps : list (list string)) (out err : list string) :
  (ps ++ [out; err]) !! length ps = Some out.
Proof. induction ps as [|p ps IH]; [reflexivity | exact IH]. Qed.

(** ExecuteStream in one equation: the command, the two pipes, and the
    handshake on the writes of the diagnostic stream. *)
Lemma ExecuteStream_eq (host : Host) (inst : YTDLPInstance) (url : string)
    (args : list string) (sys : Sys) :
  ExecuteStream host inst url args sys
  = let cmd := exec_Command (bPath inst)
                 (url :: args ++ ["-o"; "-"; "--newline"]) in
    let p := binary host cmd in
    match start_error p with
    | Some e =>
        (Ok (None, Some e),
         mkSys (launched sys ++ [cmd]) (pipes sys ++ [[]; []]) (files sys))
    | None =>
        (stream_result (length (pipes sys))
           (sent (handshake_task (stderr_chunks p))),
         mkSys (launched sys ++ [cmd])
           (pipes sys
            ++ [stdout_chunks p; at_send (handshake_task (stderr_chunks p))])
           (files sys))
    end.
Proof.
  unfold ExecuteStream, bind, lift, append. rewrite slices_Insert_front.
  rewrite <- app_comm_cons.
  cbn [io_Pipe pipes launched files]. unfold Start. cbv zeta.
  destruct (start_error _).
  - unfold run_logged, ret. cbn [pipes launched files].
    now rewrite <- app_assoc.
  - unfold handshake, write_pipe, run_logged. cbn [pipes launched files].
    rewrite length_app. cbn [length]. rewrite Nat.add_1_r.
    rewrite pipes_after_start. cbn [app]. rewrite stderr_pipe_lookup.
    unfold default, from_option, id. cbv zeta.
    rewrite pipes_after_handshake.
    now destruct (sent (handshake_task _)) as [v|msg|].
Qed.

(** C3: at the end of the diagnostic stream the handshake does not resolve.
    A process that writes one line without a marker and ends, and a process
    that writes nothing, leave the goroutine waiting in Scan for a stream
    that nothing closes: no value is sent on ytErrCh, and ExecuteStream
    does not return. *)
Theorem C3_end_of_stderr_blocks :
  ExecuteStream (host_of (proc_stderr ["WARNING: slow"])) inst0
    "https://example.org/v" [] sys0
  = (Blocked,
     mkSys
       [exec_Command "/usr/bin/yt-dlp"
          ["https://example.org/v"; "-o"; "-"; "--newline"]]
       [[]; []] ∅)
  /\ ExecuteStream (host_of (proc_stderr [])) inst0
       "https://example.org/v" [] sys0
     = (Blocked,
        mkSys
          [exec_Command "/usr/bin/yt-dlp"
             ["https://example.org/v"; "-o"; "-"; "--newline"]]
          [[]; []] ∅).
Proof. split; vm_compute; reflexivity. Qed.

(** C4: at a process whose stderr carries an ERROR:  line followed by more
    output in a later write, the streaming launch returns the error and
    leaves that write unread at the stderr pipe (pipe 1): on this branch
    the goroutine returns without draining the pipe, so the write waits
    there for ever. *)
Theorem C4_error_branch_leaves_stderr_unread :
  ExecuteStream
    (host_of (proc_stderr ["ERROR: disk full"; "[debug] traceback"]))
    inst0 "https://example.org/v" [] sys0
  = (Ok (Some (pipeReader 0), Some (errorString "disk full")),
     mkSys
       [exec_Command "/usr/bin/yt-dlp"
          ["https://example.org/v"; "-o"; "-"; "--newline"]]
       [[]; [with_newline "[debug] traceback"]] ∅)
  /\ at_rest
       (handshake_task
          [with_newline "ERROR: disk full"; with_newline "[debug] traceback"])
     = [with_newline "[debug] traceback"].
Proof. split; vm_compute; reflexivity. Qed.

(** ** Argument vectors and validation *)

(** C6: for every target, the empty one included, and every list of extra
    arguments, the streaming launch starts the binary with the target, the
    extra arguments, then -o - and --newline; nothing is validated before
    the start. *)
Theorem C6_stream_argument_vector (host : Host) (inst : YTDLPInstance)
    (url : string) (args : list string) (sys : Sys) :
  launched (snd (ExecuteStream host inst url args sys))
  = launched sys
    ++ [exec_Command (bPath inst) (url :: args ++ ["-o"; "-"; "--newline"])].
Proof.
  rewrite ExecuteStream_eq. cbv zeta. now destruct (start_error _).
Qed.

(** C7: when the process starts, what the streaming launch returns holds
    the read end of the stdout pipe, from which nothing has been read, on
    both branches of the handshake: with a nil error when the first marker
    line of the diagnostic stream is a [download] line, and with the error
    of the line when it is an ERROR:  line, whatever the writes in which
    the stream arrives.  So the failure shows in the error alone. *)
Theorem C7_stream_reader_returned (host : Host) (inst : YTDLPInstance)
    (url : string) (args : list string) (sys : Sys)
    (Hstart :
       start_error
         (binary host
            (exec_Command (bPath inst)
               (url :: args ++ ["-o"; "-"; "--newline"]))) = None) :
  (forall r sys',
     ExecuteStream host inst url args sys = (Ok r, sys') ->
     fst r = Some (pipeReader (length (pipes sys)))
     /\ pipes sys' !! length (pipes sys)
        = Some (stdout_chunks
                  (binary host
                     (exec_Command (bPath inst)
                        (url :: args ++ ["-o"; "-"; "--newline"])))))
  /\ (forall msg,
        Forall nonempty
          (stderr_chunks
             (binary host
                (exec_Command (bPath inst)
                   (url :: args ++ ["-o"; "-"; "--newline"])))) ->
        stream_exit
          (bytes_of
             (stderr_chunks
                (binary host
                   (exec_Command (bPath inst)
                      (url :: args ++ ["-o"; "-"; "--newline"])))))
          (LoopError (errorString msg)) ->
        fst (ExecuteStream host inst url args sys)
        = Ok (Some (pipeReader (length (pipes sys))),
              Some (errorString msg)))
  /\ (Forall nonempty
        (stderr_chunks
           (binary host
              (exec_Command (bPath inst)
                 (url :: args ++ ["-o"; "-"; "--newline"])))) ->
      stream_exit
        (bytes_of
           (stderr_chunks
              (binary host
                 (exec_Command (bPath inst)
                    (url :: args ++ ["-o"; "-"; "--newline"])))))
        LoopBreak ->
      fst (ExecuteStream host inst url args sys)
      = Ok (Some (pipeReader (length (pipes sys))), None)).
Proof.
  rewrite ExecuteStream_eq. cbv zeta. rewrite Hstart. cbn [fst].
  split; [| split].
  - intros r sys' [= Hr <-]. cbn [pipes]. rewrite stdout_pipe_lookup.
    split; [| reflexivity].
    destruct (sent (handshake_task _)) as [v|msg|]; [| discriminate..].
    now injection Hr as <-.
  - intros msg Hne Hx. now rewrite (handshake_resolves _ _ Hne Hx).
  - intros Hne Hx. now rewrite (handshake_resolves _ _ Hne Hx).
Qed.

Lemma error_line_example :
  stream_exit (bytes_of (map with_newline ["ERROR: disk full"]))
    (LoopError (errorString "disk full")).
Proof.
  apply (se_error "ERROR: disk full" "disk full" EmptyString);
    [split; vm_compute; reflexivity | reflexivity].
Qed.

Lemma C7_stream_reader_returned_witness :
  start_error (proc_stderr ["ERROR: disk full"]) = None
  /\ Forall nonempty (map with_newline ["ERROR: disk full"])
  /\ stream_exit (bytes_of (map with_newline ["ERROR: disk full"]))
       (LoopError (errorString "disk full"))
  /\ fst (ExecuteStream (host_of (proc_stderr ["ERROR: disk full"])) inst0
            "https://example.org/v" [] sys0)
     = Ok (Some (pipeReader 0), Some (errorString "disk full")).
Proof.
  assert (Hne : Forall nonempty (map with_newline ["ERROR: disk full"]))
    by (repeat constructor; discriminate).
  split; [reflexivity |]. split; [exact Hne |].
  split; [exact error_line_example |].
  exact (proj1 (proj2 (C7_stream_reader_returned
                         (host_of (proc_stderr ["ERROR: disk full"])) inst0
                         "https://example.org/v" [] sys0 eq_refl))
           "disk full" Hne error_line_example).
Defined.

(** C2: the empty query is not refused by GetVideoInfo.  For every host it
    runs the binary with the search target ytsearch: and returns what the
    run and the decoding give, never the validation error; the three other
    runners return the error "empty url" for the empty target and leave the
    system as it was. *)
Theorem C2_empty_query_runs_binary (host : Host) (inst : YTDLPInstance)
    (args : list string) (sys : Sys) :
  launched (snd (GetVideoInfo host inst EmptyString sys))
  = launched sys
    ++ [exec_Command (bPath inst)
          ["ytsearch:"; "-s"; "-O"; "%(.{id,title,thumbnail,duration})#j"]]
  /\ fst (GetVideoInfo host inst EmptyString sys)
     <> Ok (None, Some (errorString "empty url"))
  /\ Execute host inst EmptyString args sys
     = (Ok (Some (errorString "empty url")), sys)
  /\ ExecuteStdout host inst EmptyString args sys
     = (Ok (None, Some (errorString "empty url")), sys)
  /\ DumpStdout host inst EmptyString args sys
     = (Ok (EmptyString, Some (errorString "empty url")), sys).
Proof.
  split; [| split; [| split; [| split]]].
  - unfold GetVideoInfo, bind, lift, append, CombinedOutput, ret.
    cbn [app]. change ("ytsearch:" +:+ EmptyString) with "ytsearch:".
    destruct (start_error _); [reflexivity |].
    destruct (exit_error _); [reflexivity |].
    destruct (decodeVideoInfo _) as [[vi [e|]]|msg|]; reflexivity.
  - unfold GetVideoInfo, bind, lift, append, CombinedOutput, ret.
    destruct (start_error _); [discriminate |].
    destruct (exit_error _); [discriminate |].
    destruct (decodeVideoInfo _) as [[vi [e|]]|msg|]; discriminate.
  - reflexivity.
  - reflexivity.
  - reflexivity.
Qed.

(** C5 (as the code has it): for a target that is not empty, Execute runs
    the binary with the target followed by the extra arguments, and
    DumpStdout with the extra arguments followed by the target; without
    extra arguments both vectors are the target alone. *)
Theorem C5_argument_vectors (host : Host) (inst : YTDLPInstance)
    (url : string) (args : list string) (sys : Sys)
    (Hurl : url <> EmptyString) :
  launched (snd (Execute host inst url args sys))
  = launched sys ++ [exec_Command (bPath inst) (url :: args)]
  /\ launched (snd (DumpStdout host inst url args sys))
     = launched sys ++ [exec_Command (bPath inst) (args ++ [url])]
  /\ (args = [] -> args ++ [url] = url :: args /\ head (args ++ [url]) = Some url).
Proof.
  unfold Execute, DumpStdout, bind, lift, append, CombinedOutput.
  rewrite bool_decide_eq_false_2 by assumption.
  rewrite slices_Insert_front. split; [| split].
  - destruct (start_error _); [reflexivity |].
    destruct (exit_error _); reflexivity.
  - destruct (start_error _); reflexivity.
  - intros ->. split; reflexivity.
Qed.

Lemma C5_argument_vectors_witness :
  "https://example.org/v" <> EmptyString
  /\ launched (snd (DumpStdout (host_of (proc_stderr [])) inst0
                      "https://example.org/v" ["-x"; "--audio-format"] sys0))
     = launched sys0
       ++ [exec_Command (bPath inst0)
             (["-x"; "--audio-format"] ++ ["https://example.org/v"])].
Proof.
  split; [discriminate |].
  exact (proj1 (proj2 (C5_argument_vectors (host_of (proc_stderr [])) inst0
                         "https://example.org/v" ["-x"; "--audio-format"] sys0
                         ltac:(discriminate)))).
Defined.

(** C5 fails with extra arguments: DumpStdout puts the target last, so its
    vector differs from that of Execute and does not begin with the
    target. *)
Lemma C5_counterexample :
  launched (snd (Execute (host_of (proc_stderr [])) inst0
                   "https://example.org/v" ["-x"] sys0))
  = [exec_Command "/usr/bin/yt-dlp" ["https://example.org/v"; "-x"]]
  /\ launched (snd (DumpStdout (host_of (proc_stderr [])) inst0
                      "https://example.org/v" ["-x"] sys0))
     = [exec_Command "/usr/bin/yt-dlp" ["-x"; "https://example.org/v"]]
  /\ head ["-x"; "https://example.org/v"] <> Some "https://example.org/v".
Proof. split; [reflexivity | split; [reflexivity | discriminate]]. Qed.

(** ** The installer *)

(** C1: with a release listing of zero entries, DownloadLatestFromGithub
    indexes the empty list and panics; it returns no error value. *)
Theorem C1_no_releases_panics (path : string) (sys : Sys) :
  DownloadLatestFromGithub host_no_releases path sys
  = (Panic "index out of range [0] with length 0", sys).
Proof. reflexivity. Qed.

Lemma chmodMask_bits (n : Z) :
  Z.testbit chmodMask n = true -> 0 <= n < 32.
Proof.
  intros H. destruct (Z.ltb_spec n 0) as [Hn|Hn].
  - now rewrite Z.testbit_neg_r in H.
  - split; [assumption |]. destruct (Z.ltb_spec n 32) as [|Hge]; [assumption |].
    rewrite Z.bits_above_log2 in H; [discriminate | now vm_compute |].
    change (Z.log2 chmodMask) with 23. lia.
Qed.

(** Chmod with the old mode or-ed with 0111 changes exactly those bits. *)
Lemma chmod_or_exec (m : Z) :
  Z.lor (Z.ldiff m chmodMask) (Z.land (uint32 (Z.lor m 0x49)) chmodMask)
  = Z.lor m 0x49.
Proof.
  apply Z.bits_inj'. intros n Hn.
  rewrite !Z.lor_spec, Z.ldiff_spec, Z.land_spec.
  assert (He : Z.testbit 0x49 n = Z.testbit 0x49 n && Z.testbit chmodMask n).
  { rewrite <- Z.land_spec. reflexivity. }
  destruct (Z.testbit chmodMask n) eqn:Hk.
  - apply chmodMask_bits in Hk. unfold uint32.
    rewrite Z.mod_pow2_bits_low by lia. rewrite Z.lor_spec.
    destruct (Z.testbit m n), (Z.testbit 0x49 n); reflexivity.
  - rewrite andb_false_r in He. rewrite He, andb_false_r.
    destruct (Z.testbit m n); reflexivity.
Qed.

(** C8: when setExecPermission succeeds, the mode of the file is its old
    mode or-ed with 0111: every bit that was set stays set, and the execute
    bits of owner, group and other (bits 6, 3 and 0) are set. *)
Theorem C8_exec_permission (host : Host) (fpath : string) (sys sys' : Sys)
    (Hok : setExecPermission host fpath sys = (Ok None, sys')) :
  exists f,
    files sys !! fpath = Some f
    /\ files sys' !! fpath
       = Some {| mode := Z.lor (mode f) 0x49; content := content f |}
    /\ (forall i, Z.testbit (mode f) i = true
                  -> Z.testbit (Z.lor (mode f) 0x49) i = true)
    /\ Z.testbit (Z.lor (mode f) 0x49) 6 = true
    /\ Z.testbit (Z.lor (mode f) 0x49) 3 = true
    /\ Z.testbit (Z.lor (mode f) 0x49) 0 = true.
Proof.
  unfold setExecPermission, bind, os_Stat, os_Chmod, ret in Hok.
  destruct (files sys !! fpath) as [f|] eqn:Hf; [| discriminate].
  destruct (os_Chmod_error host fpath); [discriminate |].
  rewrite Hf in Hok. inversion Hok; subst; clear Hok.
  exists f. cbn [files]. rewrite lookup_insert_eq, chmod_or_exec.
  repeat split; try (rewrite Z.lor_spec; apply orb_true_r).
  intros i Hi. rewrite Z.lor_spec, Hi. reflexivity.
Qed.

Lemma C8_exec_permission_witness :
  exists f,
    files sys_readonly !! "/opt/yt-dlp" = Some f
    /\ files (snd (setExecPermission (host_of (proc_stderr [])) "/opt/yt-dlp"
                     sys_readonly)) !! "/opt/yt-dlp"
       = Some {| mode := Z.lor (mode f) 0x49; content := content f |}
    /\ (forall i, Z.testbit (mode f) i = true
                  -> Z.testbit (Z.lor (mode f) 0x49) i = true)
    /\ Z.testbit (Z.lor (mode f) 0x49) 6 = true
    /\ Z.testbit (Z.lor (mode f) 0x49) 3 = true
    /\ Z.testbit (Z.lor (mode f) 0x49) 0 = true.
Proof.
  exact (C8_exec_permission (host_of (proc_stderr [])) "/opt/yt-dlp"
           sys_readonly _ eq_refl).
Defined.

(** ** The JSON decoder *)

(** *** One step of the scanner *)

Ltac unfold_step :=
  cbv beta iota zeta delta
    [scan_step stateBeginValueOrEmpty stateBeginValue stateBeginStringOrEmpty
     stateBeginString stateEndValue stateEndTop stateInString
     stateInStringEsc stateHex stateNeg state1 state0 stateDot stateDot0
     stateE stateESign stateE0 stateLetter pushParseState popParseState
     scan_error set_step set_parseState parseState step endTop err fst snd].

Ltac unfold_step_in H :=
  cbv beta iota zeta delta
    [scan_step stateBeginValueOrEmpty stateBeginValue stateBeginStringOrEmpty
     stateBeginString stateEndValue stateEndTop stateInString
     stateInStringEsc stateHex stateNeg state1 state0 stateDot stateDot0
     stateE stateESign stateE0 stateLetter pushParseState popParseState
     scan_error set_step set_parseState parseState step endTop err fst snd] in H.

(** Case analysis on one step of the scanner, [H : scan_step s c = (s1, op)]:
    by the state function, by the top of the parse stack and by the tests on
    the byte. *)
Ltac step_inv H s :=
  destruct s as [[] ? [|[] [|? ?]] ?]; unfold_step_in H;
  repeat match type of H with
         | context [if ?b then _ else _] => destruct b eqn:?
         end;
  let H1 := fresh "Hst" in
  let H2 := fresh "Hop" in
  apply pair_equal_spec in H as [H1 H2]; try discriminate H2; subst.

Ltac wf_simpl H := unfold wf in H; cbn [step parseState head] in H.

(** Inside an open object or array no step reports the end of the
    top-level value, and the parse stack empties only on a closing brace or
    bracket. *)
Lemma step_nonempty (s : scanner) (c : ascii) (s' : scanner) (op : opcode) :
  parseState s <> [] -> wf s -> scan_step s c = (s', op) ->
  op <> scanEnd
  /\ (parseState s' = [] -> op = scanEndObject \/ op = scanEndArray).
Proof.
  intros Hne Hwf H.
  step_inv H s; wf_simpl Hwf; cbn [parseState step] in *;
    try (now destruct Hne); try discriminate Hwf;
    (split; [discriminate | intros Hp; try discriminate Hp; auto]).
Qed.

(** Every step keeps the scanner in a state of [wf]. *)
Lemma step_wf (s : scanner) (c : ascii) (s' : scanner) (op : opcode) :
  wf s -> scan_step s c = (s', op) -> wf s'.
Proof.
  intros Hwf H.
  step_inv H s; wf_simpl Hwf; try discriminate Hwf;
    unfold wf; cbn [parseState step head]; try reflexivity; exact I.
Qed.

(** After a closing brace or bracket the space that readValue feeds to
    stateEndValue leaves the scanner as it is. *)
Lemma pop_space (s : scanner) (c : ascii) (s1 : scanner) (op : opcode) :
  scan_step s c = (s1, op) -> op = scanEndObject \/ op = scanEndArray ->
  stateEndValue s1 " "
  = (s1, match parseState s1 with [] => scanEnd | _ => scanSkipSpace end).
Proof.
  intros H Ho.
  step_inv H s; destruct Ho as [Ho|Ho]; try discriminate Ho; reflexivity.
Qed.

(** Where some byte ends the top-level value, a space does too. *)
Lemma scanEnd_space (s : scanner) (c : ascii) (s1 : scanner) :
  wf s -> scan_step s c = (s1, scanEnd) -> snd (scan_step s " ") = scanEnd.
Proof.
  intros Hwf H. step_inv H s; wf_simpl Hwf; try discriminate Hwf; reflexivity.
Qed.

(** *** What Decoder.readValue accepts *)

Lemma accepts_cons (s : scanner) (c : ascii) (rest : string) :
  accepts s (String c rest)
  = continues (fst (scan_step s c)) (snd (scan_step s c)) rest.
Proof. cbn [accepts]. now destruct (scan_step s c) as [s1 []]. Qed.

Lemma accepts_step (s : scanner) (c : ascii) (rest : string) s1 op :
  scan_step s c = (s1, op) -> accepts s (String c rest) -> continues s1 op rest.
Proof. intros E. rewrite accepts_cons, E. exact id. Qed.

(** What readValue returns is the length of a prefix that the scanner
    accepts. *)
Lemma readValue_accepts (rest : string) :
  forall s k whole n,
    wf s -> readValue_from s rest k whole = inl n ->
    exists pre post,
      rest = pre +:+ post /\ n = (k + String.length pre)%nat /\ accepts s pre.
Proof.
  induction rest as [|c rest IH]; intros s k whole n Hwf H; cbn [readValue_from] in H.
  - case_bool_decide as Hend; [| destruct (nonSpace whole); discriminate].
    inversion H; subst. exists EmptyString, EmptyString.
    repeat split; [simpl; lia | exact Hend].
  - destruct (scan_step s c) as [s1 op] eqn:E.
    pose proof (step_wf _ _ _ _ Hwf E) as Hwf1.
    assert (Hdefault :
      readValue_from s1 rest (S k) whole = inl n ->
      (match op with
       | scanEnd | scanError | scanEndObject | scanEndArray => False
       | _ => True
       end) ->
      exists pre post,
        String c rest = pre +:+ post /\ n = (k + String.length pre)%nat
        /\ accepts s pre).
    { intros H' Hop. destruct (IH _ _ _ _ Hwf1 H') as (pre & post & -> & -> & Ha).
      exists (String c pre), post. repeat split; [simpl; lia |].
      cbn [accepts]. rewrite E. destruct op; try exact Ha; destruct Hop. }
    destruct op; try (apply Hdefault; [exact H | exact I]).
    + rewrite (pop_space _ _ _ _ E) in H by auto.
      destruct (parseState s1) eqn:Hps.
      * rewrite bool_decide_eq_true_2 in H by reflexivity. inversion H; subst.
        exists (String c EmptyString), rest. repeat split; [simpl; lia |].
        cbn [accepts]. now rewrite E, Hps.
      * rewrite bool_decide_eq_false_2 in H by discriminate.
        destruct (IH _ _ _ _ Hwf1 H) as (pre & post & -> & -> & Ha).
        exists (String c pre), post. repeat split; [simpl; lia |].
        cbn [accepts]. now rewrite E, Hps.
    + rewrite (pop_space _ _ _ _ E) in H by auto.
      destruct (parseState s1) eqn:Hps.
      * rewrite bool_decide_eq_true_2 in H by reflexivity. inversion H; subst.
        exists (String c EmptyString), rest. repeat split; [simpl; lia |].
        cbn [accepts]. now rewrite E, Hps.
      * rewrite bool_decide_eq_false_2 in H by discriminate.
        destruct (IH _ _ _ _ Hwf1 H) as (pre & post & -> & -> & Ha).
        exists (String c pre), post. repeat split; [simpl; lia |].
        cbn [accepts]. now rewrite E, Hps.
    + inversion H; subst. exists EmptyString, (String c rest).
      repeat split; [simpl; lia |]. exact (scanEnd_space _ _ _ Hwf E).
    + discriminate.
Qed.

Lemma skipSpace_isSpace (s : scanner) (c : ascii) (s1 : scanner) :
  scan_step s c = (s1, scanSkipSpace) -> isSpace c = true.
Proof. intros H. step_inv H s; reflexivity. Qed.

Lemma space_stable_begin (s : scanner) :
  step s = st_BeginValue \/ step s = st_BeginValueOrEmpty
  \/ step s = st_BeginString \/ step s = st_BeginStringOrEmpty ->
  space_stable s.
Proof.
  intros H c Hc. destruct s as [st e ps er]. cbn [step] in H.
  destruct H as [->|[->|[->| ->]]]; unfold_step; now rewrite Hc.
Qed.

Lemma space_stable_end (s : scanner) :
  step s = st_EndValue -> parseState s <> [] -> space_stable s.
Proof.
  intros H Hne c Hc. destruct s as [st e [|p ps] er]; [now destruct Hne |].
  cbn [step] in H. subst st. unfold_step. now rewrite Hc.
Qed.

Lemma stateEndValue_set_step (s : scanner) (f : stepfn) (c : ascii) :
  stateEndValue (set_step s f) c = stateEndValue s c.
Proof. destruct s as [st e [|[] [|? ?]] er]; reflexivity. Qed.

(** *** String literals *)

Lemma isHex_plain (h : ascii) : isHex h = true -> plain h = true.
Proof.
  unfold isHex, plain, between, code.
  destruct h as [[] [] [] [] [] [] [] []]; vm_compute; intros H; congruence.
Qed.

Lemma rescan_string_plain (c : ascii) (rest : string) (i : nat) :
  plain c = true -> rescan_string (String c rest) i = rescan_string rest (S i).
Proof.
  unfold plain. intros H. cbn [rescan_string].
  destruct (Ascii.eqb c backslash); [now rewrite andb_false_r in H |].
  destruct (Ascii.eqb c dquote); [discriminate | reflexivity].
Qed.

Lemma rescan_string_esc (x : ascii) (rest : string) (i : nat) :
  rescan_string (String backslash (String x rest)) i
  = rescan_string rest (S (S i)).
Proof. reflexivity. Qed.

Ltac acc_step H :=
  cbn [accepts] in H; unfold scan_step, set_step in H;
  cbn [step endTop parseState err] in H.

Ltac norm H := unfold set_step in H; cbn [step endTop parseState err] in H.

(** A string literal that the scanner accepts: rescanLiteral finds its
    closing quote, and its contents are a body of [body_ok]. *)
Lemma string_tail (n : nat) :
  forall rest s,
    (String.length rest <= n)%nat -> step s = st_InString -> accepts s rest ->
    exists body rest',
      rest = body +:+ String dquote rest' /\ body_ok body
      /\ (forall i, rescan_string rest i = (i + String.length body + 1)%nat)
      /\ accepts (set_step s st_EndValue) rest'.
Proof.
  induction n as [|n IH]; intros rest s Hlen Hst Ha;
    destruct s as [st e ps er]; cbn [step] in Hst; subst st;
    destruct rest as [|c rest]; try (cbn in Hlen; lia);
    try (cbn in Ha; discriminate Ha).
  acc_step Ha. unfold stateInString in Ha. cbn [String.length] in Hlen.
  destruct (Ascii.eqb c dquote) eqn:Eq.
  { apply Ascii.eqb_eq in Eq. subst c. exists EmptyString, rest.
    repeat split; [constructor | | exact Ha].
    intros i. cbn. f_equal. lia. }
  destruct (Ascii.eqb c backslash) eqn:Eb.
  { apply Ascii.eqb_eq in Eb. subst c.
    destruct rest as [|x rest]; [cbn in Ha; discriminate Ha |].
    acc_step Ha. unfold stateInStringEsc in Ha.
    fold (simple_esc x) in Ha. cbn [String.length] in Hlen.
    destruct (simple_esc x) eqn:Es.
    { norm Ha. destruct (IH rest (mkScanner st_InString e ps er) ltac:(lia) eq_refl Ha) as (body & rest' & -> & Hb & Hr & Ha').
      exists (String backslash (String x body)), rest'.
      repeat split; [now constructor | | exact Ha'].
      intros i. rewrite rescan_string_esc, Hr. cbn. lia. }
    destruct (Ascii.eqb x "u") eqn:Eu; [| destruct Ha].
    apply Ascii.eqb_eq in Eu. subst x.
    destruct rest as [|h1 rest]; [cbn in Ha; discriminate Ha |].
    acc_step Ha. unfold stateHex in Ha.
    destruct (isHex h1) eqn:E1; [| destruct Ha].
    destruct rest as [|h2 rest]; [cbn in Ha; discriminate Ha |].
    acc_step Ha. unfold stateHex in Ha.
    destruct (isHex h2) eqn:E2; [| destruct Ha].
    destruct rest as [|h3 rest]; [cbn in Ha; discriminate Ha |].
    acc_step Ha. unfold stateHex in Ha.
    destruct (isHex h3) eqn:E3; [| destruct Ha].
    destruct rest as [|h4 rest]; [cbn in Ha; discriminate Ha |].
    acc_step Ha. unfold stateHex in Ha.
    destruct (isHex h4) eqn:E4; [| destruct Ha].
    cbn [String.length] in Hlen. norm Ha.
    destruct (IH rest (mkScanner st_InString e ps er) ltac:(lia) eq_refl Ha) as (body & rest' & -> & Hb & Hr & Ha').
    exists (String backslash (String "u"
              (String h1 (String h2 (String h3 (String h4 body)))))), rest'.
    repeat split; [now constructor | | exact Ha'].
    intros i. rewrite rescan_string_esc.
    rewrite !rescan_string_plain by now apply isHex_plain.
    rewrite Hr. cbn. lia. }
  destruct (code c <? 32) eqn:Ec; [destruct Ha |].
  destruct (IH rest (mkScanner st_InString e ps er) ltac:(lia) eq_refl Ha) as (body & rest' & -> & Hb & Hr & Ha').
  exists (String c body), rest'.
  assert (Hp : plain c = true) by (unfold plain; now rewrite Eq, Eb, Ec).
  repeat split; [now constructor | | exact Ha'].
  intros i. rewrite rescan_string_plain by assumption. rewrite Hr. cbn. lia.
Qed.

Lemma body_ok_high (c : ascii) (b : string) :
  body_ok (String c b) -> 0x80 <= code c -> body_ok b.
Proof.
  intros H Hc. inversion H; subst; [assumption | |];
    vm_compute in Hc; now destruct Hc.
Qed.

Lemma first_lo (p0 : Z) (sz : nat) (lo hi : Z) :
  first p0 = f_seq sz lo hi -> 0x80 <= lo /\ (2 <= sz <= 4)%nat.
Proof.
  unfold first. repeat case_match; intros Hf; inversion Hf; subst; lia.
Qed.

Lemma outside_false (lo hi b : Z) : outside lo hi b = false -> lo <= b.
Proof. unfold outside. intros H. apply orb_false_iff in H as [H _]. lia. Qed.

(** The bytes that DecodeRune consumes after a byte of 0x80 or more are
    bytes of 0x80 or more. *)
Lemma DecodeRune_body (c : ascii) (b : string) :
  body_ok (String c b) -> 0x80 <= code c ->
  exists r b',
    (1 <= snd (DecodeRune (String c b)))%nat
    /\ slice_from (snd (DecodeRune (String c b))) (String c b) = Some b'
    /\ body_ok b' /\ DecodeRune (String c b) = (r, snd (DecodeRune (String c b))).
Proof.
  intros Hb Hc. pose proof (body_ok_high _ _ Hb Hc) as Hb1.
  assert (Hone : forall r : Z, exists (r0 : Z) b',
             (1 <= snd (r, 1%nat))%nat
             /\ slice_from (snd (r, 1%nat)) (String c b) = Some b'
             /\ body_ok b' /\ (r, 1%nat) = (r0, snd (r, 1%nat))).
  { intros r. exists r, b. cbn. repeat split; [lia | assumption]. }
  unfold DecodeRune.
  destruct (first (code c)) as [| |sz lo hi] eqn:Ef; [apply Hone | apply Hone |].
  destruct (first_lo _ _ _ _ Ef) as [Hlo Hsz].
  destruct (_ <? sz)%nat; [apply Hone |].
  destruct b as [|c1 b]; [apply Hone |].
  destruct (outside lo hi (code c1)) eqn:E1; [apply Hone |].
  apply outside_false in E1.
  pose proof (body_ok_high _ _ Hb1 ltac:(lia)) as Hb2.
  destruct (sz <=? 2)%nat.
  { eexists _, b. cbn. repeat split; [lia | assumption]. }
  destruct b as [|c2 b]; [apply Hone |].
  destruct (outside 128 191 (code c2)) eqn:E2; [apply Hone |].
  apply outside_false in E2.
  pose proof (body_ok_high _ _ Hb2 ltac:(lia)) as Hb3.
  destruct (sz <=? 3)%nat.
  { eexists _, b. cbn. repeat split; [lia | assumption]. }
  destruct b as [|c3 b]; [apply Hone |].
  destruct (outside 128 191 (code c3)) eqn:E3; [apply Hone |].
  apply outside_false in E3.
  pose proof (body_ok_high _ _ Hb3 ltac:(lia)) as Hb4.
  eexists _, b. cbn. repeat split; [lia | assumption].
Qed.

Lemma hexval_isHex (h : ascii) :
  isHex h = true -> exists v, hexval h = Some v /\ 0 <= v.
Proof.
  unfold isHex, hexval. intros H.
  destruct (between "0" "9" h) eqn:E1.
  { eexists; split; [reflexivity |]. unfold between in E1.
    apply andb_true_iff in E1 as [E1 _]. lia. }
  destruct (between "a" "f" h) eqn:E2.
  { eexists; split; [reflexivity |]. unfold between in E2.
    apply andb_true_iff in E2 as [E2 _]. lia. }
  destruct (between "A" "F" h) eqn:E3; [| discriminate].
  eexists; split; [reflexivity |]. unfold between in E3.
  apply andb_true_iff in E3 as [E3 _]. lia.
Qed.

Lemma getu4_escape (h1 h2 h3 h4 : ascii) (b : string) :
  isHex h1 = true -> isHex h2 = true -> isHex h3 = true -> isHex h4 = true ->
  0 <= getu4 (String backslash (String "u"
                (String h1 (String h2 (String h3 (String h4 b)))))).
Proof.
  intros H1 H2 H3 H4. cbn.
  destruct (hexval_isHex _ H1) as (v1 & -> & ?).
  destruct (hexval_isHex _ H2) as (v2 & -> & ?).
  destruct (hexval_isHex _ H3) as (v3 & -> & ?).
  destruct (hexval_isHex _ H4) as (v4 & -> & ?). nia.
Qed.

Lemma getu4_inv (s : string) :
  0 <= getu4 s ->
  exists h1 h2 h3 h4 b,
    s = String backslash (String "u"
          (String h1 (String h2 (String h3 (String h4 b))))).
Proof.
  unfold getu4.
  destruct s as [|b0 [|u [|h1 [|h2 [|h3 [|h4 b]]]]]]; try (intros H; lia).
  destruct (Ascii.eqb b0 backslash) eqn:Eb; [| cbn; intros H; lia].
  destruct (Ascii.eqb u "u") eqn:Eu; [| cbn; intros H; lia].
  apply Ascii.eqb_eq in Eb, Eu. subst. intros _. now eexists _, _, _, _, _.
Qed.

Lemma body_ok_escape_u (h1 h2 h3 h4 : ascii) (b : string) :
  body_ok (String backslash (String "u"
             (String h1 (String h2 (String h3 (String h4 b)))))) ->
  body_ok b.
Proof.
  intros H. inversion H; subst; [discriminate | discriminate | assumption].
Qed.

Lemma utf16_DecodeRune_valid (r1 r2 : Z) :
  (utf16_DecodeRune r1 r2 =? RuneError) = false -> 0 <= r2.
Proof.
  unfold utf16_DecodeRune.
  destruct ((0xD800 <=? r1) && (r1 <? 0xDC00) && (0xDC00 <=? r2)
            && (r2 <? 0xE000)) eqn:E.
  - intros _. apply andb_true_iff in E as [E _].
    apply andb_true_iff in E as [_ E]. lia.
  - rewrite Z.eqb_refl. discriminate.
Qed.

(** On an accepted string body every round of unquoteBytes succeeds and
    leaves an accepted body. *)
Lemma unquote_at_ok (c : ascii) (b : string) :
  body_ok (String c b) ->
  exists out n b',
    unquote_at (String c b) = Some (out, n) /\ (1 <= n)%nat
    /\ slice_from n (String c b) = Some b' /\ body_ok b'.
Proof.
  intros H. inversion H as [|c' b0 Hp Hb|e b0 He Hb|h1 h2 h3 h4 b0 H1 H2 H3 H4 Hb];
    subst.
  - unfold plain in Hp. apply andb_true_iff in Hp as [Hp Hc].
    apply andb_true_iff in Hp as [Hq Hbs].
    apply negb_true_iff in Hq, Hbs, Hc.
    unfold unquote_at. rewrite Hbs, Hq, Hc. cbn [orb].
    destruct (code c <? 128) eqn:E.
    + exists (String c EmptyString), 1%nat, b. now repeat split.
    + destruct (DecodeRune_body c b H ltac:(lia)) as (r & b' & Hn & Hs & Hb' & Hd).
      rewrite Hd. now eexists _, _, b'.
  - unfold unquote_at. rewrite Ascii.eqb_refl. unfold simple_esc in He.
    assert (Hs : slice_from 2 (String backslash (String e b0)) = Some b0)
      by reflexivity.
    repeat match goal with
           | |- context [if ?x then _ else _] =>
               destruct x eqn:?;
               [now eexists _, 2%nat, b0; repeat split; auto; lia |]
           end.
    repeat match goal with
           | Hx : _ || _ = false |- _ => apply orb_false_iff in Hx as [? ?]
           end.
    repeat match goal with
           | Hx : Ascii.eqb _ _ = false |- _ => rewrite Hx in He
           end.
    discriminate He.
  - pose proof (getu4_escape h1 h2 h3 h4 b0 H1 H2 H3 H4) as Hg.
    set (s := String backslash (String "u"
                (String h1 (String h2 (String h3 (String h4 b0)))))) in *.
    assert (Hs6 : slice_from 6 s = Some b0) by reflexivity.
    unfold unquote_at. subst s. cbv beta iota zeta. rewrite Ascii.eqb_refl.
    change (Ascii.eqb "u" dquote) with false.
    change (Ascii.eqb "u" backslash) with false.
    change (Ascii.eqb "u" "/") with false.
    change (Ascii.eqb "u" "'") with false.
    change (Ascii.eqb "u" "b") with false.
    change (Ascii.eqb "u" "f") with false.
    change (Ascii.eqb "u" "n") with false.
    change (Ascii.eqb "u" "r") with false.
    change (Ascii.eqb "u" "t") with false.
    change (Ascii.eqb "u" "u") with true. cbn [orb].
    set (s := String backslash (String "u"
                (String h1 (String h2 (String h3 (String h4 b0)))))) in *.
    destruct (getu4 s <? 0) eqn:En; [lia |].
    assert (Hsix : forall out : string, exists (out0 : string) n b',
               Some (out, 6%nat) = Some (out0, n) /\ (1 <= n)%nat
               /\ slice_from n s = Some b' /\ body_ok b').
    { intros out. exists out, 6%nat, b0. repeat split; [lia | assumption]. }
    destruct (IsSurrogate (getu4 s)); [| apply Hsix].
    rewrite Hs6. cbn [default from_option id].
    destruct (negb _) eqn:Ed; [| apply Hsix].
    apply negb_true_iff, utf16_DecodeRune_valid, getu4_inv in Ed
      as (k1 & k2 & k3 & k4 & b1 & ->).
    apply body_ok_escape_u in Hb. eexists _, 12%nat, b1.
    repeat split; [lia | assumption].
Qed.

Lemma unquote_loop_ok (w : string) :
  forall k w', slice_from k w = Some w' -> body_ok w' ->
               is_Some (unquote_loop k w).
Proof.
  induction w as [|c w IH]; intros k w' Hs Hb; [now eexists |].
  destruct k as [|k]; cbn [unquote_loop].
  - cbn in Hs. inversion Hs; subst w'.
    destruct (unquote_at_ok c w Hb) as (out & n & b' & -> & Hn & Hs' & Hb').
    destruct n as [|n]; [lia |]. cbn [slice_from Nat.pred] in *.
    destruct (IH n b' Hs' Hb') as [r ->]. now eexists.
  - cbn in Hs. exact (IH k w' Hs Hb).
Qed.

Lemma get_append_last (b : string) (c : ascii) (rest : string) :
  String.get (String.length b) (b +:+ String c rest) = Some c.
Proof. induction b; [reflexivity | exact IHb]. Qed.

Lemma unquoteBytes_ok (body : string) :
  body_ok body ->
  is_Some (unquoteBytes (String dquote (body +:+ String dquote EmptyString))).
Proof.
  intros Hb. unfold unquoteBytes, last_byte.
  cbn [String.length Nat.pred]. rewrite Ascii.eqb_refl.
  rewrite length_append. cbn [String.length].
  replace (String.length body + 1)%nat with (S (String.length body)) by lia.
  cbn [Nat.pred Nat.leb String.get].
  rewrite get_append_last, bool_decide_eq_true_2 by reflexivity.
  cbn [andb]. rewrite slice_to_append. cbn.
  exact (unquote_loop_ok body 0 body eq_refl Hb).
Qed.

(** *** Number and keyword literals *)

Lemma after_set_step (s : scanner) (f : stepfn) (c : ascii) (rest : string) :
  after (set_step s f) c rest = after s c rest.
Proof. unfold after. now rewrite stateEndValue_set_step. Qed.

Lemma literal_end_set_step (s : scanner) (f : stepfn) (rest : string) :
  literal_end (set_step s f) rest -> literal_end s rest.
Proof.
  intros [[-> H]|(c & r & -> & H)]; [left; now split | right].
  exists c, r. split; [reflexivity |]. now rewrite after_set_step in H.
Qed.

Lemma accepts_eof_empty (s : scanner) :
  wf s -> accepts s EmptyString -> parseState s = [].
Proof.
  intros Hwf H. cbn in H. destruct (parseState s) eqn:Hps; [reflexivity |].
  destruct (scan_step s " ") as [s1 op] eqn:E.
  destruct (step_nonempty s " " s1 op) as [Hne _]; auto.
  - rewrite Hps. discriminate.
  - now destruct Hne.
Qed.

Lemma accepts_end_value (s : scanner) (rest : string) :
  accepts (set_step s st_EndValue) rest -> literal_end s rest.
Proof.
  intros H. apply literal_end_set_step with (f := st_EndValue).
  destruct rest as [|c rest].
  - left. split; [reflexivity |]. now apply accepts_eof_empty.
  - right. exists c, rest. split; [reflexivity |].
    rewrite accepts_cons in H. exact H.
Qed.

Lemma number_byte_cases (c : ascii) :
  isNumberByte c = true ->
  c = "0"%char \/ c = "1"%char \/ c = "2"%char \/ c = "3"%char \/ c = "4"%char
  \/ c = "5"%char \/ c = "6"%char \/ c = "7"%char \/ c = "8"%char
  \/ c = "9"%char \/ c = "."%char \/ c = "e"%char \/ c = "E"%char
  \/ c = "+"%char \/ c = "-"%char.
Proof.
  destruct c as [[] [] [] [] [] [] [] []]; vm_compute; intros H;
    try discriminate H; tauto.
Qed.

Lemma end_value_number_byte (s : scanner) (c : ascii) (rest : string) :
  isNumberByte c = true -> ~ after s c rest.
Proof.
  intros Hc. unfold after.
  destruct s as [st e [|[] [|? ?]] er];
    destruct (number_byte_cases c Hc)
      as [->|[->|[->|[->|[->|[->|[->|[->|[->|[->|[->|[->|[->|[->| ->]]]]]]]]]]]]]];
    cbn; exact id.
Qed.

Lemma between19_digit (c : ascii) :
  between "1" "9" c = true -> isDigit c = true.
Proof.
  unfold isDigit, between. intros H. apply andb_true_iff in H as [H1 H2].
  apply andb_true_iff. split; [| assumption].
  change (code "0") with 48. change (code "1") with 49 in H1. lia.
Qed.

Ltac number_byte :=
  unfold isNumberByte;
  repeat match goal with
         | H : _ || _ = true |- _ => apply orb_true_iff in H as [H|H]
         | H : Ascii.eqb _ _ = true |- _ => apply Ascii.eqb_eq in H; subst
         | H : between "1" "9" _ = true |- _ => apply between19_digit in H
         | H : isDigit _ = true |- _ => rewrite H
         end;
  reflexivity.

Lemma num_step (s : scanner) (c : ascii) (s1 : scanner) (op : opcode) :
  num_state (step s) = true -> scan_step s c = (s1, op) ->
  (isNumberByte c = true /\ op = scanContinue
   /\ exists f, num_state f = true /\ s1 = set_step s f)
  \/ (s1, op) = stateEndValue s c
  \/ op = scanError.
Proof.
  intros Hn H.
  destruct s as [st e ps er]; destruct st; try discriminate Hn;
    cbv beta iota zeta delta
      [scan_step stateNeg state1 state0 stateDot stateDot0 stateE stateESign
       stateE0 scan_error set_step step endTop parseState err] in H;
    repeat match type of H with
           | context [if ?b then _ else _] => destruct b eqn:?
           end;
    first
      [ right; left; rewrite <- H; reflexivity
      | right; right; now inversion H
      | left; split;
        [number_byte
        | apply pair_equal_spec in H as [<- <-]; split; [reflexivity |];
          eexists; split; [| reflexivity]; reflexivity ] ].
Qed.

(** A number literal that the scanner accepts: rescanLiteral stops where
    the scanner leaves the number. *)
Lemma number_tail (rest : string) :
  forall s,
    num_state (step s) = true -> accepts s rest ->
    exists lit rest',
      rest = lit +:+ rest'
      /\ (forall i, rescan_number rest i = (i + String.length lit)%nat)
      /\ literal_end s rest'.
Proof.
  induction rest as [|c rest IH]; intros s Hn Ha.
  - exists EmptyString, EmptyString. repeat split; [intros i; cbn; lia |].
    left. split; [reflexivity |]. apply accepts_eof_empty; [| exact Ha].
    unfold wf. now destruct (step s).
  - destruct (scan_step s c) as [s1 op] eqn:E.
    pose proof (accepts_step _ _ _ _ _ E Ha) as Hc.
    destruct (num_step _ _ _ _ Hn E) as [(Hb & -> & f & Hf & ->)|[Hs| ->]].
    + cbn [continues] in Hc.
      destruct (IH (set_step s f) Hf Hc) as (lit & rest' & -> & Hr & He).
      exists (String c lit), rest'. repeat split.
      * intros i. cbn [rescan_number]. rewrite Hb, Hr. cbn. lia.
      * now apply literal_end_set_step in He.
    + exists EmptyString, (String c rest). repeat split.
      * intros i. cbn [rescan_number].
        destruct (isNumberByte c) eqn:Hb; [| cbn; lia].
        exfalso. apply (end_value_number_byte s c rest Hb).
        unfold after. now rewrite <- Hs.
      * right. exists c, rest. split; [reflexivity |].
        unfold after. now rewrite <- Hs.
    + destruct Hc.
Qed.

(** The literals true, false and null: the scanner reads the three or
    four letters that rescanLiteral steps over. *)
Lemma keyword_tail (s : scanner) (rest : string) :
  accepts s rest ->
  forall n,
    (step s = st_T /\ n = 3%nat) \/ (step s = st_N /\ n = 3%nat)
    \/ (step s = st_F /\ n = 4%nat) ->
    exists lit rest',
      rest = lit +:+ rest' /\ String.length lit = n
      /\ accepts (set_step s st_EndValue) rest'.
Proof.
  intros Ha n Hs. destruct s as [st e ps er]. cbn [step] in Hs.
  destruct Hs as [[-> ->]|[[-> ->]|[-> ->]]];
    repeat (destruct rest as [|? rest]; [cbn in Ha; discriminate Ha |];
            acc_step Ha; unfold stateLetter in Ha;
            match type of Ha with
            | context [if ?b then _ else _] =>
                destruct b; [| now destruct Ha]
            end; norm Ha);
    [exists (String a (String a0 (String a1 EmptyString))), rest
    |exists (String a (String a0 (String a1 EmptyString))), rest
    |exists (String a (String a0 (String a1 (String a2 EmptyString)))), rest];
    repeat split; exact Ha.
Qed.

Lemma begin_literal (s0 : scanner) (c0 : ascii) (s : scanner) :
  scan_step s0 c0 = (s, scanBeginLiteral) ->
  s = set_step s0 (step s)
  /\ ((c0 = dquote /\ step s = st_InString)
      \/ (c0 = "-"%char /\ step s = st_Neg)
      \/ (c0 = "0"%char /\ step s = st_0)
      \/ (c0 = "t"%char /\ step s = st_T)
      \/ (c0 = "f"%char /\ step s = st_F)
      \/ (c0 = "n"%char /\ step s = st_N)
      \/ (between "1" "9" c0 = true /\ step s = st_1)).
Proof.
  intros H. step_inv H s0; (split; [reflexivity |]);
    repeat match goal with
           | Hx : Ascii.eqb _ _ = true |- _ => apply Ascii.eqb_eq in Hx; subst
           end;
    cbn [step]; tauto.
Qed.

Ltac compute_tests :=
  repeat match goal with
         | |- context [Ascii.eqb ?a ?b] =>
             let v := eval vm_compute in (Ascii.eqb a b) in
             change (Ascii.eqb a b) with v
         | |- context [isDigit ?a] =>
             let v := eval vm_compute in (isDigit a) in
             change (isDigit a) with v
         end; cbn [orb].

(** Every literal: rescanLiteral finds the end that the scanner found,
    and the bytes of the literal are good for literalStore. *)
Lemma literal_tail (s0 : scanner) (c0 : ascii) (s : scanner) (rest : string) :
  scan_step s0 c0 = (s, scanBeginLiteral) -> accepts s rest ->
  exists lit rest',
    rest = lit +:+ rest'
    /\ (forall i, rescan c0 rest i = (i + String.length lit)%nat)
    /\ good_item (String c0 lit)
    /\ literal_end s rest'.
Proof.
  intros H Ha. destruct (begin_literal _ _ _ H) as [_ Hc]. unfold rescan.
  assert (Hgood : forall c lit,
            Ascii.eqb c dquote = false ->
            (Ascii.eqb c "n" = true \/ Ascii.eqb c "t" = true
             \/ Ascii.eqb c "f" = true \/ Ascii.eqb c "-" = true
             \/ isDigit c = true) ->
            good_item (String c lit)).
  { intros c lit Hq Hk. exists c, lit. split; [reflexivity |].
    split; [congruence | tauto]. }
  destruct Hc as [[-> Hs]|[[-> Hs]|[[-> Hs]|[[-> Hs]|[[-> Hs]|[[-> Hs]|[Hb Hs]]]]]]].
  - destruct (string_tail (String.length rest) rest s (le_n _) Hs Ha)
      as (body & rest' & -> & Hb & Hr & Ha').
    exists (body +:+ String dquote EmptyString), rest'.
    rewrite append_assoc. split; [reflexivity |]. split; [| split].
    + intros i. rewrite Ascii.eqb_refl, Hr, length_append. cbn. lia.
    + eexists _, _. split; [reflexivity |]. split; [| now left].
      intros _. now apply unquoteBytes_ok.
    + now apply accepts_end_value.
  - destruct (number_tail rest s ltac:(now rewrite Hs) Ha)
      as (lit & rest' & -> & Hr & He).
    exists lit, rest'. compute_tests.
    split; [reflexivity | split; [exact Hr | split; [| exact He]]].
    apply Hgood; [reflexivity | tauto].
  - destruct (number_tail rest s ltac:(now rewrite Hs) Ha)
      as (lit & rest' & -> & Hr & He).
    exists lit, rest'. compute_tests.
    split; [reflexivity | split; [exact Hr | split; [| exact He]]].
    apply Hgood; [reflexivity | tauto].
  - destruct (keyword_tail s rest Ha 3%nat ltac:(tauto))
      as (lit & rest' & -> & Hl & Ha').
    exists lit, rest'. compute_tests.
    split; [reflexivity | split; [intros i; lia | split]].
    + apply Hgood; [reflexivity | tauto].
    + now apply accepts_end_value.
  - destruct (keyword_tail s rest Ha 4%nat ltac:(tauto))
      as (lit & rest' & -> & Hl & Ha').
    exists lit, rest'. compute_tests.
    split; [reflexivity | split; [intros i; lia | split]].
    + apply Hgood; [reflexivity | tauto].
    + now apply accepts_end_value.
  - destruct (keyword_tail s rest Ha 3%nat ltac:(tauto))
      as (lit & rest' & -> & Hl & Ha').
    exists lit, rest'. compute_tests.
    split; [reflexivity | split; [intros i; lia | split]].
    + apply Hgood; [reflexivity | tauto].
    + now apply accepts_end_value.
  - destruct (number_tail rest s ltac:(now rewrite Hs) Ha)
      as (lit & rest' & -> & Hr & He).
    pose proof (between19_digit _ Hb) as Hd.
    assert (Hq : Ascii.eqb c0 dquote = false).
    { destruct (Ascii.eqb c0 dquote) eqn:E; [| reflexivity].
      apply Ascii.eqb_eq in E. subst c0. discriminate Hb. }
    exists lit, rest'. rewrite Hq, Hd. cbn [orb].
    split; [reflexivity | split; [exact Hr | split; [| exact He]]].
    apply Hgood; [assumption | tauto].
Qed.

(** *** The second pass: positions, white space, literals *)

Lemma rest_of_at (d : decodeState) (pre rest : string) :
  at_ d pre rest -> rest_of d = rest.
Proof.
  intros [Hd Ho]. unfold rest_of. now rewrite Hd, Ho, slice_from_append.
Qed.

Lemma get_length_None (s : string) : String.get (String.length s) s = None.
Proof. induction s as [|c s IH]; [reflexivity | exact IH]. Qed.

Lemma at_snoc (pre : string) (c : ascii) (rest : string) :
  (pre +:+ String c EmptyString) +:+ rest = pre +:+ String c rest.
Proof. now rewrite append_assoc. Qed.

Lemma length_snoc (pre : string) (c : ascii) :
  String.length (pre +:+ String c EmptyString) = S (String.length pre).
Proof. rewrite length_append. cbn. lia. Qed.

Lemma scanWhile_from_spaces (rest : string) :
  forall s i,
    space_stable s -> accepts s rest ->
    exists sp c rest' s1 op,
      rest = sp +:+ String c rest'
      /\ isSpace c = false
      /\ scanWhile_from s rest i scanSkipSpace
         = (s1, (i + String.length sp + 1)%nat, op)
      /\ scan_step s c = (s1, op)
      /\ continues s1 op rest'.
Proof.
  induction rest as [|c rest IH]; intros s i Hst Ha.
  - cbn in Ha. rewrite (Hst " "%char eq_refl) in Ha. discriminate Ha.
  - destruct (isSpace c) eqn:Hc.
    + pose proof (Hst c Hc) as E. pose proof (accepts_step _ _ _ _ _ E Ha) as Ha'.
      cbn [continues] in Ha'.
      destruct (IH s (S i) Hst Ha') as (sp & c' & rest' & s1 & op & -> & Hc' & Hw & E' & Hk).
      exists (String c sp), c', rest', s1, op.
      split; [reflexivity |]. split; [assumption |]. split; [| now split].
      cbn [scanWhile_from]. rewrite E, bool_decide_eq_true_2 by reflexivity.
      rewrite Hw. cbn [String.length]. do 2 f_equal. lia.
    + destruct (scan_step s c) as [s1 op] eqn:E.
      exists EmptyString, c, rest, s1, op.
      split; [reflexivity |]. split; [assumption |].
      split; [| split; [exact E | exact (accepts_step _ _ _ _ _ E Ha)]].
      cbn [scanWhile_from]. rewrite E.
      rewrite bool_decide_eq_false_2.
      * cbn. do 2 f_equal. lia.
      * intros ->. apply skipSpace_isSpace in E. congruence.
Qed.

(** scanWhile(scanSkipSpace) stops on the first byte that is not white
    space. *)
Lemma scanWhile_spec (d : decodeState) (pre rest : string) :
  at_ d pre rest -> space_stable (scan d) -> accepts (scan d) rest ->
  exists sp c rest',
    rest = sp +:+ String c rest'
    /\ isSpace c = false
    /\ at_ (scanWhile d scanSkipSpace) (pre +:+ sp +:+ String c EmptyString) rest'
    /\ scan_step (scan d) c
       = (scan (scanWhile d scanSkipSpace), opcode_ (scanWhile d scanSkipSpace))
    /\ continues (scan (scanWhile d scanSkipSpace))
         (opcode_ (scanWhile d scanSkipSpace)) rest'.
Proof.
  intros Hat Hst Ha.
  destruct (scanWhile_from_spaces rest (scan d) (off d) Hst Ha)
    as (sp & c & rest' & s1 & op & -> & Hc & Hw & E & Hk).
  exists sp, c, rest'. unfold scanWhile. rewrite (rest_of_at _ _ _ Hat), Hw.
  cbn [scan opcode_ data off]. destruct Hat as [Hd Ho].
  repeat split; try assumption.
  - unfold at_. cbn [data]. now rewrite Hd, !append_assoc.
  - unfold at_. cbn [off]. rewrite Ho, !length_append. cbn. lia.
Qed.

(** rescanLiteral on the decodeState: the literal is data[start:readIndex],
    and the decoder stands on the byte after it, in step with the scanner. *)
Lemma rescanLiteral_spec (d : decodeState) (pre : string) (c0 : ascii)
    (rest : string) (s0 : scanner) :
  at_ d (pre +:+ String c0 EmptyString) rest ->
  scan_step s0 c0 = (scan d, scanBeginLiteral) ->
  accepts (scan d) rest ->
  exists lit rest' d',
    rest = lit +:+ rest'
    /\ good_item (String c0 lit)
    /\ rescanLiteral d = Ok d'
    /\ data d' = data d
    /\ slice (readIndex d) (readIndex d') (data d) = Some (String c0 lit)
    /\ ((rest' = EmptyString /\ parseState (scan d) = [])
        \/ exists c rest'',
             rest' = String c rest''
             /\ at_ d' (pre +:+ String c0 lit +:+ String c EmptyString) rest''
             /\ stateEndValue (scan d) c = (scan d', opcode_ d')
             /\ continues (scan d') (opcode_ d') rest'').
Proof.
  intros Hat H Ha.
  destruct (literal_tail _ _ _ _ H Ha) as (lit & rest' & -> & Hr & Hg & He).
  pose proof (rest_of_at _ _ _ Hat) as Hrest. destruct Hat as [Hd Ho].
  rewrite length_snoc in Ho.
  set (P := (pre +:+ String c0 EmptyString) +:+ lit).
  assert (HP : String.length P = (S (String.length pre) + String.length lit)%nat).
  { unfold P. now rewrite length_append, length_snoc. }
  assert (Hdata : data d = P +:+ rest').
  { rewrite Hd. unfold P. now rewrite !append_assoc. }
  assert (HP' : P = pre +:+ String c0 lit).
  { unfold P. now rewrite append_assoc. }
  assert (Hget0 : String.get (Nat.pred (off d)) (data d) = Some c0).
  { rewrite Ho, Hd, at_snoc. apply get_append_last. }
  assert (Hslice : forall j, j = (S (String.length pre) + String.length lit)%nat ->
            slice (String.length pre) j (data d) = Some (String c0 lit)).
  { intros j ->. unfold slice. rewrite (proj2 (Nat.leb_le _ _)) by lia.
    rewrite Hdata, <- HP, slice_to_append. cbn. rewrite HP'.
    apply slice_from_append. }
  pose proof (Hslice _ (eq_sym (eq_sym HP))) as Hsl.
  unfold rescanLiteral. cbv zeta. rewrite Hget0.
  fold (rescan c0 (rest_of d) (off d)). rewrite Hrest, Hr, Ho, <- HP.
  unfold readIndex. rewrite Ho. cbn [off Nat.pred].
  destruct He as [[-> Hps]|(c & rest'' & -> & Hk)].
  - assert (Hget : String.get (String.length P) (data d) = None).
    { rewrite Hdata, append_nil_r. apply get_length_None. }
    rewrite Hget. eexists lit, EmptyString, _.
    split; [reflexivity |]. split; [assumption |]. split; [reflexivity |].
    cbn [data off Nat.pred]. split; [reflexivity |]. split; [exact Hsl | now left].
  - assert (Hget : String.get (String.length P) (data d) = Some c).
    { rewrite Hdata. apply get_append_last. }
    rewrite Hget.
    destruct (stateEndValue (scan d) c) as [s2 o2] eqn:E.
    eexists lit, (String c rest''), _.
    split; [reflexivity |]. split; [assumption |]. split; [reflexivity |].
    cbn [data off Nat.pred]. split; [reflexivity |]. split; [exact Hsl |].
    right. exists c, rest''. split; [reflexivity |]. split; [| split].
    + unfold at_. cbn [data off]. split.
      * rewrite Hd. now rewrite !append_assoc.
      * rewrite HP. rewrite !length_append. cbn [String.length]. lia.
    + exact E.
    + cbn [scan opcode_]. unfold after in Hk. now rewrite E in Hk.
Qed.

(** *** The second pass: skipped values *)

(** A step pops the top of the parse stack, or changes only what lies
    above its tail. *)
Lemma step_stack (s : scanner) (c : ascii) (s1 : scanner) (op : opcode)
    (p : parse_state) (ps : list parse_state) :
  scan_step s c = (s1, op) -> parseState s = p :: ps -> op <> scanError ->
  (parseState s1 = ps /\ (op = scanEndObject \/ op = scanEndArray))
  \/ ((exists top, top <> [] /\ parseState s1 = top ++ ps)
      /\ op <> scanEndObject /\ op <> scanEndArray).
Proof.
  intros H Hps Hop.
  step_inv H s; cbn [parseState] in *; try discriminate Hps;
    try (now destruct Hop);
    injection Hps as <- <-;
    first
      [ left; split; [reflexivity | tauto]
      | right; split; [| split; discriminate];
        first [ eexists [_]; split; [discriminate | reflexivity]
              | eexists [_; _]; split; [discriminate | reflexivity] ] ].
Qed.

Lemma pop_step (s : scanner) (c : ascii) (s1 : scanner) (op : opcode) :
  scan_step s c = (s1, op) -> op = scanEndObject \/ op = scanEndArray ->
  parseState s1 <> [] -> step s1 = st_EndValue.
Proof.
  intros H Ho Hne.
  step_inv H s; destruct Ho as [Ho|Ho]; try discriminate Ho;
    cbn [parseState step] in *; try reflexivity; now destruct Hne.
Qed.

Lemma continues_accepts (s : scanner) (op : opcode) (rest : string) :
  continues s op rest -> parseState s <> [] -> accepts s rest.
Proof.
  unfold continues. intros H Hne.
  destruct op; try exact H; try (now destruct H);
    destruct (parseState s); try exact H; now destruct Hne.
Qed.

Lemma continues_not_error (s : scanner) (op : opcode) (rest : string) :
  continues s op rest -> op <> scanError /\ op <> scanEnd.
Proof. destruct op; cbn; intros H; try (now destruct H); split; discriminate. Qed.

(** skip ends on the closing brace or bracket of the value it was started
    in, before the data ends. *)
Lemma skip_from_spec (rest : string) :
  forall s i top base,
    parseState s = top ++ base -> top <> [] -> wf s -> accepts s rest ->
    exists consumed rest' s' op,
      rest = consumed +:+ rest'
      /\ (1 <= String.length consumed)%nat
      /\ skip_from s rest i (S (length base))
         = Ok (s', (i + String.length consumed)%nat, op)
      /\ parseState s' = base
      /\ (base <> [] -> step s' = st_EndValue)
      /\ continues s' op rest' /\ wf s'.
Proof.
  induction rest as [|c rest IH]; intros s i top base Hps Htop Hwf Ha.
  - apply accepts_eof_empty in Ha; [| assumption]. rewrite Ha in Hps.
    destruct top; [now destruct Htop | discriminate Hps].
  - destruct (scan_step s c) as [s1 op] eqn:E.
    pose proof (accepts_step _ _ _ _ _ E Ha) as Hk.
    pose proof (step_wf _ _ _ _ Hwf E) as Hwf1.
    destruct (continues_not_error _ _ _ Hk) as [Herr _].
    destruct top as [|p top]; [now destruct Htop |]. cbn [app] in Hps.
    cbn [skip_from]. rewrite E.
    destruct (step_stack _ _ _ _ _ _ E Hps Herr)
      as [[Hps1 Hop]|[(top1 & Hne1 & Hps1) [Ho1 Ho2]]].
    + destruct top as [|q top].
      * cbn [app] in Hps1. rewrite Hps1.
        assert (Hlt : (length base <? S (length base))%nat = true)
          by (apply Nat.ltb_lt; lia).
        rewrite Hlt.
        exists (String c EmptyString), rest, s1, op. cbn [String.length].
        repeat split; try assumption; try lia.
        -- now rewrite Nat.add_1_r.
        -- intros Hb. apply (pop_step _ _ _ _ E Hop). now rewrite Hps1.
      * assert (Hlen : (length (parseState s1) <? S (length base))%nat = false).
        { apply Nat.ltb_ge. rewrite Hps1, length_app. cbn. lia. }
        rewrite Hlen.
        assert (Ha1 : accepts s1 rest).
        { apply (continues_accepts _ _ _ Hk). now rewrite Hps1. }
        destruct (IH s1 (S i) (q :: top) base Hps1 ltac:(discriminate) Hwf1 Ha1)
          as (cons' & rest' & s' & op' & -> & Hl & Hsk & Hb & Hst & Hk' & Hwf').
        exists (String c cons'), rest', s', op'. cbn [String.length].
        repeat split; try assumption; try lia.
        rewrite Hsk. now rewrite Nat.add_succ_comm.
    + assert (Hlen : (length (parseState s1) <? S (length base))%nat = false).
      { apply Nat.ltb_ge. rewrite Hps1, !length_app.
        destruct top1; [now destruct Hne1 | cbn; lia]. }
      rewrite Hlen.
      assert (Ha1 : accepts s1 rest).
      { apply (continues_accepts _ _ _ Hk). rewrite Hps1.
        destruct top1; [now destruct Hne1 | discriminate]. }
      rewrite app_assoc in Hps1.
      destruct (IH s1 (S i) (top1 ++ top) base Hps1
                  ltac:(destruct top1; [now destruct Hne1 | discriminate])
                  Hwf1 Ha1)
        as (cons' & rest' & s' & op' & -> & Hl & Hsk & Hb & Hst & Hk' & Hwf').
      exists (String c cons'), rest', s', op'. cbn [String.length].
      repeat split; try assumption; try lia.
      rewrite Hsk. now rewrite Nat.add_succ_comm.
Qed.

Lemma skip_spec (d : decodeState) (pre rest : string) (p : parse_state)
    (base : list parse_state) :
  at_ d pre rest -> parseState (scan d) = p :: base -> wf (scan d) ->
  accepts (scan d) rest ->
  exists consumed rest' d',
    rest = consumed +:+ rest'
    /\ (1 <= String.length consumed)%nat
    /\ skip d = Ok d'
    /\ at_ d' (pre +:+ consumed) rest'
    /\ parseState (scan d') = base
    /\ (base <> [] -> step (scan d') = st_EndValue)
    /\ continues (scan d') (opcode_ d') rest' /\ wf (scan d').
Proof.
  intros Hat Hps Hwf Ha.
  destruct (skip_from_spec rest (scan d) (off d) [p] base Hps ltac:(discriminate)
              Hwf Ha)
    as (consumed & rest' & s' & op' & -> & Hl & Hsk & Hb & Hst & Hk & Hwf').
  unfold skip. rewrite (rest_of_at _ _ _ Hat), Hps. cbn [length].
  rewrite Hsk. cbn [res_bind]. eexists consumed, rest', _.
  split; [reflexivity |]. split; [assumption |]. split; [reflexivity |].
  cbn [scan opcode_]. destruct Hat as [Hd Ho]. repeat split; try assumption.
  - cbn [data]. now rewrite Hd, append_assoc.
  - cbn [off]. now rewrite Ho, length_append.
Qed.

(** *** The second pass: the members of an object *)

(** The steps of the scanner at the places where the decoder looks at the
    opcode. *)
Lemma step_key_pos (s : scanner) (c : ascii) (s1 : scanner) (op : opcode)
    (base : list parse_state) :
  parseState s = parseObjectKey :: base ->
  step s = st_BeginStringOrEmpty \/ step s = st_BeginString ->
  isSpace c = false -> scan_step s c = (s1, op) -> op <> scanError ->
  (op = scanEndObject /\ parseState s1 = base)
  \/ (op = scanBeginLiteral /\ parseState s1 = parseObjectKey :: base
      /\ c = dquote).
Proof.
  intros Hps Hst Hc H Hop. destruct s as [st e ps er].
  cbn [parseState step] in *. subst ps.
  destruct Hst as [-> | ->]; unfold_step_in H; rewrite Hc in H;
    repeat match type of H with
           | context [if ?b then _ else _] => destruct b eqn:?
           end;
    destruct base; apply pair_equal_spec in H as [<- <-];
    try (now destruct Hop); cbn [parseState];
    repeat match goal with
           | Hx : Ascii.eqb _ _ = true |- _ => apply Ascii.eqb_eq in Hx; subst
           end;
    first [left; now repeat split | right; now repeat split].
Qed.

Lemma endValue_key (s : scanner) (c : ascii) (s1 : scanner) (op : opcode)
    (base : list parse_state) :
  parseState s = parseObjectKey :: base -> isSpace c = false ->
  stateEndValue s c = (s1, op) -> op <> scanError ->
  op = scanObjectKey /\ parseState s1 = parseObjectValue :: base
  /\ step s1 = st_BeginValue.
Proof.
  intros Hps Hc H Hop. destruct s as [st e ps er].
  cbn [parseState] in Hps. subst ps. unfold_step_in H. rewrite Hc in H.
  destruct (Ascii.eqb c ":"); apply pair_equal_spec in H as [<- <-];
    [now repeat split | now destruct Hop].
Qed.

Lemma endValue_value (s : scanner) (c : ascii) (s1 : scanner) (op : opcode)
    (base : list parse_state) :
  parseState s = parseObjectValue :: base -> isSpace c = false ->
  stateEndValue s c = (s1, op) -> op <> scanError ->
  (op = scanObjectValue /\ parseState s1 = parseObjectKey :: base
   /\ step s1 = st_BeginString)
  \/ (op = scanEndObject /\ parseState s1 = base).
Proof.
  intros Hps Hc H Hop. destruct s as [st e ps er].
  cbn [parseState] in Hps. subst ps. unfold_step_in H. rewrite Hc in H.
  repeat match type of H with
         | context [if ?b then _ else _] => destruct b eqn:?
         end;
    destruct base; apply pair_equal_spec in H as [<- <-];
    try (now destruct Hop); cbn [parseState step];
    first [left; now repeat split | right; now repeat split].
Qed.

Lemma step_begin_value (s : scanner) (c : ascii) (s1 : scanner) (op : opcode) :
  step s = st_BeginValue -> isSpace c = false ->
  scan_step s c = (s1, op) -> op <> scanError ->
  (op = scanBeginLiteral /\ parseState s1 = parseState s)
  \/ (op = scanBeginObject /\ parseState s1 = parseObjectKey :: parseState s
      /\ step s1 = st_BeginStringOrEmpty)
  \/ (op = scanBeginArray /\ parseState s1 = parseArrayValue :: parseState s).
Proof.
  intros Hst Hc H Hop. destruct s as [st e ps er].
  cbn [parseState step] in *. subst st.
  cbv beta iota zeta delta
    [scan_step stateBeginValue pushParseState scan_error set_step
     set_parseState parseState step endTop err] in H.
  rewrite Hc in H.
  repeat match type of H with
         | context [if ?b then _ else _] => destruct b eqn:?
         end;
    apply pair_equal_spec in H as [<- <-];
    try (now destruct Hop); cbn [parseState step];
    first [ left; now repeat split
          | right; left; now repeat split
          | right; right; now repeat split ].
Qed.

Lemma endValue_space (s : scanner) (c : ascii) :
  parseState s <> [] -> isSpace c = true ->
  stateEndValue s c = (set_step s st_EndValue, scanSkipSpace).
Proof.
  intros Hne Hc. unfold stateEndValue.
  destruct (parseState s); [now destruct Hne |]. now rewrite Hc.
Qed.

Lemma endValue_skipSpace_inv (s : scanner) (c : ascii) (s1 : scanner) :
  stateEndValue s c = (s1, scanSkipSpace) -> isSpace c = true.
Proof.
  intros H. destruct s as [st e [|[] [|? ?]] er]; unfold_step_in H;
    repeat match type of H with
           | context [if ?b then _ else _] => destruct b eqn:?
           end;
    apply pair_equal_spec in H as [_ H]; try discriminate H; reflexivity.
Qed.

Lemma step_end_value (s : scanner) (c : ascii) :
  step s = st_EndValue -> scan_step s c = stateEndValue s c.
Proof. intros H. unfold scan_step. now rewrite H. Qed.

(** After a value: the white space that follows is skipped and the decoder
    stands on the byte that ends the value. *)
Lemma endValue_skipSpace (d : decodeState) (pre rest : string) (s : scanner)
    (c : ascii) (p : parse_state) (base : list parse_state) :
  at_ d pre rest -> stateEndValue s c = (scan d, opcode_ d) ->
  parseState s = p :: base -> continues (scan d) (opcode_ d) rest ->
  exists pre' rest' c',
    at_ (skipSpace d) pre' rest'
    /\ stateEndValue s c' = (scan (skipSpace d), opcode_ (skipSpace d))
    /\ isSpace c' = false
    /\ continues (scan (skipSpace d)) (opcode_ (skipSpace d)) rest'
    /\ (String.length rest' <= String.length rest)%nat.
Proof.
  intros Hat E Hps Hk. destruct (isSpace c) eqn:Hc.
  - rewrite endValue_space in E; [| rewrite Hps; discriminate | assumption].
    apply pair_equal_spec in E as [Hs Ho].
    unfold skipSpace. rewrite <- Ho, bool_decide_eq_true_2 by reflexivity.
    rewrite <- Ho in Hk. cbn [continues] in Hk.
    assert (Hst : space_stable (scan d)).
    { rewrite <- Hs. apply space_stable_end; [reflexivity |].
      cbn [set_step parseState]. rewrite Hps. discriminate. }
    destruct (scanWhile_spec d pre rest Hat Hst Hk)
      as (sp & c' & rest' & -> & Hc' & Hat' & E' & Hk').
    eexists _, rest', c'. split; [exact Hat' |]. split; [| split; [assumption |]].
    + rewrite <- E', <- Hs. rewrite step_end_value by reflexivity.
      now rewrite stateEndValue_set_step.
    + split; [assumption |]. rewrite length_append. cbn. lia.
  - assert (Ho : opcode_ d <> scanSkipSpace).
    { intros Ho. rewrite Ho in E. apply endValue_skipSpace_inv in E. congruence. }
    unfold skipSpace. rewrite bool_decide_eq_false_2 by assumption.
    exists pre, rest, c. repeat split; try assumption; try apply Hat. lia.
Qed.

Lemma wf_begin_value (s : scanner) : step s = st_BeginValue -> wf s.
Proof. unfold wf. now intros ->. Qed.

(** The scan of a member's value: it ends on the byte after the value,
    which the scanner takes as the end of a value inside the object. *)
Lemma value_scan_spec (d : decodeState) (pre : string) (c0 : ascii)
    (rest : string) (s0 : scanner) (p : parse_state) (base : list parse_state) :
  at_ d (pre +:+ String c0 EmptyString) rest ->
  scan_step s0 c0 = (scan d, opcode_ d) ->
  step s0 = st_BeginValue -> parseState s0 = p :: base ->
  isSpace c0 = false ->
  continues (scan d) (opcode_ d) rest ->
  exists tok d' pre' rest' s c,
    value_scan d = Ok (tok, d') /\ good_tok tok
    /\ at_ d' pre' rest'
    /\ stateEndValue s c = (scan d', opcode_ d')
    /\ parseState s = p :: base
    /\ continues (scan d') (opcode_ d') rest'
    /\ (String.length rest' < String.length rest)%nat.
Proof.
  intros Hat E Hst Hps Hc Hk.
  destruct (continues_not_error _ _ _ Hk) as [Herr _].
  pose proof (step_wf _ _ _ _ (wf_begin_value _ Hst) E) as Hwf.
  destruct (step_begin_value _ _ _ _ Hst Hc E Herr)
    as [[Hop Hps1]|[(Hop & Hps1 & Hst1)|[Hop Hps1]]];
    unfold value_scan; rewrite Hop in *; cbn [continues] in Hk.
  - destruct (rescanLiteral_spec d pre c0 rest s0 Hat E Hk)
      as (lit & rest' & d' & -> & Hg & Hres & Hdat & Hsl & Hend).
    rewrite Hres. cbn [res_bind]. rewrite Hsl.
    destruct Hend as [[_ Hnil]|(c & rest'' & -> & Hat' & E' & Hk')];
      [rewrite Hps1, Hps in Hnil; discriminate |].
    eexists _, d', _, rest'', (scan d), c.
    split; [reflexivity |]. split; [exact Hg |]. split; [exact Hat' |].
    split; [exact E' |]. split; [now rewrite Hps1 |]. split; [exact Hk' |].
    rewrite length_append. cbn. lia.
  - rewrite Hps in Hps1.
    destruct (skip_spec d _ rest _ _ Hat Hps1 Hwf Hk)
      as (consumed & rest' & d' & -> & Hl & Hsk & Hat' & Hps' & Hst' & Hk' & Hwf').
    rewrite Hsk. cbn [res_bind].
    specialize (Hst' ltac:(discriminate)).
    assert (Ha' : accepts (scan d') rest').
    { apply (continues_accepts _ _ _ Hk'). rewrite Hps'. discriminate. }
    destruct rest' as [|c rest''].
    { apply accepts_eof_empty in Ha'; [| assumption].
      rewrite Hps' in Ha'. discriminate. }
    pose proof (rest_of_at _ _ _ Hat') as Hrest.
    destruct (scan_step (scan d') c) as [s2 o2] eqn:E2.
    eexists _, _, (pre +:+ String c0 EmptyString +:+ consumed
                   +:+ String c EmptyString), rest'', (scan d'), c.
    split; [reflexivity |]. split; [exact I |].
    unfold scanNext. rewrite Hrest, E2. cbn [scan opcode_ data off].
    destruct Hat' as [Hd' Ho']. split; [split |].
    + cbn [data]. rewrite Hd'. now rewrite !append_assoc.
    + cbn [off]. rewrite Ho'. rewrite !length_append. cbn [String.length]. lia.
    + split; [now rewrite <- E2, step_end_value |]. split; [assumption |].
      split; [exact (accepts_step _ _ _ _ _ E2 Ha') |].
      rewrite length_append. cbn [String.length]. lia.
  - rewrite Hps in Hps1.
    destruct (skip_spec d _ rest _ _ Hat Hps1 Hwf Hk)
      as (consumed & rest' & d' & -> & Hl & Hsk & Hat' & Hps' & Hst' & Hk' & Hwf').
    rewrite Hsk. cbn [res_bind].
    specialize (Hst' ltac:(discriminate)).
    assert (Ha' : accepts (scan d') rest').
    { apply (continues_accepts _ _ _ Hk'). rewrite Hps'. discriminate. }
    destruct rest' as [|c rest''].
    { apply accepts_eof_empty in Ha'; [| assumption].
      rewrite Hps' in Ha'. discriminate. }
    pose proof (rest_of_at _ _ _ Hat') as Hrest.
    destruct (scan_step (scan d') c) as [s2 o2] eqn:E2.
    eexists _, _, (pre +:+ String c0 EmptyString +:+ consumed
                   +:+ String c EmptyString), rest'', (scan d'), c.
    split; [reflexivity |]. split; [exact I |].
    unfold scanNext. rewrite Hrest, E2. cbn [scan opcode_ data off].
    destruct Hat' as [Hd' Ho']. split; [split |].
    + cbn [data]. rewrite Hd'. now rewrite !append_assoc.
    + cbn [off]. rewrite Ho'. rewrite !length_append. cbn [String.length]. lia.
    + split; [now rewrite <- E2, step_end_value |]. split; [assumption |].
      split; [exact (accepts_step _ _ _ _ _ E2 Ha') |].
      rewrite length_append. cbn [String.length]. lia.
Qed.

(** One round of the loop over the members of an accepted object. *)
Lemma read_member_spec (d : decodeState) (pre rest : string) :
  at_ d pre rest -> key_pos (scan d) -> accepts (scan d) rest ->
  (exists d1, read_member d = Ok (EndOfObject d1))
  \/ (exists key tok d1,
        read_member d = Ok (Member key tok true d1) /\ good_tok tok)
  \/ (exists key tok d1 pre1 rest1,
        read_member d = Ok (Member key tok false d1) /\ good_tok tok
        /\ at_ d1 pre1 rest1 /\ key_pos (scan d1) /\ accepts (scan d1) rest1
        /\ (String.length rest1 < String.length rest)%nat).
Proof.
  intros Hat [Hps Hst] Ha.
  assert (Hss : space_stable (scan d)) by (apply space_stable_begin; tauto).
  destruct (scanWhile_spec d pre rest Hat Hss Ha)
    as (sp & c & rest1 & -> & Hc & Hat1 & E1 & Hk1).
  unfold read_member. cbv zeta.
  set (d1 := scanWhile d scanSkipSpace) in *.
  destruct (continues_not_error _ _ _ Hk1) as [Herr1 _].
  destruct (step_key_pos _ _ _ _ _ Hps Hst Hc E1 Herr1)
    as [[Hop1 Hps1]|(Hop1 & Hps1 & ->)].
  { left. exists d1. now rewrite Hop1, bool_decide_eq_true_2. }
  right. rewrite Hop1 in *. cbn [continues] in Hk1.
  rewrite bool_decide_eq_false_2 by discriminate.
  rewrite bool_decide_eq_true_2 by reflexivity. cbn [negb].
  rewrite <- append_assoc in Hat1.
  destruct (rescanLiteral_spec d1 (pre +:+ sp) dquote rest1 (scan d) Hat1 E1 Hk1)
    as (lit & rest2 & d2 & -> & Hg & Hres & Hdat2 & Hsl & Hend).
  rewrite Hres. cbn [res_bind]. rewrite Hdat2, Hsl.
  destruct Hg as (q & lit' & Heq & Hun & _). inversion Heq; subst q lit'.
  destruct (Hun (Ascii.eqb_refl _)) as [key Hkey]. rewrite Hkey.
  destruct Hend as [[_ Hnil]|(c2 & rest3 & -> & Hat2 & E2 & Hk2)];
    [rewrite Hps1 in Hnil; discriminate |].
  destruct (endValue_skipSpace d2 _ _ (scan d1) c2 _ _ Hat2 E2 Hps1 Hk2)
    as (pre3 & rest4 & c3 & Hat3 & E3 & Hc3 & Hk3 & Hlen3).
  set (d3 := skipSpace d2) in *.
  destruct (continues_not_error _ _ _ Hk3) as [Herr3 _].
  destruct (endValue_key _ _ _ _ _ Hps1 Hc3 E3 Herr3) as (Hop3 & Hps3 & Hst3).
  rewrite Hop3 in *. cbn [continues] in Hk3.
  rewrite bool_decide_eq_true_2 by reflexivity. cbn [negb].
  assert (Hss3 : space_stable (scan d3)) by (apply space_stable_begin; tauto).
  destruct (scanWhile_spec d3 pre3 rest4 Hat3 Hss3 Hk3)
    as (sp4 & c4 & rest5 & -> & Hc4 & Hat4 & E4 & Hk4).
  set (d4 := scanWhile d3 scanSkipSpace) in *.
  rewrite <- append_assoc in Hat4.
  destruct (value_scan_spec d4 _ c4 rest5 (scan d3) _ _ Hat4 E4 Hst3 Hps3 Hc4 Hk4)
    as (tok & d5 & pre5 & rest6 & s5 & c5 & Hval & Hgt & Hat5 & E5 & Hps5 & Hk5 & Hlen5).
  rewrite Hval. cbn [res_bind].
  destruct (endValue_skipSpace d5 _ _ s5 c5 _ _ Hat5 E5 Hps5 Hk5)
    as (pre6 & rest7 & c6 & Hat6 & E6 & Hc6 & Hk6 & Hlen6).
  set (d6 := skipSpace d5) in *.
  destruct (continues_not_error _ _ _ Hk6) as [Herr6 _].
  destruct (endValue_value _ _ _ _ _ Hps5 Hc6 E6 Herr6)
    as [(Hop6 & Hps6 & Hst6)|[Hop6 Hps6]]; rewrite Hop6 in *.
  - right. rewrite bool_decide_eq_false_2 by discriminate.
    rewrite bool_decide_eq_true_2 by reflexivity. cbn [negb].
    exists key, tok, d6, pre6, rest7.
    split; [reflexivity |]. split; [assumption |]. split; [assumption |].
    split; [split; [assumption | tauto] |]. split; [exact Hk6 |].
    rewrite !length_append in *. cbn [String.length] in *.
    rewrite !length_append in *. cbn [String.length] in *. lia.
  - left. rewrite bool_decide_eq_true_2 by reflexivity.
    exists key, tok, d6. now split.
Qed.

(** The loop over the members of an accepted object ends within its
    fuel and without a panic. *)
Lemma object_members_ok (fuel : nat) :
  forall d pre rest,
    at_ d pre rest -> key_pos (scan d) -> accepts (scan d) rest ->
    (String.length rest < fuel)%nat ->
    exists ms d', object_members fuel d = Ok (ms, d') /\ Forall good_member ms.
Proof.
  induction fuel as [|fuel IH]; intros d pre rest Hat Hkp Ha Hlen; [lia |].
  cbn [object_members].
  destruct (read_member_spec d pre rest Hat Hkp Ha)
    as [[d1 ->]|[(key & tok & d1 & -> & Hg)
                |(key & tok & d1 & pre1 & rest1 & -> & Hg & Hat1 & Hkp1 & Ha1 & Hl1)]];
    cbn [res_bind].
  - now eexists _, _.
  - eexists _, _. split; [reflexivity |]. now repeat constructor.
  - destruct (IH d1 pre1 rest1 Hat1 Hkp1 Ha1 ltac:(lia)) as (ms & d' & -> & Hms).
    cbn [res_bind]. eexists _, _. split; [reflexivity |]. now constructor.
Qed.

(** *** Storing, and the decoder as a whole *)

Lemma literalStore_ok (item : string) (f : field) (t : target) :
  good_item item -> exists t', literalStore item f t = Ok t'.
Proof.
  intros (c & lit & -> & Hun & Hk). unfold literalStore.
  destruct (Ascii.eqb c "n"); [now eexists |].
  destruct (Ascii.eqb c "t" || Ascii.eqb c "f") eqn:Etf; [now eexists |].
  apply orb_false_iff in Etf as [Et Ef].
  destruct (Ascii.eqb c dquote) eqn:Eq.
  { destruct (Hun eq_refl) as [s ->]. destruct (is_string_field f); now eexists. }
  assert (Hnum : negb (Ascii.eqb c "-") && negb (isDigit c) = false).
  { destruct Hk as [Hk|[Hk|[Hk|[Hk|[Hk|Hk]]]]]; try congruence;
      rewrite Hk; [reflexivity | apply andb_false_r]. }
  rewrite Hnum. destruct (is_string_field f); [now eexists |].
  destruct (ParseUint _); [destruct (OverflowUint _) |]; now eexists.
Qed.

Lemma literalStore_top_ok (item : string) (t : target) :
  good_item item -> exists t', literalStore_top item t = Ok t'.
Proof.
  intros (c & lit & -> & Hun & Hk). unfold literalStore_top.
  destruct (Ascii.eqb c "n"); [now eexists |].
  destruct (Ascii.eqb c "t" || Ascii.eqb c "f") eqn:Etf; [now eexists |].
  apply orb_false_iff in Etf as [Et Ef].
  destruct (Ascii.eqb c dquote) eqn:Eq.
  { destruct (Hun eq_refl) as [s ->]. now eexists. }
  assert (Hnum : negb (Ascii.eqb c "-") && negb (isDigit c) = false).
  { destruct Hk as [Hk|[Hk|[Hk|[Hk|[Hk|Hk]]]]]; try congruence;
      rewrite Hk; [reflexivity | apply andb_false_r]. }
  rewrite Hnum. now eexists.
Qed.

(** Storing good members does not panic. *)
Lemma store_members_ok (ms : list (string * token)) :
  Forall good_member ms -> forall t, exists t', store_members t ms = Ok t'.
Proof.
  induction 1 as [|[key tok] ms Hm _ IH]; intros t; [now eexists |].
  cbn [store_members]. unfold store_member. cbn [fst snd].
  destruct (field_of_key key) as [f|]; [| exact (IH t)].
  destruct tok as [item| |].
  - destruct (literalStore_ok item f t Hm) as [t' ->]. exact (IH t').
  - exact (IH _).
  - exact (IH _).
Qed.

Lemma scan_value_ok (value : string) :
  accepts scanner0 value -> exists tv, scan_value value = Ok tv /\ good_top tv.
Proof.
  intros Ha. unfold scan_value. cbv zeta.
  set (d0 := mkDecodeState value 0 scanContinue scanner0).
  assert (Hat0 : at_ d0 EmptyString value) by (split; reflexivity).
  assert (Hss : space_stable (scan d0)) by (apply space_stable_begin; now left).
  destruct (scanWhile_spec d0 EmptyString value Hat0 Hss Ha)
    as (sp & c & rest & -> & Hc & Hat1 & E1 & Hk1).
  fold scanner0. fold d0.
  set (d1 := scanWhile d0 scanSkipSpace) in *.
  destruct (continues_not_error _ _ _ Hk1) as [Herr1 _].
  pose proof (step_wf _ _ _ _ (wf_begin_value scanner0 eq_refl) E1) as Hwf1.
  change (at_ d1 (sp +:+ String c EmptyString) rest) in Hat1.
  destruct (step_begin_value scanner0 c _ _ eq_refl Hc E1 Herr1)
    as [[Hop Hps1]|[(Hop & Hps1 & Hst1)|[Hop Hps1]]];
    rewrite Hop in *; cbn [continues] in Hk1.
  - destruct (rescanLiteral_spec d1 sp c rest scanner0 Hat1 E1 Hk1)
      as (lit & rest' & d' & -> & Hg & Hres & Hdat & Hsl & Hend).
    rewrite Hres. cbn [res_bind]. rewrite Hsl. now eexists.
  - destruct (object_members_ok (String.length (sp +:+ String c rest)) d1 _ rest
                Hat1 (conj Hps1 (or_introl Hst1)) Hk1)
      as (ms & d' & -> & Hms).
    { rewrite length_append. cbn. lia. }
    cbn [res_bind]. now eexists.
  - destruct (skip_spec d1 _ rest _ _ Hat1 Hps1 Hwf1 Hk1)
      as (consumed & rest' & d' & -> & Hl & -> & _).
    cbn [res_bind]. now eexists.
Qed.

(** Decode never panics: the second pass of the decoder over a value that
    the scanner accepted finds every opcode where it expects it, and the
    loop over the members ends within its fuel. *)
Theorem Decode_returns (input : string) (v0 : YTDLPVideoInfo) :
  exists v e, Decode input v0 = Ok (v, e).
Proof.
  unfold Decode. destruct (readValue input) as [n|e] eqn:Hr; [| now eexists _, _].
  unfold readValue in Hr.
  destruct (readValue_accepts input _ _ _ _ (wf_begin_value scanner0 eq_refl) Hr)
    as (pre & post & -> & -> & Ha).
  cbn [Nat.add]. rewrite slice_to_append.
  unfold unmarshal. destruct (scan_value_ok pre Ha) as (tv & -> & Hg).
  cbn [res_bind].
  assert (Hst : exists t', store_value tv (mkTarget v0 None) = Ok t').
  { destruct tv as [|ms|item]; cbn [store_value].
    - now eexists.
    - now apply store_members_ok.
    - now apply literalStore_top_ok. }
  destruct Hst as [t' ->]. cbn [res_bind]. now eexists _, _.
Qed.

(** *** Bytes after the first value *)

(** Inside an open object or array the end of the value does not depend on
    what follows it. *)
Lemma readValue_from_inside (pre : string) :
  forall s k t whole,
    wf s -> parseState s <> [] -> accepts s pre ->
    readValue_from s (pre +:+ t) k whole = inl (k + String.length pre)%nat.
Proof.
  induction pre as [|c pre IH]; intros s k t whole Hwf Hne Ha.
  - apply accepts_eof_empty in Ha; [now destruct Hne | assumption].
  - rewrite append_cons. cbn [readValue_from String.length].
    destruct (scan_step s c) as [s1 op] eqn:E.
    pose proof (accepts_step _ _ _ _ _ E Ha) as Hk.
    pose proof (step_wf _ _ _ _ Hwf E) as Hwf1.
    destruct (step_nonempty _ _ _ _ Hne Hwf E) as [_ Hempty].
    assert (Hgo : accepts s1 pre -> parseState s1 <> [] ->
                  readValue_from s1 (pre +:+ t) (S k) whole
                  = inl (k + S (String.length pre))%nat).
    { intros Ha1 Hne1. rewrite (IH s1 (S k) t whole Hwf1 Hne1 Ha1). f_equal. lia. }
    assert (Hpop : op = scanEndObject \/ op = scanEndArray ->
              (let '(s2, op2) := stateEndValue s1 " " in
               if bool_decide (op2 = scanEnd) then inl (S k)
               else readValue_from s2 (pre +:+ t) (S k) whole)
              = inl (k + S (String.length pre))%nat).
    { intros Hop. rewrite (pop_space _ _ _ _ E Hop).
      destruct (parseState s1) eqn:Hps.
      - rewrite bool_decide_eq_true_2 by reflexivity.
        assert (pre = EmptyString) as ->.
        { destruct Hop as [-> | ->]; cbn [continues] in Hk; now rewrite Hps in Hk. }
        cbn. f_equal. lia.
      - rewrite bool_decide_eq_false_2 by discriminate.
        apply Hgo; [| discriminate].
        apply (continues_accepts _ _ _ Hk). rewrite Hps. discriminate. }
    destruct op; try (now destruct Hk); try (apply Hpop; tauto);
      (apply Hgo; [exact Hk |]; intros Hps; destruct (Hempty Hps); discriminate).
Qed.

Lemma readValue_object_app (obj : string) :
  forall k k' t whole,
    accepts scanner0 obj ->
    snd (scanWhile_from scanner0 obj k' scanSkipSpace) = scanBeginObject ->
    readValue_from scanner0 (obj +:+ t) k whole
    = inl (k + String.length obj)%nat.
Proof.
  induction obj as [|c obj IH]; intros k k' t whole Ha Hop.
  - cbn in Ha. discriminate Ha.
  - rewrite append_cons. cbn [readValue_from String.length scanWhile_from] in *.
    destruct (scan_step scanner0 c) as [s1 op] eqn:E.
    pose proof (accepts_step _ _ _ _ _ E Ha) as Hk.
    destruct (isSpace c) eqn:Hc.
    + pose proof (space_stable_begin scanner0 (or_introl eq_refl) c Hc) as E'.
      rewrite E' in E. apply pair_equal_spec in E as [<- <-].
      rewrite bool_decide_eq_true_2 in Hop by reflexivity.
      cbn [continues] in Hk. rewrite (IH (S k) (S k') t whole Hk Hop).
      f_equal. lia.
    + assert (Hne : op <> scanSkipSpace).
      { intros ->. apply skipSpace_isSpace in E. congruence. }
      rewrite bool_decide_eq_false_2 in Hop by assumption.
      cbn [snd] in Hop. subst op. cbn [continues] in Hk.
      destruct (step_begin_value scanner0 c _ _ eq_refl Hc E ltac:(discriminate))
        as [[Hop _]|[(_ & Hps & _)|[Hop _]]]; try discriminate Hop.
      pose proof (step_wf _ _ _ _ (wf_begin_value scanner0 eq_refl) E) as Hwf1.
      rewrite (readValue_from_inside obj s1 (S k) t whole Hwf1
                 ltac:(rewrite Hps; discriminate) Hk).
      f_equal. lia.
Qed.

Lemma scan_value_object (value : string) (ms : list (string * token)) :
  scan_value value = Ok (topObject ms) ->
  snd (scanWhile_from scanner0 value 0 scanSkipSpace) = scanBeginObject.
Proof.
  unfold scan_value, scanWhile, rest_of. cbv zeta. cbn [scan off data slice_from default from_option id].
  fold scanner0.
  destruct (scanWhile_from scanner0 value 0 scanSkipSpace) as [[s i] o].
  cbn [opcode_ snd]. destruct o; try discriminate; try reflexivity.
  - destruct (rescanLiteral _) as [d'| |]; [| discriminate..]. cbn [res_bind].
    destruct (slice _ _ _); discriminate.
  - destruct (skip _); discriminate.
Qed.

Lemma readValue_whole (obj : string) :
  readValue obj = inl (String.length obj) -> accepts scanner0 obj.
Proof.
  intros H. unfold readValue in H.
  destruct (readValue_accepts obj _ _ _ _ (wf_begin_value scanner0 eq_refl) H)
    as (pre & post & Heq & Hlen & Ha).
  assert (post = EmptyString) as ->.
  { apply (f_equal String.length) in Heq. rewrite length_append in Heq.
    destruct post; [reflexivity | cbn in *; lia]. }
  rewrite append_nil_r in Heq. now subst.
Qed.

(** The bytes after one JSON object do not change what Decode does. *)
Lemma Decode_object_app (obj trailing : string) (v0 : YTDLPVideoInfo) :
  json_object obj -> Decode (obj +:+ trailing) v0 = Decode obj v0.
Proof.
  intros [Hr [ms Hms]]. unfold Decode. rewrite Hr.
  pose proof (readValue_whole obj Hr) as Ha.
  unfold readValue. fold scanner0.
  rewrite (readValue_object_app obj 0 0 trailing _ Ha (scan_value_object _ _ Hms)).
  cbn [Nat.add]. rewrite slice_to_append.
  rewrite <- (append_nil_r obj) at 3. now rewrite slice_to_append.
Qed.

(** *** The duration field *)

Lemma OverflowUint_range (n : Z) : OverflowUint n = false -> uint_range n.
Proof.
  unfold OverflowUint, uint_range. intros H. apply negb_false_iff, Z.eqb_eq in H.
  rewrite <- H. apply Z.mod_pos_bound. reflexivity.
Qed.

Lemma saveError_vi (t : target) (e : error) : vi (saveError t e) = vi t.
Proof. unfold saveError. now destruct (savedError t). Qed.

Lemma saveError_saved (t : target) (e : error) :
  is_Some (savedError (saveError t e)).
Proof. unfold saveError. destruct (savedError t) eqn:E; cbn; rewrite ?E; eauto. Qed.

Lemma literalStore_range (item : string) (f : field) (t t' : target) :
  literalStore item f t = Ok t' -> uint_range (Duration (vi t)) ->
  uint_range (Duration (vi t')).
Proof.
  unfold literalStore. intros H Hr.
  repeat match type of H with
         | context [match ?x with _ => _ end] => destruct x eqn:?
         end;
    inversion H; subst; rewrite ?saveError_vi; try assumption.
  - destruct f; try discriminate; cbn; assumption.
  - cbn. now apply OverflowUint_range.
Qed.

Lemma literalStore_saved (item : string) (f : field) (t t' : target) :
  literalStore item f t = Ok t' -> is_Some (savedError t) ->
  is_Some (savedError t').
Proof.
  unfold literalStore. intros H Hs.
  repeat match type of H with
         | context [match ?x with _ => _ end] => destruct x eqn:?
         end;
    inversion H; subst; try apply saveError_saved; assumption.
Qed.

Lemma store_member_range (t t' : target) (m : string * token) :
  store_member t m = Ok t' -> uint_range (Duration (vi t)) ->
  uint_range (Duration (vi t')).
Proof.
  unfold store_member. destruct (field_of_key (fst m)); [| now intros [= <-]].
  destruct (snd m); [apply literalStore_range | |];
    intros [= <-]; now rewrite saveError_vi.
Qed.

Lemma store_member_saved (t t' : target) (m : string * token) :
  store_member t m = Ok t' -> is_Some (savedError t) ->
  is_Some (savedError t').
Proof.
  unfold store_member. destruct (field_of_key (fst m)); [| now intros [= <-]].
  destruct (snd m); [apply literalStore_saved | |];
    intros [= <-] _; apply saveError_saved.
Qed.

Lemma store_members_range (ms : list (string * token)) :
  forall t t', store_members t ms = Ok t' -> uint_range (Duration (vi t)) ->
               uint_range (Duration (vi t')).
Proof.
  induction ms as [|m ms IH]; intros t t' H Hr; cbn [store_members] in H.
  - now inversion H; subst.
  - destruct (store_member t m) as [t1| |] eqn:E; [| discriminate..].
    exact (IH _ _ H (store_member_range _ _ _ E Hr)).
Qed.

Lemma store_members_saved (ms : list (string * token)) :
  forall t t', store_members t ms = Ok t' -> is_Some (savedError t) ->
               is_Some (savedError t').
Proof.
  induction ms as [|m ms IH]; intros t t' H Hs; cbn [store_members] in H.
  - now inversion H; subst.
  - destruct (store_member t m) as [t1| |] eqn:E; [| discriminate..].
    exact (IH _ _ H (store_member_saved _ _ _ E Hs)).
Qed.

(** A number literal with a minus sign saves a type error at the uint
    field. *)
Lemma literalStore_negative (r : string) (t : target) :
  literalStore (String "-" r) fDuration t
  = Ok (saveError t
          (UnmarshalTypeError ("number " +:+ String "-" r) "duration")).
Proof. reflexivity. Qed.

Lemma store_members_negative (ms : list (string * token)) :
  forall t t' key r,
    In (key, tokLiteral (String "-" r)) ms ->
    field_of_key key = Some fDuration ->
    store_members t ms = Ok t' -> is_Some (savedError t').
Proof.
  induction ms as [|m ms IH]; intros t t' key r Hin Hf H; [destruct Hin |].
  cbn [store_members] in H.
  destruct (store_member t m) as [t1| |] eqn:E; [| discriminate..].
  cbn [res_bind] in H. destruct Hin as [-> | Hin].
  - unfold store_member in E. cbn [fst snd] in E.
    rewrite Hf, literalStore_negative in E. inversion E; subst.
    exact (store_members_saved _ _ _ H (saveError_saved _ _)).
  - exact (IH _ _ _ _ Hin Hf H).
Qed.

Lemma literalStore_top_vi (item : string) (t t' : target) :
  literalStore_top item t = Ok t' -> vi t' = vi t.
Proof.
  unfold literalStore_top. intros H.
  repeat match type of H with
         | context [match ?x with _ => _ end] => destruct x eqn:?
         end;
    inversion H; subst; rewrite ?saveError_vi; reflexivity.
Qed.

(** Decode keeps the duration in the range of uint. *)
Lemma Decode_range (input : string) (v0 v : YTDLPVideoInfo) (e : option error) :
  Decode input v0 = Ok (v, e) -> uint_range (Duration v0) ->
  uint_range (Duration v).
Proof.
  unfold Decode, unmarshal. intros H Hr.
  destruct (readValue input); [| now inversion H; subst].
  destruct (slice_to _ _); [| discriminate].
  destruct (scan_value _) as [tv| |]; [| discriminate..]. cbn [res_bind] in H.
  destruct (store_value tv _) as [t| |] eqn:E; [| discriminate..].
  cbn [res_bind] in H. inversion H; subst.
  destruct tv as [|ms|item]; cbn [store_value] in E.
  - inversion E; subst. now rewrite saveError_vi.
  - exact (store_members_range _ _ _ E Hr).
  - now rewrite (literalStore_top_vi _ _ _ E).
Qed.

Lemma decodeVideoInfo_range (stdout : string) (v : YTDLPVideoInfo)
    (e : option error) :
  decodeVideoInfo stdout = Ok (Some v, e) -> uint_range (Duration v).
Proof.
  unfold decodeVideoInfo. intros H.
  destruct (Decode stdout new_YTDLPVideoInfo) as [[v' e']| |] eqn:E; [| discriminate..].
  cbn [res_bind] in H. destruct e'; inversion H; subst.
  apply (Decode_range _ _ _ _ E). unfold uint_range. cbn. split; [lia | reflexivity].
Qed.

Lemma decodeVideoInfo_returns (stdout : string) :
  exists r, decodeVideoInfo stdout = Ok r.
Proof.
  unfold decodeVideoInfo.
  destruct (Decode_returns stdout new_YTDLPVideoInfo) as (v & e & ->).
  cbn [res_bind]. destruct e; now eexists.
Qed.

(** C9: a metadata value returned by GetVideoInfo has a duration in the
    range of uint, so it is not negative; and when the object read from the
    output has a member for the duration field (under any spelling of the
    key that selects the field) whose value is a literal with a minus sign,
    decodeVideoInfo returns an error and no metadata value. *)
Theorem C9_duration_unsigned :
  (forall host inst query sys sys' v e,
      GetVideoInfo host inst query sys = (Ok (Some v, e), sys') ->
      0 <= Duration v < 2 ^ uintSize)
  /\ (forall stdout ms key item,
        decoded_members stdout = Some ms ->
        In (key, tokLiteral item) ms ->
        field_of_key key = Some fDuration ->
        begins_with "-" item ->
        exists e, decodeVideoInfo stdout = Ok (None, Some e)).
Proof.
  split.
  - intros host inst query sys sys' v e H.
    unfold GetVideoInfo, bind, CombinedOutput, lift, ret in H.
    destruct (start_error _); [inversion H |].
    destruct (exit_error _); [inversion H |].
    destruct (decodeVideoInfo _) as [[v' e']| |] eqn:E; [| inversion H..].
    destruct e'; inversion H; subst. exact (decodeVideoInfo_range _ _ _ E).
  - intros stdout ms key item Hm Hin Hf [r ->].
    unfold decoded_members in Hm. unfold decodeVideoInfo.
    destruct (Decode_returns stdout new_YTDLPVideoInfo) as (v & e & HD).
    rewrite HD. cbn [res_bind]. unfold Decode, unmarshal in HD.
    destruct (readValue stdout); [| discriminate].
    destruct (slice_to _ _); [| discriminate].
    destruct (scan_value _) as [[|ms'|]| |]; try discriminate.
    inversion Hm; subst ms'. cbn [res_bind store_value] in HD.
    destruct (store_members _ ms) as [t| |] eqn:E; [| discriminate..].
    cbn [res_bind] in HD. inversion HD; subst.
    destruct (store_members_negative ms _ _ key r Hin Hf E) as [e' ->].
    now eexists.
Qed.

Lemma sample_is_object : json_object sample_object.
Proof.
  split; [vm_compute; reflexivity | eexists; vm_compute; reflexivity].
Qed.

Lemma C9_duration_unsigned_witness :
  (GetVideoInfo
     (host_of {| start_error := None; exit_error := None;
                 combined := sample_object; stderr_chunks := [];
                 stdout_chunks := [] |})
     inst0 "query" sys0
   = (Ok (Some (mkVideoInfo "x" "t" "u" 42), None),
      mkSys
        [exec_Command "/usr/bin/yt-dlp"
           ["ytsearch:query"; "-s"; "-O"; "%(.{id,title,thumbnail,duration})#j"]]
        [] ∅)
   /\ 0 <= 42 < 2 ^ uintSize)
  /\ (decoded_members (json "{'id':'x','Duration': -5}")
      = Some [("id", tokLiteral (json "'x'"));
              ("Duration", tokLiteral "-5")]
      /\ In ("Duration", tokLiteral "-5")
           [("id", tokLiteral (json "'x'")); ("Duration", tokLiteral "-5")]
      /\ field_of_key "Duration" = Some fDuration
      /\ begins_with "-" "-5"
      /\ exists e,
           decodeVideoInfo (json "{'id':'x','Duration': -5}")
           = Ok (None, Some e)).
Proof.
  split.
  - assert (H0 : GetVideoInfo
                   (host_of {| start_error := None; exit_error := None;
                               combined := sample_object; stderr_chunks := [];
                               stdout_chunks := [] |})
                   inst0 "query" sys0
                 = (Ok (Some (mkVideoInfo "x" "t" "u" 42), None),
                    mkSys
                      [exec_Command "/usr/bin/yt-dlp"
                         ["ytsearch:query"; "-s"; "-O";
                          "%(.{id,title,thumbnail,duration})#j"]]
                      [] ∅))
      by (vm_compute; reflexivity).
    split; [exact H0 |].
    exact (proj1 C9_duration_unsigned _ _ _ _ _ _ _ H0).
  - assert (H1 : decoded_members (json "{'id':'x','Duration': -5}")
                 = Some [("id", tokLiteral (json "'x'"));
                         ("Duration", tokLiteral "-5")])
      by (vm_compute; reflexivity).
    assert (H2 : In ("Duration", tokLiteral "-5")
                   [("id", tokLiteral (json "'x'"));
                    ("Duration", tokLiteral "-5")])
      by (right; left; reflexivity).
    assert (H3 : field_of_key "Duration" = Some fDuration)
      by (vm_compute; reflexivity).
    assert (H4 : begins_with "-" "-5") by (exists "5"; reflexivity).
    split; [exact H1 |]. split; [exact H2 |]. split; [exact H3 |].
    split; [exact H4 |].
    exact (proj2 C9_duration_unsigned _ _ _ _ H1 H2 H3 H4).
Defined.

(** * Further properties of the package *)

(** *** The streaming launch as a whole *)

(** X1: ExecuteStream never panics.  When the process cannot be started it
    returns no reader and the error of cmd.Start, passed on as it is; and
    whenever it returns, it returns no reader exactly when the process
    could not be started. *)
Theorem ExecuteStream_reader_iff_started (host : Host) (inst : YTDLPInstance)
    (url : string) (args : list string) (sys : Sys) :
  (forall msg, fst (ExecuteStream host inst url args sys) <> Panic msg)
  /\ (forall e,
        start_error
          (binary host
             (exec_Command (bPath inst)
                (url :: args ++ ["-o"; "-"; "--newline"]))) = Some e ->
        fst (ExecuteStream host inst url args sys) = Ok (None, Some e))
  /\ (forall r,
        fst (ExecuteStream host inst url args sys) = Ok r ->
        (fst r = None
         <-> is_Some (start_error
                        (binary host
                           (exec_Command (bPath inst)
                              (url :: args ++ ["-o"; "-"; "--newline"])))))).
Proof.
  rewrite ExecuteStream_eq. cbv zeta.
  destruct (start_error _) as [e|]; cbn [fst].
  - split; [discriminate |]. split.
    + now intros e' [= ->].
    + intros r [= <-]. cbn [fst]. split; [now eexists | reflexivity].
  - split; [| split].
    + intros msg H.
      pose proof (handshake_task_no_panic
                    (stderr_chunks
                       (binary host
                          (exec_Command (bPath inst)
                             (url :: args ++ ["-o"; "-"; "--newline"]))))) as Hn.
      destruct (sent (handshake_task _)) as [v|m|]; try discriminate.
      now apply (Hn m).
    + intros e [=].
    + intros r H.
      destruct (sent (handshake_task _)) as [v|m|]; try discriminate.
      injection H as <-. cbn [fst]. split; [discriminate | intros [? [=]]].
Qed.

(** X2: The pipes of a started stream.  Both pipes are new.  At the stdout
    pipe all the writes of the process wait, and a returned reader is its
    read end.  At the stderr pipe a tail of the bytes written to it waits
    (what the scanner has not taken into its buffer), and nothing when the
    launch does not return.  After an error the goroutine has returned, so
    this tail waits there for ever; after nil the goroutine goes on to
    copy the pipe to io.Discard. *)
Theorem ExecuteStream_pipes (host : Host) (inst : YTDLPInstance)
    (url : string) (args : list string) (sys : Sys)
    (Hstart :
       start_error
         (binary host
            (exec_Command (bPath inst)
               (url :: args ++ ["-o"; "-"; "--newline"]))) = None) :
  exists unread,
    snd (ExecuteStream host inst url args sys)
    = mkSys
        (launched sys
         ++ [exec_Command (bPath inst)
               (url :: args ++ ["-o"; "-"; "--newline"])])
        (pipes sys
         ++ [stdout_chunks
               (binary host
                  (exec_Command (bPath inst)
                     (url :: args ++ ["-o"; "-"; "--newline"])));
             unread])
        (files sys)
    /\ tail_of unread
         (stderr_chunks
            (binary host
               (exec_Command (bPath inst)
                  (url :: args ++ ["-o"; "-"; "--newline"]))))
    /\ (forall r,
          fst (ExecuteStream host inst url args sys) = Ok r ->
          fst r = Some (pipeReader (length (pipes sys))))
    /\ (forall rd e,
          fst (ExecuteStream host inst url args sys) = Ok (rd, Some e) ->
          at_rest
            (handshake_task
               (stderr_chunks
                  (binary host
                     (exec_Command (bPath inst)
                        (url :: args ++ ["-o"; "-"; "--newline"])))))
          = unread)
    /\ (forall rd,
          fst (ExecuteStream host inst url args sys) = Ok (rd, None) ->
          at_rest
            (handshake_task
               (stderr_chunks
                  (binary host
                     (exec_Command (bPath inst)
                        (url :: args ++ ["-o"; "-"; "--newline"])))))
          = [])
    /\ (fst (ExecuteStream host inst url args sys) = Blocked -> unread = []).
Proof.
  rewrite ExecuteStream_eq. cbv zeta. rewrite Hstart. cbn [fst snd].
  set (ws := stderr_chunks _).
  exists (at_send (handshake_task ws)). split; [reflexivity |].
  split; [apply handshake_task_tail |].
  pose proof (handshake_task_at_rest ws) as Hrest.
  split; [| split; [| split]].
  - intros r H. destruct (sent (handshake_task ws)) as [v|m|];
      try discriminate.
    now injection H as <-.
  - intros rd e H. destruct (sent (handshake_task ws)) as [[e'|]|m|];
      try discriminate. exact Hrest.
  - intros rd H. destruct (sent (handshake_task ws)) as [[e'|]|m|];
      try discriminate. exact Hrest.
  - intros H. apply handshake_task_blocked.
    now destruct (sent (handshake_task ws)) as [v|m|].
Qed.

Lemma ExecuteStream_pipes_witness :
  start_error
    (proc_chunks
       [with_newline "ERROR: disk full" +:+ with_newline "[debug] traceback"])
  = None
  /\ exists unread,
       snd (ExecuteStream
              (host_of
                 (proc_chunks
                    [with_newline "ERROR: disk full"
                     +:+ with_newline "[debug] traceback"]))
              inst0 "https://example.org/v" ["-x"] sys0)
       = mkSys
           [exec_Command "/usr/bin/yt-dlp"
              ["https://example.org/v"; "-x"; "-o"; "-"; "--newline"]]
           [[]; unread] ∅
       /\ unread = [].
Proof.
  split; [reflexivity |].
  destruct (ExecuteStream_pipes
              (host_of
                 (proc_chunks
                    [with_newline "ERROR: disk full"
                     +:+ with_newline "[debug] traceback"]))
              inst0 "https://example.org/v" ["-x"] sys0 eq_refl)
    as (unread & H & _).
  exists unread. split; [exact H |].
  vm_compute in H. now inversion H.
Defined.

(** X29: The handshake by the first marker line.  When the process starts
    and none of its writes to stderr is empty, what the streaming launch
    returns is decided by the bytes of the diagnostic stream alone, however
    they are cut into writes.  After lines without a marker, each shorter
    than 64 KiB: a line that begins with [download] gives the reader and
    nil; a line that begins with ERROR:  gives the reader and the rest of
    the line as the error (a carriage return before the newline is
    dropped); a line of 64 KiB or more gives the reader and nil, whatever
    follows it; and at the end of the bytes the launch does not return.
    Every stream is one of these. *)
Theorem handshake_by_first_marker (host : Host) (inst : YTDLPInstance)
    (url : string) (args : list string) (sys : Sys)
    (Hstart :
       start_error
         (binary host
            (exec_Command (bPath inst)
               (url :: args ++ ["-o"; "-"; "--newline"]))) = None)
    (Hne :
       Forall nonempty
         (stderr_chunks
            (binary host
               (exec_Command (bPath inst)
                  (url :: args ++ ["-o"; "-"; "--newline"]))))) :
  (exists x,
     stream_exit
       (bytes_of
          (stderr_chunks
             (binary host
                (exec_Command (bPath inst)
                   (url :: args ++ ["-o"; "-"; "--newline"]))))) x)
  /\ (forall x,
        stream_exit
          (bytes_of
             (stderr_chunks
                (binary host
                   (exec_Command (bPath inst)
                      (url :: args ++ ["-o"; "-"; "--newline"]))))) x ->
        fst (ExecuteStream host inst url args sys)
        = stream_result (length (pipes sys)) (received x)).
Proof.
  split; [apply stream_exit_total |].
  intros x Hx. rewrite ExecuteStream_eq. cbv zeta. rewrite Hstart. cbn [fst].
  now rewrite (handshake_resolves _ _ Hne Hx).
Qed.

Lemma two_writes_example :
  stream_exit
    (bytes_of
       ["[youtube] abc" +:+ String newline "ERR";
        "OR: disk full" +:+ String Bufio.CR (String newline "[debug] t")])
    (LoopError (errorString "disk full")).
Proof.
  apply (se_skip "[youtube] abc"
           (with_newline ("ERROR: disk full" +:+ String Bufio.CR EmptyString)
            +:+ "[debug] t")).
  - split; vm_compute; reflexivity.
  - split; intros [r H]; discriminate H.
  - apply (se_error ("ERROR: disk full" +:+ String Bufio.CR EmptyString)
             "disk full" "[debug] t").
    + split; vm_compute; reflexivity.
    + reflexivity.
Qed.

Lemma handshake_by_first_marker_witness :
  start_error
    (proc_chunks
       ["[youtube] abc" +:+ String newline "ERR";
        "OR: disk full" +:+ String Bufio.CR (String newline "[debug] t")])
  = None
  /\ Forall nonempty
       ["[youtube] abc" +:+ String newline "ERR";
        "OR: disk full" +:+ String Bufio.CR (String newline "[debug] t")]
  /\ fst (ExecuteStream
            (host_of
               (proc_chunks
                  ["[youtube] abc" +:+ String newline "ERR";
                   "OR: disk full"
                   +:+ String Bufio.CR (String newline "[debug] t")]))
            inst0 "https://example.org/v" [] sys0)
     = Ok (Some (pipeReader 0), Some (errorString "disk full")).
Proof.
  assert (Hne : Forall nonempty
                  ["[youtube] abc" +:+ String newline "ERR";
                   "OR: disk full"
                   +:+ String Bufio.CR (String newline "[debug] t")])
    by (repeat constructor; discriminate).
  split; [reflexivity |]. split; [exact Hne |].
  exact (proj2 (handshake_by_first_marker
                  (host_of
                     (proc_chunks
                        ["[youtube] abc" +:+ String newline "ERR";
                         "OR: disk full"
                         +:+ String Bufio.CR (String newline "[debug] t")]))
                  inst0 "https://example.org/v" [] sys0 eq_refl Hne)
           _ two_writes_example).
Defined.

(** *** The synchronous runners *)

Lemma pipe_written_twice (ps : list (list string)) (out err : list string) :
  alter (fun old => old ++ err) (length ps)
    (alter (fun old => old ++ out) (length ps) (ps ++ [[]]))
  = ps ++ [out ++ err].
Proof.
  induction ps as [|p ps IH]; [reflexivity |].
  cbn [app alter list_alter length]. f_equal. exact IH.
Qed.

(** GetVideoInfo in one equation. *)
Lemma GetVideoInfo_eq (host : Host) (inst : YTDLPInstance) (query : string)
    (sys : Sys) :
  GetVideoInfo host inst query sys
  = let cmd := exec_Command (bPath inst)
                 ["ytsearch:" +:+ query; "-s"; "-O";
                  "%(.{id,title,thumbnail,duration})#j"] in
    let p := binary host cmd in
    let sys' := mkSys (launched sys ++ [cmd]) (pipes sys) (files sys) in
    let failed e out :=
      (Ok (None,
           Some (Wrapped ("yt-dlp error: " +:+ String newline EmptyString)
                   e (" | " +:+ out))), sys') in
    match start_error p, exit_error p with
    | Some e, _ => failed e EmptyString
    | None, Some e => failed e (combined p)
    | None, None =>
        match decodeVideoInfo (combined p) with
        | Ok (_, Some e) =>
            (Ok (None,
                 Some (Wrapped "failed to decode video info: " e EmptyString)),
             sys')
        | Ok (v, None) => (Ok (v, None), sys')
        | Panic msg => (Panic msg, sys')
        | Blocked => (Blocked, sys')
        end
    end.
Proof.
  unfold GetVideoInfo, bind, lift, append, CombinedOutput, run_logged.
  cbn [app]. cbv zeta.
  destruct (start_error _); [reflexivity |].
  destruct (exit_error _); [reflexivity |].
  destruct (decodeVideoInfo _) as [[v [e|]]| |]; reflexivity.
Qed.

(** decodeVideoInfo returns a record or an error, never both. *)
Lemma decodeVideoInfo_shape (stdout : string) :
  (exists v, decodeVideoInfo stdout = Ok (Some v, None))
  \/ (exists e, decodeVideoInfo stdout = Ok (None, Some e)).
Proof.
  destruct (Decode_returns stdout new_YTDLPVideoInfo) as (v & e & H).
  unfold decodeVideoInfo. rewrite H. cbn [res_bind].
  destruct e; [right | left]; now eexists.
Qed.

(** X3: Execute with a target succeeds exactly when the process starts and
    exits without an error; every failure is reported as one error that
    carries the fixed prefix, the error of the process and its output. *)
Theorem Execute_nil_iff_process_ok (host : Host) (inst : YTDLPInstance)
    (url : string) (args : list string) (sys : Sys)
    (Hurl : url <> EmptyString) :
  (fst (Execute host inst url args sys) = Ok None
   <-> start_error (binary host (exec_Command (bPath inst) (url :: args)))
       = None
       /\ exit_error (binary host (exec_Command (bPath inst) (url :: args)))
          = None)
  /\ (forall e,
        fst (Execute host inst url args sys) = Ok (Some e) ->
        exists cause out,
          e = Wrapped ("yt-dlp error: " +:+ String newline EmptyString) cause
                (" | " +:+ out)
          /\ (start_error
                (binary host (exec_Command (bPath inst) (url :: args)))
              = Some cause /\ out = EmptyString
              \/ start_error
                   (binary host (exec_Command (bPath inst) (url :: args)))
                 = None
                 /\ exit_error
                      (binary host (exec_Command (bPath inst) (url :: args)))
                    = Some cause
                 /\ out = combined
                            (binary host
                               (exec_Command (bPath inst) (url :: args))))).
Proof.
  unfold Execute, bind, lift, CombinedOutput.
  rewrite bool_decide_eq_false_2 by assumption.
  rewrite slices_Insert_front.
  destruct (start_error _) as [e0|]; cbn [fst ret].
  - split.
    + split; [discriminate | intros [[=] _]].
    + intros e [= <-]. exists e0, EmptyString. split; [reflexivity |].
      left. now split.
  - destruct (exit_error _) as [e1|]; cbn [fst ret].
    + split.
      * split; [discriminate | intros [_ [=]]].
      * intros e [= <-]. eexists e1, _. split; [reflexivity |].
        right. now repeat split.
    + split; [now split | intros e [=]].
Qed.

Lemma Execute_nil_iff_process_ok_witness :
  "https://example.org/v" <> EmptyString
  /\ (fst (Execute (host_of (proc_stderr [])) inst0 "https://example.org/v"
             ["-x"] sys0) = Ok None
      <-> start_error (proc_stderr []) = None
          /\ exit_error (proc_stderr []) = None).
Proof.
  split; [discriminate |].
  exact (proj1 (Execute_nil_iff_process_ok (host_of (proc_stderr [])) inst0
                  "https://example.org/v" ["-x"] sys0 ltac:(discriminate))).
Defined.

(** X4: ExecuteStdout with a target starts the binary with the target followed
    by the extra arguments and returns a reader or an error, never both:
    the error of cmd.Start as it is, or the read end of one new pipe that
    receives what the process writes to its standard output and to its
    diagnostic stream alike. *)
Theorem ExecuteStdout_reader_or_error (host : Host) (inst : YTDLPInstance)
    (url : string) (args : list string) (sys : Sys)
    (Hurl : url <> EmptyString) :
  launched (snd (ExecuteStdout host inst url args sys))
  = launched sys ++ [exec_Command (bPath inst) (url :: args)]
  /\ (forall e,
        start_error (binary host (exec_Command (bPath inst) (url :: args)))
        = Some e ->
        fst (ExecuteStdout host inst url args sys) = Ok (None, Some e))
  /\ (start_error (binary host (exec_Command (bPath inst) (url :: args)))
      = None ->
      fst (ExecuteStdout host inst url args sys)
      = Ok (Some (pipeReader (length (pipes sys))), None)
      /\ exists written,
           pipes (snd (ExecuteStdout host inst url args sys))
           = pipes sys ++ [written]
           /\ forall x,
                In x written
                <-> In x (stdout_chunks
                            (binary host
                               (exec_Command (bPath inst) (url :: args))))
                    \/ In x (stderr_chunks
                               (binary host
                                  (exec_Command (bPath inst) (url :: args))))).
Proof.
  unfold ExecuteStdout, bind, lift.
  rewrite bool_decide_eq_false_2 by assumption.
  rewrite slices_Insert_front.
  cbn [io_Pipe pipes launched files]. unfold Start.
  destruct (start_error _) as [e0|]; cbn [fst snd ret launched run_logged].
  - split; [reflexivity |]. split; [intros e [= <-]; reflexivity | discriminate].
  - split; [reflexivity |]. split; [discriminate |]. intros _.
    split; [reflexivity |].
    unfold write_pipe, run_logged. cbn [pipes launched files].
    rewrite pipe_written_twice. eexists. split; [reflexivity |].
    intros x. apply in_app_iff.
Qed.

Lemma ExecuteStdout_reader_or_error_witness :
  "https://example.org/v" <> EmptyString
  /\ launched (snd (ExecuteStdout (host_of (proc_stderr ["[download] 1%"]))
                      inst0 "https://example.org/v" ["-x"] sys0))
     = launched sys0
       ++ [exec_Command (bPath inst0) ("https://example.org/v" :: ["-x"])].
Proof.
  split; [discriminate |].
  exact (proj1 (ExecuteStdout_reader_or_error
                  (host_of (proc_stderr ["[download] 1%"])) inst0
                  "https://example.org/v" ["-x"] sys0 ltac:(discriminate))).
Defined.

(** X5: GetVideoInfo never panics.  It runs the binary once, for every query,
    with the search target and the three fixed arguments, and returns a
    record or an error, never both and never neither.  A process that
    fails gives the wrapped process error and its output is not decoded;
    otherwise the record is the one that decodeVideoInfo finds in the
    combined output. *)
Theorem GetVideoInfo_record_or_error (host : Host) (inst : YTDLPInstance)
    (query : string) (sys : Sys) :
  exists r,
    GetVideoInfo host inst query sys
    = (Ok r,
       mkSys
         (launched sys
          ++ [exec_Command (bPath inst)
                ["ytsearch:" +:+ query; "-s"; "-O";
                 "%(.{id,title,thumbnail,duration})#j"]])
         (pipes sys) (files sys))
    /\ ((exists v, r = (Some v, None)) \/ (exists e, r = (None, Some e)))
    /\ (forall e,
          start_error
            (binary host
               (exec_Command (bPath inst)
                  ["ytsearch:" +:+ query; "-s"; "-O";
                   "%(.{id,title,thumbnail,duration})#j"])) = Some e
          \/ exit_error
               (binary host
                  (exec_Command (bPath inst)
                     ["ytsearch:" +:+ query; "-s"; "-O";
                      "%(.{id,title,thumbnail,duration})#j"])) = Some e
             /\ start_error
                  (binary host
                     (exec_Command (bPath inst)
                        ["ytsearch:" +:+ query; "-s"; "-O";
                         "%(.{id,title,thumbnail,duration})#j"])) = None ->
          exists out,
            r = (None,
                 Some (Wrapped ("yt-dlp error: " +:+ String newline EmptyString)
                         e (" | " +:+ out))))
    /\ (start_error
          (binary host
             (exec_Command (bPath inst)
                ["ytsearch:" +:+ query; "-s"; "-O";
                 "%(.{id,title,thumbnail,duration})#j"])) = None ->
        exit_error
          (binary host
             (exec_Command (bPath inst)
                ["ytsearch:" +:+ query; "-s"; "-O";
                 "%(.{id,title,thumbnail,duration})#j"])) = None ->
        forall v,
          r = (Some v, None)
          <-> decodeVideoInfo
                (combined
                   (binary host
                      (exec_Command (bPath inst)
                         ["ytsearch:" +:+ query; "-s"; "-O";
                          "%(.{id,title,thumbnail,duration})#j"])))
              = Ok (Some v, None)).
Proof.
  rewrite GetVideoInfo_eq. cbv zeta.
  destruct (start_error _) as [e0|].
  { eexists. split; [reflexivity |]. split; [right; now eexists |].
    split; [| discriminate].
    intros e [[= <-]|[_ [=]]]. now eexists. }
  destruct (exit_error _) as [e1|].
  { eexists. split; [reflexivity |]. split; [right; now eexists |].
    split; [| discriminate].
    intros e [[=]|[[= <-] _]]. now eexists. }
  match goal with
  | |- context [decodeVideoInfo ?out] =>
      destruct (decodeVideoInfo_shape out) as [[v ->]|[e ->]]
  end.
  - eexists. split; [reflexivity |]. split; [left; now eexists |].
    split; [intros e [[=]|[[=] _]] |]. intros _ _ v'.
    split; intros [= ->]; reflexivity.
  - eexists. split; [reflexivity |]. split; [right; now eexists |].
    split; [intros e' [[=]|[[=] _]] |]. intros _ _ v.
    split; intros [=].
Qed.

(** X6: No runner panics, whatever the host does: the insertion at index 0 is
    in range for every argument list, the slice of an ERROR:  line is
    guarded by the prefix test, and the JSON decoder stays in step with
    its scanner on every output.  Execute, ExecuteStdout, DumpStdout and
    GetVideoInfo return; ExecuteStream returns or waits for ever, and does
    not panic. *)
Theorem runners_never_panic (host : Host) (inst : YTDLPInstance)
    (url : string) (args : list string) (sys : Sys) :
  (exists r sys', Execute host inst url args sys = (Ok r, sys'))
  /\ (exists r sys', ExecuteStdout host inst url args sys = (Ok r, sys'))
  /\ (exists r sys', DumpStdout host inst url args sys = (Ok r, sys'))
  /\ (exists r sys', GetVideoInfo host inst url sys = (Ok r, sys'))
  /\ (forall msg, fst (ExecuteStream host inst url args sys) <> Panic msg).
Proof.
  split; [| split; [| split; [| split]]].
  - unfold Execute, bind, lift, CombinedOutput. rewrite slices_Insert_front.
    case_bool_decide; [now eexists _, _ |].
    destruct (start_error _); [now eexists _, _ |].
    destruct (exit_error _); now eexists _, _.
  - unfold ExecuteStdout, bind, lift. rewrite slices_Insert_front.
    case_bool_decide; [now eexists _, _ |].
    cbn [io_Pipe]. unfold Start.
    destruct (start_error _); now eexists _, _.
  - unfold DumpStdout, bind, CombinedOutput.
    case_bool_decide; [now eexists _, _ |].
    destruct (start_error _); now eexists _, _.
  - rewrite GetVideoInfo_eq. cbv zeta.
    destruct (start_error _); [now eexists _, _ |].
    destruct (exit_error _); [now eexists _, _ |].
    match goal with
    | |- context [decodeVideoInfo ?out] =>
        destruct (decodeVideoInfo_shape out) as [[v ->]|[e ->]]
    end; now eexists _, _.
  - intros msg. rewrite ExecuteStream_eq. cbv zeta.
    destruct (start_error _); [discriminate |]. cbn [fst].
    match goal with
    | |- context [handshake_task ?l] =>
        pose proof (handshake_task_no_panic l) as Hn;
        destruct (sent (handshake_task l)) as [v|m|]
    end; try discriminate.
    intros [= ->]. now apply (Hn msg).
Qed.

(** X7: The runners leave the files alone, keep the pipes that exist with
    their data, and add at most one command to those run before. *)
Theorem runners_frame (host : Host) (inst : YTDLPInstance)
    (url : string) (args : list string) (sys : Sys) :
  runs_at_most_one sys (snd (Execute host inst url args sys))
  /\ runs_at_most_one sys (snd (ExecuteStdout host inst url args sys))
  /\ runs_at_most_one sys (snd (DumpStdout host inst url args sys))
  /\ runs_at_most_one sys (snd (GetVideoInfo host inst url sys))
  /\ runs_at_most_one sys (snd (ExecuteStream host inst url args sys)).
Proof.
  assert (Hsame : runs_at_most_one sys sys).
  { split; [reflexivity |].
    split; [exists []; now rewrite app_nil_r |].
    exists []. rewrite app_nil_r. split; [reflexivity | simpl; lia]. }
  assert (Hrun : forall cmd new,
    runs_at_most_one sys
      (mkSys (launched sys ++ [cmd]) (pipes sys ++ new) (files sys))).
  { intros cmd new. split; [reflexivity |]. split; [now exists new |].
    exists [cmd]. split; [reflexivity | simpl; lia]. }
  assert (Hrun0 : forall cmd,
    runs_at_most_one sys (mkSys (launched sys ++ [cmd]) (pipes sys) (files sys))).
  { intros cmd. specialize (Hrun cmd []). rewrite app_nil_r in Hrun.
    exact Hrun. }
  split; [| split; [| split; [| split]]].
  - unfold Execute, bind, lift, CombinedOutput. rewrite slices_Insert_front.
    case_bool_decide; [exact Hsame |].
    destruct (start_error _); [apply Hrun0 |].
    destruct (exit_error _); apply Hrun0.
  - unfold ExecuteStdout, bind, lift. rewrite slices_Insert_front.
    case_bool_decide; [exact Hsame |].
    cbn [io_Pipe pipes launched files]. unfold Start.
    destruct (start_error _); cbn [snd ret run_logged pipes launched files].
    + apply Hrun.
    + unfold write_pipe, run_logged. cbn [pipes launched files].
      rewrite pipe_written_twice. apply Hrun.
  - unfold DumpStdout, bind, CombinedOutput.
    case_bool_decide; [exact Hsame |].
    destruct (start_error _); apply Hrun0.
  - rewrite GetVideoInfo_eq. cbv zeta.
    destruct (start_error _); [apply Hrun0 |].
    destruct (exit_error _); [apply Hrun0 |].
    destruct (decodeVideoInfo _) as [[v [e|]]| |]; apply Hrun0.
  - rewrite ExecuteStream_eq. cbv zeta.
    destruct (start_error _); apply Hrun.
Qed.

(** X8: NewInstance rejects the empty path and no other, and the instance it
    makes runs the binary at the path it was given. *)
Theorem NewInstance_runs_its_path (host : Host) (binPath url : string)
    (args : list string) (sys : Sys) :
  (NewInstance binPath = (None, Some (errorString "invalid binary path"))
   <-> binPath = EmptyString)
  /\ (binPath <> EmptyString ->
      exists inst,
        NewInstance binPath = (Some inst, None)
        /\ (url <> EmptyString ->
            launched (snd (Execute host inst url args sys))
            = launched sys ++ [exec_Command binPath (url :: args)])).
Proof.
  unfold NewInstance. split.
  - case_bool_decide; split; try discriminate; try reflexivity; tauto.
  - intros Hp. rewrite bool_decide_eq_false_2 by assumption.
    eexists. split; [reflexivity |]. intros Hurl.
    unfold Execute, bind, lift, CombinedOutput.
    rewrite bool_decide_eq_false_2 by assumption.
    rewrite slices_Insert_front. cbn [bPath].
    destruct (start_error _); [reflexivity |].
    destruct (exit_error _); reflexivity.
Qed.

(** X9: DumpStdout hands back what the process printed together with its
    error, both as they are: the output also when the process failed, and
    the error without a prefix. *)
Theorem DumpStdout_output_and_error (host : Host) (inst : YTDLPInstance)
    (url : string) (args : list string) (sys : Sys)
    (Hurl : url <> EmptyString) :
  (start_error (binary host (exec_Command (bPath inst) (args ++ [url])))
   = None ->
   fst (DumpStdout host inst url args sys)
   = Ok (combined (binary host (exec_Command (bPath inst) (args ++ [url]))),
         exit_error (binary host (exec_Command (bPath inst) (args ++ [url])))))
  /\ (forall e,
        start_error (binary host (exec_Command (bPath inst) (args ++ [url])))
        = Some e ->
        fst (DumpStdout host inst url args sys) = Ok (EmptyString, Some e)).
Proof.
  unfold DumpStdout, bind, CombinedOutput, append.
  rewrite bool_decide_eq_false_2 by assumption.
  split.
  - intros ->. reflexivity.
  - intros e ->. reflexivity.
Qed.

Lemma DumpStdout_output_and_error_witness :
  fst (DumpStdout
         (host_of {| start_error := None;
                     exit_error := Some (errorString "exit status 1");
                     combined := "ERROR: unsupported URL";
                     stderr_chunks := []; stdout_chunks := [] |})
         inst0 "https://example.org/v" ["-j"] sys0)
  = Ok ("ERROR: unsupported URL", Some (errorString "exit status 1")).
Proof.
  exact (proj1 (DumpStdout_output_and_error
                  (host_of {| start_error := None;
                              exit_error := Some (errorString "exit status 1");
                              combined := "ERROR: unsupported URL";
                              stderr_chunks := []; stdout_chunks := [] |})
                  inst0 "https://example.org/v" ["-j"] sys0
                  ltac:(discriminate)) eq_refl).
Defined.

(** *** The installer as a whole *)

(** downloadFile in one equation. *)
Lemma downloadFile_eq (host : Host) (path url : string) (sys : Sys) :
  downloadFile host path url sys
  = match os_Create_error host path with
    | Some e => (Ok (Some e), sys)
    | None =>
        let m := match files sys !! path with
                 | Some f => mode f
                 | None => Z.ldiff 0x1B6 (umask host)
                 end in
        match client_Get host url with
        | inr e =>
            (Ok (Some e),
             mkSys (launched sys) (pipes sys)
               (<[path := {| mode := m; content := EmptyString |}]> (files sys)))
        | inl r =>
            (Ok (BodyErr r),
             mkSys (launched sys) (pipes sys)
               (<[path := {| mode := m; content := Body r |}]> (files sys)))
        end
    end.
Proof.
  unfold downloadFile, bind, os_Create.
  destruct (os_Create_error host path); [reflexivity |].
  destruct (client_Get host url) as [r|e]; [| reflexivity].
  unfold io_Copy_file. cbn [files launched pipes].
  rewrite alter_insert_eq. cbn [mode].
  destruct (BodyErr r); reflexivity.
Qed.

(** setExecPermission in one equation. *)
Lemma setExecPermission_eq (host : Host) (fpath : string) (sys : Sys) :
  setExecPermission host fpath sys
  = match files sys !! fpath with
    | None =>
        (Ok (Some (errorString
                     ("stat " +:+ fpath +:+ ": no such file or directory"))),
         sys)
    | Some f =>
        match os_Chmod_error host fpath with
        | Some e => (Ok (Some e), sys)
        | None =>
            (Ok None,
             mkSys (launched sys) (pipes sys)
               (<[fpath := {| mode := Z.lor (mode f) 0x49;
                              content := content f |}]> (files sys)))
        end
    end.
Proof.
  unfold setExecPermission, bind, os_Stat, os_Chmod, ret.
  destruct (files sys !! fpath) as [f|] eqn:Hf; [| reflexivity].
  rewrite Hf. destruct (os_Chmod_error host fpath); [reflexivity |].
  now rewrite chmod_or_exec.
Qed.

(** X10: A download that fails after the file was created leaves an empty file
    in the place of what was there: os.Create truncates before the
    request is made, and nothing restores the old contents.  The error is
    the one of the request, and the mode of an existing file is kept. *)
Theorem failed_download_truncates (host : Host) (path version : string)
    (sys : Sys) (old : File) (e : error)
    (Hold : files sys !! path = Some old)
    (Hcreate : os_Create_error host path = None)
    (Hget : client_Get host
              ("https://github.com/yt-dlp/yt-dlp/releases/download/"
               +:+ version +:+ "/" +:+ exeName) = inr e) :
  DownloadFromGithub host path version sys
  = (Ok (Some e),
     mkSys (launched sys) (pipes sys)
       (<[path := {| mode := mode old; content := EmptyString |}]> (files sys)))
  /\ downloadFile host path
       ("https://github.com/yt-dlp/yt-dlp/releases/download/"
        +:+ version +:+ "/" +:+ exeName) sys
     = (Ok (Some e),
        mkSys (launched sys) (pipes sys)
          (<[path := {| mode := mode old; content := EmptyString |}]>
             (files sys))).
Proof.
  unfold DownloadFromGithub, bind. rewrite downloadFile_eq.
  rewrite Hcreate, Hget, Hold. cbv zeta. split; reflexivity.
Qed.

(** X11: When DownloadFromGithub succeeds, the file at the path holds the body
    of the release asset of that version, and its mode is the mode it had
    (for a new file: 0666 without the bits of the umask) with the three
    execute bits added. *)
Theorem DownloadFromGithub_installs (host : Host) (path version : string)
    (sys sys' : Sys)
    (Hok : DownloadFromGithub host path version sys = (Ok None, sys')) :
  exists r,
    client_Get host
      ("https://github.com/yt-dlp/yt-dlp/releases/download/"
       +:+ version +:+ "/yt-dlp") = inl r
    /\ BodyErr r = None
    /\ files sys' !! path
       = Some {| mode :=
                   Z.lor (match files sys !! path with
                          | Some f => mode f
                          | None => Z.ldiff 0x1B6 (umask host)
                          end) 0x49;
                 content := Body r |}.
Proof.
  unfold DownloadFromGithub, bind in Hok. rewrite downloadFile_eq in Hok.
  change exeName with "yt-dlp" in Hok.
  destruct (os_Create_error host path); [discriminate |].
  cbv zeta in Hok.
  destruct (client_Get host _) as [r|e]; [| discriminate].
  exists r. split; [reflexivity |].
  destruct (BodyErr r); [discriminate |]. split; [reflexivity |].
  rewrite setExecPermission_eq in Hok. cbn [files launched pipes] in Hok.
  rewrite lookup_insert_eq in Hok.
  destruct (os_Chmod_error host path); [discriminate |].
  injection Hok as <-. cbn [files mode content].
  now rewrite lookup_insert_eq.
Qed.

(** X12: setExecPermission is idempotent: after a call that succeeded, a
    second call succeeds and changes nothing. *)
Theorem setExecPermission_idempotent (host : Host) (fpath : string)
    (sys sys' : Sys)
    (Hok : setExecPermission host fpath sys = (Ok None, sys')) :
  setExecPermission host fpath sys' = (Ok None, sys').
Proof.
  rewrite setExecPermission_eq in Hok.
  destruct (files sys !! fpath) as [f|]; [| discriminate].
  destruct (os_Chmod_error host fpath) eqn:He; [discriminate |].
  injection Hok as <-. rewrite setExecPermission_eq.
  cbn [files launched pipes]. rewrite lookup_insert_eq, He.
  cbn [mode content]. rewrite insert_insert_eq.
  rewrite <- Z.lor_assoc, Z.lor_diag. reflexivity.
Qed.

(** X13: setExecPermission never panics, and a call that returns an error has
    changed nothing; a path without a file gives an error. *)
Theorem setExecPermission_error_unchanged (host : Host) (fpath : string)
    (sys : Sys) :
  (exists r sys', setExecPermission host fpath sys = (Ok r, sys')
                  /\ (is_Some r -> sys' = sys))
  /\ (files sys !! fpath = None ->
      exists e, setExecPermission host fpath sys = (Ok (Some e), sys)).
Proof.
  rewrite setExecPermission_eq.
  destruct (files sys !! fpath) as [f|].
  - split; [| discriminate].
    destruct (os_Chmod_error host fpath).
    + eexists _, _. split; [reflexivity | reflexivity].
    + eexists _, _. split; [reflexivity | intros [? [=]]].
  - split; [| intros _; now eexists].
    eexists _, _. split; [reflexivity | reflexivity].
Qed.

Lemma failed_download_truncates_witness :
  files sys_readonly !! "/opt/yt-dlp"
  = Some {| mode := 0x124; content := "#!/bin/sh" |}
  /\ DownloadFromGithub host_release "/opt/yt-dlp" "v2" sys_readonly
     = (Ok (Some (errorString "404 Not Found")),
        mkSys [] []
          (<["/opt/yt-dlp" := {| mode := 0x124; content := EmptyString |}]>
             (files sys_readonly))).
Proof.
  split; [reflexivity |].
  exact (proj1 (failed_download_truncates host_release "/opt/yt-dlp" "v2"
                  sys_readonly {| mode := 0x124; content := "#!/bin/sh" |}
                  (errorString "404 Not Found") eq_refl eq_refl eq_refl)).
Defined.

Lemma DownloadFromGithub_installs_witness :
  exists r,
    client_Get host_release
      ("https://github.com/yt-dlp/yt-dlp/releases/download/" +:+ "v1"
       +:+ "/yt-dlp") = inl r
    /\ BodyErr r = None
    /\ files (snd (DownloadFromGithub host_release "/opt/new" "v1" sys0))
       !! "/opt/new"
       = Some {| mode :=
                   Z.lor (match files sys0 !! "/opt/new" with
                          | Some f => mode f
                          | None => Z.ldiff 0x1B6 (umask host_release)
                          end) 0x49;
                 content := Body r |}.
Proof.
  exact (DownloadFromGithub_installs host_release "/opt/new" "v1" sys0 _
           eq_refl).
Defined.

Lemma setExecPermission_idempotent_witness :
  setExecPermission host_release "/opt/yt-dlp"
    (snd (setExecPermission host_release "/opt/yt-dlp" sys_readonly))
  = (Ok None, snd (setExecPermission host_release "/opt/yt-dlp" sys_readonly)).
Proof.
  exact (setExecPermission_idempotent host_release "/opt/yt-dlp" sys_readonly
           _ eq_refl).
Defined.

(** DownloadLatestFromGithub in one equation. *)
Lemma DownloadLatestFromGithub_eq (host : Host) (path : string) (sys : Sys) :
  DownloadLatestFromGithub host path sys
  = match client_Get host latest_release_url with
    | inr e => (Ok (Some e), sys)
    | inl r =>
        match decode_releases host (Body r) with
        | inr e => (Ok (Some e), sys)
        | inl [] => (Panic "index out of range [0] with length 0", sys)
        | inl (d :: _) =>
            match DownloadFromGithub host path (TagName d) sys with
            | (Ok (Some e), sys') =>
                (Ok (Some (Wrapped
                             "failed to download bin from GitHub releases: "
                             e EmptyString)), sys')
            | other => other
            end
        end
    end.
Proof.
  unfold DownloadLatestFromGithub, GetGithubReleases, bind, lift, ret.
  change ("https://api.github.com/repos/yt-dlp/yt-dlp/releases?page="
          +:+ pretty 1 +:+ "&per_page=" +:+ pretty 1)
    with latest_release_url.
  destruct (client_Get host latest_release_url) as [r|e]; [| reflexivity].
  destruct (decode_releases host (Body r)) as [[|d rest]|e]; try reflexivity.
  cbn [lookup list_lookup].
  destruct (DownloadFromGithub host path (TagName d) sys) as [[[e|]|msg|] sys'];
    reflexivity.
Qed.

(** X14: DownloadLatestFromGithub installs the first release of the listing
    and looks at no other: it leaves the system as DownloadFromGithub for
    that tag does, succeeds exactly when that does, and reports a failure
    of the download under its own prefix. *)
Theorem DownloadLatest_installs_first (host : Host) (path : string)
    (sys : Sys) (r : Response) (d : GHDownloadData)
    (others : list GHDownloadData)
    (Hget : client_Get host latest_release_url = inl r)
    (Hdec : decode_releases host (Body r) = inl (d :: others)) :
  snd (DownloadLatestFromGithub host path sys)
  = snd (DownloadFromGithub host path (TagName d) sys)
  /\ (fst (DownloadLatestFromGithub host path sys) = Ok None
      <-> fst (DownloadFromGithub host path (TagName d) sys) = Ok None)
  /\ (forall e,
        fst (DownloadFromGithub host path (TagName d) sys) = Ok (Some e) ->
        fst (DownloadLatestFromGithub host path sys)
        = Ok (Some (Wrapped "failed to download bin from GitHub releases: "
                      e EmptyString))).
Proof.
  rewrite DownloadLatestFromGithub_eq, Hget, Hdec.
  destruct (DownloadFromGithub host path (TagName d) sys) as [[[e|]|msg|] sys'];
    cbn [fst snd]; (split; [reflexivity |]); split;
    try (split; discriminate); try (split; reflexivity);
    try discriminate.
  intros e' [= ->]. reflexivity.
Qed.

Lemma DownloadLatest_installs_first_witness :
  snd (DownloadLatestFromGithub host_release "/opt/new" sys0)
  = snd (DownloadFromGithub host_release "/opt/new" "v1" sys0)
  /\ (fst (DownloadLatestFromGithub host_release "/opt/new" sys0) = Ok None
      <-> fst (DownloadFromGithub host_release "/opt/new" "v1" sys0) = Ok None).
Proof.
  destruct (DownloadLatest_installs_first host_release "/opt/new" sys0
              {| Body := json "[{'tag_name':'v1'}]"; BodyErr := None |}
              {| TagName := "v1" |} [] eq_refl eq_refl) as (H1 & H2 & _).
  split; [exact H1 | exact H2].
Defined.

(** X15: An error of the listing (of the request or of its decoding) is
    returned as it is, without the prefix, and nothing is changed. *)
Theorem DownloadLatest_listing_error (host : Host) (path : string)
    (sys : Sys) (e : error)
    (Hlist : fst (GetGithubReleases host 1 1 sys) = Ok ([], Some e)) :
  DownloadLatestFromGithub host path sys = (Ok (Some e), sys).
Proof.
  rewrite DownloadLatestFromGithub_eq.
  unfold GetGithubReleases, ret in Hlist.
  change ("https://api.github.com/repos/yt-dlp/yt-dlp/releases?page="
          +:+ pretty 1 +:+ "&per_page=" +:+ pretty 1)
    with latest_release_url in Hlist.
  destruct (client_Get host latest_release_url) as [r|e'].
  - destruct (decode_releases host (Body r)) as [d|e']; cbn [fst] in Hlist.
    + discriminate.
    + now injection Hlist as ->.
  - cbn [fst] in Hlist. now injection Hlist as ->.
Qed.

Lemma touches_only_refl (path : string) (sys : Sys) :
  touches_only path sys sys.
Proof. now repeat split. Qed.

Lemma touches_only_insert (path : string) (sys : Sys) (f : File) :
  touches_only path sys
    (mkSys (launched sys) (pipes sys) (<[path := f]> (files sys))).
Proof.
  split; [reflexivity |]. split; [reflexivity |].
  intros p Hp. cbn [files]. now rewrite lookup_insert_ne.
Qed.

Lemma touches_only_trans (path : string) (a b c : Sys) :
  touches_only path a b -> touches_only path b c -> touches_only path a c.
Proof.
  intros (Hl & Hp & Hf) (Hl' & Hp' & Hf').
  split; [congruence |]. split; [congruence |].
  intros p Hne. rewrite Hf', Hf by assumption. reflexivity.
Qed.

Lemma downloadFile_touches (host : Host) (path url : string) (sys : Sys) :
  touches_only path sys (snd (downloadFile host path url sys)).
Proof.
  rewrite downloadFile_eq.
  destruct (os_Create_error host path); [apply touches_only_refl |].
  cbv zeta. destruct (client_Get host url); apply touches_only_insert.
Qed.

Lemma setExecPermission_touches (host : Host) (path : string) (sys : Sys) :
  touches_only path sys (snd (setExecPermission host path sys)).
Proof.
  rewrite setExecPermission_eq.
  destruct (files sys !! path); [| apply touches_only_refl].
  destruct (os_Chmod_error host path);
    [apply touches_only_refl | apply touches_only_insert].
Qed.

Lemma DownloadFromGithub_touches (host : Host) (path version : string)
    (sys : Sys) :
  touches_only path sys (snd (DownloadFromGithub host path version sys)).
Proof.
  unfold DownloadFromGithub, bind.
  pose proof (downloadFile_touches host path
                ("https://github.com/yt-dlp/yt-dlp/releases/download/"
                 +:+ version +:+ "/" +:+ exeName) sys) as H.
  destruct (downloadFile host path _ sys) as [[[e|]|msg|] sys1];
    cbn [snd] in *; try exact H.
  eapply touches_only_trans; [exact H | apply setExecPermission_touches].
Qed.

(** X16: The installer launches no process and makes no pipe, and of the files
    it can change only the one at the path it was given. *)
Theorem installer_frame (host : Host) (path version url : string)
    (sys : Sys) :
  touches_only path sys (snd (downloadFile host path url sys))
  /\ touches_only path sys (snd (setExecPermission host path sys))
  /\ touches_only path sys (snd (DownloadFromGithub host path version sys))
  /\ touches_only path sys (snd (DownloadLatestFromGithub host path sys)).
Proof.
  split; [apply downloadFile_touches |].
  split; [apply setExecPermission_touches |].
  split; [apply DownloadFromGithub_touches |].
  rewrite DownloadLatestFromGithub_eq.
  destruct (client_Get host latest_release_url) as [r|e];
    [| apply touches_only_refl].
  destruct (decode_releases host (Body r)) as [[|d rest]|e];
    try apply touches_only_refl.
  pose proof (DownloadFromGithub_touches host path (TagName d) sys) as H.
  destruct (DownloadFromGithub host path (TagName d) sys)
    as [[[e|]|msg|] sys']; exact H.
Qed.

Lemma DownloadLatest_listing_error_witness :
  DownloadLatestFromGithub (host_of (proc_stderr [])) "/opt/yt-dlp" sys_readonly
  = (Ok (Some (errorString "no network")), sys_readonly).
Proof.
  exact (DownloadLatest_listing_error (host_of (proc_stderr [])) "/opt/yt-dlp"
           sys_readonly (errorString "no network") eq_refl).
Defined.

(** *** What the members of the object do to the record *)

(** decodeVideoInfo on an input whose first value is an object: the
    members are stored in the order of the input, and the record is
    returned unless an error was saved. *)
Lemma decodeVideoInfo_members (stdout : string) (ms : list (string * token)) :
  decoded_members stdout = Some ms ->
  decodeVideoInfo stdout
  = res_bind (store_members (mkTarget new_YTDLPVideoInfo None) ms) (fun t =>
      match savedError t with
      | Some e => Ok (None, Some e)
      | None => Ok (Some (vi t), None)
      end).
Proof.
  unfold decoded_members, decodeVideoInfo, Decode, unmarshal.
  destruct (readValue stdout); [| discriminate].
  destruct (slice_to _ _); [| discriminate].
  destruct (scan_value _) as [[|ms'|]| |]; try discriminate.
  intros [= ->]. cbn [res_bind store_value].
  destruct (store_members _ ms) as [t| |]; reflexivity.
Qed.

(** The members of an object that was decoded are stored without a
    panic. *)
Lemma decoded_members_stored (stdout : string) (ms : list (string * token)) :
  decoded_members stdout = Some ms ->
  exists t, store_members (mkTarget new_YTDLPVideoInfo None) ms = Ok t.
Proof.
  intros H. pose proof (decodeVideoInfo_members _ _ H) as Hd.
  destruct (decodeVideoInfo_returns stdout) as [r Hr]. rewrite Hr in Hd.
  destruct (store_members _ ms) as [t| |]; [now exists t | discriminate..].
Qed.

(** A member that saves an error whenever it is stored makes the whole
    decoding fail. *)
Lemma store_members_fails (ms : list (string * token)) :
  forall t t' m,
    In m ms ->
    (forall t1 t2, store_member t1 m = Ok t2 -> is_Some (savedError t2)) ->
    store_members t ms = Ok t' -> is_Some (savedError t').
Proof.
  induction ms as [|m0 ms IH]; intros t t' m Hin Hm H; [destruct Hin |].
  cbn [store_members] in H.
  destruct (store_member t m0) as [t1| |] eqn:E; [| discriminate..].
  cbn [res_bind] in H. destruct Hin as [-> | Hin].
  - exact (store_members_saved _ _ _ H (Hm _ _ E)).
  - exact (IH _ _ _ Hin Hm H).
Qed.

Lemma failing_member (stdout : string) (ms : list (string * token))
    (m : string * token) :
  decoded_members stdout = Some ms -> In m ms ->
  (forall t1 t2, store_member t1 m = Ok t2 -> is_Some (savedError t2)) ->
  exists e, decodeVideoInfo stdout = Ok (None, Some e).
Proof.
  intros Hd Hin Hm. rewrite (decodeVideoInfo_members _ _ Hd).
  destruct (decoded_members_stored _ _ Hd) as [t Ht]. rewrite Ht.
  cbn [res_bind].
  destruct (store_members_fails _ _ _ _ Hin Hm Ht) as [e ->]. now exists e.
Qed.

(** X17: A member whose JSON type does not fit the Go type of the field that
    its key selects makes decodeVideoInfo fail: it returns an error and no
    record, whatever the other members are. *)
Theorem type_mismatch_fails (stdout : string) (ms : list (string * token))
    (key : string) (tok : token) (f : field) (k : kind)
    (Hms : decoded_members stdout = Some ms)
    (Hin : In (key, tok) ms)
    (Hkey : field_of_key key = Some f)
    (Hkind : kind_of tok = Some k)
    (Hfit : fits k f = false) :
  exists e, decodeVideoInfo stdout = Ok (None, Some e).
Proof.
  apply (failing_member _ _ _ Hms Hin). intros t1 t2.
  unfold store_member. cbn [fst snd]. rewrite Hkey.
  destruct tok as [item| |].
  - destruct item as [|c item]; [discriminate |].
    cbn [kind_of] in Hkind. unfold literalStore.
    destruct (Ascii.eqb c dquote) eqn:Eq.
    { injection Hkind as <-. cbn [fits] in Hfit.
      assert (En : Ascii.eqb c "n" = false).
      { apply Ascii.eqb_eq in Eq. now subst. }
      assert (Et : Ascii.eqb c "t" || Ascii.eqb c "f" = false).
      { apply Ascii.eqb_eq in Eq. now subst. }
      rewrite En, Et. destruct (unquoteBytes _); [| discriminate].
      rewrite Hfit. intros [= <-]. apply saveError_saved. }
    destruct (Ascii.eqb c "n") eqn:En.
    { injection Hkind as <-. discriminate. }
    destruct (Ascii.eqb c "t" || Ascii.eqb c "f") eqn:Et.
    { intros [= <-]. apply saveError_saved. }
    destruct (Ascii.eqb c "-" || isDigit c) eqn:Ed; [| discriminate].
    injection Hkind as <-. cbn [fits] in Hfit.
    apply negb_false_iff in Hfit. rewrite Hfit.
    assert (Hn : negb (Ascii.eqb c "-") && negb (isDigit c) = false).
    { rewrite <- negb_orb, Ed. reflexivity. }
    rewrite Hn. intros [= <-]. apply saveError_saved.
  - intros [= <-]. apply saveError_saved.
  - intros [= <-]. apply saveError_saved.
Qed.

(** X18: Members whose key selects no field are ignored with their values, and
    so are members whose value is null: an object that has no other
    member decodes to the zero record, without an error. *)
Theorem unknown_and_null_ignored (stdout : string)
    (ms : list (string * token))
    (Hms : decoded_members stdout = Some ms)
    (Hall : forall key tok,
        In (key, tok) ms ->
        field_of_key key = None \/ tok = tokLiteral "null") :
  decodeVideoInfo stdout = Ok (Some new_YTDLPVideoInfo, None).
Proof.
  rewrite (decodeVideoInfo_members _ _ Hms).
  assert (H : forall t, store_members t ms = Ok t).
  { clear Hms. induction ms as [|[key tok] ms IH]; intros t; [reflexivity |].
    cbn [store_members]. unfold store_member. cbn [fst snd].
    assert (Hm : match field_of_key key with
                 | Some f =>
                     match tok with
                     | tokLiteral item => literalStore item f t
                     | tokObject =>
                         Ok (saveError t (UnmarshalTypeError "object"
                                            (field_name f)))
                     | tokArray =>
                         Ok (saveError t (UnmarshalTypeError "array"
                                            (field_name f)))
                     end
                 | None => Ok t
                 end = Ok t).
    { destruct (Hall key tok (or_introl eq_refl)) as [-> | ->];
        [reflexivity |].
      destruct (field_of_key key); reflexivity. }
    rewrite Hm. cbn [res_bind]. apply IH.
    intros k' t' Hin. apply Hall. now right. }
  rewrite H. reflexivity.
Qed.

(** *** Keys and numbers *)

(** X19: A key selects a field exactly when it is the JSON name of the field
    up to the case of its ASCII letters. *)
Theorem key_selects_field_up_to_case (key : string) (f : field) :
  field_of_key key = Some f <-> foldName key = foldName (field_name f).
Proof.
  unfold field_of_key. cbn [find field_name].
  destruct (String.eqb "id" key) eqn:E1.
  { apply String.eqb_eq in E1. subst key.
    split; [intros [= <-]; reflexivity |].
    destruct f; [reflexivity | | |]; intros H; vm_compute in H; discriminate. }
  destruct (String.eqb "title" key) eqn:E2.
  { apply String.eqb_eq in E2. subst key.
    split; [intros [= <-]; reflexivity |].
    destruct f; [| reflexivity | |]; intros H; vm_compute in H; discriminate. }
  destruct (String.eqb "thumbnail" key) eqn:E3.
  { apply String.eqb_eq in E3. subst key.
    split; [intros [= <-]; reflexivity |].
    destruct f; [| | reflexivity |]; intros H; vm_compute in H; discriminate. }
  destruct (String.eqb "duration" key) eqn:E4.
  { apply String.eqb_eq in E4. subst key.
    split; [intros [= <-]; reflexivity |].
    destruct f; [| | | reflexivity]; intros H; vm_compute in H; discriminate. }
  change (foldName "id") with "ID".
  change (foldName "title") with "TITLE".
  change (foldName "thumbnail") with "THUMBNAIL".
  change (foldName "duration") with "DURATION".
  destruct (String.eqb "ID" (foldName key)) eqn:F1.
  { apply String.eqb_eq in F1. rewrite <- F1.
    split; [intros [= <-]; reflexivity |].
    destruct f; [reflexivity | | |]; intros H; vm_compute in H; discriminate. }
  destruct (String.eqb "TITLE" (foldName key)) eqn:F2.
  { apply String.eqb_eq in F2. rewrite <- F2.
    split; [intros [= <-]; reflexivity |].
    destruct f; [| reflexivity | |]; intros H; vm_compute in H; discriminate. }
  destruct (String.eqb "THUMBNAIL" (foldName key)) eqn:F3.
  { apply String.eqb_eq in F3. rewrite <- F3.
    split; [intros [= <-]; reflexivity |].
    destruct f; [| | reflexivity |]; intros H; vm_compute in H; discriminate. }
  destruct (String.eqb "DURATION" (foldName key)) eqn:F4.
  { apply String.eqb_eq in F4. rewrite <- F4.
    split; [intros [= <-]; reflexivity |].
    destruct f; [| | | reflexivity]; intros H; vm_compute in H; discriminate. }
  split; [discriminate |]. intros H.
  apply String.eqb_neq in F1, F2, F3, F4.
  destruct f; cbn [field_name] in H;
    [change (foldName "id") with "ID" in H
    | change (foldName "title") with "TITLE" in H
    | change (foldName "thumbnail") with "THUMBNAIL" in H
    | change (foldName "duration") with "DURATION" in H]; congruence.
Qed.

Lemma isDigit_code (c : ascii) :
  isDigit c = true -> 0 <= code c - code "0" <= 9.
Proof.
  unfold isDigit, between. change (code "0") with 48. change (code "9") with 57.
  intros H. apply andb_true_iff in H as [H1 H2]. lia.
Qed.

Lemma decimal_from_ge (s : string) :
  forall acc, 0 <= acc -> all_digits s = true -> acc <= decimal_from acc s.
Proof.
  unfold decimal_from, all_digits.
  induction s as [|c s IH]; intros acc Hacc Hd; cbn [list_ascii_of_string fold_left forallb] in *;
    [lia |].
  apply andb_true_iff in Hd as [Hc Hd]. apply isDigit_code in Hc.
  specialize (IH (10 * acc + (code c - code "0")) ltac:(lia) Hd). lia.
Qed.

(** strconv.ParseUint accepts exactly the digit strings that write a
    number up to 2^64 - 1, and returns that number. *)
Lemma ParseUint_loop_spec (s : string) :
  forall acc,
    0 <= acc <= maxUint64 ->
    ParseUint_loop s acc
    = if all_digits s && (decimal_from acc s <=? maxUint64)
      then Some (decimal_from acc s) else None.
Proof.
  induction s as [|c s IH]; intros acc Hacc.
  - cbn. destruct (Z.leb_spec acc maxUint64); [reflexivity | lia].
  - cbn [ParseUint_loop]. change (between "0" "9" c) with (isDigit c).
    unfold all_digits, decimal_from.
    cbn [list_ascii_of_string forallb fold_left].
    fold (all_digits s).
    fold (decimal_from (10 * acc + (code c - code "0")) s).
    destruct (isDigit c) eqn:Hc; [| reflexivity]. cbn [andb].
    pose proof (isDigit_code _ Hc) as Hd.
    unfold maxUint64 in *.
    change (2 ^ 64 - 1) with 18446744073709551615 in *.
    change (18446744073709551615 / 10 + 1) with 1844674407370955162.
    change (2 ^ 64) with 18446744073709551616.
    destruct (all_digits s) eqn:Hs.
    + pose proof (decimal_from_ge s (10 * acc + (code c - code "0"))
                    ltac:(lia) Hs) as Hge.
      destruct (Z.leb_spec 1844674407370955162 acc).
      { cbn [andb]. destruct (Z.leb_spec (decimal_from (10 * acc + (code c - code "0")) s) 18446744073709551615); [lia | reflexivity]. }
      destruct (Z.le_gt_cases (acc * 10 + (code c - code "0"))
                  18446744073709551615) as [Hle|Hgt].
      * rewrite (Z.mod_small (acc * 10 + (code c - code "0"))) by lia.
        destruct (Z.ltb_spec (acc * 10 + (code c - code "0")) (acc * 10));
          [lia |].
        destruct (Z.ltb_spec 18446744073709551615
                    (acc * 10 + (code c - code "0"))); [lia |].
        cbn [orb]. rewrite IH by lia. unfold maxUint64.
        change (2 ^ 64 - 1) with 18446744073709551615.
        replace (acc * 10) with (10 * acc) by lia. reflexivity.
      * assert (Hm : (acc * 10 + (code c - code "0")) mod 18446744073709551616
                     = acc * 10 + (code c - code "0") - 18446744073709551616).
        { symmetry. apply Z.mod_unique_pos with (q := 1); lia. }
        rewrite Hm.
        destruct (Z.ltb_spec
                    (acc * 10 + (code c - code "0") - 18446744073709551616)
                    (acc * 10)); [| lia].
        cbn [orb andb].
        destruct (Z.leb_spec (decimal_from (10 * acc + (code c - code "0")) s)
                    18446744073709551615); [lia | reflexivity].
    + cbn [andb].
      destruct (Z.leb_spec 1844674407370955162 acc); [reflexivity |].
      destruct (_ || _); [reflexivity |].
      destruct (Z.le_gt_cases (acc * 10 + (code c - code "0"))
                  18446744073709551615) as [Hle|Hgt].
      * rewrite (Z.mod_small (acc * 10 + (code c - code "0"))) by lia.
        rewrite IH by lia. reflexivity.
      * assert (Hr : 0 <= (acc * 10 + (code c - code "0"))
                          mod 18446744073709551616 < 18446744073709551616).
        { apply Z.mod_pos_bound. lia. }
        rewrite IH by lia. reflexivity.
Qed.

Lemma ParseUint_spec (s : string) :
  ParseUint s
  = if negb (String.eqb s EmptyString) && all_digits s
       && (decimal_value s <=? maxUint64)
    then Some (decimal_value s) else None.
Proof.
  destruct s as [|c s]; [reflexivity |].
  unfold ParseUint. rewrite ParseUint_loop_spec by (unfold maxUint64; lia).
  reflexivity.
Qed.

Lemma OverflowUint_small (n : Z) :
  0 <= n <= maxUint64 -> OverflowUint n = false.
Proof.
  intros H. unfold OverflowUint, uintSize. unfold maxUint64 in H.
  rewrite Z.mod_small by lia. now rewrite Z.eqb_refl.
Qed.

Lemma decimal_value_nonneg (s : string) :
  all_digits s = true -> 0 <= decimal_value s.
Proof. intros H. apply (decimal_from_ge s 0); [lia | exact H]. Qed.

(** literalStore of a number literal into the uint field. *)
Lemma literalStore_uint (item : string) (t : target) :
  kind_of (tokLiteral item) = Some kNumber ->
  literalStore item fDuration t
  = if all_digits item && (decimal_value item <=? maxUint64)
    then Ok (mkTarget
               (mkVideoInfo (Id (vi t)) (Title (vi t)) (Thumbnail (vi t))
                  (decimal_value item))
               (savedError t))
    else Ok (saveError t
               (UnmarshalTypeError ("number " +:+ item) "duration")).
Proof.
  destruct item as [|c item]; [discriminate |]. cbn [kind_of].
  destruct (Ascii.eqb c dquote) eqn:Eq; [discriminate |].
  destruct (Ascii.eqb c "n") eqn:En; [discriminate |].
  destruct (Ascii.eqb c "t" || Ascii.eqb c "f") eqn:Et; [discriminate |].
  destruct (Ascii.eqb c "-" || isDigit c) eqn:Ed; [| discriminate].
  intros _. unfold literalStore. rewrite En, Et, Eq.
  assert (Hn : negb (Ascii.eqb c "-") && negb (isDigit c) = false).
  { rewrite <- negb_orb, Ed. reflexivity. }
  rewrite Hn. cbn [is_string_field field_name]. rewrite ParseUint_spec.
  cbn [String.eqb negb andb].
  destruct (all_digits (String c item)) eqn:Hd; [| reflexivity].
  cbn [andb].
  destruct (Z.leb_spec (decimal_value (String c item)) maxUint64);
    [| reflexivity].
  rewrite OverflowUint_small; [reflexivity |].
  split; [now apply decimal_value_nonneg | assumption].
Qed.

(** X20: The duration must be written as an unsigned decimal integer below
    2^64: a number with a sign, a fraction or an exponent, or one that is
    too large, makes decodeVideoInfo fail, so no record is returned; a
    number in that form is stored as it is. *)
Theorem duration_must_be_uint (stdout : string) (ms : list (string * token))
    (key item : string)
    (Hms : decoded_members stdout = Some ms)
    (Hin : In (key, tokLiteral item) ms)
    (Hkey : field_of_key key = Some fDuration)
    (Hnum : kind_of (tokLiteral item) = Some kNumber) :
  (all_digits item = false \/ maxUint64 < decimal_value item ->
   exists e, decodeVideoInfo stdout = Ok (None, Some e))
  /\ (all_digits item = true -> decimal_value item <= maxUint64 ->
      forall t,
        store_member t (key, tokLiteral item)
        = Ok (mkTarget
                (mkVideoInfo (Id (vi t)) (Title (vi t)) (Thumbnail (vi t))
                   (decimal_value item))
                (savedError t))).
Proof.
  split.
  - intros Hbad. apply (failing_member _ _ _ Hms Hin). intros t1 t2.
    unfold store_member. cbn [fst snd]. rewrite Hkey.
    rewrite (literalStore_uint _ _ Hnum).
    assert (Hc : all_digits item && (decimal_value item <=? maxUint64) = false).
    { destruct Hbad as [-> | Hlt]; [reflexivity |].
      apply andb_false_iff. right. apply Z.leb_gt. exact Hlt. }
    rewrite Hc. intros [= <-]. apply saveError_saved.
  - intros Hd Hle t. unfold store_member. cbn [fst snd]. rewrite Hkey.
    rewrite (literalStore_uint _ _ Hnum), Hd.
    apply Z.leb_le in Hle. now rewrite Hle.
Qed.

Lemma duration_must_be_uint_witness :
  decoded_members (json "{'id':'x','duration':12.5}")
  = Some [("id", tokLiteral (json "'x'")); ("duration", tokLiteral "12.5")]
  /\ exists e,
       decodeVideoInfo (json "{'id':'x','duration':12.5}") = Ok (None, Some e).
Proof.
  assert (Hms : decoded_members (json "{'id':'x','duration':12.5}")
                = Some [("id", tokLiteral (json "'x'"));
                        ("duration", tokLiteral "12.5")])
    by (vm_compute; reflexivity).
  split; [exact Hms |].
  exact (proj1 (duration_must_be_uint _ _ "duration" "12.5" Hms
                  (or_intror (or_introl eq_refl)) eq_refl eq_refl)
           (or_introl eq_refl)).
Defined.

Lemma type_mismatch_fails_witness :
  decoded_members (json "{'title':['a'],'duration':1}")
  = Some [("title", tokArray); ("duration", tokLiteral "1")]
  /\ exists e,
       decodeVideoInfo (json "{'title':['a'],'duration':1}")
       = Ok (None, Some e).
Proof.
  assert (Hms : decoded_members (json "{'title':['a'],'duration':1}")
                = Some [("title", tokArray); ("duration", tokLiteral "1")])
    by (vm_compute; reflexivity).
  split; [exact Hms |].
  exact (type_mismatch_fails _ _ "title" tokArray fTitle kArray Hms
           (or_introl eq_refl) eq_refl eq_refl eq_refl).
Defined.

Lemma unknown_and_null_ignored_witness :
  decoded_members (json "{'uploader':{'n':[1]},'title':null}")
  = Some [("uploader", tokObject); ("title", tokLiteral "null")]
  /\ decodeVideoInfo (json "{'uploader':{'n':[1]},'title':null}")
     = Ok (Some new_YTDLPVideoInfo, None).
Proof.
  assert (Hms : decoded_members (json "{'uploader':{'n':[1]},'title':null}")
                = Some [("uploader", tokObject); ("title", tokLiteral "null")])
    by (vm_compute; reflexivity).
  split; [exact Hms |].
  apply (unknown_and_null_ignored _ _ Hms).
  intros key tok [[= <- <-] | [[= <- <-] | []]];
    [left; reflexivity | right; reflexivity].
Defined.

(** *** Outputs without a complete value *)

Lemma nonSpace_cons (c : ascii) (s : string) :
  nonSpace (String c s) = negb (isSpace c) || nonSpace s.
Proof. reflexivity. Qed.

Lemma nonSpace_append (a b : string) :
  nonSpace (a +:+ b) = nonSpace a || nonSpace b.
Proof.
  induction a as [|c a IH]; [reflexivity |].
  rewrite append_cons, !nonSpace_cons, IH. now rewrite orb_assoc.
Qed.

Lemma scanner0_space (c : ascii) :
  isSpace c = true -> scan_step scanner0 c = (scanner0, scanSkipSpace).
Proof. apply (space_stable_begin scanner0). now left. Qed.

(** Before the value, readValue skips white space. *)
Lemma readValue_from_blank (blank rest : string) :
  forall k whole,
    nonSpace blank = false ->
    readValue_from scanner0 (blank +:+ rest) k whole
    = readValue_from scanner0 rest (k + String.length blank) whole.
Proof.
  induction blank as [|c blank IH]; intros k whole Hb.
  - cbn. now rewrite Nat.add_0_r.
  - rewrite nonSpace_cons in Hb. apply orb_false_iff in Hb as [Hc Hb].
    apply negb_false_iff in Hc.
    rewrite append_cons. cbn [readValue_from]. rewrite (scanner0_space c Hc).
    rewrite IH by assumption. cbn [String.length]. f_equal. lia.
Qed.

Lemma readValue_from_end (k : nat) (whole : string) :
  readValue_from scanner0 EmptyString k whole
  = inr (if nonSpace whole then io_ErrUnexpectedEOF else io_EOF).
Proof.
  cbn [readValue_from]. rewrite (scanner0_space " " eq_refl). cbn [snd].
  rewrite bool_decide_eq_false_2 by discriminate.
  now destruct (nonSpace whole).
Qed.

(** X21: An output without any value, empty or of white space only, as the
    binary prints it when the search finds nothing, gives the error io.EOF;
    GetVideoInfo reports it under its decode prefix. *)
Theorem blank_output_is_EOF (stdout : string)
    (Hblank : nonSpace stdout = false) :
  decodeVideoInfo stdout = Ok (None, Some io_EOF)
  /\ forall host inst query sys,
       start_error
         (binary host
            (exec_Command (bPath inst)
               ["ytsearch:" +:+ query; "-s"; "-O";
                "%(.{id,title,thumbnail,duration})#j"])) = None ->
       exit_error
         (binary host
            (exec_Command (bPath inst)
               ["ytsearch:" +:+ query; "-s"; "-O";
                "%(.{id,title,thumbnail,duration})#j"])) = None ->
       combined
         (binary host
            (exec_Command (bPath inst)
               ["ytsearch:" +:+ query; "-s"; "-O";
                "%(.{id,title,thumbnail,duration})#j"])) = stdout ->
       fst (GetVideoInfo host inst query sys)
       = Ok (None,
             Some (Wrapped "failed to decode video info: " io_EOF EmptyString)).
Proof.
  assert (H : decodeVideoInfo stdout = Ok (None, Some io_EOF)).
  { unfold decodeVideoInfo, Decode, readValue. fold scanner0.
    rewrite <- (append_nil_r stdout) at 1.
    rewrite readValue_from_blank by assumption.
    rewrite readValue_from_end, Hblank. reflexivity. }
  split; [exact H |].
  intros host inst query sys Hs He Hc. rewrite GetVideoInfo_eq. cbv zeta.
  rewrite Hs, He, Hc, H. reflexivity.
Qed.

Lemma isDigit_cases (c : ascii) :
  isDigit c = Ascii.eqb c "0" || between "1" "9" c.
Proof. destruct c as [[] [] [] [] [] [] [] []]; reflexivity. Qed.

(** X22: An output whose first byte after white space cannot begin a JSON
    value gives a syntax error that names the byte: a warning that the
    binary writes to its diagnostic stream, which CombinedOutput puts
    into the same buffer, makes the decoding fail in this way. *)
Theorem stray_text_is_syntax_error (blank : string) (c : ascii)
    (rest : string)
    (Hblank : nonSpace blank = false)
    (Hc : isSpace c = false)
    (Hv : begins_value c = false) :
  decodeVideoInfo (blank +:+ String c rest)
  = Ok (None, Some (SyntaxError c "looking for beginning of value")).
Proof.
  unfold decodeVideoInfo, Decode, readValue. fold scanner0.
  rewrite readValue_from_blank by assumption.
  cbn [readValue_from].
  unfold begins_value in Hv. rewrite isDigit_cases in Hv.
  repeat (apply orb_false_iff in Hv as [Hv ?]).
  match goal with
  | H : _ || between "1" "9" c = false |- _ =>
      apply orb_false_iff in H as [? ?]
  end.
  assert (E : scan_step scanner0 c
              = scan_error scanner0 c "looking for beginning of value").
  { unfold scanner0, reset, scan_step. cbn [step]. unfold stateBeginValue.
    rewrite Hc.
    repeat match goal with
           | H : ?b = false |- context [if ?b then _ else _] => rewrite H
           end.
    reflexivity. }
  rewrite E. reflexivity.
Qed.

Lemma stray_text_is_syntax_error_witness :
  decodeVideoInfo
    (" " +:+ String "W" ("ARNING: slow" +:+ String newline sample_object))
  = Ok (None, Some (SyntaxError "W" "looking for beginning of value")).
Proof.
  exact (stray_text_is_syntax_error " " "W"
           ("ARNING: slow" +:+ String newline sample_object)
           eq_refl eq_refl eq_refl).
Defined.

Lemma blank_output_is_EOF_witness :
  decodeVideoInfo (String newline EmptyString) = Ok (None, Some io_EOF).
Proof.
  exact (proj1 (blank_output_is_EOF (String newline EmptyString) eq_refl)).
Defined.

(** Inside an object or an array, an input that ends early is reported
    as such. *)
Lemma readValue_from_cut (p : string) :
  forall s k whole r,
    wf s -> parseState s <> [] -> accepts s (p +:+ r) -> r <> EmptyString ->
    readValue_from s p k whole
    = inr (if nonSpace whole then io_ErrUnexpectedEOF else io_EOF).
Proof.
  induction p as [|c p IH]; intros s k whole r Hwf Hne Ha Hr.
  - cbn [readValue_from].
    destruct (scan_step s " ") as [s1 op] eqn:E.
    destruct (step_nonempty _ _ _ _ Hne Hwf E) as [Hop _]. cbn [snd].
    rewrite bool_decide_eq_false_2 by assumption.
    now destruct (nonSpace whole).
  - rewrite append_cons in Ha. cbn [readValue_from].
    destruct (scan_step s c) as [s1 op] eqn:E.
    pose proof (accepts_step _ _ _ _ _ E Ha) as Hk.
    pose proof (step_wf _ _ _ _ Hwf E) as Hwf1.
    destruct (step_nonempty _ _ _ _ Hne Hwf E) as [Hop Hpop].
    assert (Hne1 : parseState s1 <> []).
    { intros Hnil. unfold continues in Hk. rewrite Hnil in Hk.
      destruct (Hpop Hnil) as [-> | ->];
        (destruct p; [now subst | discriminate]). }
    assert (Ha1 : accepts s1 (p +:+ r)).
    { unfold continues in Hk.
      destruct op; try exact Hk; try (now destruct Hk);
        destruct (parseState s1); [now destruct Hne1 | exact Hk | now destruct Hne1 | exact Hk]. }
    destruct op; try (now destruct Hk); try (now apply (IH s1 _ whole r)).
    + rewrite (pop_space _ _ _ _ E (or_introl eq_refl)).
      destruct (parseState s1) eqn:Hps; [now destruct Hne1 |].
      rewrite bool_decide_eq_false_2 by discriminate.
      apply (IH s1 _ whole r); try assumption. now rewrite Hps.
    + rewrite (pop_space _ _ _ _ E (or_intror eq_refl)).
      destruct (parseState s1) eqn:Hps; [now destruct Hne1 |].
      rewrite bool_decide_eq_false_2 by discriminate.
      apply (IH s1 _ whole r); try assumption. now rewrite Hps.
Qed.

Lemma readValue_object_cut (p : string) :
  forall k k' whole r,
    accepts scanner0 (p +:+ r) -> r <> EmptyString ->
    snd (scanWhile_from scanner0 (p +:+ r) k' scanSkipSpace) = scanBeginObject ->
    readValue_from scanner0 p k whole
    = inr (if nonSpace whole then io_ErrUnexpectedEOF else io_EOF).
Proof.
  induction p as [|c p IH]; intros k k' whole r Ha Hr Hop.
  - apply readValue_from_end.
  - rewrite append_cons in Ha, Hop.
    cbn [readValue_from scanWhile_from] in *.
    destruct (scan_step scanner0 c) as [s1 op] eqn:E.
    pose proof (accepts_step _ _ _ _ _ E Ha) as Hk.
    destruct (isSpace c) eqn:Hc.
    + rewrite (scanner0_space c Hc) in E. apply pair_equal_spec in E as [<- <-].
      rewrite bool_decide_eq_true_2 in Hop by reflexivity.
      cbn [continues] in Hk. exact (IH (S k) (S k') whole r Hk Hr Hop).
    + assert (Hne : op <> scanSkipSpace).
      { intros ->. apply skipSpace_isSpace in E. congruence. }
      rewrite bool_decide_eq_false_2 in Hop by assumption.
      cbn [snd] in Hop. subst op. cbn [continues] in Hk.
      destruct (step_begin_value scanner0 c _ _ eq_refl Hc E ltac:(discriminate))
        as [[Hop _]|[(_ & Hps & _)|[Hop _]]]; try discriminate Hop.
      pose proof (step_wf _ _ _ _ (wf_begin_value scanner0 eq_refl) E) as Hwf1.
      apply (readValue_from_cut p s1 (S k) whole r Hwf1); try assumption.
      rewrite Hps. discriminate.
Qed.

(** X23: An output that breaks off inside the object, as when the process is
    killed while it prints, gives io.ErrUnexpectedEOF (io.EOF when only
    white space was printed), and no record: every proper prefix of a
    JSON object fails to decode. *)
Theorem truncated_object_is_unexpected_EOF (obj p r : string)
    (Hobj : json_object obj)
    (Hcut : obj = p +:+ r)
    (Hr : r <> EmptyString) :
  decodeVideoInfo p
  = Ok (None, Some (if nonSpace p then io_ErrUnexpectedEOF else io_EOF)).
Proof.
  destruct Hobj as [Hread [ms Hms]].
  pose proof (readValue_whole _ Hread) as Ha.
  pose proof (scan_value_object _ _ Hms) as Hop. subst obj.
  unfold decodeVideoInfo, Decode, readValue. fold scanner0.
  rewrite (readValue_object_cut p 0 0 p r Ha Hr Hop). reflexivity.
Qed.

Lemma truncated_object_is_unexpected_EOF_witness :
  json_object sample_object
  /\ decodeVideoInfo (json "{'id':'x','title':'t','thumb")
     = Ok (None, Some io_ErrUnexpectedEOF).
Proof.
  split; [exact sample_is_object |].
  exact (truncated_object_is_unexpected_EOF sample_object
           (json "{'id':'x','title':'t','thumb") (json "nail':'u','duration':42}")
           sample_is_object eq_refl ltac:(discriminate)).
Defined.

(** *** Rendered objects: strings and numbers *)

Ltac str_norm :=
  unfold render_member; unfold quote;
  repeat (rewrite append_assoc || rewrite append_cons || rewrite append_nil_l
          || rewrite append_nil_r).

Ltac str_norm_in H :=
  unfold render_member in H; unfold quote in H;
  repeat (rewrite append_assoc in H || rewrite append_cons in H
          || rewrite append_nil_l in H || rewrite append_nil_r in H).

Lemma plain_string_cons (c : ascii) (s : string) :
  plain_string (String c s) = plain_ascii c && plain_string s.
Proof. reflexivity. Qed.

Lemma all_digits_cons (c : ascii) (s : string) :
  all_digits (String c s) = isDigit c && all_digits s.
Proof. reflexivity. Qed.

Lemma slice_mid (a b r : string) :
  slice (String.length a) (String.length a + String.length b) (a +:+ b +:+ r)
  = Some b.
Proof.
  unfold slice. rewrite (proj2 (Nat.leb_le _ _)) by lia.
  rewrite <- append_assoc, <- length_append, slice_to_append.
  cbn [mbind option_bind]. apply slice_from_append.
Qed.

(** unquoteBytes gives back the contents of a literal that holds no
    escape. *)
Lemma unquote_loop_plain (s : string) :
  plain_string s = true -> unquote_loop 0 s = Some s.
Proof.
  induction s as [|c s IH]; intros H; [reflexivity |].
  rewrite plain_string_cons in H. apply andb_true_iff in H as [Hc Hs].
  unfold plain_ascii, plain in Hc.
  apply andb_true_iff in Hc as [Hc Hlt].
  apply andb_true_iff in Hc as [Hc H32].
  apply andb_true_iff in Hc as [Hq Hb].
  apply negb_true_iff in Hq, Hb, H32.
  cbn [unquote_loop unquote_at]. rewrite Hb, Hq, H32, Hlt. cbn [orb Nat.pred].
  rewrite (IH Hs). reflexivity.
Qed.

Lemma length_quote (s : string) :
  String.length (quote s) = S (S (String.length s)).
Proof. unfold quote. cbn [String.length]. rewrite length_append. cbn. lia. Qed.

Lemma unquoteBytes_quote (s : string) :
  plain_string s = true -> unquoteBytes (quote s) = Some s.
Proof.
  intros H. unfold unquoteBytes, quote.
  assert (Hl : String.length (String dquote (s +:+ String dquote EmptyString))
               = S (S (String.length s))) by apply length_quote.
  rewrite Hl. cbn [Nat.leb andb]. rewrite Ascii.eqb_refl. cbn [andb].
  unfold last_byte. rewrite Hl. cbn [Nat.pred String.get].
  rewrite get_append_last. rewrite bool_decide_eq_true_2 by reflexivity.
  rewrite length_append. cbn [String.length]. rewrite Nat.add_1_r.
  cbn [Nat.pred]. rewrite slice_to_append. cbn [mbind option_bind].
  now apply unquote_loop_plain.
Qed.

Lemma pretty_N_char_digit (d : N) :
  (d < 10)%N ->
  isDigit (pretty_N_char d) = true
  /\ code (pretty_N_char d) - code "0" = Z.of_N d
  /\ (d <> 0%N -> Ascii.eqb (pretty_N_char d) "0" = false).
Proof.
  intros H.
  assert (Hd : (d = 0 \/ d = 1 \/ d = 2 \/ d = 3 \/ d = 4 \/ d = 5 \/ d = 6
                \/ d = 7 \/ d = 8 \/ d = 9)%N) by lia.
  destruct Hd as [->|[->|[->|[->|[->|[->|[->|[->|[->| ->]]]]]]]]];
    (split; [reflexivity | split; [reflexivity |]]);
    intros Hne; try reflexivity; now destruct Hne.
Qed.

(** The decimal form that pretty writes for a number that is not zero:
    digits, the first of them not a zero, which write the number. *)
Lemma pretty_N_go_form (x : N) :
  (0 < x)%N ->
  forall s,
    all_digits (pretty_N_go x s) = all_digits s
    /\ decimal_from 0 (pretty_N_go x s) = decimal_from (Z.of_N x) s
    /\ exists c r, pretty_N_go x s = String c r /\ Ascii.eqb c "0" = false.
Proof.
  induction (N.lt_wf_0 x) as [x _ IH]. intros Hx s.
  rewrite pretty_N_go_step by assumption.
  assert (Hm : (x `mod` 10 < 10)%N) by (apply N.mod_lt; lia).
  destruct (pretty_N_char_digit _ Hm) as (Hd & Hc & Hz).
  destruct (N.eq_dec (x `div` 10)%N 0%N) as [E|E].
  - rewrite E, pretty_N_go_0.
    assert (Hx' : (x `mod` 10)%N = x).
    { apply N.mod_small. apply N.div_small_iff in E; lia. }
    rewrite all_digits_cons, Hd. split; [reflexivity |]. split.
    + unfold decimal_from. cbn [list_ascii_of_string fold_left].
      rewrite Hc, Hx'. f_equal.
    + eexists _, _. split; [reflexivity |]. apply Hz. rewrite Hx'. lia.
  - assert (Hlt : (x `div` 10 < x)%N) by (apply N.div_lt; lia).
    assert (Hpos : (0 < x `div` 10)%N) by (apply N.neq_0_lt_0; exact E).
    destruct (IH _ Hlt Hpos (String (pretty_N_char (x `mod` 10)) s))
      as (Ha & Hv & Hf).
    rewrite Ha, Hv, all_digits_cons, Hd. split; [reflexivity |].
    split; [| exact Hf].
    unfold decimal_from. cbn [list_ascii_of_string fold_left]. rewrite Hc.
    f_equal. pose proof (N.div_mod x 10 ltac:(lia)). lia.
Qed.

Lemma pretty_uint (n : Z) :
  0 <= n -> uint_form (pretty n) = true /\ decimal_value (pretty n) = n.
Proof.
  intros Hn. destruct n as [|p|p]; [split; reflexivity | | lia].
  change (pretty (Z.pos p)) with (pretty_N_go (N.pos p) EmptyString).
  destruct (pretty_N_go_form (N.pos p) ltac:(lia) EmptyString)
    as (Ha & Hv & c & r & Hs & Hc).
  split; [| exact Hv].
  unfold uint_form. rewrite Hs in *. rewrite Ha, Hc. reflexivity.
Qed.

(** *** Rendered objects: the first pass *)

Lemma nonSpace_false_cons (c : ascii) (w : string) :
  nonSpace (String c w) = false -> isSpace c = true /\ nonSpace w = false.
Proof.
  rewrite nonSpace_cons. intros H. apply orb_false_iff in H as [Hc Hw].
  apply negb_false_iff in Hc. now split.
Qed.

Lemma accepts_blank (s : scanner) (w rest : string) :
  space_stable s -> nonSpace w = false -> accepts s rest ->
  accepts s (w +:+ rest).
Proof.
  intros Hs. induction w as [|c w IH]; intros Hw Ha; [exact Ha |].
  apply nonSpace_false_cons in Hw as [Hc Hw].
  rewrite append_cons, accepts_cons, (Hs c Hc). cbn [fst snd continues].
  now apply IH.
Qed.

Lemma plain_ascii_tests (c : ascii) :
  plain_ascii c = true ->
  Ascii.eqb c dquote = false /\ Ascii.eqb c backslash = false
  /\ (code c <? 32) = false /\ (code c <? 0x80) = true.
Proof.
  unfold plain_ascii, plain. intros H.
  apply andb_true_iff in H as [H Hlt].
  apply andb_true_iff in H as [H H32].
  apply andb_true_iff in H as [Hq Hb].
  apply negb_true_iff in Hq, Hb, H32. now repeat split.
Qed.

Lemma step_in_string (p : parse_state) (c : ascii) :
  plain_ascii c = true ->
  scan_step (mkScanner st_InString false [p] None) c
  = (mkScanner st_InString false [p] None, scanContinue).
Proof.
  intros H. destruct (plain_ascii_tests c H) as (Hq & Hb & H32 & _).
  unfold scan_step. cbn [step]. unfold stateInString. now rewrite Hq, Hb, H32.
Qed.

(** The scanner reads a string literal without escapes to its closing
    quote. *)
Lemma accepts_quote (p : parse_state) (b rest : string) :
  plain_string b = true ->
  accepts (mkScanner st_EndValue false [p] None) rest ->
  accepts (mkScanner st_InString false [p] None) (b +:+ String dquote rest).
Proof.
  induction b as [|c b IH]; intros Hb Ha.
  - rewrite append_nil_l, accepts_cons. exact Ha.
  - rewrite plain_string_cons in Hb. apply andb_true_iff in Hb as [Hc Hb].
    rewrite append_cons, accepts_cons, (step_in_string p c Hc).
    cbn [fst snd continues]. now apply IH.
Qed.

Lemma digit_tests (c : ascii) :
  isDigit c = true ->
  isSpace c = false /\ Ascii.eqb c "{" = false /\ Ascii.eqb c "[" = false
  /\ Ascii.eqb c dquote = false /\ Ascii.eqb c "-" = false
  /\ Ascii.eqb c "t" = false /\ Ascii.eqb c "f" = false
  /\ Ascii.eqb c "n" = false /\ isNumberByte c = true.
Proof.
  destruct c as [[] [] [] [] [] [] [] []]; intros H; try discriminate H;
    repeat split; reflexivity.
Qed.

Lemma space_tests (c : ascii) :
  isSpace c = true ->
  isDigit c = false /\ Ascii.eqb c "." = false /\ Ascii.eqb c "e" = false
  /\ Ascii.eqb c "E" = false /\ isNumberByte c = false
  /\ Ascii.eqb c "}" = false /\ Ascii.eqb c dquote = false.
Proof.
  destruct c as [[] [] [] [] [] [] [] []]; intros H; try discriminate H;
    repeat split; reflexivity.
Qed.

Lemma step_digit (c : ascii) :
  isDigit c = true ->
  scan_step (mkScanner st_1 false [parseObjectValue] None) c
  = (mkScanner st_1 false [parseObjectValue] None, scanContinue).
Proof.
  intros H. unfold scan_step. cbn [step]. unfold state1. now rewrite H.
Qed.

Lemma accepts_digits (ds rest : string) :
  all_digits ds = true ->
  accepts (mkScanner st_1 false [parseObjectValue] None) rest ->
  accepts (mkScanner st_1 false [parseObjectValue] None) (ds +:+ rest).
Proof.
  induction ds as [|c ds IH]; intros Hd Ha; [exact Ha |].
  rewrite all_digits_cons in Hd. apply andb_true_iff in Hd as [Hc Hd].
  rewrite append_cons, accepts_cons, (step_digit c Hc).
  cbn [fst snd continues]. now apply IH.
Qed.

Lemma accepts_value (v : jvalue) (rest : string) :
  simple_value v = true -> value_end rest ->
  accepts (mkScanner st_BeginValue false [parseObjectValue] None)
    (render_value v +:+ rest).
Proof.
  intros Hv Hend. destruct v as [s|ds|]; cbn [render_value simple_value] in *.
  - unfold quote. rewrite append_cons, append_assoc, append_cons, append_nil_l.
    rewrite accepts_cons.
    change (scan_step (mkScanner st_BeginValue false [parseObjectValue] None)
              dquote)
      with (mkScanner st_InString false [parseObjectValue] None,
            scanBeginLiteral).
    cbn [fst snd continues]. apply accepts_quote; [exact Hv |].
    apply Hend. now left.
  - destruct ds as [|c ds]; [discriminate |]. cbn [uint_form] in Hv.
    apply andb_true_iff in Hv as [Hd Hz].
    rewrite all_digits_cons in Hd. apply andb_true_iff in Hd as [Hc Hd].
    rewrite append_cons, accepts_cons.
    destruct (digit_tests c Hc) as (T1 & T2 & T3 & T4 & T5 & _).
    destruct (Ascii.eqb c "0") eqn:E0.
    + cbn [negb orb] in Hz. apply String.eqb_eq in Hz. subst ds.
      apply Ascii.eqb_eq in E0. subst c. rewrite append_nil_l.
      change (scan_step (mkScanner st_BeginValue false [parseObjectValue] None)
                "0")
        with (mkScanner st_0 false [parseObjectValue] None, scanBeginLiteral).
      cbn [fst snd continues]. apply Hend. now right; right.
    + assert (E : scan_step
                    (mkScanner st_BeginValue false [parseObjectValue] None) c
                  = (mkScanner st_1 false [parseObjectValue] None,
                     scanBeginLiteral)).
      { unfold scan_step. cbn [step]. unfold stateBeginValue.
        rewrite T1, T2, T3, T4, T5, E0.
        rewrite isDigit_cases, E0 in Hc. cbn [orb] in Hc.
        destruct (Ascii.eqb c "t") eqn:Et;
          [apply Ascii.eqb_eq in Et; subst c; discriminate Hc |].
        destruct (Ascii.eqb c "f") eqn:Ef;
          [apply Ascii.eqb_eq in Ef; subst c; discriminate Hc |].
        destruct (Ascii.eqb c "n") eqn:En;
          [apply Ascii.eqb_eq in En; subst c; discriminate Hc |].
        now rewrite Hc. }
      rewrite E. cbn [fst snd continues].
      apply accepts_digits; [exact Hd |]. apply Hend. now right; left.
  - change ("null" +:+ rest)
      with (String "n" (String "u" (String "l" (String "l" rest)))).
    cbn [accepts].
    change (scan_step (mkScanner st_BeginValue false [parseObjectValue] None)
              "n")
      with (mkScanner st_N false [parseObjectValue] None, scanBeginLiteral).
    cbv iota beta.
    change (scan_step (mkScanner st_N false [parseObjectValue] None) "u")
      with (mkScanner st_Nu false [parseObjectValue] None, scanContinue).
    cbv iota beta.
    change (scan_step (mkScanner st_Nu false [parseObjectValue] None) "l")
      with (mkScanner st_Nul false [parseObjectValue] None, scanContinue).
    cbv iota beta.
    change (scan_step (mkScanner st_Nul false [parseObjectValue] None) "l")
      with (mkScanner st_EndValue false [parseObjectValue] None, scanContinue).
    cbv iota beta. apply Hend. now left.
Qed.

(** The byte c after a value in the states of [value_end]: every such
    state hands it to stateEndValue. *)
Lemma step_value_end (st : stepfn) (c : ascii) :
  st = st_EndValue \/ st = st_1 \/ st = st_0 ->
  isNumberByte c = false ->
  scan_step (mkScanner st false [parseObjectValue] None) c
  = stateEndValue (mkScanner st false [parseObjectValue] None) c.
Proof.
  intros Hst Hc. unfold isNumberByte in Hc.
  repeat (apply orb_false_iff in Hc as [Hc ?]).
  destruct Hst as [->|[->| ->]]; unfold scan_step; cbn [step];
    [reflexivity | unfold state1, state0 | unfold state0];
    repeat match goal with
           | H : ?b = false |- context [?b] => rewrite H
           end; reflexivity.
Qed.

Lemma value_end_close (w : string) :
  nonSpace w = false -> value_end (w +:+ "}").
Proof.
  intros Hw st Hst. destruct w as [|c w].
  - rewrite append_nil_l.
    change "}" with (String "}" EmptyString). rewrite accepts_cons.
    rewrite (step_value_end st "}" Hst eq_refl). reflexivity.
  - apply nonSpace_false_cons in Hw as [Hc Hw].
    destruct (space_tests c Hc) as (_ & _ & _ & _ & Hn & _).
    rewrite append_cons, accepts_cons, (step_value_end st c Hst Hn).
    unfold stateEndValue. cbn [parseState]. rewrite Hc.
    cbn [fst snd continues set_step step endTop parseState err].
    apply accepts_blank; [| exact Hw |].
    + apply space_stable_end; [reflexivity | discriminate].
    + change "}" with (String "}" EmptyString). rewrite accepts_cons.
      reflexivity.
Qed.

Lemma accepts_members (lo : layout) (ms : list (string * jvalue)) :
  blank_layout lo = true ->
  forallb simple_member ms = true ->
  forall m w st,
    st = st_BeginStringOrEmpty \/ st = st_BeginString ->
    nonSpace w = false -> simple_member m = true ->
    accepts (mkScanner st false [parseObjectKey] None)
      (w +:+ render_member lo m +:+ render_rest lo ms).
Proof.
  intros Hlo. pose proof Hlo as Hlo'. unfold blank_layout in Hlo'.
  apply andb_true_iff in Hlo' as [Hlo' Hclose].
  apply andb_true_iff in Hlo' as [Hlo' Hcomma].
  apply andb_true_iff in Hlo' as [Hopen Hcolon].
  apply negb_true_iff in Hopen, Hcolon, Hcomma, Hclose.
  induction ms as [|m' ms IH]; intros Hms m w st Hst Hw Hm;
    unfold simple_member in Hm; apply andb_true_iff in Hm as [Hk Hv];
    (apply accepts_blank;
     [apply space_stable_begin; cbn [step]; tauto | exact Hw |]);
    str_norm; rewrite accepts_cons;
    (assert (E : scan_step (mkScanner st false [parseObjectKey] None) dquote
                 = (mkScanner st_InString false [parseObjectKey] None,
                    scanBeginLiteral))
       by (destruct Hst as [-> | ->]; reflexivity));
    rewrite E; cbn [fst snd continues];
    (apply accepts_quote; [exact Hk |]);
    rewrite accepts_cons;
    change (scan_step (mkScanner st_EndValue false [parseObjectKey] None) ":")
      with (mkScanner st_BeginValue false [parseObjectValue] None,
            scanObjectKey);
    cbn [fst snd continues];
    (apply accepts_blank;
     [apply space_stable_begin; cbn [step]; tauto | exact Hcolon |]);
    (apply accepts_value; [exact Hv |]).
  - cbn [render_rest]. now apply value_end_close.
  - cbn [render_rest forallb] in *. apply andb_true_iff in Hms as [Hm' Hms].
    intros st' Hst'. rewrite accepts_cons.
    rewrite (step_value_end st' "," Hst' eq_refl).
    change (stateEndValue (mkScanner st' false [parseObjectValue] None) ",")
      with (mkScanner st_BeginString false [parseObjectKey] None,
            scanObjectValue).
    cbn [fst snd continues]. apply IH; try assumption. now right.
Qed.

Lemma accepts_object (lo : layout) (ms : list (string * jvalue)) :
  blank_layout lo = true -> forallb simple_member ms = true ->
  accepts scanner0 (render_object lo ms).
Proof.
  intros Hlo Hms. pose proof Hlo as Hlo'. unfold blank_layout in Hlo'.
  apply andb_true_iff in Hlo' as [Hlo' Hclose].
  apply andb_true_iff in Hlo' as [Hlo' Hcomma].
  apply andb_true_iff in Hlo' as [Hopen Hcolon].
  apply negb_true_iff in Hopen, Hcolon, Hcomma, Hclose.
  unfold render_object. rewrite accepts_cons.
  change (scan_step scanner0 "{")
    with (mkScanner st_BeginStringOrEmpty false [parseObjectKey] None,
          scanBeginObject).
  cbn [fst snd continues]. destruct ms as [|m ms].
  - rewrite <- append_assoc. apply accepts_blank.
    + apply space_stable_begin. cbn [step]. tauto.
    + rewrite nonSpace_append, Hopen, Hclose. reflexivity.
    + change "}" with (String "}" EmptyString). rewrite accepts_cons.
      reflexivity.
  - cbn [forallb] in Hms. apply andb_true_iff in Hms as [Hm Hms].
    apply accepts_members; try assumption. now left.
Qed.

(** *** Rendered objects: the second pass *)

Lemma scanWhile_from_blank (w : string) :
  forall (s : scanner) (c : ascii) (rest : string) (i : nat) s1 op,
    nonSpace w = false -> space_stable s -> isSpace c = false ->
    scan_step s c = (s1, op) ->
    scanWhile_from s (w +:+ String c rest) i scanSkipSpace
    = (s1, S (i + String.length w), op).
Proof.
  induction w as [|b w IH]; intros s c rest i s1 op Hw Hs Hc E.
  - rewrite append_nil_l. cbn [scanWhile_from String.length]. rewrite E.
    assert (Hne : op <> scanSkipSpace).
    { intros ->. apply skipSpace_isSpace in E. congruence. }
    rewrite bool_decide_eq_false_2 by assumption. now rewrite Nat.add_0_r.
  - apply nonSpace_false_cons in Hw as [Hb Hw].
    rewrite append_cons. cbn [scanWhile_from String.length]. rewrite (Hs b Hb).
    rewrite bool_decide_eq_true_2 by reflexivity.
    rewrite (IH s c rest (S i) s1 op Hw Hs Hc E). f_equal. f_equal. lia.
Qed.

(** scanWhile(scanSkipSpace) over white space and the byte after it. *)
Lemma scanWhile_fwd (d : decodeState) (pre w : string) (c : ascii)
    (rest : string) (s1 : scanner) (op : opcode) :
  at_ d pre (w +:+ String c rest) -> nonSpace w = false ->
  space_stable (scan d) -> isSpace c = false ->
  scan_step (scan d) c = (s1, op) ->
  scanWhile d scanSkipSpace
  = mkDecodeState (data d) (S (String.length pre + String.length w)) op s1.
Proof.
  intros Hat Hw Hs Hc E. unfold scanWhile.
  rewrite (rest_of_at _ _ _ Hat). destruct Hat as [_ Ho]. rewrite Ho.
  now rewrite (scanWhile_from_blank w _ c rest _ s1 op Hw Hs Hc E).
Qed.

(** rescanLiteral over a literal that another byte follows, and the
    bytes of the literal. *)
Lemma rescanLiteral_fwd (d : decodeState) (pre : string) (c0 : ascii)
    (lit : string) (c : ascii) (rest : string) :
  at_ d (pre +:+ String c0 EmptyString) (lit +:+ String c rest) ->
  (forall i, rescan c0 (lit +:+ String c rest) i
             = (i + String.length lit)%nat) ->
  rescanLiteral d
  = Ok (mkDecodeState (data d)
          (S (S (String.length pre + String.length lit)))
          (snd (stateEndValue (scan d) c)) (fst (stateEndValue (scan d) c)))
  /\ slice (readIndex d) (S (String.length pre + String.length lit)) (data d)
     = Some (String c0 lit).
Proof.
  intros Hat Hr.
  pose proof (rest_of_at _ _ _ Hat) as Hrest. destruct Hat as [Hd Ho].
  rewrite length_snoc in Ho.
  assert (Hdata : data d = (pre +:+ String c0 lit) +:+ String c rest).
  { rewrite Hd. now str_norm. }
  assert (HP : String.length (pre +:+ String c0 lit)
               = S (String.length pre + String.length lit)).
  { rewrite length_append. cbn [String.length]. lia. }
  split.
  - unfold rescanLiteral. cbv zeta.
    assert (Hget0 : String.get (Nat.pred (off d)) (data d) = Some c0).
    { rewrite Ho, Hd, at_snoc. apply get_append_last. }
    rewrite Hget0. fold (rescan c0 (rest_of d) (off d)).
    rewrite Hrest, Hr, Ho.
    replace (S (String.length pre) + String.length lit)%nat
      with (String.length (pre +:+ String c0 lit)) by (rewrite HP; lia).
    rewrite Hdata at 1. rewrite get_append_last.
    destruct (stateEndValue (scan d) c) as [s2 o2]. cbn [fst snd].
    now rewrite HP.
  - unfold readIndex. rewrite Ho. cbn [Nat.pred]. rewrite Hd, at_snoc.
    replace (S (String.length pre + String.length lit))
      with (String.length pre + String.length (String c0 lit))%nat
      by (cbn [String.length]; lia).
    rewrite <- append_cons. apply slice_mid.
Qed.

Lemma rescan_string_body (b rest : string) (i : nat) :
  plain_string b = true ->
  rescan_string (b +:+ String dquote rest) i = S (i + String.length b).
Proof.
  revert i. induction b as [|c b IH]; intros i Hb.
  - rewrite append_nil_l. cbn [rescan_string].
    change (Ascii.eqb dquote backslash) with false.
    rewrite Ascii.eqb_refl. cbn [String.length]. lia.
  - rewrite plain_string_cons in Hb. apply andb_true_iff in Hb as [Hc Hb].
    rewrite append_cons, rescan_string_plain.
    + rewrite IH by assumption. cbn [String.length]. lia.
    + unfold plain_ascii in Hc. now apply andb_true_iff in Hc as [Hc _].
Qed.

Lemma rescan_number_digits (ds : string) (c : ascii) (rest : string) (i : nat) :
  all_digits ds = true -> isNumberByte c = false ->
  rescan_number (ds +:+ String c rest) i = (i + String.length ds)%nat.
Proof.
  revert i. induction ds as [|b ds IH]; intros i Hd Hc.
  - rewrite append_nil_l. cbn [rescan_number String.length]. rewrite Hc. lia.
  - rewrite all_digits_cons in Hd. apply andb_true_iff in Hd as [Hb Hd].
    destruct (digit_tests b Hb) as (_ & _ & _ & _ & _ & _ & _ & _ & Hn).
    rewrite append_cons. cbn [rescan_number String.length]. rewrite Hn.
    rewrite IH by assumption. lia.
Qed.

(** The literal of a rendered value: its first byte and the bytes after
    it. *)
Lemma render_value_literal (v : jvalue) (c : ascii) (rest : string) :
  simple_value v = true -> isNumberByte c = false ->
  exists c0 lit,
    render_value v = String c0 lit
    /\ (forall i, rescan c0 (lit +:+ String c rest) i
                  = (i + String.length lit)%nat)
    /\ isSpace c0 = false
    /\ scan_step (mkScanner st_BeginValue false [parseObjectValue] None) c0
       = (mkScanner
            (step (fst (scan_step
                          (mkScanner st_BeginValue false [parseObjectValue]
                             None) c0)))
            false [parseObjectValue] None, scanBeginLiteral).
Proof.
  intros Hv Hc. destruct v as [s|ds|]; cbn [render_value simple_value] in *.
  - exists dquote, (s +:+ String dquote EmptyString).
    split; [reflexivity |]. split; [| split; reflexivity].
    intros i. unfold rescan. rewrite Ascii.eqb_refl. str_norm.
    rewrite rescan_string_body by assumption.
    rewrite length_append. cbn [String.length]. lia.
  - destruct ds as [|c0 ds]; [discriminate |]. cbn [uint_form] in Hv.
    apply andb_true_iff in Hv as [Hd Hz].
    rewrite all_digits_cons in Hd. apply andb_true_iff in Hd as [Hc0 Hd].
    destruct (digit_tests c0 Hc0) as (T1 & T2 & T3 & T4 & T5 & T6 & T7 & T8 & _).
    exists c0, ds. split; [reflexivity |]. split; [| split; [exact T1 |]].
    + intros i. unfold rescan. rewrite T4, Hc0. cbn [orb].
      now apply rescan_number_digits.
    + unfold scan_step. cbn [step]. unfold stateBeginValue.
      rewrite T1, T2, T3, T4, T5, T6, T7, T8.
      rewrite isDigit_cases in Hc0.
      destruct (Ascii.eqb c0 "0"); [reflexivity |].
      cbn [orb] in Hc0. rewrite Hc0. reflexivity.
  - exists "n"%char, "ull". split; [reflexivity |].
    split; [| split; reflexivity].
    intros i. unfold rescan.
    change (Ascii.eqb "n" dquote) with false.
    change (isDigit "n" || Ascii.eqb "n" "-") with false.
    change (Ascii.eqb "n" "t") with false.
    change (Ascii.eqb "n" "f") with false.
    change (Ascii.eqb "n" "n") with true.
    cbv iota. reflexivity.
Qed.

Ltac len_norm :=
  repeat first [rewrite length_append | progress cbn [String.length]].

Lemma at_mk (dat : string) (o : nat) (op : opcode) (s : scanner)
    (pre rest : string) :
  dat = pre +:+ rest -> o = String.length pre ->
  at_ (mkDecodeState dat o op s) pre rest.
Proof. intros -> ->. now split. Qed.

(** One round of the loop of decodeState.object on a rendered member, up
    to the byte c after its value: the key and the value are found as
    they were rendered, and the decoder has handed c to stateEndValue. *)
Lemma read_member_scan (lo : layout) (d : decodeState) (pre w : string)
    (m : string * jvalue) (c : ascii) (rest : string) (st : stepfn) :
  at_ d pre (w +:+ render_member lo m +:+ String c rest) ->
  scan d = mkScanner st false [parseObjectKey] None ->
  st = st_BeginStringOrEmpty \/ st = st_BeginString ->
  nonSpace w = false -> nonSpace (after_colon lo) = false ->
  simple_member m = true -> isNumberByte c = false ->
  exists d2,
    at_ d2 (pre +:+ w +:+ render_member lo m +:+ String c EmptyString) rest
    /\ (scan d2, opcode_ d2)
       = stateEndValue (mkScanner st_EndValue false [parseObjectValue] None) c
    /\ read_member d
       = let d3 := skipSpace d2 in
         if bool_decide (opcode_ d3 = scanEndObject)
         then Ok (Member (fst m) (tokLiteral (render_value (snd m))) true d3)
         else if negb (bool_decide (opcode_ d3 = scanObjectValue))
         then Panic phasePanicMsg
         else Ok (Member (fst m) (tokLiteral (render_value (snd m))) false d3).
Proof.
  intros Hat Hscan Hst Hw Hcolon Hm Hc.
  destruct m as [k v]. unfold simple_member in Hm. cbn [fst snd] in *.
  apply andb_true_iff in Hm as [Hk Hv].
  destruct (render_value_literal v c rest Hv Hc)
    as (c0 & lit & Hrv & Hresc & Hc0 & Estep).
  set (stv := step (fst (scan_step
                 (mkScanner st_BeginValue false [parseObjectValue] None) c0)))
    in *.
  pose proof Hat as [Hd Ho].
  (* the key *)
  assert (Hat1 : at_ d pre
            (w +:+ String dquote
                     (k +:+ String dquote
                        (String ":" (after_colon lo
                                     +:+ String c0 (lit +:+ String c rest)))))).
  { split; [| exact Ho]. rewrite Hd. unfold render_member. cbn [fst snd].
    rewrite Hrv. now str_norm. }
  assert (E1 : scan_step (scan d) dquote
               = (mkScanner st_InString false [parseObjectKey] None,
                  scanBeginLiteral)).
  { rewrite Hscan. destruct Hst as [-> | ->]; reflexivity. }
  assert (Hs1 : space_stable (scan d)).
  { apply space_stable_begin. rewrite Hscan. cbn [step]. tauto. }
  pose proof (scanWhile_fwd d pre w dquote _ _ _ Hat1 Hw Hs1 eq_refl E1) as Hd1.
  set (d1 := mkDecodeState (data d) (S (String.length pre + String.length w))
               scanBeginLiteral
               (mkScanner st_InString false [parseObjectKey] None)) in *.
  assert (Hat1' : at_ d1 ((pre +:+ w) +:+ String dquote EmptyString)
                    ((k +:+ String dquote EmptyString)
                     +:+ String ":" (after_colon lo
                                     +:+ String c0 (lit +:+ String c rest)))).
  { apply at_mk.
    - destruct Hat1 as [-> _]. now str_norm.
    - len_norm. lia. }
  destruct (rescanLiteral_fwd d1 (pre +:+ w) dquote
              (k +:+ String dquote EmptyString) ":" _ Hat1') as [Hr1 Hsl1].
  { intros i. unfold rescan. rewrite Ascii.eqb_refl. str_norm.
    rewrite rescan_string_body by assumption.
    rewrite length_append. cbn [String.length]. lia. }
  change (stateEndValue (scan d1) ":")
    with (mkScanner st_BeginValue false [parseObjectValue] None, scanObjectKey)
    in Hr1.
  cbn [fst snd] in Hr1. change (data d1) with (data d) in Hr1, Hsl1.
  set (d1' := mkDecodeState (data d)
                (S (S (String.length (pre +:+ w)
                       + String.length (k +:+ String dquote EmptyString))))
                scanObjectKey
                (mkScanner st_BeginValue false [parseObjectValue] None)) in *.
  (* the value *)
  assert (Hat2 : at_ d1'
            (((pre +:+ w) +:+ quote k) +:+ String ":" EmptyString)
            (after_colon lo +:+ String c0 (lit +:+ String c rest))).
  { apply at_mk.
    - destruct Hat1 as [-> _]. now str_norm.
    - unfold quote. len_norm. lia. }
  assert (Hs2 : space_stable (scan d1')).
  { apply space_stable_begin. cbn [scan step]. tauto. }
  pose proof (scanWhile_fwd d1' _ (after_colon lo) c0 _ _ _ Hat2 Hcolon Hs2
                Hc0 Estep) as Hd2.
  change (data d1') with (data d) in Hd2.
  set (d2 := mkDecodeState (data d)
               (S (String.length
                     (((pre +:+ w) +:+ quote k) +:+ String ":" EmptyString)
                   + String.length (after_colon lo)))
               scanBeginLiteral
               (mkScanner stv false [parseObjectValue] None)) in *.
  assert (Hat2' : at_ d2
            (((((pre +:+ w) +:+ quote k) +:+ String ":" EmptyString)
              +:+ after_colon lo) +:+ String c0 EmptyString)
            (lit +:+ String c rest)).
  { apply at_mk.
    - destruct Hat1 as [-> _]. now str_norm.
    - len_norm. lia. }
  destruct (rescanLiteral_fwd d2 _ c0 lit c rest Hat2' Hresc) as [Hr2 Hsl2].
  change (data d2) with (data d) in Hr2, Hsl2.
  change (scan d2)
    with (set_step (mkScanner st_EndValue false [parseObjectValue] None) stv)
    in Hr2.
  rewrite stateEndValue_set_step in Hr2.
  set (P := (((pre +:+ w) +:+ quote k) +:+ String ":" EmptyString)
            +:+ after_colon lo) in *.
  set (d3 := mkDecodeState (data d)
               (S (S (String.length P + String.length lit)))
               (snd (stateEndValue
                       (mkScanner st_EndValue false [parseObjectValue] None) c))
               (fst (stateEndValue
                       (mkScanner st_EndValue false [parseObjectValue] None) c)))
    in *.
  exists d3. split; [| split].
  - apply at_mk.
    + rewrite Hd. unfold render_member. cbn [fst snd]. rewrite Hrv.
      now str_norm.
    + unfold P, render_member. cbn [fst snd]. rewrite Hrv. unfold quote.
      len_norm. lia.
  - cbn [scan opcode_ d3].
    now destruct (stateEndValue
                    (mkScanner st_EndValue false [parseObjectValue] None) c).
  - unfold read_member. cbv zeta. rewrite Hd1.
    cbn [opcode_ d1].
    rewrite (bool_decide_eq_false_2 (scanBeginLiteral = scanEndObject))
      by discriminate.
    rewrite (bool_decide_eq_true_2 (scanBeginLiteral = scanBeginLiteral))
      by reflexivity.
    cbn [negb]. fold d1. rewrite Hr1. cbn [res_bind].
    change (readIndex d1')
      with (S (String.length (pre +:+ w)
               + String.length (k +:+ String dquote EmptyString))).
    change (data d1') with (data d). rewrite Hsl1.
    fold (quote k). rewrite (unquoteBytes_quote k Hk).
    change (skipSpace d1') with d1'.
    change (negb (bool_decide (opcode_ d1' = scanObjectKey))) with false.
    cbv iota. rewrite Hd2. fold d2.
    unfold value_scan. change (opcode_ d2) with scanBeginLiteral. cbv iota.
    rewrite Hr2. cbn [res_bind]. fold d3.
    change (readIndex d3) with (S (String.length P + String.length lit)).
    change (data d2) with (data d). rewrite Hsl2, <- Hrv. reflexivity.
Qed.

Lemma skipSpace_other (d : decodeState) :
  opcode_ d <> scanSkipSpace -> skipSpace d = d.
Proof. intros H. unfold skipSpace. now rewrite bool_decide_eq_false_2. Qed.

(** A member that a comma follows: the loop goes on, before the next
    key. *)
Lemma read_member_more (lo : layout) (d : decodeState) (pre w : string)
    (m : string * jvalue) (rest : string) (st : stepfn) :
  at_ d pre (w +:+ render_member lo m +:+ String "," rest) ->
  scan d = mkScanner st false [parseObjectKey] None ->
  st = st_BeginStringOrEmpty \/ st = st_BeginString ->
  nonSpace w = false -> nonSpace (after_colon lo) = false ->
  simple_member m = true ->
  exists d',
    read_member d = Ok (Member (fst m) (tokLiteral (render_value (snd m)))
                          false d')
    /\ at_ d' (pre +:+ w +:+ render_member lo m +:+ String "," EmptyString) rest
    /\ scan d' = mkScanner st_BeginString false [parseObjectKey] None.
Proof.
  intros Hat Hscan Hst Hw Hcolon Hm.
  destruct (read_member_scan lo d pre w m "," rest st Hat Hscan Hst Hw Hcolon
              Hm eq_refl) as (d2 & Hat2 & Hso & Hread).
  change (stateEndValue (mkScanner st_EndValue false [parseObjectValue] None)
            ",")
    with (mkScanner st_BeginString false [parseObjectKey] None,
          scanObjectValue) in Hso.
  injection Hso as Hs Ho.
  exists d2. split; [| split; assumption].
  rewrite Hread. cbv zeta.
  rewrite skipSpace_other by (rewrite Ho; discriminate). rewrite Ho.
  rewrite bool_decide_eq_false_2 by discriminate.
  rewrite bool_decide_eq_true_2 by reflexivity. reflexivity.
Qed.

(** The last member: white space and the closing brace follow, and the
    loop ends. *)
Lemma read_member_last (lo : layout) (d : decodeState) (pre w : string)
    (m : string * jvalue) (wc rest : string) (st : stepfn) :
  at_ d pre (w +:+ render_member lo m +:+ wc +:+ String "}" rest) ->
  scan d = mkScanner st false [parseObjectKey] None ->
  st = st_BeginStringOrEmpty \/ st = st_BeginString ->
  nonSpace w = false -> nonSpace (after_colon lo) = false ->
  nonSpace wc = false -> simple_member m = true ->
  exists d',
    read_member d = Ok (Member (fst m) (tokLiteral (render_value (snd m)))
                          true d').
Proof.
  intros Hat Hscan Hst Hw Hcolon Hwc Hm. destruct wc as [|b wc].
  - rewrite append_nil_l in Hat.
    destruct (read_member_scan lo d pre w m "}" rest st Hat Hscan Hst Hw
                Hcolon Hm eq_refl) as (d2 & Hat2 & Hso & Hread).
    change (stateEndValue (mkScanner st_EndValue false [parseObjectValue] None)
              "}")
      with (mkScanner st_EndTop true [] None, scanEndObject) in Hso.
    injection Hso as Hs Ho.
    exists d2. rewrite Hread. cbv zeta.
    rewrite skipSpace_other by (rewrite Ho; discriminate). rewrite Ho.
    rewrite bool_decide_eq_true_2 by reflexivity. reflexivity.
  - apply nonSpace_false_cons in Hwc as [Hb Hwc].
    destruct (space_tests b Hb) as (_ & _ & _ & _ & Hn & _).
    rewrite append_cons in Hat.
    destruct (read_member_scan lo d pre w m b _ st Hat Hscan Hst Hw
                Hcolon Hm Hn) as (d2 & Hat2 & Hso & Hread).
    unfold stateEndValue in Hso. cbn [parseState] in Hso. rewrite Hb in Hso.
    injection Hso as Hs Ho.
    assert (Hst2 : space_stable (scan d2)).
    { rewrite Hs. apply space_stable_end; [reflexivity | discriminate]. }
    assert (E : scan_step (scan d2) "}"
                = (mkScanner st_EndTop true [] None, scanEndObject)).
    { rewrite Hs. reflexivity. }
    pose proof (scanWhile_fwd d2 _ wc "}" rest _ _ Hat2 Hwc Hst2 eq_refl E)
      as Hd3.
    eexists. rewrite Hread. cbv zeta. unfold skipSpace. rewrite Ho.
    rewrite (bool_decide_eq_true_2 (scanSkipSpace = scanSkipSpace))
      by reflexivity.
    rewrite Hd3. cbn [opcode_].
    rewrite (bool_decide_eq_true_2 (scanEndObject = scanEndObject))
      by reflexivity.
    reflexivity.
Qed.

(** The loop over the members of a rendered object finds every member
    with its key and with the bytes of its value, in the order of the
    text. *)
Lemma object_members_fwd (lo : layout) (ms : list (string * jvalue)) :
  blank_layout lo = true -> forallb simple_member ms = true ->
  forall fuel d pre w m rest st,
    at_ d pre (w +:+ render_member lo m +:+ render_rest lo ms +:+ rest) ->
    scan d = mkScanner st false [parseObjectKey] None ->
    st = st_BeginStringOrEmpty \/ st = st_BeginString ->
    nonSpace w = false -> simple_member m = true ->
    (length ms < fuel)%nat ->
    exists d',
      object_members fuel d = Ok (token_of m :: map token_of ms, d').
Proof.
  intros Hlo. pose proof Hlo as Hlo'. unfold blank_layout in Hlo'.
  apply andb_true_iff in Hlo' as [Hlo' Hclose].
  apply andb_true_iff in Hlo' as [Hlo' Hcomma].
  apply andb_true_iff in Hlo' as [Hopen Hcolon].
  apply negb_true_iff in Hopen, Hcolon, Hcomma, Hclose.
  induction ms as [|m' ms IH];
    intros Hms fuel d pre w m rest st Hat Hscan Hst Hw Hm Hfuel;
    (destruct fuel as [|fuel]; [cbn [length] in Hfuel; lia |]);
    cbn [object_members].
  - cbn [render_rest] in Hat.
    assert (Hat' : at_ d pre
              (w +:+ render_member lo m +:+ before_close lo
               +:+ String "}" rest)).
    { destruct Hat as [Hd Ho]. split; [| exact Ho]. rewrite Hd.
      change "}" with (String "}" EmptyString). now str_norm. }
    destruct (read_member_last lo d pre w m _ rest st Hat' Hscan Hst Hw Hcolon
                Hclose Hm) as [d' ->].
    cbn [res_bind map]. now exists d'.
  - cbn [render_rest forallb] in *. apply andb_true_iff in Hms as [Hm' Hms].
    assert (Hat' : at_ d pre
              (w +:+ render_member lo m
               +:+ String ","
                     (after_comma lo +:+ render_member lo m'
                      +:+ render_rest lo ms +:+ rest))).
    { destruct Hat as [Hd Ho]. split; [| exact Ho]. rewrite Hd. now str_norm. }
    destruct (read_member_more lo d pre w m _ st Hat' Hscan Hst Hw Hcolon Hm)
      as (d1 & -> & Hat1 & Hs1).
    cbn [res_bind].
    destruct (IH Hms fuel d1 _ (after_comma lo) m' rest st_BeginString Hat1 Hs1
                ltac:(now right) Hcomma Hm' ltac:(cbn [length] in Hfuel; lia))
      as [d' ->].
    cbn [res_bind map]. now exists d'.
Qed.

Lemma length_render_rest (lo : layout) (ms : list (string * jvalue)) :
  (length ms <= String.length (render_rest lo ms))%nat.
Proof.
  induction ms as [|m ms IH]; cbn [render_rest length]; [lia |].
  len_norm. lia.
Qed.

(** The decoder finds in a rendered object the members that were
    rendered. *)
Lemma scan_value_render (lo : layout) (ms : list (string * jvalue)) :
  blank_layout lo = true -> forallb simple_member ms = true ->
  scan_value (render_object lo ms) = Ok (topObject (map token_of ms)).
Proof.
  intros Hlo Hms. pose proof Hlo as Hlo'. unfold blank_layout in Hlo'.
  apply andb_true_iff in Hlo' as [Hlo' Hclose].
  apply andb_true_iff in Hlo' as [Hlo' Hcomma].
  apply andb_true_iff in Hlo' as [Hopen Hcolon].
  apply negb_true_iff in Hopen, Hcolon, Hcomma, Hclose.
  unfold scan_value. cbv zeta. fold scanner0.
  set (value := render_object lo ms).
  set (d0 := mkDecodeState value 0 scanContinue scanner0).
  assert (Hat0 : at_ d0 EmptyString
                   (EmptyString
                    +:+ String "{"
                          (after_open lo
                           +:+ match ms with
                               | [] => before_close lo +:+ "}"
                               | m :: ms' =>
                                   render_member lo m +:+ render_rest lo ms'
                               end))).
  { apply at_mk; reflexivity. }
  assert (Hs0 : space_stable (scan d0)).
  { apply space_stable_begin. left. reflexivity. }
  assert (E0 : scan_step (scan d0) "{"
               = (mkScanner st_BeginStringOrEmpty false [parseObjectKey] None,
                  scanBeginObject)) by reflexivity.
  rewrite (scanWhile_fwd d0 _ _ "{" _ _ _ Hat0 eq_refl Hs0 eq_refl E0).
  cbn [String.length Nat.add opcode_ data d0].
  set (d1 := mkDecodeState value 1 scanBeginObject
               (mkScanner st_BeginStringOrEmpty false [parseObjectKey] None)).
  destruct ms as [|m ms].
  - assert (Hat1 : at_ d1 "{"
                     ((after_open lo +:+ before_close lo)
                      +:+ String "}" EmptyString)).
    { apply at_mk; [| reflexivity]. unfold value, render_object.
      now str_norm. }
    assert (Hs1 : space_stable (scan d1)).
    { apply space_stable_begin. cbn [scan d1 step]. tauto. }
    assert (E1 : scan_step (scan d1) "}"
                 = (mkScanner st_EndTop true [] None, scanEndObject))
      by reflexivity.
    assert (Hw : nonSpace (after_open lo +:+ before_close lo) = false).
    { rewrite nonSpace_append, Hopen, Hclose. reflexivity. }
    pose proof (scanWhile_fwd d1 _ _ "}" _ _ _ Hat1 Hw Hs1 eq_refl E1) as Hd2.
    unfold value at 1, render_object. cbn [String.length object_members].
    unfold read_member. cbv zeta. rewrite Hd2. cbn [opcode_].
    rewrite (bool_decide_eq_true_2 (scanEndObject = scanEndObject))
      by reflexivity.
    reflexivity.
  - cbn [forallb] in Hms. apply andb_true_iff in Hms as [Hm Hms].
    assert (Hat1 : at_ d1 "{"
                     (after_open lo +:+ render_member lo m
                      +:+ render_rest lo ms +:+ EmptyString)).
    { apply at_mk; [| reflexivity]. unfold value, render_object.
      now str_norm. }
    destruct (object_members_fwd lo ms Hlo Hms (String.length value) d1 "{"
                (after_open lo) m EmptyString st_BeginStringOrEmpty Hat1
                eq_refl ltac:(now left) Hopen Hm) as [d' ->].
    + unfold value, render_object. len_norm.
      pose proof (length_render_rest lo ms). lia.
    + reflexivity.
Qed.

Lemma decoded_members_render (lo : layout) (ms : list (string * jvalue))
    (trailing : string) :
  blank_layout lo = true -> forallb simple_member ms = true ->
  decoded_members (render_object lo ms +:+ trailing)
  = Some (map token_of ms).
Proof.
  intros Hlo Hms. unfold decoded_members, readValue. fold scanner0.
  rewrite (readValue_object_app (render_object lo ms) 0 0 trailing _
             (accepts_object lo ms Hlo Hms) eq_refl).
  cbn [Nat.add]. rewrite slice_to_append.
  now rewrite scan_value_render.
Qed.

(** *** Rendered objects: the record *)

Lemma uint_form_number (ds : string) :
  uint_form ds = true ->
  kind_of (tokLiteral ds) = Some kNumber /\ all_digits ds = true.
Proof.
  destruct ds as [|c ds]; [discriminate |]. cbn [uint_form kind_of].
  intros H. apply andb_true_iff in H as [Hd _]. split; [| exact Hd].
  rewrite all_digits_cons in Hd. apply andb_true_iff in Hd as [Hc _].
  destruct (digit_tests c Hc) as (_ & _ & _ & T4 & _ & T6 & T7 & T8 & _).
  rewrite T4, T6, T7, T8, Hc. cbn [orb]. now rewrite orb_true_r.
Qed.

(** A member of the right type sets its field and saves no error. *)
Lemma store_member_assign (t : target) (m : string * jvalue) :
  simple_member m = true -> well_typed m = true ->
  store_member t (token_of m) = Ok (mkTarget (assign (vi t) m) (savedError t)).
Proof.
  destruct m as [k v]. unfold simple_member, well_typed, assign, store_member,
    token_of. cbn [fst snd]. intros Hs Hw.
  apply andb_true_iff in Hs as [_ Hv].
  destruct (field_of_key k) as [f|]; [| now destruct t].
  destruct v as [s|ds|]; cbn [render_value simple_value] in *.
  - unfold literalStore, quote.
    change (Ascii.eqb dquote "n") with false.
    change (Ascii.eqb dquote "t" || Ascii.eqb dquote "f") with false.
    rewrite Ascii.eqb_refl. cbv iota. fold (quote s).
    rewrite (unquoteBytes_quote s Hv), Hw. now destruct f.
  - apply andb_true_iff in Hw as [Hf Hle].
    destruct f; try discriminate Hf.
    destruct (uint_form_number ds Hv) as [Hk Hd].
    rewrite (literalStore_uint ds t Hk), Hd, Hle. reflexivity.
  - destruct f, t; reflexivity.
Qed.

Lemma store_members_assign (ms : list (string * jvalue)) :
  forallb simple_member ms = true -> forallb well_typed ms = true ->
  forall t,
    store_members t (map token_of ms)
    = Ok (mkTarget (fold_left assign ms (vi t)) (savedError t)).
Proof.
  induction ms as [|m ms IH]; intros Hs Hw t; [now destruct t |].
  cbn [forallb] in Hs, Hw.
  apply andb_true_iff in Hs as [Hm Hs]. apply andb_true_iff in Hw as [Hwm Hw].
  cbn [map store_members fold_left].
  rewrite (store_member_assign t m Hm Hwm). cbn [res_bind].
  now rewrite (IH Hs Hw).
Qed.

Lemma render_is_object (lo : layout) (ms : list (string * jvalue)) :
  blank_layout lo = true -> forallb simple_member ms = true ->
  json_object (render_object lo ms).
Proof.
  intros Hlo Hms. split.
  - pose proof (readValue_object_app (render_object lo ms) 0 0 EmptyString
                  (render_object lo ms) (accepts_object lo ms Hlo Hms) eq_refl)
      as H.
    rewrite append_nil_r in H. exact H.
  - eexists. now apply scan_value_render.
Qed.

(** C10 (as the code has it): decoding reads only the first JSON value.
    When obj is one JSON object, decoding obj followed by any bytes gives
    what decoding obj alone gives, without a panic: the record of obj when
    obj decodes to one, and the error of obj otherwise.  An object of
    members of the right types, written with any white space, is such an
    object, and followed by any bytes it decodes to the record that its
    members assign. *)
Theorem C10_first_value_only (obj trailing : string) (Hobj : json_object obj) :
  decodeVideoInfo (obj +:+ trailing) = decodeVideoInfo obj
  /\ (exists r, decodeVideoInfo obj = Ok r)
  /\ (forall v, decodeVideoInfo obj = Ok (Some v, None) ->
                decodeVideoInfo (obj +:+ trailing) = Ok (Some v, None))
  /\ (forall lo ms,
        blank_layout lo = true -> forallb simple_member ms = true ->
        forallb well_typed ms = true ->
        json_object (render_object lo ms)
        /\ decodeVideoInfo (render_object lo ms +:+ trailing)
           = Ok (Some (fold_left assign ms new_YTDLPVideoInfo), None)).
Proof.
  assert (H : decodeVideoInfo (obj +:+ trailing) = decodeVideoInfo obj).
  { unfold decodeVideoInfo. now rewrite Decode_object_app. }
  split; [exact H |]. split; [apply decodeVideoInfo_returns |].
  split; [intros v Hv; now rewrite H |].
  intros lo ms Hlo Hsimple Htyped. split; [now apply render_is_object |].
  rewrite (decodeVideoInfo_members _ _
             (decoded_members_render lo ms trailing Hlo Hsimple)).
  now rewrite (store_members_assign ms Hsimple Htyped).
Qed.

Lemma C10_first_value_only_witness :
  json_object sample_object
  /\ decodeVideoInfo (sample_object +:+ " WARNING: ignored {")
     = Ok (Some (mkVideoInfo "x" "t" "u" 42), None).
Proof.
  split; [exact sample_is_object |].
  assert (H : decodeVideoInfo sample_object
              = Ok (Some (mkVideoInfo "x" "t" "u" 42), None))
    by (vm_compute; reflexivity).
  exact (proj1 (proj2 (proj2 (C10_first_value_only sample_object
                                " WARNING: ignored {" sample_is_object)))
           (mkVideoInfo "x" "t" "u" 42) H).
Defined.

(** C10 fails as it is stated: an object with a negative duration is one
    valid JSON object, and decoding it, followed by other bytes or not,
    gives an error and no record. *)
Lemma C10_counterexample :
  json_object (json "{'id':'x','duration':-5}")
  /\ decodeVideoInfo (json "{'id':'x','duration':-5}" +:+ " trailing")
     = Ok (None, Some (UnmarshalTypeError "number -5" "duration")).
Proof.
  split; [| vm_compute; reflexivity].
  split; [vm_compute; reflexivity | eexists; vm_compute; reflexivity].
Qed.

(** X24: An object of members of the right types, written with any white
    space and followed by anything, decodes without an error to the
    record that the members assign in the order of the text: a member
    sets the field that its key selects, a later member for the same
    field wins, and members with a null or with another key change
    nothing. *)
Theorem decodeVideoInfo_assigns_members (lo : layout)
    (ms : list (string * jvalue)) (trailing : string)
    (Hlo : blank_layout lo = true)
    (Hsimple : forallb simple_member ms = true)
    (Htyped : forallb well_typed ms = true) :
  decodeVideoInfo (render_object lo ms +:+ trailing)
  = Ok (Some (fold_left assign ms new_YTDLPVideoInfo), None).
Proof.
  rewrite (decodeVideoInfo_members _ _
             (decoded_members_render lo ms trailing Hlo Hsimple)).
  rewrite (store_members_assign ms Hsimple Htyped). reflexivity.
Qed.

(** X25: Round trip: a record whose strings need no escape and whose duration
    is a uint, printed under the four JSON names with any white space and
    followed by anything, is decoded to the same record; GetVideoInfo
    returns it when the process that printed it exits without an error. *)
Theorem decodeVideoInfo_round_trip (lo : layout) (v : YTDLPVideoInfo)
    (trailing : string)
    (Hlo : blank_layout lo = true)
    (Hid : plain_string (Id v) = true)
    (Htitle : plain_string (Title v) = true)
    (Hthumb : plain_string (Thumbnail v) = true)
    (Hdur : 0 <= Duration v < 2 ^ uintSize) :
  decodeVideoInfo (marshal lo v +:+ trailing) = Ok (Some v, None)
  /\ forall host inst query sys,
       start_error
         (binary host
            (exec_Command (bPath inst)
               ["ytsearch:" +:+ query; "-s"; "-O";
                "%(.{id,title,thumbnail,duration})#j"])) = None ->
       exit_error
         (binary host
            (exec_Command (bPath inst)
               ["ytsearch:" +:+ query; "-s"; "-O";
                "%(.{id,title,thumbnail,duration})#j"])) = None ->
       combined
         (binary host
            (exec_Command (bPath inst)
               ["ytsearch:" +:+ query; "-s"; "-O";
                "%(.{id,title,thumbnail,duration})#j"]))
       = marshal lo v +:+ trailing ->
       fst (GetVideoInfo host inst query sys) = Ok (Some v, None).
Proof.
  destruct (pretty_uint (Duration v) ltac:(lia)) as [Hform Hval].
  assert (H : decodeVideoInfo (marshal lo v +:+ trailing) = Ok (Some v, None)).
  { unfold marshal.
    assert (Hsimple : forallb simple_member
                        [("id", jString (Id v)); ("title", jString (Title v));
                         ("thumbnail", jString (Thumbnail v));
                         ("duration", jUint (pretty (Duration v)))] = true).
    { cbn [forallb]. unfold simple_member. cbn [fst snd simple_value].
      change (plain_string "id") with true.
      change (plain_string "title") with true.
      change (plain_string "thumbnail") with true.
      change (plain_string "duration") with true.
      now rewrite Hid, Htitle, Hthumb, Hform. }
    rewrite (decodeVideoInfo_members _ _
               (decoded_members_render lo _ trailing Hlo Hsimple)).
    rewrite (store_members_assign _ Hsimple).
    - cbn [fold_left res_bind savedError vi]. unfold assign. cbn [fst snd].
      change (field_of_key "id") with (Some fId).
      change (field_of_key "title") with (Some fTitle).
      change (field_of_key "thumbnail") with (Some fThumbnail).
      change (field_of_key "duration") with (Some fDuration).
      cbn [set_string new_YTDLPVideoInfo Id Title Thumbnail Duration].
      rewrite Hval. now destruct v.
    - cbn [forallb]. unfold well_typed. cbn [fst snd].
      change (field_of_key "id") with (Some fId).
      change (field_of_key "title") with (Some fTitle).
      change (field_of_key "thumbnail") with (Some fThumbnail).
      change (field_of_key "duration") with (Some fDuration).
      cbn [is_string_field negb andb]. rewrite Hval.
      unfold uintSize, maxUint64 in *.
      destruct (Z.leb_spec (Duration v) (2 ^ 64 - 1)); [reflexivity | lia]. }
  split; [exact H |].
  intros host inst query sys Hs He Hc. rewrite GetVideoInfo_eq. cbv zeta.
  rewrite Hs, He, Hc, H. reflexivity.
Qed.

Lemma decodeVideoInfo_round_trip_witness :
  decodeVideoInfo
    (marshal indented
       (mkVideoInfo "dQw4w9WgXcQ" "Never Gonna Give You Up"
          "https://i.ytimg.com/vi/dQw4w9WgXcQ/hq720.jpg" 213)
     +:+ String newline EmptyString)
  = Ok (Some (mkVideoInfo "dQw4w9WgXcQ" "Never Gonna Give You Up"
                "https://i.ytimg.com/vi/dQw4w9WgXcQ/hq720.jpg" 213), None).
Proof.
  refine (proj1 (decodeVideoInfo_round_trip indented
                   (mkVideoInfo "dQw4w9WgXcQ" "Never Gonna Give You Up"
                      "https://i.ytimg.com/vi/dQw4w9WgXcQ/hq720.jpg" 213)
                   (String newline EmptyString) _ _ _ _ _));
    [reflexivity | reflexivity | reflexivity | reflexivity
    | unfold uintSize; cbn [Duration]; lia].
Defined.

Lemma decodeVideoInfo_assigns_members_witness :
  decodeVideoInfo
    (render_object compact
       [("Duration", jUint "7"); ("uploader", jString "x");
        ("title", jNull); ("ID", jString "a"); ("duration", jUint "42");
        ("id", jString "b")]
     +:+ " trailing")
  = Ok (Some (mkVideoInfo "b" EmptyString EmptyString 42), None).
Proof.
  exact (decodeVideoInfo_assigns_members compact
           [("Duration", jUint "7"); ("uploader", jString "x");
            ("title", jNull); ("ID", jString "a"); ("duration", jUint "42");
            ("id", jString "b")]
           " trailing" eq_refl eq_refl eq_refl).
Defined.

(** *** The argument slices in memory *)

Lemma elems_of (h : list (list string)) (s : GoSlice) (pre l rest : list string) :
  h !! array s = Some (pre ++ l ++ rest) ->
  length pre = offset s -> length l = len s -> elems h s = l.
Proof.
  intros Ha Hp Hl. unfold elems, backing. rewrite Ha. cbn [default from_option id].
  rewrite <- Hp, drop_app_length, <- Hl. apply take_app_length.
Qed.

(** A well-formed slice splits its backing array: what lies before it,
    its elements, its spare capacity, and what lies behind. *)
Lemma well_formed_split (h : list (list string)) (s : GoSlice) :
  well_formed h s ->
  exists pre es spare post,
    h !! array s = Some (pre ++ es ++ spare ++ post)
    /\ length pre = offset s /\ length es = len s
    /\ length spare = (cap s - len s)%nat /\ elems h s = es.
Proof.
  intros (Hle & a & Ha & Hlen).
  exists (take (offset s) a), (take (len s) (drop (offset s) a)),
    (take (cap s - len s) (drop (offset s + len s) a)),
    (drop (offset s + cap s) a).
  assert (Hsplit : a = take (offset s) a ++ take (len s) (drop (offset s) a)
                       ++ take (cap s - len s) (drop (offset s + len s) a)
                       ++ drop (offset s + cap s) a).
  { rewrite <- (take_drop (offset s) a) at 1. f_equal.
    rewrite <- (take_drop (len s) (drop (offset s) a)) at 1. f_equal.
    rewrite drop_drop.
    rewrite <- (take_drop (cap s - len s) (drop (offset s + len s) a)) at 1.
    f_equal. rewrite drop_drop. f_equal. lia. }
  split; [now rewrite <- Hsplit |].
  split; [rewrite length_take; lia |].
  split; [rewrite length_take, length_drop; lia |].
  split; [rewrite length_take, length_drop; lia |].
  unfold elems, backing. now rewrite Ha.
Qed.

Lemma write_at (pre old post vs : list string) :
  length old = length vs ->
  write (pre ++ old ++ post) (length pre) vs = pre ++ vs ++ post.
Proof.
  intros H. unfold write. rewrite take_app_length. f_equal. f_equal.
  rewrite <- H, <- length_app, app_assoc. apply drop_app_length.
Qed.

Lemma store_lookup (h : list (list string)) (s : GoSlice) (i : nat) (vs a : list string) :
  h !! array s = Some a ->
  store h s i vs !! array s = Some (write a (offset s + i) vs).
Proof.
  intros Ha. unfold store. rewrite list_lookup_alter_eq, Ha. reflexivity.
Qed.

Lemma removelast_take {A} (l : list A) : removelast l = take (length l - 1) l.
Proof.
  induction l as [|x l IH]; [reflexivity |].
  destruct l as [|y l]; [reflexivity |].
  cbn [removelast length] in *. rewrite IH.
  replace (S (S (length l)) - 1)%nat with (S (S (length l) - 1)) by lia.
  reflexivity.
Qed.

(** slices.Insert at the front, in place: the capacity suffices and the
    slice is not empty. *)
Lemma go_Insert_in_place (grow : nat -> nat -> nat) (h : list (list string)) (s : GoSlice)
    (url : string) :
  well_formed h s -> (0 < len s < cap s)%nat ->
  exists h',
    go_Insert grow h s 0 [url] = Ok (h', reslice s (S (len s)))
    /\ elems h' (reslice s (S (len s))) = url :: elems h s
    /\ elems h' s = url :: removelast (elems h s)
    /\ well_formed h' (reslice s (S (len s))).
Proof.
  intros Hwf Hcap.
  destruct (well_formed_split h s Hwf)
    as (pre & es & spare & post & Ha & Hpre & Hes & Hspare & Hel).
  destruct es as [|e0 es]; [cbn [length] in Hes; lia |].
  destruct spare as [|x spare]; [cbn [length] in Hspare; lia |].
  unfold go_Insert. cbn [length].
  rewrite (proj2 (Nat.ltb_ge _ _)) by lia.
  change (1 =? 0)%nat with false. cbv iota.
  rewrite (proj2 (Nat.eqb_neq 0 (len s))) by lia.
  rewrite (proj2 (Nat.ltb_ge _ _)) by lia.
  rewrite Hel, drop_0, Nat.add_1_r. cbn [Nat.add].
  set (s' := reslice s (S (len s))).
  assert (Ha1 : store h s' 1 (e0 :: es) !! array s
                = Some ((pre ++ [e0]) ++ (e0 :: es) ++ spare ++ post)).
  { rewrite (store_lookup h s' 1 _ _ Ha). f_equal.
    replace (offset s' + 1)%nat with (length (pre ++ [e0]))
      by (rewrite length_app; cbn; unfold s'; cbn; lia).
    replace (pre ++ (e0 :: es) ++ (x :: spare) ++ post)
      with ((pre ++ [e0]) ++ (es ++ [x]) ++ spare ++ post)
      by (rewrite <- !app_assoc; reflexivity).
    apply write_at. rewrite length_app. cbn. lia. }
  assert (Ha2 : store (store h s' 1 (e0 :: es)) s' 0 [url] !! array s
                = Some (pre ++ [url] ++ (e0 :: es) ++ spare ++ post)).
  { rewrite (store_lookup _ s' 0 _ _ Ha1). f_equal.
    replace (offset s' + 0)%nat with (length pre)
      by (unfold s'; cbn; lia).
    rewrite <- app_assoc. apply (write_at pre [e0]). reflexivity. }
  eexists. split; [reflexivity |]. split; [| split].
  - apply (elems_of _ s' pre (url :: e0 :: es) (spare ++ post));
      [exact Ha2 | exact Hpre |].
    unfold s'. cbn [len reslice length] in *. lia.
  - rewrite removelast_take. cbn [length].
    replace (Nat.sub (S (length es)) 1) with (length es) by lia.
    assert (Hlast : exists front l, e0 :: es = front ++ [l]).
    { destruct (exists_last (l := e0 :: es) ltac:(discriminate))
        as (front & l & ->). now exists front, l. }
    destruct Hlast as (front & l & Hfl).
    assert (Hfront : length front = length es).
    { apply (f_equal (@length _)) in Hfl. rewrite length_app in Hfl.
      cbn [length] in Hfl. lia. }
    assert (Htake : take (length es) (e0 :: es) = front).
    { rewrite Hfl, <- Hfront. apply take_app_length. }
    rewrite Htake.
    apply (elems_of _ s pre (url :: front) ([l] ++ spare ++ post));
      [| exact Hpre |].
    + rewrite Ha2. f_equal. f_equal. cbn [app]. f_equal.
      change (e0 :: es ++ spare ++ post) with ((e0 :: es) ++ spare ++ post).
      rewrite Hfl, <- app_assoc. reflexivity.
    + cbn [length] in *. lia.
  - split; [unfold s'; cbn; lia |].
    eexists. split; [exact Ha2 |].
    unfold s'. cbn [offset cap reslice].
    repeat (rewrite length_app || rewrite length_cons).
    cbn [length] in *. lia.
Qed.

Lemma elems_prefix (h : list (list string)) (t : GoSlice)
    (pre es rest : list string) :
  h !! array t = Some (pre ++ es ++ rest) ->
  length pre = offset t -> (len t <= length es)%nat ->
  elems h t = take (len t) es.
Proof.
  intros Ha Hp Hl. unfold elems, backing. rewrite Ha.
  cbn [default from_option id].
  rewrite <- Hp, drop_app_length. now rewrite take_app_le.
Qed.

(** append: the elements of the result, and what it leaves of the slices
    that begin where s begins and are no longer than s (s itself, or the
    caller's slice of which s is an extension). *)
Lemma go_append_spec (grow : nat -> nat -> nat) (h : list (list string))
    (s : GoSlice) (v : list string) :
  well_formed h s -> grows grow ->
  elems (fst (go_append grow h s v)) (snd (go_append grow h s v))
  = elems h s ++ v
  /\ well_formed (fst (go_append grow h s v)) (snd (go_append grow h s v))
  /\ (forall t,
        array t = array s -> offset t = offset s -> (len t <= len s)%nat ->
        elems (fst (go_append grow h s v)) t = elems h t)
  /\ ((len s + length v <= cap s)%nat ->
      take (length v)
        (drop (offset s + len s) (backing (fst (go_append grow h s v)) s))
      = v)
  /\ (forall t,
        array t <> array s -> (array t < length h)%nat ->
        elems (fst (go_append grow h s v)) t = elems h t).
Proof.
  intros Hwf Hgrow.
  destruct (well_formed_split h s Hwf)
    as (pre & es & spare & post & Ha & Hpre & Hes & Hspare & Hel).
  unfold go_append. cbv zeta.
  destruct (Nat.leb_spec (len s + length v) (cap s)) as [Hfit|Hnofit];
    cbn [fst snd].
  - assert (Hsp : spare = take (length v) spare ++ drop (length v) spare)
      by (now rewrite take_drop).
    set (old := take (length v) spare) in *.
    set (spare' := drop (length v) spare) in *.
    assert (Hold : length old = length v).
    { unfold old. rewrite length_take. lia. }
    assert (Ha' : store h (reslice s (len s + length v)) (len s) v !! array s
                  = Some (pre ++ (es ++ v) ++ spare' ++ post)).
    { rewrite (store_lookup h (reslice s (len s + length v)) (len s) _ _ Ha).
      f_equal. cbn [offset reslice].
      replace (offset s + len s)%nat with (length (pre ++ es))
        by (rewrite length_app; lia).
      replace (pre ++ es ++ spare ++ post)
        with ((pre ++ es) ++ old ++ spare' ++ post)
        by (rewrite Hsp, <- !app_assoc; reflexivity).
      rewrite (write_at (pre ++ es) old (spare' ++ post) v Hold).
      now rewrite <- !app_assoc. }
    split; [| split; [| split; [| split]]].
    + rewrite Hel.
      apply (elems_of _ (reslice s (len s + length v)) pre (es ++ v)
               (spare' ++ post)); [exact Ha' | exact Hpre |].
      rewrite length_app. cbn [len reslice]. lia.
    + split; [cbn [len cap reslice]; lia |].
      eexists. split; [exact Ha' |]. cbn [offset cap reslice].
      unfold spare'. repeat rewrite length_app. rewrite length_drop. lia.
    + intros t Harr Hoff Hlen.
      rewrite (elems_prefix _ t pre (es ++ v) (spare' ++ post));
        [| rewrite Harr; exact Ha' | lia | rewrite length_app; lia].
      rewrite (elems_prefix h t pre es (spare ++ post));
        [| rewrite Harr; exact Ha | lia | lia].
      rewrite take_app_le by lia. reflexivity.
    + intros _. unfold backing. cbn [array reslice] in Ha'. rewrite Ha'.
      cbn [default from_option id].
      replace (offset s + len s)%nat with (length (pre ++ es))
        by (rewrite length_app; lia).
      rewrite <- app_assoc, app_assoc, drop_app_length.
      apply take_app_length.
    + intros t Hne _. unfold elems, backing, store. cbn [array reslice].
      now rewrite list_lookup_alter_ne by congruence.
  - assert (Hin : (array s < length h)%nat).
    { exact (lookup_lt_Some _ _ _ Ha). }
    split; [| split; [| split; [| split]]].
    + unfold elems at 1, backing. cbn [array offset len].
      rewrite lookup_app_r, Nat.sub_diag by lia. cbn [lookup list_lookup].
      cbn [default from_option id]. rewrite drop_0.
      rewrite app_assoc.
      replace (len s + length v)%nat with (length (elems h s ++ v)).
      * apply take_app_length.
      * rewrite length_app, Hel. lia.
    + split; [cbn [len cap]; apply Hgrow |].
      eexists. split.
      * cbn [array]. rewrite lookup_app_r, Nat.sub_diag by lia. reflexivity.
      * cbn [offset cap]. rewrite !length_app, length_replicate, Hel.
        pose proof (Hgrow (cap s) (len s + length v)%nat). lia.
    + intros t Harr _ _. unfold elems, backing.
      rewrite lookup_app_l by (rewrite Harr; exact Hin). reflexivity.
    + lia.
    + intros t _ Hlt. unfold elems, backing.
      now rewrite lookup_app_l by exact Hlt.
Qed.

Lemma alter_last {A} (f : A -> A) (h : list A) (x : A) :
  alter f (length h) (h ++ [x]) = h ++ [f x].
Proof.
  induction h as [|y h IH]; [reflexivity |].
  cbn [length app alter list_alter]. f_equal. exact IH.
Qed.

(** slices.Insert at the front when the capacity does not suffice: the
    result lies in a new backing array and the old ones are as they
    were. *)
Lemma go_Insert_fresh (grow : nat -> nat -> nat) (h : list (list string))
    (s : GoSlice) (url : string) :
  well_formed h s -> grows grow -> (0 < len s)%nat -> (cap s <= len s)%nat ->
  exists h' s',
    go_Insert grow h s 0 [url] = Ok (h', s')
    /\ elems h' s' = url :: elems h s
    /\ well_formed h' s'
    /\ (forall t, array t = array s -> elems h' t = elems h t)
    /\ array s' = length h /\ length h' = S (length h).
Proof.
  intros Hwf Hgrow Hpos Hcap.
  destruct (well_formed_split h s Hwf)
    as (pre & es & spare & post & Ha & Hpre & Hes & Hspare & Hel).
  assert (Hin : (array s < length h)%nat) by exact (lookup_lt_Some _ _ _ Ha).
  unfold go_Insert. cbn [length].
  rewrite (proj2 (Nat.ltb_ge _ _)) by lia.
  change (1 =? 0)%nat with false. cbv iota.
  rewrite (proj2 (Nat.eqb_neq 0 (len s))) by lia.
  rewrite (proj2 (Nat.ltb_lt _ _)) by lia.
  unfold go_append. cbv zeta. cbn [len cap reslice].
  rewrite length_replicate, Nat.sub_0_r. cbn [Nat.add].
  rewrite (proj2 (Nat.leb_gt _ _)) by lia.
  set (c := grow (cap s) (len s + 1)%nat).
  assert (Hc : (len s + 1 <= c)%nat) by apply Hgrow.
  assert (He0 : elems h (reslice s 0) = []) by reflexivity.
  rewrite He0, Hel, drop_0. cbn [app].
  set (s2 := mkSlice (length h) 0 (len s + 1) c).
  set (pad := replicate (c - (len s + 1)) EmptyString).
  unfold store. cbn [array offset s2 Nat.add].
  rewrite !alter_last.
  assert (Hz : replicate (len s + 1) EmptyString
               = [EmptyString] ++ replicate (length es) EmptyString).
  { rewrite Nat.add_1_r, Hes. reflexivity. }
  assert (Hw1 : write (replicate (len s + 1) EmptyString ++ pad) 0 [url]
                = [url] ++ replicate (length es) EmptyString ++ pad).
  { rewrite Hz, <- app_assoc.
    exact (write_at [] [EmptyString] _ [url] eq_refl). }
  rewrite Hw1.
  assert (Hw2 : write ([url] ++ replicate (length es) EmptyString ++ pad) 1 es
                = [url] ++ es ++ pad).
  { apply (write_at [url]). apply length_replicate. }
  rewrite Hw2.
  eexists _, _. split; [reflexivity |].
  split; [| split; [| split; [| split; [reflexivity |]]]].
  - unfold elems, backing. cbn [array offset len s2].
    rewrite lookup_app_r, Nat.sub_diag by lia. cbn [lookup list_lookup].
    cbn [default from_option id]. rewrite drop_0.
    change ([url] ++ es ++ pad) with (url :: es ++ pad).
    rewrite Nat.add_1_r. cbn [take]. f_equal. rewrite <- Hes.
    apply take_app_length.
  - split; [cbn [len cap s2]; lia |].
    eexists. split.
    + cbn [array s2]. rewrite lookup_app_r, Nat.sub_diag by lia. reflexivity.
    + cbn [offset cap s2]. unfold pad.
      rewrite !length_app, length_replicate. cbn [length]. lia.
  - intros t Harr. unfold elems, backing.
    rewrite lookup_app_l by (rewrite Harr; exact Hin). reflexivity.
  - rewrite length_app. cbn [length]. lia.
Qed.

(** slices.Insert(args, 0, url), all cases: it never panics, the result
    holds the target followed by the arguments, and the caller's slice
    reads the same as before unless it is not empty and has spare
    capacity; then it reads the target followed by all its old elements
    but the last. *)
Lemma go_Insert_front (grow : nat -> nat -> nat) (h : list (list string))
    (s : GoSlice) (url : string) :
  well_formed h s -> grows grow ->
  exists h' s',
    go_Insert grow h s 0 [url] = Ok (h', s')
    /\ elems h' s' = url :: elems h s
    /\ well_formed h' s'
    /\ ((0 < len s < cap s)%nat ->
        elems h' s = url :: removelast (elems h s)
        /\ array s' = array s /\ offset s' = offset s)
    /\ ((len s = 0 \/ cap s <= len s)%nat -> elems h' s = elems h s)
    /\ (len s <= len s')%nat.
Proof.
  intros Hwf Hgrow.
  destruct (Nat.eq_dec (len s) 0%nat) as [Hz|Hnz].
  - unfold go_Insert. rewrite Hz. cbn [length Nat.ltb Nat.leb Nat.eqb].
    destruct (go_append_spec grow h s [url] Hwf Hgrow)
      as (He & Hw & Hp & _ & _).
    eexists _, _. split; [apply f_equal, surjective_pairing |].
    assert (Hnil : elems h s = []).
    { unfold elems. now rewrite Hz. }
    split; [now rewrite He, Hnil |]. split; [exact Hw |].
    split; [lia |]. split; [| lia].
    intros _. apply Hp; [reflexivity | reflexivity | lia].
  - destruct (Nat.lt_ge_cases (len s) (cap s)) as [Hlt|Hge].
    + destruct (go_Insert_in_place grow h s url Hwf ltac:(lia))
        as (h' & Hi & He & Hc & Hw).
      exists h', (reslice s (S (len s))). split; [exact Hi |].
      split; [exact He |]. split; [exact Hw |].
      split; [intros _; now repeat split |].
      split; [lia | cbn; lia].
    + destruct (go_Insert_fresh grow h s url Hwf Hgrow ltac:(lia) Hge)
        as (h' & s' & Hi & He & Hw & Hp & _ & _).
      exists h', s'. split; [exact Hi |]. split; [exact He |].
      split; [exact Hw |]. split; [lia |].
      split; [intros _; now apply Hp |].
      apply (f_equal (@length _)) in He. cbn [length] in He.
      destruct Hw as [Hle' (a' & Ha' & Hb')].
      assert (Hl1 : length (elems h' s') = len s').
      { unfold elems, backing. rewrite Ha'. cbn [default from_option id].
        rewrite length_take, length_drop. lia. }
      destruct (well_formed_split h s Hwf)
        as (? & es & ? & ? & _ & _ & Hes & _ & Hel).
      rewrite Hel in He. lia.
Qed.

(** X26: The argument vectors that the runners build in memory are those of
    the lists: whatever the capacity of the caller's slice, Execute and
    ExecuteStdout run the target followed by the arguments, DumpStdout the
    arguments followed by the target, and ExecuteStream the target, the
    arguments and the three fixed flags. *)
Theorem argument_vectors_in_memory (grow : nat -> nat -> nat)
    (h : list (list string)) (args : GoSlice) (url : string)
    (Hwf : well_formed h args) (Hgrow : grows grow) :
  (exists h' s',
      Execute_args grow h args url = Ok (h', s')
      /\ slices_Insert (elems h args) 0 [url] = Ok (elems h' s'))
  /\ elems (fst (DumpStdout_args grow h args url))
       (snd (DumpStdout_args grow h args url))
     = append (elems h args) [url]
  /\ (exists h' s',
        ExecuteStream_args grow h args url = Ok (h', s')
        /\ elems h' s' = url :: elems h args ++ ["-o"; "-"; "--newline"]).
Proof.
  destruct (go_Insert_front grow h args url Hwf Hgrow)
    as (h1 & s1 & Hi & He & Hw & _).
  split; [| split].
  - exists h1, s1. split; [exact Hi |].
    now rewrite slices_Insert_front, He.
  - unfold DumpStdout_args, append.
    now destruct (go_append_spec grow h args [url] Hwf Hgrow) as (-> & _).
  - unfold ExecuteStream_args. rewrite Hi. cbn [res_bind].
    destruct (go_append_spec grow h1 s1 ["-o"; "-"; "--newline"] Hw Hgrow)
      as (Ha & _).
    eexists _, _. split; [apply f_equal, surjective_pairing |].
    now rewrite Ha, He.
Qed.

(** X27: With spare capacity the insertion is done in place: after Execute,
    ExecuteStdout or ExecuteStream the caller's own slice, if it was not
    empty, begins with the target and has lost its last element. *)
Theorem spare_capacity_overwrites_caller (grow : nat -> nat -> nat)
    (h : list (list string)) (args : GoSlice) (url : string)
    (Hwf : well_formed h args) (Hgrow : grows grow)
    (Hspare : (0 < len args < cap args)%nat) :
  (exists h' s',
      Execute_args grow h args url = Ok (h', s')
      /\ elems h' args = url :: removelast (elems h args))
  /\ (exists h' s',
        ExecuteStream_args grow h args url = Ok (h', s')
        /\ elems h' args = url :: removelast (elems h args)).
Proof.
  destruct (go_Insert_front grow h args url Hwf Hgrow)
    as (h1 & s1 & Hi & He & Hw & Hover & _ & Hlen).
  destruct (Hover Hspare) as (Hc & Harr & Hoff).
  split.
  - exists h1, s1. split; [exact Hi | exact Hc].
  - unfold ExecuteStream_args. rewrite Hi. cbn [res_bind].
    destruct (go_append_spec grow h1 s1 ["-o"; "-"; "--newline"] Hw Hgrow)
      as (_ & _ & Hp & _).
    eexists _, _. split; [apply f_equal, surjective_pairing |].
    rewrite (Hp args) by (try congruence; lia). exact Hc.
Qed.

(** X28: DumpStdout never changes what the caller's slice reads, though with
    spare capacity it writes the target into the element behind it; and
    without spare capacity, or for an empty slice, Execute, ExecuteStdout
    and ExecuteStream leave the caller's slice as it was. *)
Theorem callers_slice_kept (grow : nat -> nat -> nat)
    (h : list (list string)) (args : GoSlice) (url : string)
    (Hwf : well_formed h args) (Hgrow : grows grow) :
  elems (fst (DumpStdout_args grow h args url)) args = elems h args
  /\ ((len args < cap args)%nat ->
      take 1 (drop (offset args + len args)
                (backing (fst (DumpStdout_args grow h args url)) args))
      = [url])
  /\ ((len args = 0 \/ cap args <= len args)%nat ->
      (exists h' s',
          Execute_args grow h args url = Ok (h', s')
          /\ elems h' args = elems h args)
      /\ (exists h' s',
            ExecuteStream_args grow h args url = Ok (h', s')
            /\ elems h' args = elems h args)).
Proof.
  split; [| split].
  - unfold DumpStdout_args.
    destruct (go_append_spec grow h args [url] Hwf Hgrow) as (_ & _ & Hp & _).
    now apply Hp.
  - intros Hlt. unfold DumpStdout_args.
    destruct (go_append_spec grow h args [url] Hwf Hgrow)
      as (_ & _ & _ & Hs & _).
    apply Hs. cbn [length]. lia.
  - intros Hcase.
    destruct (go_Insert_front grow h args url Hwf Hgrow)
      as (h1 & s1 & Hi & He & Hw & _ & Hkeep & Hlen).
    split; [exists h1, s1; split; [exact Hi | now apply Hkeep] |].
    unfold ExecuteStream_args.
    destruct (Nat.eq_dec (len args) 0%nat) as [Hz|Hnz].
    + rewrite Hi. cbn [res_bind].
      eexists _, _. split; [apply f_equal, surjective_pairing |].
      unfold elems. now rewrite Hz.
    + destruct (go_Insert_fresh grow h args url Hwf Hgrow ltac:(lia)
                  ltac:(lia))
        as (h2 & s2 & Hi2 & He2 & Hw2 & Hp2 & Harr2 & Hlen2).
      rewrite Hi2. cbn [res_bind].
      destruct (go_append_spec grow h2 s2 ["-o"; "-"; "--newline"] Hw2 Hgrow)
        as (_ & _ & _ & _ & Hother).
      eexists _, _. split; [apply f_equal, surjective_pairing |].
      destruct Hwf as (_ & a & Ha & _).
      pose proof (lookup_lt_Some _ _ _ Ha) as Hin.
      rewrite (Hother args) by (rewrite ?Harr2, ?Hlen2; lia).
      now apply Hp2.
Qed.

Lemma well_formed_opts : well_formed heap_opts opts.
Proof. split; [cbn; lia |]. eexists. split; [reflexivity | cbn; lia]. Qed.

Lemma grows_double : grows double.
Proof. intros c n. unfold double. lia. Qed.

Lemma spare_capacity_overwrites_caller_witness :
  elems heap_opts opts = ["-x"; "-f"; "best"]
  /\ exists h' s',
       Execute_args double heap_opts opts "https://example.org/v"
       = Ok (h', s')
       /\ elems h' opts
          = "https://example.org/v" :: removelast (elems heap_opts opts).
Proof.
  split; [reflexivity |].
  exact (proj1 (spare_capacity_overwrites_caller double heap_opts opts
                  "https://example.org/v" well_formed_opts grows_double
                  ltac:(cbn; lia))).
Defined.

Lemma argument_vectors_in_memory_witness :
  exists h' s',
    ExecuteStream_args double heap_opts opts "https://example.org/v"
    = Ok (h', s')
    /\ elems h' s'
       = "https://example.org/v" :: elems heap_opts opts
         ++ ["-o"; "-"; "--newline"].
Proof.
  exact (proj2 (proj2 (argument_vectors_in_memory double heap_opts opts
                         "https://example.org/v" well_formed_opts
                         grows_double))).
Defined.

Lemma callers_slice_kept_witness :
  elems (fst (DumpStdout_args double heap_opts opts "https://example.org/v"))
    opts
  = elems heap_opts opts
  /\ take 1 (drop (offset opts + len opts)
               (backing (fst (DumpStdout_args double heap_opts opts
                                "https://example.org/v")) opts))
     = ["https://example.org/v"].
Proof.
  destruct (callers_slice_kept double heap_opts opts "https://example.org/v"
              well_formed_opts grows_double) as (H1 & H2 & _).
  split; [exact H1 | apply H2; cbn; lia].
Defined.
